(* ===== verification/_CoqProject ===== *)
-Q . S2P
Spec2Rocq.v
JsNumber.v
Schemas.v
Closure.v
Consistency.v
Linker.v
Collector.v
Store.v
Pipeline.v
Verdict.v
Duplicates.v
Validator.v
PreValidator.v
Matcher.v
Repair.v
Master.v
Proposals.v
Generator.v
Global.v
CsvLoader.v
Convert.v
Entry.v
Extract.v
UnitGroups.v
