(* ===== verification/Spec2Rocq.v ===== *)
(** * engmcp: a verification development for the MEP unit-conversion pipeline

    The repository is a set of Node.js command line stages that grow a
    registry of measurement units, unit groups and conversion equations with
    the help of a language-model service ("the Oracle"), and that post-process
    a library of specification types.  This development models the stages
    that carry algorithmic content and proves the properties that make them
    correct.  It is organised as one file per component; this file is the
    shared prelude.

    ** The program and the files that model it

    Every stage reads JSON files, calls the Oracle, and writes JSON files.
    A stage is modelled as a function from what it reads and a model of the
    Oracle to what it writes; the Oracle of a stage is a type class whose
    method is the parsed answer to a request, or a throw.

    - [Spec2Rocq] (this file): the JavaScript primitives the stages rely on,
      as executable functions on [string] and [list]: [Array.prototype.find],
      [some], [includes], [slice], the batching loop
      ([for (i = 0; i < n; i += size) slice(i, min(i+size, n))], here
      [batches]), the loops over the pairs [i < j] ([pairs]), [new Set] on an
      array ([dedupe]), [String.prototype.toLowerCase], [trim],
      [split(/\s+/)], [includes], and the slug regex of the conversion
      generator.  It also holds the type [outcome] of code that can throw,
      the tactics and the lemmas the component files share.
    - [JsNumber]: the interface [JsNumber] of the arithmetic the stages use
      on JavaScript numbers, with two instances: exact rationals [Q], in
      which the algebraic theorems are proved ([ExactNumber]), and the
      kernel's binary64 floats, which are JavaScript's numbers and on which
      the examples of the specification are evaluated.
    - [Schemas]: the records of [types/schemas.d.ts] ([src/unnamed/part_000]):
      [Unit], [ConversionEquation], [UnitGroup], [SpecType],
      [ComponentType], [ComponentSpecMapping], and the registry file
      [global-units-master.json].
    - [Closure]: [generateCompleteConversions] of
      [ensureCompleteConversions.ts] (carried in [src/src/main.ts], lines
      188-278): the [Map] keyed by from-to strings is a [gmap string Num],
      the three nested loops are three nested left folds, and the emission
      loop threads the counter of the UUID supply.
    - [Consistency]: [validateConversions] and the driver
      [ensureCompleteConversions] of the same source (lines 283-307 and
      312-387).
    - [Linker]: [findUnitBySymbol] and [linkUnits] of
      [src/dist/postprocess/linkUnits.js] (lines 8-15 and 19-106).
    - [Collector]: [classifyUnit], [validateConversion] and
      [generateConversionsFromUnit] of [generateCustomConversions.js]
      (carried in [src/dist/postprocess/linkUnits.js], lines 112-144), on
      JSON values ([Json]) and with the Oracle as the class [Oracle].
    - [Store]: [loadCheckpoint], [saveCheckpoint] and [saveData] of the same
      source (lines 145-164); the state of a run ([State]), the monad [Run]
      of computations that change it and can throw, the events of a run
      (requests and writes, in order) and the files a prefix of the events
      leaves on disk ([disk_after]); JavaScript objects used as maps
      ([own], [assign], [push_own]); the rules [post_bind], [post_for_each]
      for reasoning about runs.
    - [Pipeline]: [main] of the same source (lines 165-287): Phase 1
      ([classify_phase]), the assignment of the groups ([assign_groups]), the
      loop over the groups that need conversions ([process_groups]) with its
      batches of twenty ([convert_batch]) and the merge ([merge_edge]).
    - [Verdict]: the rule [areDuplicates || similarity >= 85] that the three
      duplicate checks share.
    - [Duplicates]: [calculateStringSimilarity], [findSemanticDuplicates],
      [batchDetectDuplicates] and [cleanupDuplicates] of
      [src/dist/postprocess/cleanupDuplicates.js].
    - [Validator]: [validateSpecTypes] and [detectSemanticDuplicates] of
      [src/src/utils/validator.ts].
    - [PreValidator]: [preValidateProposal] of
      [src/src/utils/preValidator.ts].
    - [Matcher]: [matchBatch], [matchComponentToAllSpecs] and
      [matchComponentsToSpecs] of
      [src/src/matchers/componentSpecMatcher.ts].  Thirty components are
      matched concurrently and share the array of mappings and the
      checkpoint file; a chunk is a [Pool] of tasks, a step ([advance]) is
      the end of the next request of one task, and a schedule is the order
      of the steps.
    - [Repair]: [processChunk], [fixAllValueTypes], [fixValueTypesRange]
      and [dryRunValueTypeFixes] of [src/src/utils/fixValueTypes.ts].  A
      spec type of this stage is an [Entry]: the object read and, beside
      it, the eight fields the stage writes or deletes; every assignment of
      the loop body is a step that returns the entry and whether it changed
      ([fix_valueType], [fix_units], ...), and the body is their
      composition ([apply_analysis]).
    - [Master]: [loadMasterSpecTypes], [saveSpecTypeToMaster] and
      [clearMasterFile] of [src/dist/utils/fileManager.js]; the master file
      of spec types is a [MasterState]: absent, unreadable or an object.
    - [Proposals]: what the three spec type generators share: the loop of
      three proposals over the pre-validation ([proposal_attempts]), the
      spec type built from the details the Oracle gives ([specType_of]),
      the state of a run ([Generation]) and its steps ([step],
      [reachable]).
    - [Generator]: [generateFullSpecTypes] of
      [src/dist/generators/fullGenerator.js] and [generateTestSpecTypes]
      of [src/dist/generators/testGenerator.js], with [determineDomain]
      and the targets of the two generators.
    - [Global]: [generateGlobalSpecTypes] of
      [generators/globalSpecTypeGenerator.js] ([src/unnamed/part_004]):
      the answer with its repairs and checks, the while loop of a category
      ([category_loop]) and the run over the categories.
    - [CsvLoader]: [loadComponentTypes], [loadOldSpecTypes] and
      [getOldSpecTypeNames] of [src/src/utils/csvLoader.ts]; the parser of
      the library [csv-parse] is the class [CsvParser].
    - [Convert]: [convertOldSpecTypes] of
      [generators/convertOldSpecTypes.js] ([src/unnamed/part_003]).
    - [Entry]: [main], [runTestMode] and [runFullMode] of
      [src/src/main.ts] (lines 1-176): the mode and the flag of the command
      line, the generator, the validator and the summary written, and the
      exit code.  [main] is [generator_main] here.
    - [Extract]: [extractUnits] and [main] of [extractors/extractUnits.ts]
      ([src/unnamed/part_007]).
    - [UnitGroups]: [normalizeUnit] and [generateUnitGroups] of
      [generators/generateUnitGroups.ts] ([src/unnamed/part_006]); the
      library [convert-units] is the class [ConvertUnits].

    The stages interact through files: [Extract] reads the master file
    [Generator], [Global] and [Convert] write through [Master], and
    writes the units [UnitGroups] reads; [UnitGroups] writes the registry
    [Pipeline] starts from ([UnitGroups.groups_feed_pipeline]); [Entry]
    runs a generator, reads the master file back and calls [Validator].

    ** What the theorems show

    - Closure: the relaxation never overwrites a multiplier (first write
      wins); the key set it computes is exactly reachability through the
      group's units (Warshall's invariant, by induction on the outer loop);
      the emitted list has at most [n * (n - 1)] equations, one per ordered
      pair of distinct unit ids, keeps the persisted equation of every pair
      that has one, and is a fixed point of the function (idempotence); over
      exact numbers, a registry whose direct edges agree with one scale per
      unit yields derived multipliers that agree with it too.
    - Consistency: the validator is a map of a per-edge verdict; an edge
      with a reverse is valid or reported; the closure of consistent
      equations passes the validator; the driver accounts for every
      equation, leaves complete groups alone and is idempotent.
    - Linker: the lookup returns the first unit that matches, up to case;
      it agrees with the prioritised lookup of the specification when at
      most one unit matches; the loop is a map and a fold; every reference
      is counted once; the linker is idempotent.
    - Collector: the exact set of answers [validateConversion] accepts and
      the exact set on which it throws; what the merge can rely on for
      every edge collected.
    - Pipeline: every registry file a run writes, and so the file on disk
      after an interruption at any point, is well formed
      ([main_crash_safe]); Phase 1 adds every unit without a group to the
      classification once ([classify_phase_partition]).  The examples of
      [pipeline_examples] run the resume scenario of the specification and
      the interruptions the code does not survive.
    - Duplicates, Validator, PreValidator: stage 1 keeps exactly the pairs
      of one domain above the threshold, at most [n (n - 1) / 2]; the loop
      of stage 2 is a map over the batches; a group reported is always a
      candidate of stage 1 confirmed by the Oracle; the validator's map of
      names finds what a linear search finds; the pre-validation never
      answers both unique and duplicate.
    - Matcher: a request returns the mappings of its first attempt that
      does not throw; every step of a chunk keeps the mappings held plus
      the mappings owed, up to order, so the mappings of a run do not depend
      on the schedules and are those of the components matched one by one
      ([schedule_independent], [match_run_mappings]); every checkpoint is a
      prefix of the final mappings; every new mapping links a component
      with a parent to a spec type of the library; a resumed run processes
      the components no mapping of the checkpoint names; a last batch of
      one spec type is never matched.
    - Repair: the repair of an entry is idempotent (every step leaves what
      it has made alone and no step undoes another); the run of the workers
      is one pass over the file, in order, with the totals it prints; the
      totals and the entries no counter counts add up to the file; a range
      is repaired index by index and the file on disk follows the array in
      memory.
    - Master: saving spec types one by one and loading gives what the file
      held and the spec types saved, in order ([save_load_roundtrip]).
    - Proposals, Generator, Global: a run is a sequence of steps; every
      state reached has a master file that holds what it held and the spec
      types generated, fresh identifiers, well-formed options and, when the
      Oracle keeps the name it proposed, names distinct up to case; the
      targets are generated or skipped; the loop of a category ends by
      itself ([category_loop_ends]) and gives at most a hundred spec types.
    - CsvLoader, Convert: the names of the old spec types are sorted and
      distinct; a conversion counts every name once and keeps the names of
      the master file distinct, whatever the Oracle answers.
    - Entry: a run that exits with 0 wrote the summary of its mode, with
      counts that add up; a run that fails wrote none.
    - Extract: the units, their counts and the spec types that name them;
      the order is that of a stable sort; the extraction throws exactly on
      a unit named like a property of [Object.prototype].
    - UnitGroups: one unit per canonical form; groups with distinct
      identifiers that list exactly the units that name them; at most one
      conversion per ordered pair; every unit counted once; with a library
      of positive values the registry is one the pipeline accepts.

    ** Modelling choices

    - Strings are Rocq [string]s, that is byte strings: a JavaScript string
      is modelled by its UTF-8 encoding.  Case mapping and white space are
      the ASCII ones; identifiers are assumed ASCII where a theorem needs
      the keys of the closure to be injective ([Closure.convKey_inj]).
    - [generateUUID] draws from [Math.random]; the model draws the n-th
      identifier [uuid n] of a supply and threads the counter [n].
    - Number formatting is a parameter [show] of the closure: JavaScript's
      shortest round-trip printing is not modelled.
    - Arrays and objects that the source mutates in place are lists in the
      state of the run, addressed by index; an object used as a map is an
      association list in insertion order.
    - The Oracle is a function of the request: two equal requests get the
      same answer.  The answers to the duplicate checks are taken after
      JavaScript's conversions (see [Verdict]).
    - Time stamps ([lastUpdated], [generatedAt]) and console output are not
      modelled, except the warnings of [validateConversions] and the
      unmatched units [linkUnits] prints.
    - Three definitions use fuel.  The fuel of [batches] is the length of
      the work list: every batch of a positive width removes at least one
      element, so the fuel is never exhausted ([batches_concat],
      [length_batches]).  The fuel of [Matcher.drain], which ends a chunk
      after its schedule, is the number of requests pending: every step
      ends one, so no task is left with a request ([Matcher.drain_spec]).
      The fuel of [Global.category_loop] is [category_fuel], 1010: an
      iteration that does not throw adds a spec type or a consecutive
      duplicate, a hundred spec types or ten duplicates in a row end the
      loop, and a throw ends the run, so the condition of the loop is false
      before the fuel is spent ([Global.category_loop_ends]).
    - Concurrency is interleaving: between two [await]s the code of a task
      runs alone, so a run of concurrent tasks is a sequence of atomic
      steps, and the theorems quantify over every schedule.
    - The libraries the stages call are type classes: [csv-parse]
      ([CsvLoader.CsvParser]) and [convert-units]
      ([UnitGroups.ConvertUnits]); their calls can throw.  The byte order
      mark is the three bytes of its UTF-8 encoding.
    - [Array.prototype.sort] is stable: the sort of [Extract] is the
      insertion sort that keeps equal elements in their order, and the
      theorem on the order does not depend on the algorithm.
    - A plain object used as a map answers for the properties of
      [Object.prototype] ([Store.prototype_keys]) before any key is set.

    ** Not modelled

    The HTTP client and the parsing of its answers ([utils/claude],
    [src/unnamed/part_005]) beyond the classes of the Oracle, the wording
    of the prompts, the reports printed on the console ([printReport]),
    the type declarations ([*.d.ts]) and the documentation.
    [src/dist/utils/csvLoader.js] is the compiled form of
    [src/src/utils/csvLoader.ts], which is the one modelled. *)

From Stdlib Require Import Ascii.
From stdpp Require Import gmap strings list.

Declare Scope js_scope.
Delimit Scope js_scope with js.

(** ** Outcomes of code that can throw *)

(** A JavaScript call either returns a value or throws.  [Thrown] carries the
    message; [try { ... } catch] is [catch_outcome]. *)
Inductive outcome (A : Type) : Type :=
| Returned (a : A)
| Thrown (msg : string).
Arguments Returned {A} a.
Arguments Thrown {A} msg.

#[export] Instance outcome_ret : MRet outcome := λ A a, Returned a.

#[export] Instance outcome_bind : MBind outcome := λ A B f o,
  match o with
  | Returned a => f a
  | Thrown e => Thrown e
  end.

#[export] Instance outcome_fmap : FMap outcome := λ A B f o,
  match o with
  | Returned a => Returned (f a)
  | Thrown e => Thrown e
  end.

Definition catch_outcome {A} (o : outcome A) (handler : string -> A) : A :=
  match o with
  | Returned a => a
  | Thrown e => handler e
  end.

Definition outcome_to_option {A} (o : outcome A) : option A :=
  match o with
  | Returned a => Some a
  | Thrown _ => None
  end.

Notation "'try' c 'catch' h" := (catch_outcome c h)
  (at level 10, c at level 9, h at level 9) : js_scope.

(** ** Arrays *)

Section arrays.
Context {A : Type}.

(** [arr.slice(i, j)] for [0 <= i <= j]. *)
Definition slice (i j : nat) (l : list A) : list A := take (j - i) (drop i l).

(** The batching loop shared by every Oracle-driven stage:
    [for (let i = 0; i < l.length; i += size) { batch = l.slice(i, min(i + size, l.length)) ... }].
    [fuel] bounds the number of iterations. *)
Fixpoint batches_from (fuel size : nat) (l : list A) : list (list A) :=
  match fuel with
  | 0 => []
  | S fuel' =>
      match l with
      | [] => []
      | _ :: _ => take size l :: batches_from fuel' size (drop size l)
      end
  end.

Definition batches (size : nat) (l : list A) : list (list A) :=
  batches_from (length l) size l.

(** [arr.find(p) || null]. *)
Definition js_find (p : A -> bool) (l : list A) : option A := find p l.

(** [arr.some(p)]. *)
Definition js_some (p : A -> bool) (l : list A) : bool := existsb p l.

(** [arr.includes(x)]. *)
Definition js_includes `{EqDecision A} (x : A) (l : list A) : bool :=
  bool_decide (x ∈ l).

(** [Array.from(new Set(l))]: the distinct elements in first-occurrence order. *)
Fixpoint dedupe `{EqDecision A} (l : list A) : list A :=
  match l with
  | [] => []
  | x :: l' => x :: filter (λ y, y ≠ x) (dedupe l')
  end.

(** [set.add(x)] on a [Set], which keeps the order of insertion. *)
Definition set_add `{EqDecision A} (x : A) (s : list A) : list A :=
  if decide (x ∈ s) then s else s ++ [x].

(** The pairs [(l[i], l[j])] for [i < j], in the order of the loops
    [for (i = 0; i < l.length; i++) for (j = i + 1; j < l.length; j++)]. *)
Fixpoint pairs (l : list A) : list (A * A) :=
  match l with
  | [] => []
  | x :: l' => (pair x <$> l') ++ pairs l'
  end.

End arrays.

(** ** Strings *)

(** [c.toLowerCase()] on an ASCII letter; other bytes are unchanged. *)
Definition lower_ascii (c : ascii) : ascii :=
  let n := nat_of_ascii c in
  if (65 <=? n) && (n <=? 90) then ascii_of_nat (n + 32) else c.

Fixpoint toLowerCase (s : string) : string :=
  match s with
  | EmptyString => EmptyString
  | String c s' => String (lower_ascii c) (toLowerCase s')
  end.

Fixpoint trim_start (s : string) : string :=
  match s with
  | EmptyString => EmptyString
  | String c s' => if Ascii.is_space c then trim_start s' else s
  end.

(** [s.trim()]. *)
Definition trim (s : string) : string :=
  String.rev (trim_start (String.rev (trim_start s))).

(** [s.split(/\s+/)]: the pieces between maximal runs of white space.  A
    leading or a trailing run yields an empty first or last piece, and the
    empty string yields one empty piece.  [cur] is the piece being read, in
    reverse; [in_ws] says that the previous character was white space. *)
Fixpoint split_ws_go (cur : string) (in_ws : bool) (s : string) : list string :=
  match s with
  | EmptyString => [String.rev cur]
  | String c s' =>
      if Ascii.is_space c then
        if in_ws then split_ws_go cur true s'
        else String.rev cur :: split_ws_go EmptyString true s'
      else split_ws_go (String c cur) false s'
  end.

Definition split_ws (s : string) : list string := split_ws_go EmptyString false s.

(** [s.includes(c)] for a one-character needle. *)
Fixpoint includes_char (c : ascii) (s : string) : bool :=
  match s with
  | EmptyString => false
  | String c' s' => bool_decide (c' = c) || includes_char c s'
  end.

(** The class [[a-z0-9]] of the slug regex. *)
Definition is_slug_char (c : ascii) : bool :=
  let n := nat_of_ascii c in
  ((97 <=? n) && (n <=? 122)) || ((48 <=? n) && (n <=? 57)).

(** [s.replace(/[^a-z0-9]+/g, '-')]: every maximal run of characters outside
    the class becomes one dash.  [in_run] says that the previous character
    was outside the class. *)
Fixpoint replace_non_slug (in_run : bool) (s : string) : string :=
  match s with
  | EmptyString => EmptyString
  | String c s' =>
      if is_slug_char c then String c (replace_non_slug false s')
      else if in_run then replace_non_slug true s'
      else String "-" (replace_non_slug true s')
  end.

(** Truthiness of a string: [!s] is [true] exactly on the empty string. *)
Definition str_truthy (s : string) : bool := negb (bool_decide (s = EmptyString)).

(** An identifier whose bytes are all ASCII, as the UUIDs and the slugs of
    the registry are. *)
Definition is_ascii (c : ascii) : bool := nat_of_ascii c <? 128.

Fixpoint ascii_only (s : string) : bool :=
  match s with
  | EmptyString => true
  | String c s' => is_ascii c && ascii_only s'
  end.

(** ** Tactics *)

(** Invert a hypothesis and clean up. *)
Ltac invert H := inversion H; subst; clear H.

(** Case analysis on the first [bool_decide], [decide] or [match] scrutinee
    of the goal, simplifying the equations it produces. *)
Ltac js_case :=
  first [ case_bool_decide | case_decide | case_match ]; simplify_eq/=.

(** Repeated case analysis that closes the goal. *)
Ltac js_crush := repeat (js_case; try done); try done.

Create HintDb js discriminated.
Create Rewrite HintDb js.

(** ** Lemmas on arrays *)

Section array_lemmas.
Context {A : Type}.
Implicit Types (l : list A) (p : A -> bool).

Lemma js_find_Some p l x : js_find p l = Some x -> x ∈ l ∧ p x = true.
Proof.
  unfold js_find. intros [Hin Hp]%find_some. by rewrite list_elem_of_In.
Qed.

Lemma js_find_None p l : js_find p l = None <-> ∀ x, x ∈ l -> p x = false.
Proof.
  unfold js_find. split.
  - intros H x Hx. apply (find_none _ _ H). by apply list_elem_of_In.
  - intros H. induction l as [|y l IH]; [done|]. simpl.
    rewrite (H y) by left. apply IH. intros x Hx. apply H. by right.
Qed.

Lemma js_find_first p l1 x l2 :
  p x = true -> (∀ y, y ∈ l1 -> p y = false) -> js_find p (l1 ++ x :: l2) = Some x.
Proof.
  intros Hx Hl1. unfold js_find. induction l1 as [|y l1 IH]; simpl.
  - by rewrite Hx.
  - rewrite (Hl1 y) by left. apply IH. intros z Hz. apply Hl1. by right.
Qed.

Lemma js_find_is_Some p l : is_Some (js_find p l) <-> ∃ x, x ∈ l ∧ p x = true.
Proof.
  split.
  - intros [x Hx]. exists x. by apply js_find_Some.
  - intros (x & Hin & Hp). destruct (js_find p l) eqn:E; [by eexists|].
    rewrite js_find_None in E. rewrite (E x Hin) in Hp. done.
Qed.

Lemma js_some_true p l : js_some p l = true <-> ∃ x, x ∈ l ∧ p x = true.
Proof.
  unfold js_some. rewrite existsb_exists.
  by setoid_rewrite list_elem_of_In.
Qed.

Lemma js_some_false p l : js_some p l = false <-> ∀ x, x ∈ l -> p x = false.
Proof.
  rewrite <- not_true_iff_false, js_some_true. split.
  - intros H x Hx. destruct (p x) eqn:E; [|done]. destruct H; eauto.
  - intros H (x & Hx & Hp). rewrite (H x Hx) in Hp. done.
Qed.

Lemma js_includes_true `{EqDecision A} (x : A) l : js_includes x l = true <-> x ∈ l.
Proof. unfold js_includes. by rewrite bool_decide_eq_true. Qed.

Lemma slice_all l : slice 0 (length l) l = l.
Proof. unfold slice. rewrite Nat.sub_0_r, drop_0. apply firstn_all. Qed.

Lemma length_slice i j l : length (slice i j l) = (j - i) `min` (length l - i).
Proof. unfold slice. by rewrite length_take, length_drop. Qed.

(** With enough fuel the batches partition the work list, in order. *)
Lemma batches_from_concat fuel size l :
  0 < size -> length l ≤ fuel -> concat (batches_from fuel size l) = l.
Proof.
  intros Hsize. revert l. induction fuel as [|fuel IH]; intros l Hlen.
  - by destruct l; [|simpl in Hlen; lia].
  - destruct l as [|x l]; [done|].
    cbn [batches_from concat]. rewrite IH, take_drop; [done|].
    rewrite length_drop. simpl in *. lia.
Qed.

Lemma batches_concat size l : 0 < size -> concat (batches size l) = l.
Proof. intros. by apply batches_from_concat. Qed.

Lemma batches_from_bounded fuel size l b :
  b ∈ batches_from fuel size l -> length b ≤ size ∧ (0 < size -> b ≠ []).
Proof.
  revert l. induction fuel as [|fuel IH]; intros l; [by intros ?%elem_of_nil|].
  destruct l as [|x l]; [by intros ?%elem_of_nil|].
  cbn [batches_from]. intros [->|Hb]%elem_of_cons; [|by eapply IH].
  split; [rewrite length_take; lia|]. by destruct size; [lia|].
Qed.

(** Bounded concurrency: no batch is wider than the configured width, and no
    batch is empty. *)
Lemma batches_bounded size l b :
  b ∈ batches size l -> length b ≤ size ∧ (0 < size -> b ≠ []).
Proof. apply batches_from_bounded. Qed.

Lemma batches_nil size : batches size (@nil A) = [].
Proof. done. Qed.

Lemma batches_small size l :
  l ≠ [] -> length l ≤ size -> batches size l = [l].
Proof.
  intros Hne Hlen. unfold batches. destruct l as [|x l]; [done|].
  cbn [length batches_from]. rewrite firstn_all2 by done.
  rewrite drop_ge by done. by destruct (length l).
Qed.

Lemma batches_from_fuel fuel fuel' size l :
  0 < size -> length l ≤ fuel -> length l ≤ fuel' ->
  batches_from fuel size l = batches_from fuel' size l.
Proof.
  intros Hsize. revert fuel' l.
  induction fuel as [|fuel IH]; intros [|fuel'] [|x l] Hlen Hlen';
    cbn [batches_from length] in *; try done; try lia.
  f_equal. apply IH; rewrite length_drop; cbn [length]; lia.
Qed.

Lemma batches_cons size l :
  0 < size -> l ≠ [] -> batches size l = take size l :: batches size (drop size l).
Proof.
  intros Hsize Hne. unfold batches. destruct l as [|x l]; [done|].
  cbn [length batches_from]. f_equal.
  apply batches_from_fuel; [done| |done]. rewrite length_drop. cbn [length]. lia.
Qed.

(** Batches of a list that starts with whole batches. *)
Lemma batches_app size k l1 l2 :
  0 < size -> length l1 = k * size ->
  batches size (l1 ++ l2) = batches size l1 ++ batches size l2.
Proof.
  intros Hsize. revert l1. induction k as [|k IH]; intros l1 Hlen.
  { by destruct l1. }
  assert (l1 ≠ []) by (intros ->; cbn in Hlen; lia).
  rewrite (batches_cons size (l1 ++ l2)), (batches_cons size l1) by (by destruct l1).
  rewrite take_app_le, drop_app_le by lia. cbn [app]. f_equal. apply IH.
  rewrite length_drop. lia.
Qed.

Lemma length_batches_from fuel size l :
  0 < size -> length l ≤ fuel ->
  length l ≤ size * length (batches_from fuel size l) < length l + size.
Proof.
  intros Hsize. revert l. induction fuel as [|fuel IH]; intros [|x l] Hlen;
    cbn [batches_from length] in *; try lia.
  rewrite Nat.mul_succ_r. destruct (decide (S (length l) ≤ size)).
  - rewrite drop_ge by done. replace (batches_from fuel size []) with (@nil (list A))
      by (by destruct fuel). cbn [length]. lia.
  - specialize (IH (drop size (x :: l))). rewrite length_drop in IH. cbn [length] in IH. lia.
Qed.

(** The number of batches is the length divided by the width, rounded up. *)
Lemma length_batches size l :
  0 < size -> length l ≤ size * length (batches size l) < length l + size.
Proof. intros. by apply length_batches_from. Qed.

Lemma batches_elem size l b x : 0 < size -> b ∈ batches size l -> x ∈ b -> x ∈ l.
Proof.
  intros Hsize Hb Hx. rewrite <- (batches_concat size l Hsize).
  apply list_elem_of_In, in_concat. exists b. by rewrite <- !list_elem_of_In.
Qed.

(** The pairs of a list are the pairs of an element with a later one. *)
Lemma pairs_sublist l a b : (a, b) ∈ pairs l <-> [a; b] `sublist_of` l.
Proof.
  induction l as [|x l IH]; cbn [pairs].
  { split; [by intros ?%elem_of_nil|by intros ?%sublist_nil_r]. }
  rewrite elem_of_app, list_elem_of_fmap, sublist_cons_r, IH. split.
  - intros [(y & [= -> ->] & Hy)|?]; [right|by left].
    exists [y]. split; [done|]. by apply singleton_sublist_l.
  - intros [?|(l' & [= -> <-] & Hb%singleton_sublist_l)]; [by right|left; eauto].
Qed.

Lemma length_pairs l : 2 * length (pairs l) = length l * (length l - 1).
Proof.
  induction l as [|x l IH]; [done|]. cbn [pairs length].
  rewrite length_app, length_fmap. destruct l; cbn [length] in *; nia.
Qed.

Lemma length_pairs_app l1 l2 :
  length (pairs l1) + length (pairs l2) ≤ length (pairs (l1 ++ l2)).
Proof.
  pose proof (length_pairs l1). pose proof (length_pairs l2).
  pose proof (length_pairs (l1 ++ l2)) as H12. rewrite length_app in H12. nia.
Qed.

Lemma length_pairs_concat (ls : list (list A)) :
  sum_list (length ∘ pairs <$> ls) ≤ length (pairs (concat ls)).
Proof.
  induction ls as [|l ls IH]; [done|].
  change (sum_list (length ∘ pairs <$> l :: ls))
    with (length (pairs l) + sum_list (length ∘ pairs <$> ls)).
  change (concat (l :: ls)) with (l ++ concat ls).
  pose proof (length_pairs_app l (concat ls)). lia.
Qed.

Lemma length_pairs_eq (l1 l2 : list A) :
  length l1 = length l2 -> length (pairs l1) = length (pairs l2).
Proof.
  intros Hlen. pose proof (length_pairs l1). pose proof (length_pairs l2).
  rewrite Hlen in *. lia.
Qed.

Lemma sublist_filter_mono (P : A -> Prop) `{!∀ x, Decision (P x)} l1 l2 :
  l1 `sublist_of` l2 -> filter P l1 `sublist_of` filter P l2.
Proof.
  induction 1 as [|x l1 l2 _ IH|x l1 l2 _ IH]; [done|..]; rewrite ?filter_cons;
    destruct (decide (P x)); auto using sublist_skip, sublist_cons.
Qed.

End array_lemmas.

(** ** Lemmas on folds and products *)

Section fold_lemmas.
Context {A B C : Type}.

(** A property that every step preserves holds after the loop. *)
Lemma foldl_preserves (P : A -> Prop) (f : A -> B -> A) (l : list B) (a : A) :
  P a -> (∀ a x, x ∈ l -> P a -> P (f a x)) -> P (foldl f a l).
Proof.
  revert a. induction l as [|x l IH]; intros a Ha Hf; [done|]. simpl.
  apply IH; [apply Hf; [left|done]|]. intros a' y Hy. apply Hf. by right.
Qed.

(** Two nested loops are one loop over the pairs, in lexicographic order. *)
Lemma foldl_nested (f : A -> B -> C -> A) (xs : list B) (ys : list C) (a : A) :
  foldl (λ a x, foldl (λ a y, f a x y) a ys) a xs =
  foldl (λ a p, f a p.1 p.2) a (list_prod xs ys).
Proof.
  revert a. induction xs as [|x xs IH]; intros a; [done|].
  cbn [foldl list_prod]. rewrite foldl_app, IH. f_equal.
  change (map (λ y, (x, y)) ys) with ((λ y, (x, y)) <$> ys).
  by rewrite foldl_fmap.
Qed.

Lemma elem_of_list_prod (xs : list B) (ys : list C) x y :
  (x, y) ∈ list_prod xs ys <-> x ∈ xs ∧ y ∈ ys.
Proof. by rewrite !list_elem_of_In, in_prod_iff. Qed.

Lemma NoDup_list_prod (xs : list B) (ys : list C) :
  NoDup xs -> NoDup ys -> NoDup (list_prod xs ys).
Proof.
  intros Hxs Hys. induction Hxs as [|x xs Hx Hxs IH]; [constructor|].
  cbn [list_prod]. apply NoDup_app. split; [|split; [|done]].
  - by apply (NoDup_fmap_2 (λ y, (x, y))).
  - intros [x' y] [y' [[= -> ->] _]]%list_elem_of_fmap.
    by intros [? _]%elem_of_list_prod.
Qed.

End fold_lemmas.

(** ** Lemmas on [filter] *)

Section filter_lemmas.
Context {A B : Type}.

Lemma filter_fmap (f : A -> B) (P : B -> Prop) `{!∀ y, Decision (P y)} (l : list A) :
  filter P (f <$> l) = f <$> filter (λ x, P (f x)) l.
Proof.
  induction l as [|x l IH]; [done|]. cbn [fmap list_fmap].
  rewrite !filter_cons, IH. by destruct (decide (P (f x))).
Qed.

Lemma length_filter_weaken (P Q : A -> Prop)
    `{!∀ x, Decision (P x)} `{!∀ x, Decision (Q x)} (l : list A) :
  (∀ x, P x -> Q x) -> length (filter P l) ≤ length (filter Q l).
Proof.
  intros HPQ. induction l as [|x l IH]; [done|]. rewrite !filter_cons.
  destruct (decide (P x)) as [HP|]; destruct (decide (Q x)) as [|HQ]; simpl; try lia.
  destruct HQ. by apply HPQ.
Qed.

End filter_lemmas.

Section key_lemmas.
Context {A B : Type} `{EqDecision B}.

(** Off the diagonal of a square there are at most [n * (n - 1)] pairs. *)
Lemma length_filter_offdiag (f : A -> B) (l1 l : list A) :
  (∀ x, x ∈ l1 -> x ∈ l) ->
  length (filter (λ p, f p.1 ≠ f p.2) (list_prod l1 l)) ≤ length l1 * (length l - 1).
Proof.
  induction l1 as [|x l1 IH]; intros Hsub; [done|].
  cbn [list_prod]. rewrite filter_app, length_app.
  change (map (λ y, (x, y)) l) with ((λ y, (x, y)) <$> l).
  rewrite filter_fmap, length_fmap. cbn [fst snd length].
  assert (length (filter (λ y, f x ≠ f y) l) < length l).
  { apply length_filter_lt with x; [apply Hsub; left|]. by intros ?. }
  assert (length (filter (λ p, f p.1 ≠ f p.2) (list_prod l1 l))
          ≤ length l1 * (length l - 1)).
  { apply IH. intros y Hy. apply Hsub. by right. }
  lia.
Qed.

(** In a list without two elements of the same key, [find] by key returns
    the element itself. *)
Lemma js_find_NoDup_key (f : A -> B) (l : list A) (x : A) :
  NoDup (f <$> l) -> x ∈ l -> js_find (λ y, bool_decide (f y = f x)) l = Some x.
Proof.
  intros Hnd Hx. unfold js_find. induction l as [|y l IH]; [by apply elem_of_nil in Hx|].
  cbn [fmap list_fmap] in Hnd. apply NoDup_cons in Hnd as [Hy Hnd]. cbn [find].
  apply elem_of_cons in Hx as [->|Hx]; [by rewrite bool_decide_eq_true_2|].
  rewrite bool_decide_eq_false_2; [by apply IH|].
  intros Heq. apply Hy. rewrite Heq. by apply list_elem_of_fmap_2.
Qed.

Lemma NoDup_fmap_elem_inj (f : A -> B) (l : list A) (x y : A) :
  NoDup (f <$> l) -> x ∈ l -> y ∈ l -> f x = f y -> x = y.
Proof.
  intros Hnd Hx Hy Hxy.
  apply list_elem_of_lookup in Hx as [i Hi]. apply list_elem_of_lookup in Hy as [j Hj].
  assert (i = j) as ->; [|congruence].
  apply (NoDup_lookup (f <$> l) i j (f x)); [done|..]; rewrite list_lookup_fmap.
  - by rewrite Hi.
  - by rewrite Hj, Hxy.
Qed.

End key_lemmas.

(** ** Lemmas on [Forall2] *)

Section Forall2_lemmas.
Context {A B C : Type}.
Implicit Types (R : A -> B -> Prop) (l : list A) (k : list B).

Lemma Forall2_fmap_eq R (f : A -> C) (g : B -> C) l k :
  (∀ x y, R x y -> f x = g y) -> Forall2 R l k -> f <$> l = g <$> k.
Proof. intros HR. induction 1; [done|]. cbn. f_equal; auto. Qed.

Lemma Forall2_elem_of_l R l k x :
  Forall2 R l k -> x ∈ l -> ∃ y, y ∈ k ∧ R x y.
Proof.
  induction 1 as [|x' y l k Hxy _ IH]; [by intros ?%elem_of_nil|].
  intros [->|Hx]%elem_of_cons.
  - exists y. split; [left|done].
  - destruct (IH Hx) as (y' & ? & ?). exists y'. split; [by right|done].
Qed.

Lemma Forall2_elem_of_r R l k y :
  Forall2 R l k -> y ∈ k -> ∃ x, x ∈ l ∧ R x y.
Proof.
  induction 1 as [|x y' l k Hxy _ IH]; [by intros ?%elem_of_nil|].
  intros [->|Hy]%elem_of_cons.
  - exists x. split; [left|done].
  - destruct (IH Hy) as (x' & ? & ?). exists x'. split; [by right|done].
Qed.

(** The related elements are elements of the lists. *)
Lemma Forall2_with_elem_of R l k :
  Forall2 R l k -> Forall2 (λ x y, R x y ∧ x ∈ l ∧ y ∈ k) l k.
Proof.
  intros HR.
  enough (∀ l0 k0, l ⊆ l0 -> k ⊆ k0 -> Forall2 (λ x y, R x y ∧ x ∈ l0 ∧ y ∈ k0) l k)
    as Hgen by by apply Hgen.
  induction HR as [|x y l k Hxy _ IH]; intros l0 k0 Hl Hk; [constructor|].
  constructor.
  - split; [done|]. split; [apply Hl|apply Hk]; left.
  - apply IH; intros z Hz; [apply Hl|apply Hk]; by right.
Qed.

End Forall2_lemmas.

Lemma filter_ext_elem {A} (P Q : A -> Prop)
    `{!∀ x, Decision (P x)} `{!∀ x, Decision (Q x)} (l : list A) :
  (∀ x, x ∈ l -> P x <-> Q x) -> filter P l = filter Q l.
Proof.
  induction l as [|x l IH]; intros HPQ; [done|]. rewrite !filter_cons.
  assert (P x <-> Q x) as Hx by (apply HPQ; left).
  rewrite IH by (intros y Hy; apply HPQ; by right).
  destruct (decide (P x)), (decide (Q x)); tauto.
Qed.

(** [find] returns the first element that satisfies the predicate. *)
Lemma js_find_split {A} (p : A -> bool) (l : list A) (x : A) :
  js_find p l = Some x <->
  ∃ l1 l2, l = l1 ++ x :: l2 ∧ p x = true ∧ Forall (λ y, p y = false) l1.
Proof.
  split.
  - unfold js_find. induction l as [|y l IH]; [done|]. cbn [find].
    destruct (p y) eqn:Hy.
    + intros [= ->]. by exists [], l.
    + intros (l1 & l2 & -> & Hx & Hl1)%IH. exists (y :: l1), l2. by repeat constructor.
  - intros (l1 & l2 & -> & Hx & Hl1). apply js_find_first; [done|].
    by apply Forall_forall.
Qed.

Lemma js_find_app {A} (p : A -> bool) (l1 l2 : list A) :
  js_find p (l1 ++ l2) = from_option Some (js_find p l2) (js_find p l1).
Proof.
  unfold js_find. induction l1 as [|x l1 IH]; [done|]. cbn [app find].
  by destruct (p x).
Qed.

Lemma js_some_ext {A} (p q : A -> bool) (l : list A) :
  (∀ x, p x = q x) -> js_some p l = js_some q l.
Proof. intros Hpq. unfold js_some. induction l as [|x l IH]; [done|]. cbn. by rewrite Hpq, IH. Qed.

Lemma js_some_orb {A} (p q : A -> bool) (l : list A) :
  js_some (λ x, p x || q x) l = js_some p l || js_some q l.
Proof.
  unfold js_some. induction l as [|x l IH]; [done|]. cbn. rewrite IH.
  destruct (p x), (q x), (existsb p l), (existsb q l); done.
Qed.

Lemma filter_partition_length {A} (P : A -> Prop) `{!∀ x, Decision (P x)} (l : list A) :
  length (filter P l) + length (filter (λ x, ¬ P x) l) = length l.
Proof.
  induction l as [|x l IH]; [done|]. rewrite !filter_cons.
  destruct (decide (P x)), (decide (¬ P x)); cbn [length]; try tauto; lia.
Qed.

Lemma omap_length_le {A B} (f : A -> option B) (l : list A) :
  length (omap f l) ≤ length l.
Proof.
  induction l as [|x l IH]; [done|]. cbn [omap list_omap].
  destruct (f x); cbn [length]; lia.
Qed.

Lemma omap_none {A B} (f : A -> option B) (l : list A) :
  (∀ x, x ∈ l -> f x = None) -> omap f l = [].
Proof.
  induction l as [|x l IH]; intros Hf; [done|]. cbn [omap list_omap].
  rewrite (Hf x) by left. apply IH. intros y Hy. apply Hf. by right.
Qed.

Lemma js_find_ext {A} (p q : A -> bool) (l : list A) :
  (∀ x, x ∈ l -> p x = q x) -> js_find p l = js_find q l.
Proof.
  unfold js_find. induction l as [|x l IH]; intros Hpq; [done|]. cbn [find].
  rewrite (Hpq x) by left. rewrite IH; [done|]. intros y Hy. apply Hpq. by right.
Qed.

(** ** Lemmas on strings *)

Lemma append_String c s t : String c s +:+ t = String c (s +:+ t).
Proof. done. Qed.

Lemma append_empty_l t : EmptyString +:+ t = t.
Proof. done. Qed.

(** A separator that starts with a byte outside ASCII splits a string with
    an ASCII prefix in one way only. *)
Lemma append_sep_inj (h : ascii) (sep a b c d : string) :
  is_ascii h = false -> ascii_only a = true -> ascii_only c = true ->
  a +:+ String h sep +:+ b = c +:+ String h sep +:+ d -> a = c ∧ b = d.
Proof.
  intros Hh. revert c. induction a as [|x a IH]; intros [|y c] Ha Hc Heq.
  - split; [done|]. by apply (inj (String.app (String h sep))).
  - rewrite append_empty_l, !append_String in Heq. injection Heq as <- _.
    cbn [ascii_only] in Hc. apply andb_true_iff in Hc as [Hc _]. congruence.
  - rewrite append_empty_l, !append_String in Heq. injection Heq as -> _.
    cbn [ascii_only] in Ha. apply andb_true_iff in Ha as [Ha _]. congruence.
  - rewrite !append_String in Heq. injection Heq as -> Heq.
    cbn [ascii_only] in Ha, Hc.
    apply andb_true_iff in Ha as [_ Ha]. apply andb_true_iff in Hc as [_ Hc].
    destruct (IH c Ha Hc Heq) as [-> ->]. done.
Qed.

Lemma str_truthy_true s : str_truthy s = true <-> s ≠ EmptyString.
Proof. unfold str_truthy. by rewrite negb_true_iff, bool_decide_eq_false. Qed.

Lemma str_truthy_false s : str_truthy s = false <-> s = EmptyString.
Proof. unfold str_truthy. by rewrite negb_false_iff, bool_decide_eq_true. Qed.

Lemma lower_ascii_idem c : lower_ascii (lower_ascii c) = lower_ascii c.
Proof. by destruct c as [[] [] [] [] [] [] [] []]. Qed.

Lemma toLowerCase_idem s : toLowerCase (toLowerCase s) = toLowerCase s.
Proof. induction s as [|c s IH]; [done|]. cbn. by rewrite lower_ascii_idem, IH. Qed.

Lemma toLowerCase_empty s : toLowerCase s = EmptyString <-> s = EmptyString.
Proof. by destruct s. Qed.

Lemma toLowerCase_truthy s : str_truthy (toLowerCase s) = str_truthy s.
Proof. by destruct s. Qed.

Lemma includes_char_app c s1 s2 :
  includes_char c (s1 +:+ s2) = includes_char c s1 || includes_char c s2.
Proof.
  induction s1 as [|c' s1 IH]; [done|].
  change (String c' s1 +:+ s2) with (String c' (s1 +:+ s2)). cbn [includes_char].
  by rewrite IH, orb_assoc.
Qed.

Lemma includes_char_rev_app c s1 s2 :
  includes_char c (String.rev_app s1 s2) = includes_char c s1 || includes_char c s2.
Proof.
  revert s2. induction s1 as [|c' s1 IH]; intros s2; [done|].
  cbn [String.rev_app]. rewrite IH. cbn [includes_char].
  destruct (bool_decide (c' = c)), (includes_char c s1); done.
Qed.

Lemma includes_char_rev c s : includes_char c (String.rev s) = includes_char c s.
Proof. unfold String.rev. rewrite includes_char_rev_app. apply orb_false_r. Qed.

Lemma includes_char_trim_start c s :
  Ascii.is_space c = false -> includes_char c (trim_start s) = includes_char c s.
Proof.
  intros Hc. induction s as [|c' s IH]; [done|]. cbn [trim_start includes_char].
  destruct (Ascii.is_space c') eqn:Hc'; [|done]. rewrite IH.
  rewrite bool_decide_false; [done|]. congruence.
Qed.

(** Trimming removes white space only. *)
Lemma includes_char_trim c s :
  Ascii.is_space c = false -> includes_char c (trim s) = includes_char c s.
Proof.
  intros Hc. unfold trim.
  by rewrite includes_char_rev, includes_char_trim_start, includes_char_rev,
    includes_char_trim_start.
Qed.

(** ** Lemmas on [filter] and [dedupe] *)

Section dedupe_lemmas.
Context `{EqDecision A}.
Implicit Types (l : list A).

Lemma filter_all (P : A -> Prop) `{!∀ x, Decision (P x)} l :
  (∀ x, x ∈ l -> P x) -> filter P l = l.
Proof.
  induction l as [|y l IH]; intros Hall; [done|].
  rewrite filter_cons_True by (apply Hall; left).
  f_equal. apply IH. intros x Hx. apply Hall. by right.
Qed.

Lemma filter_none (P : A -> Prop) `{!∀ x, Decision (P x)} l :
  (∀ x, x ∈ l -> ¬ P x) -> filter P l = [].
Proof.
  induction l as [|y l IH]; intros Hall; [done|].
  rewrite filter_cons_False by (apply Hall; left).
  apply IH. intros x Hx. apply Hall. by right.
Qed.

Lemma elem_of_dedupe l x : x ∈ dedupe l <-> x ∈ l.
Proof.
  induction l as [|y l IH]; [done|]. cbn [dedupe].
  rewrite !elem_of_cons, list_elem_of_filter, IH.
  destruct (decide (x = y)); tauto.
Qed.

Lemma NoDup_dedupe l : NoDup (dedupe l).
Proof.
  induction l as [|y l IH]; [constructor|]. cbn [dedupe].
  constructor; [|by apply NoDup_filter].
  rewrite list_elem_of_filter. tauto.
Qed.

Lemma dedupe_NoDup l : NoDup l -> dedupe l = l.
Proof.
  induction 1 as [|x l Hx Hl IH]; [done|]. cbn [dedupe]. rewrite IH. f_equal.
  apply filter_all. intros y Hy ->. done.
Qed.

Lemma dedupe_nonempty l : l ≠ [] -> 0 < length (dedupe l).
Proof. destruct l; [done|]. cbn [dedupe length]. lia. Qed.

Lemma set_add_elem (x y : A) s : y ∈ set_add x s <-> y = x ∨ y ∈ s.
Proof.
  unfold set_add. destruct (decide (x ∈ s)).
  - split; [by right|]. by intros [->|?].
  - rewrite elem_of_app, list_elem_of_singleton. tauto.
Qed.

Lemma set_add_NoDup (x : A) s : NoDup s -> NoDup (set_add x s).
Proof.
  intros Hnd. unfold set_add. destruct (decide (x ∈ s)); [done|].
  apply NoDup_app. split_and!; [done| |apply NoDup_singleton].
  by intros y Hy ->%list_elem_of_singleton.
Qed.

(** A set filled element by element holds the elements in the order they
    are first added. *)
Lemma dedupe_snoc l (x : A) : dedupe (l ++ [x]) = set_add x (dedupe l).
Proof.
  unfold set_add. induction l as [|y l IH]; [done|]. cbn [app dedupe]. rewrite IH.
  destruct (decide (x = y)) as [->|Hxy].
  - rewrite (decide_True (P:=y ∈ y :: _)) by left.
    destruct (decide (y ∈ dedupe l)); [done|].
    rewrite filter_app, filter_cons_False, app_nil_r; tauto.
  - destruct (decide (x ∈ dedupe l)) as [Hx|Hx].
    + rewrite decide_True; [done|]. right. rewrite list_elem_of_filter. tauto.
    + rewrite decide_False, filter_app, filter_cons_True; [done..|].
      rewrite elem_of_cons, list_elem_of_filter. tauto.
Qed.

Lemma foldl_set_add l : foldl (λ s x, set_add x s) [] l = dedupe l.
Proof.
  induction l as [|x l IH] using rev_ind; [done|]. by rewrite foldl_snoc, IH, dedupe_snoc.
Qed.

End dedupe_lemmas.

(** A split has at least one piece. *)
Lemma split_ws_nonempty s : split_ws s ≠ [].
Proof.
  unfold split_ws. generalize EmptyString false.
  induction s as [|c s IH]; intros cur in_ws; cbn [split_ws_go]; [done|].
  destruct (Ascii.is_space c), in_ws; auto.
Qed.
