(* ===== verification/JsNumber.v ===== *)
(** * JsNumber: the arithmetic of JavaScript numbers the stages use

    The stages multiply multipliers, compare a product with 1 up to 0.01,
    test [multiplier <= 0] and [isFinite(multiplier)], and compute a Jaccard
    ratio in per cent.  [JsNumber] is the interface of these operations.
    [float_number] instantiates it with the kernel's binary64 floats, which
    are JavaScript's numbers; [Q_number] instantiates it with exact
    rationals.  [ExactNumber] states the laws of exact arithmetic that the
    algebraic theorems of [Closure] and [Consistency] rest on; [Q] satisfies
    them, floats do not (rounding). *)

From Stdlib Require Import QArith Qabs Floats Uint63.
From stdpp Require Import base tactics.
From S2P Require Import Spec2Rocq.

Class JsNumber (Num : Type) := {
  num_of_nat : nat -> Num;
  num_mul : Num -> Num -> Num;
  num_div : Num -> Num -> Num;
  num_sub : Num -> Num -> Num;
  num_abs : Num -> Num;
  num_ltb : Num -> Num -> bool;
  num_leb : Num -> Num -> bool;
  num_is_finite : Num -> bool;
}.

Section derived.
Context {Num : Type} {JN : JsNumber Num}.

(** The literals of the sources. *)
Definition num_zero : Num := num_of_nat 0.
Definition num_one : Num := num_of_nat 1.
(** [0.01]: the correctly rounded quotient of 1 by 100 is the double the
    literal denotes. *)
Definition num_cent : Num := num_div (num_of_nat 1) (num_of_nat 100).

(** [x >= y]. *)
Definition num_geb (x y : Num) : bool := num_leb y x.

(** [isNaN(x)]: a NaN is the one number that is not [<=] itself. *)
Definition num_is_nan (x : Num) : bool := negb (num_leb x x).

(** Truthiness of a number: [0], [-0] and [NaN] are falsy. *)
Definition num_truthy (x : Num) : bool :=
  negb (num_is_nan x || (num_leb x num_zero && num_leb num_zero x)).

(** [Math.abs(p - 1.0) < 0.01], the tolerance of the inverse check. *)
Definition near_one (p : Num) : bool :=
  num_ltb (num_abs (num_sub p num_one)) num_cent.

(** A multiplier the collector admits: [!(m <= 0 || !isFinite(m))]. *)
Definition positive_finite (m : Num) : bool :=
  negb (num_leb m num_zero || negb (num_is_finite m)).

End derived.

(** ** Binary64 floats *)

#[export] Instance float_number : JsNumber float := {|
  num_of_nat n := PrimFloat.of_uint63 (Uint63.of_Z (Z.of_nat n));
  num_mul := PrimFloat.mul;
  num_div := PrimFloat.div;
  num_sub := PrimFloat.sub;
  num_abs := PrimFloat.abs;
  num_ltb := PrimFloat.ltb;
  num_leb := PrimFloat.leb;
  num_is_finite := is_finite;
|}.

(** ** Exact rationals *)

#[export] Instance Q_number : JsNumber Q := {|
  num_of_nat n := inject_Z (Z.of_nat n);
  num_mul := Qmult;
  num_div := Qdiv;
  num_sub := Qminus;
  num_abs := Qabs;
  num_ltb x y := negb (Qle_bool y x);
  num_leb := Qle_bool;
  num_is_finite _ := true;
|}.

(** ** The laws of exact arithmetic *)

Class ExactNumber (Num : Type) `{JsNumber Num} := {
  num_equiv : relation Num;
  num_equiv_equivalence :: Equivalence num_equiv;
  num_mul_proper :: Proper (num_equiv ==> num_equiv ==> num_equiv) num_mul;
  near_one_proper :: Proper (num_equiv ==> eq) near_one;
  num_mul_assoc x y z : num_equiv (num_mul x (num_mul y z)) (num_mul (num_mul x y) z);
  num_mul_1_l x : num_equiv (num_mul num_one x) x;
  num_mul_cancel a s :
    ¬ num_equiv s num_zero -> num_equiv (num_mul a s) s -> num_equiv a num_one;
  near_one_one : near_one num_one = true;
  positive_finite_nonzero m : positive_finite m = true -> ¬ num_equiv m num_zero;
  positive_finite_mul x y :
    positive_finite x = true -> positive_finite y = true ->
    positive_finite (num_mul x y) = true;
  positive_finite_proper :: Proper (num_equiv ==> eq) positive_finite;
  positive_finite_one : positive_finite num_one = true;
  num_ltb_leb x y : num_ltb x y = negb (num_leb y x);
}.

Infix "≈" := num_equiv (at level 70, no associativity) : js_scope.

Section Q_laws.
Local Open Scope Q_scope.

Lemma Q_ltb_lt (x y : Q) : num_ltb x y = true <-> x < y.
Proof.
  cbn. rewrite negb_true_iff, <- not_true_iff_false, Qle_bool_iff.
  split; [apply Qnot_le_lt | apply Qlt_not_le].
Qed.

Lemma Q_leb_le (x y : Q) : num_leb x y = true <-> x <= y.
Proof. apply Qle_bool_iff. Qed.

Lemma Q_positive_finite (m : Q) : positive_finite m = true <-> 0 < m.
Proof.
  unfold positive_finite. cbn.
  rewrite orb_false_r, negb_true_iff, <- not_true_iff_false, Qle_bool_iff.
  split; [apply Qnot_le_lt | apply Qlt_not_le].
Qed.

Lemma Q_near_one (p : Q) : near_one p = true <-> Qabs (p - 1) < 1 # 100.
Proof. unfold near_one. rewrite Q_ltb_lt. done. Qed.

#[export] Instance Q_near_one_proper : Proper (Qeq ==> eq) (near_one (Num:=Q)).
Proof.
  intros x y Hxy. apply eq_true_iff_eq. rewrite !Q_near_one.
  by rewrite Hxy.
Qed.

#[export] Instance Q_positive_finite_proper :
  Proper (Qeq ==> eq) (positive_finite (Num:=Q)).
Proof.
  intros x y Hxy. apply eq_true_iff_eq. rewrite !Q_positive_finite.
  by rewrite Hxy.
Qed.

Lemma Q_mul_cancel (a s : Q) : ¬ s == 0 -> a * s == s -> a == 1.
Proof.
  intros Hs Has. apply (Qmult_inj_r a 1 s Hs). by rewrite Has, Qmult_1_l.
Qed.

#[export, refine] Instance Q_exact : ExactNumber Q := {|
  num_equiv := Qeq;
  num_mul_assoc := Qmult_assoc;
  num_mul_1_l := Qmult_1_l;
  num_mul_cancel := Q_mul_cancel;
  num_ltb_leb := λ _ _, eq_refl;
|}.
Proof.
  - done.
  - intros m Hm%Q_positive_finite Hz. rewrite Hz in Hm. by apply Qlt_irrefl in Hm.
  - intros x y Hx%Q_positive_finite Hy%Q_positive_finite.
    apply Q_positive_finite. rewrite <- (Qmult_0_l y). by apply Qmult_lt_compat_r.
  - done.
Defined.

End Q_laws.

(** ** The specification's numbers, on JavaScript's floats *)

Local Open Scope float_scope.

Example float_closure_forward : num_mul 2 3 = 6.
Proof. reflexivity. Qed.

(** [0.5 * (1/3)] is not the double nearest to [1/6] in general position, but
    the inverse check accepts the product with the forward multiplier 6. *)
Example float_inverse_check : near_one (num_mul 6 (num_mul (1 / 3) 0.5)) = true.
Proof. reflexivity. Qed.

Example float_rejects_nonpositive :
  positive_finite 0 = false ∧ positive_finite (-1) = false ∧
  positive_finite infinity = false ∧ positive_finite nan = false ∧
  positive_finite 0.0625 = true.
Proof. repeat split; reflexivity. Qed.

(** Rounding is visible to the tolerance test only far from its boundary:
    a product of 1 + 2^-6 fails, a product of 1 + 2^-7 passes. *)
Example float_near_one_boundary : near_one 1.015625 = false ∧ near_one 1.0078125 = true.
Proof. split; reflexivity. Qed.
