(* ===== verification/Schemas.v ===== *)
(** * Schemas: the data model of [types/schemas.d.ts]

    One record per interface of the source, one inductive type per union of
    string literals.  Optional fields ([field?: T]) are [option T].  Numbers
    are a parameter [Num] of the records that hold one, so that the same
    records serve the exact and the floating-point instances of [JsNumber].
    Field names are the source's, prefixed by the record they belong to. *)

From stdpp Require Import gmap strings list.
From S2P Require Import Spec2Rocq.

Inductive Domain : Type := HVAC | ELECTRICAL | PLUMBING | FIRE_PROTECTION.

Inductive ValueType : Type := NUMERIC | SELECT | MULTI_SELECT | RANGE | BOOLEAN.

Inductive ComponentSpecCategory : Type := PRIMARY_SIZE | NOT_APPLICABLE.

#[export] Instance Domain_eq_dec : EqDecision Domain.
Proof. solve_decision. Defined.

#[export] Instance ValueType_eq_dec : EqDecision ValueType.
Proof. solve_decision. Defined.

#[export] Instance ComponentSpecCategory_eq_dec : EqDecision ComponentSpecCategory.
Proof. solve_decision. Defined.

(** The string a domain is written as, which is its key in the
    [byDomain] object of the duplicate detector. *)
Definition domain_name (d : Domain) : string :=
  match d with
  | HVAC => "HVAC"
  | ELECTRICAL => "ELECTRICAL"
  | PLUMBING => "PLUMBING"
  | FIRE_PROTECTION => "FIRE_PROTECTION"
  end.

#[export] Instance domain_name_inj : Inj (=) (=) domain_name.
Proof. by intros [] [] ?. Qed.

Record Unit : Type := mkUnit {
  unit_id : string;
  unit_symbol : string;
  unit_name : string;
  unit_abbreviations : list string;
  unit_unitGroupId : string;
}.

#[export] Instance Unit_eq_dec : EqDecision Unit.
Proof. solve_decision. Defined.

(** [unit.unitGroupId = g]. *)
Definition set_unitGroupId (g : string) (u : Unit) : Unit :=
  {| unit_id := unit_id u; unit_symbol := unit_symbol u; unit_name := unit_name u;
     unit_abbreviations := unit_abbreviations u; unit_unitGroupId := g |}.

Section with_numbers.
Context {Num : Type}.

Record ConversionEquation : Type := mkConversion {
  conv_id : string;
  conv_fromUnitId : string;
  conv_toUnitId : string;
  conv_multiplier : Num;
  conv_equation : string;
  conv_description : string;
}.

Record UnitGroup : Type := mkUnitGroup {
  group_id : string;
  group_name : string;
  group_description : string;
  group_baseUnitId : option string;
  group_unitIds : list string;
  group_conversions : list ConversionEquation;
}.

(** [group.conversions = cs]. *)
Definition set_conversions (cs : list ConversionEquation) (g : UnitGroup) : UnitGroup :=
  {| group_id := group_id g; group_name := group_name g;
     group_description := group_description g; group_baseUnitId := group_baseUnitId g;
     group_unitIds := group_unitIds g; group_conversions := cs |}.

(** [group.unitIds = ids]. *)
Definition set_unitIds (ids : list string) (g : UnitGroup) : UnitGroup :=
  {| group_id := group_id g; group_name := group_name g;
     group_description := group_description g; group_baseUnitId := group_baseUnitId g;
     group_unitIds := ids; group_conversions := group_conversions g |}.

Record SpecTypeValue : Type := mkSpecTypeValue {
  value_id : string;
  value_specTypeId : string;
  value_primaryValue : string;
  value_alternateNames : list string;
  value_description : string;
  value_domain : option string;
}.

Record SpecType : Type := mkSpecType {
  spec_id : string;
  spec_primaryName : string;
  spec_alternateNames : list string;
  spec_notNames : list string;
  spec_description : string;
  spec_domain : Domain;
  spec_primaryUnit : option string;
  spec_primaryUnitId : option string;
  spec_primaryUnitGroup : option string;
  spec_primaryUnitGroupId : option string;
  spec_alternateUnits : option (list string);
  spec_alternateUnitIds : option (list string);
  spec_valueType : ValueType;
  spec_valueOptions : option (list SpecTypeValue);
  spec_minValue : option Num;
  spec_maxValue : option Num;
  spec_allowsArray : bool;
  spec_examples : option (list string);
  spec_industryStandards : option (list string);
}.

(** [specType.primaryUnitId = uid; specType.primaryUnitGroupId = gid]. *)
Definition set_primaryUnitIds (uid gid : option string) (s : SpecType) : SpecType :=
  {| spec_id := spec_id s; spec_primaryName := spec_primaryName s;
     spec_alternateNames := spec_alternateNames s; spec_notNames := spec_notNames s;
     spec_description := spec_description s; spec_domain := spec_domain s;
     spec_primaryUnit := spec_primaryUnit s; spec_primaryUnitId := uid;
     spec_primaryUnitGroup := spec_primaryUnitGroup s; spec_primaryUnitGroupId := gid;
     spec_alternateUnits := spec_alternateUnits s;
     spec_alternateUnitIds := spec_alternateUnitIds s;
     spec_valueType := spec_valueType s; spec_valueOptions := spec_valueOptions s;
     spec_minValue := spec_minValue s; spec_maxValue := spec_maxValue s;
     spec_allowsArray := spec_allowsArray s; spec_examples := spec_examples s;
     spec_industryStandards := spec_industryStandards s |}.

(** [specType.alternateUnitIds = ids]. *)
Definition set_alternateUnitIds (ids : option (list string)) (s : SpecType) : SpecType :=
  {| spec_id := spec_id s; spec_primaryName := spec_primaryName s;
     spec_alternateNames := spec_alternateNames s; spec_notNames := spec_notNames s;
     spec_description := spec_description s; spec_domain := spec_domain s;
     spec_primaryUnit := spec_primaryUnit s; spec_primaryUnitId := spec_primaryUnitId s;
     spec_primaryUnitGroup := spec_primaryUnitGroup s;
     spec_primaryUnitGroupId := spec_primaryUnitGroupId s;
     spec_alternateUnits := spec_alternateUnits s; spec_alternateUnitIds := ids;
     spec_valueType := spec_valueType s; spec_valueOptions := spec_valueOptions s;
     spec_minValue := spec_minValue s; spec_maxValue := spec_maxValue s;
     spec_allowsArray := spec_allowsArray s; spec_examples := spec_examples s;
     spec_industryStandards := spec_industryStandards s |}.

(** [category] is typed [ComponentSpecCategory] in the source and holds
    whatever string the Oracle answered: nothing checks it. *)
Record ComponentSpecMapping : Type := mkComponentSpecMapping {
  mapping_componentTypeId : string;
  mapping_componentTypeName : string;
  mapping_specTypeId : string;
  mapping_specTypeName : string;
  mapping_category : string;
  mapping_isRequired : option bool;
  mapping_notes : option string;
}.

#[export] Instance ComponentSpecMapping_eq_dec : EqDecision ComponentSpecMapping.
Proof. solve_decision. Defined.

Record ComponentType : Type := mkComponentType {
  component_id : string;
  component_name : string;
  component_description : string;
  component_parentTypeId : string;
  component_csiCode : string;
}.

(** The registry file [output/global-units-master.json] without its
    metadata, which [saveData] recomputes on every write. *)
Record Registry : Type := mkRegistry {
  reg_units : list Unit;
  reg_unitGroups : list UnitGroup;
}.

(** The [metadata] object of the registry file, without [generatedAt]
    (the clock is not modelled). *)
Record Metadata : Type := mkMetadata {
  meta_totalUnits : nat;
  meta_totalGroups : nat;
  meta_totalConversions : nat;
}.

Record MasterFile : Type := mkMasterFile {
  file_units : list Unit;
  file_unitGroups : list UnitGroup;
  file_metadata : Metadata;
}.

(** [groups.reduce((s, g) => s + g.conversions.length, 0)]. *)
Definition total_conversions (groups : list UnitGroup) : nat :=
  foldl (λ s g, s + length (group_conversions g)) 0 groups.

(** The object both writers of [global-units-master.json] serialise. *)
Definition master_file (units : list Unit) (groups : list UnitGroup) : MasterFile :=
  {| file_units := units;
     file_unitGroups := groups;
     file_metadata :=
       {| meta_totalUnits := length units;
          meta_totalGroups := length groups;
          meta_totalConversions := total_conversions groups |} |}.

(** What two equations share when they differ by their identifier only. *)
Definition conv_pair (c : ConversionEquation) : string * string :=
  (conv_fromUnitId c, conv_toUnitId c).

(** [c.fromUnitId === a && c.toUnitId === b]. *)
Definition connects (a b : string) (c : ConversionEquation) : bool :=
  bool_decide (conv_fromUnitId c = a) && bool_decide (conv_toUnitId c = b).

Lemma connects_true a b c :
  connects a b c = true <-> conv_fromUnitId c = a ∧ conv_toUnitId c = b.
Proof. unfold connects. by rewrite andb_true_iff, !bool_decide_eq_true. Qed.

Lemma connects_pair a b c : connects a b c = true <-> conv_pair c = (a, b).
Proof.
  rewrite connects_true. unfold conv_pair.
  split; [by intros [-> ->] | by intros [= -> ->]].
Qed.

Lemma connects_self c : connects (conv_fromUnitId c) (conv_toUnitId c) c = true.
Proof. by apply connects_true. Qed.

Lemma total_conversions_app gs1 gs2 :
  total_conversions (gs1 ++ gs2) = total_conversions gs1 + total_conversions gs2.
Proof.
  unfold total_conversions. rewrite foldl_app. generalize (foldl (λ s g, s + length (group_conversions g)) 0 gs1).
  induction gs2 as [|g gs2 IH] using rev_ind; intros n; [cbn; lia|].
  rewrite !foldl_snoc, IH. lia.
Qed.

Lemma total_conversions_cons g gs :
  total_conversions (g :: gs) = length (group_conversions g) + total_conversions gs.
Proof. change (g :: gs) with ([g] ++ gs). by rewrite total_conversions_app. Qed.

End with_numbers.

Arguments ConversionEquation : clear implicits.
Arguments UnitGroup : clear implicits.
Arguments SpecType : clear implicits.
Arguments Registry : clear implicits.
Arguments MasterFile : clear implicits.

#[export] Hint Rewrite @connects_true : js.
