(* ===== verification/Closure.v ===== *)
(** * Closure: the transitive closure of a group's conversion graph

    [generateCompleteConversions] of
    [src/postprocess/ensureCompleteConversions.ts] (in [src/src/main.ts],
    lines 188-278).  The source keeps the known multipliers in a
    [Map<string, number>] whose keys are [`${from}→${to}`]; here the map
    is a [gmap string Num] and the key is [convKey].  The three nested
    [for ... of units] loops are three nested left folds over [units], with
    the intermediate unit [k] outermost as in the source, and the emission
    loop is a fold that threads the list built so far and the counter of the
    UUID supply.

    The file then proves, in this order: the keys are injective on ASCII
    identifiers; a relaxation step never changes a multiplier that is set;
    the key set after the loops is reachability through the units
    (Warshall's invariant); the emitted list is characterised slot by slot;
    it is bounded by [n * (n - 1)], has one equation per ordered pair, and
    is a fixed point; exact multipliers that agree with one scale per unit
    stay in agreement. *)

From Stdlib Require Import QArith Floats.
From stdpp Require Import gmap strings list pretty.
From S2P Require Import Spec2Rocq JsNumber Schemas.

(** The separator of the keys, byte for byte as the source file spells it. *)
Definition arrow : string := "â†’".

(** [`${from}→${to}`]. *)
Definition convKey (a b : string) : string := a +:+ arrow +:+ b.

Section closure.
Context {Num : Type} {JN : JsNumber Num}.
Context (uuid : nat -> string) (show : Num -> string).

Abbreviation Conversion := (ConversionEquation Num).

(** Lines 205-211: [multipliers.set(key, conv.multiplier)] for every
    persisted equation, in order, so that the last equation of a pair sets
    its multiplier.  (Lines 198-202 build a second map, [conversionMap],
    the same way; nothing reads it.) *)
Definition seed_direct (existingConversions : list Conversion) : gmap string Num :=
  foldl (λ multipliers conv,
           <[convKey (conv_fromUnitId conv) (conv_toUnitId conv) := conv_multiplier conv]>
             multipliers)
        ∅ existingConversions.

(** Lines 213-216: [multipliers.set(`${unit.id}→${unit.id}`, 1.0)]. *)
Definition seed_identity (ids : list string) (multipliers : gmap string Num) :
    gmap string Num :=
  foldl (λ multipliers u, <[convKey u u := num_one]> multipliers) multipliers ids.

(** Lines 222-236, the body of the innermost loop, on the identifiers of
    the three units. *)
Definition relax (k i j : string) (multipliers : gmap string Num) : gmap string Num :=
  match multipliers !! convKey i k, multipliers !! convKey k j with
  | Some ikMult, Some kjMult =>
      let transitiveMultiplier := num_mul ikMult kjMult in
      match multipliers !! convKey i j with
      | Some _ => multipliers
      | None => <[convKey i j := transitiveMultiplier]> multipliers
      end
  | _, _ => multipliers
  end.

(** Lines 220-238: one pass of the two inner loops for a fixed [k]. *)
Definition relax_pass (ids : list string) (multipliers : gmap string Num) (k : string) :
    gmap string Num :=
  foldl (λ m i, foldl (λ m j, relax k i j m) m ids) multipliers ids.

(** Lines 219-239: the three loops. *)
Definition relax_all (ids : list string) (multipliers : gmap string Num) :
    gmap string Num :=
  foldl (relax_pass ids) multipliers ids.

(** The map the emission loop reads. *)
Definition closure_map (units : list Unit) (existingConversions : list Conversion) :
    gmap string Num :=
  let ids := unit_id <$> units in
  relax_all ids (seed_identity ids (seed_direct existingConversions)).

(** Lines 261-268: the equation created for a pair that has none. *)
Definition new_conversion (n : nat) (fromUnit toUnit : Unit) (multiplier : Num) :
    Conversion :=
  {| conv_id := uuid n;
     conv_fromUnitId := unit_id fromUnit;
     conv_toUnitId := unit_id toUnit;
     conv_multiplier := multiplier;
     conv_equation := "x * " +:+ show multiplier;
     conv_description := unit_symbol fromUnit +:+ " to " +:+ unit_symbol toUnit |}.

(** Lines 246-270, the body of the emission loop: [st] is [allConversions]
    so far with the number of identifiers drawn. *)
Definition emit (multipliers : gmap string Num) (existingConversions : list Conversion)
    (st : list Conversion * nat) (fromUnit toUnit : Unit) : list Conversion * nat :=
  if decide (unit_id fromUnit = unit_id toUnit) then st
  else
    match multipliers !! convKey (unit_id fromUnit) (unit_id toUnit) with
    | None => st
    | Some multiplier =>
        match js_find (connects (unit_id fromUnit) (unit_id toUnit)) existingConversions with
        | Some existing => (st.1 ++ [existing], st.2)
        | None => (st.1 ++ [new_conversion st.2 fromUnit toUnit multiplier], S st.2)
        end
    end.

(** Lines 244-272. *)
Definition emit_all (multipliers : gmap string Num) (existingConversions : list Conversion)
    (units : list Unit) (next : nat) : list Conversion * nat :=
  foldl (λ st fromUnit,
           foldl (λ st toUnit, emit multipliers existingConversions st fromUnit toUnit)
                 st units)
        ([], next) units.

(** Lines 188-278.  [next] is the number of identifiers drawn before the
    call; the result carries the number drawn after it. *)
Definition generateCompleteConversions (units : list Unit)
    (existingConversions : list Conversion) (next : nat) : list Conversion * nat :=
  if decide (length units < 2) then (existingConversions, next)
  else emit_all (closure_map units existingConversions) existingConversions units next.

(** ** Keys *)

(** [multipliers.has(`${a}→${b}`)]. *)
Definition has (m : gmap string Num) (a b : string) : Prop :=
  is_Some (m !! convKey a b).

#[export] Instance has_dec m a b : Decision (has m a b).
Proof. unfold has. apply _. Defined.

(** The identifiers of a registry are ASCII. *)
Definition good_ids (ids : list string) : Prop :=
  Forall (λ a, ascii_only a = true) ids.

Lemma convKey_inj a b c d :
  ascii_only a = true -> ascii_only c = true ->
  convKey a b = convKey c d -> a = c ∧ b = d.
Proof. by apply append_sep_inj. Qed.

Lemma good_ids_elem ids a : good_ids ids -> a ∈ ids -> ascii_only a = true.
Proof. intros Hg Ha. by apply (proj1 (Forall_forall _ _) Hg). Qed.

(** ** One relaxation step *)

(** First write wins: a step never changes a multiplier that is set. *)
Lemma relax_lookup_mono k i j m x v :
  m !! x = Some v -> relax k i j m !! x = Some v.
Proof.
  intros Hx. unfold relax. repeat case_match; try done.
  rewrite lookup_insert_ne; [done|]. congruence.
Qed.

Lemma relax_has_mono k i j m a b : has m a b -> has (relax k i j m) a b.
Proof. intros [v Hv]. exists v. by apply relax_lookup_mono. Qed.

(** What a step can add: the product for the pair [(i, j)], when both
    halves are known and the pair is not. *)
Lemma relax_lookup_inv k i j m x v :
  relax k i j m !! x = Some v ->
  m !! x = Some v ∨
  (x = convKey i j ∧ m !! x = None ∧
   ∃ ik kj, m !! convKey i k = Some ik ∧ m !! convKey k j = Some kj ∧
            v = num_mul ik kj).
Proof.
  unfold relax. intros Hx. repeat case_match; auto.
  destruct (decide (x = convKey i j)) as [->|Hne].
  - rewrite lookup_insert_eq in Hx. simplify_eq. right. eauto 10.
  - rewrite lookup_insert_ne in Hx by done. auto.
Qed.

Lemma relax_has_intro k i j m : has m i k -> has m k j -> has (relax k i j m) i j.
Proof.
  intros [ik Hik] [kj Hkj]. unfold relax, has. rewrite Hik, Hkj.
  destruct (m !! convKey i j) as [v|] eqn:Hij; [by rewrite Hij|].
  rewrite lookup_insert_eq. by eexists.
Qed.

Lemma relax_has_inv k i j m a b :
  has (relax k i j m) a b ->
  has m a b ∨ (convKey a b = convKey i j ∧ has m i k ∧ has m k j).
Proof.
  intros [v Hv]. apply relax_lookup_inv in Hv as [Hv|(Heq & _ & ik & kj & Hik & Hkj & _)].
  - left. by exists v.
  - right. split; [done|]. split; by eexists.
Qed.

(** ** The loops *)

Lemma relax_pass_pairs ids m k :
  relax_pass ids m k = foldl (λ m p, relax k p.1 p.2 m) m (list_prod ids ids).
Proof. unfold relax_pass. by rewrite (foldl_nested (λ m i j, relax k i j m)). Qed.

(** A property that every step preserves holds after the three loops. *)
Lemma relax_all_preserves (P : gmap string Num -> Prop) ids m :
  P m ->
  (∀ k i j m', k ∈ ids -> i ∈ ids -> j ∈ ids -> P m' -> P (relax k i j m')) ->
  P (relax_all ids m).
Proof.
  intros Hm Hstep. unfold relax_all, relax_pass.
  apply foldl_preserves; [done|]. intros m1 k Hk Hm1.
  apply foldl_preserves; [done|]. intros m2 i Hi Hm2.
  apply foldl_preserves; [done|]. intros m3 j Hj Hm3. by apply Hstep.
Qed.

Lemma relax_pass_lookup_mono ids m k x v :
  m !! x = Some v -> relax_pass ids m k !! x = Some v.
Proof.
  intros Hx. rewrite relax_pass_pairs.
  apply (foldl_preserves (λ m', m' !! x = Some v)); [done|].
  intros. by apply relax_lookup_mono.
Qed.

(** First write wins, for the whole closure: a multiplier that is set before
    the loops is the multiplier after them. *)
Lemma relax_all_lookup_mono ids m x v :
  m !! x = Some v -> relax_all ids m !! x = Some v.
Proof.
  intros Hx. apply (relax_all_preserves (λ m', m' !! x = Some v)); [done|].
  intros. by apply relax_lookup_mono.
Qed.

Lemma relax_all_has_mono ids m a b : has m a b -> has (relax_all ids m) a b.
Proof. intros [v Hv]. exists v. by apply relax_all_lookup_mono. Qed.

(** After the pass for [k], every pair of units whose two halves through
    [k] were known before the pass is known. *)
Lemma relax_pass_complete ids m k i j :
  i ∈ ids -> j ∈ ids -> has m i k -> has m k j -> has (relax_pass ids m k) i j.
Proof.
  intros Hi Hj Hik Hkj. rewrite relax_pass_pairs.
  assert ((i, j) ∈ list_prod ids ids) as (l1 & l2 & ->)%list_elem_of_split
    by by apply elem_of_list_prod.
  rewrite foldl_app. cbn [foldl fst snd].
  set (m1 := foldl _ m l1).
  assert (∀ a b, has m a b -> has m1 a b) as Hmono.
  { intros a b Hab. subst m1.
    apply (foldl_preserves (λ m', has m' a b)); [done|].
    intros. by apply relax_has_mono. }
  apply (foldl_preserves (λ m', has m' i j)).
  - apply relax_has_intro; by apply Hmono.
  - intros. by apply relax_has_mono.
Qed.

(** ** Reachability through a set of intermediate units *)

(** [via E K a b]: [b] is reachable from [a] along edges of [E], every
    intermediate vertex being in [K]. *)
Inductive via (E : string -> string -> Prop) (K : list string) : string -> string -> Prop :=
| via_edge a b : E a b -> via E K a b
| via_step a k b : k ∈ K -> via E K a k -> via E K k b -> via E K a b.

Lemma via_mono E K K' a b : K ⊆ K' -> via E K a b -> via E K' a b.
Proof.
  intros HK. induction 1 as [|a k b Hk _ IH1 _ IH2]; [by apply via_edge|].
  apply via_step with k; [by apply HK|done..].
Qed.

Lemma via_nil E a b : via E [] a b <-> E a b.
Proof.
  split; [|apply via_edge]. by induction 1 as [|??? ?%elem_of_nil].
Qed.

(** A path whose intermediate vertices are in [k :: K] either avoids [k]
    or splits at [k] into two paths that avoid it. *)
Lemma via_cons_inv E k K a b :
  via E (k :: K) a b -> via E K a b ∨ (via E K a k ∧ via E K k b).
Proof.
  induction 1 as [a b Hab|a k' b Hk' _ IH1 _ IH2]; [left; by apply via_edge|].
  apply elem_of_cons in Hk' as [->|Hk'].
  - right. destruct IH1 as [?|[? _]], IH2 as [?|[_ ?]]; done.
  - destruct IH1 as [H1|[H1 H1']], IH2 as [H2|[H2 H2']].
    + left. by apply via_step with k'.
    + right. split; [by apply via_step with k'|done].
    + right. split; [done|by apply via_step with k'].
    + right. done.
Qed.

Lemma via_sym E K a b :
  (∀ a b, E a b -> E b a) -> via E K a b -> via E K b a.
Proof.
  intros HE. induction 1 as [|a k b Hk _ IH1 _ IH2]; [by apply via_edge, HE|].
  by apply via_step with k.
Qed.

(** Two edge relations that agree on ASCII sources have the same paths. *)
Lemma via_ext E E' K a b :
  (∀ a b, ascii_only a = true -> E a b -> E' a b) ->
  good_ids K -> ascii_only a = true -> via E K a b -> via E' K a b.
Proof.
  intros HE HK Ha Hvia. induction Hvia as [|a k b Hk _ IH1 _ IH2].
  - apply via_edge. by apply HE.
  - apply via_step with k; [done|by apply IH1|]. apply IH2.
    by apply (good_ids_elem K).
Qed.

(** Warshall's invariant, one direction: after the passes for [ks], every
    pair of units joined by a path through [ks] (and through what was
    processed before, [K]) is known. *)
Lemma relax_passes_complete ids m0 ks K m :
  (∀ k, k ∈ ks -> k ∈ ids) ->
  (∀ i j, i ∈ ids -> j ∈ ids -> via (has m0) K i j -> has m i j) ->
  ∀ i j, i ∈ ids -> j ∈ ids -> via (has m0) (reverse ks ++ K) i j ->
         has (foldl (relax_pass ids) m ks) i j.
Proof.
  revert K m. induction ks as [|k ks IH]; intros K m Hks Inv i j Hi Hj; [by apply Inv|].
  rewrite reverse_cons, <- app_assoc. cbn [foldl].
  apply IH; [set_solver| |done..]. clear i j Hi Hj.
  intros i j Hi Hj [Hij|[Hik Hkj]]%via_cons_inv.
  - destruct (Inv i j Hi Hj Hij) as [v Hv]. exists v.
    by apply relax_pass_lookup_mono.
  - assert (k ∈ ids) as Hk by (apply Hks; left).
    apply relax_pass_complete; [done..| |]; by apply Inv.
Qed.

(** Completeness of the three loops. *)
Lemma relax_all_complete ids m i j :
  i ∈ ids -> j ∈ ids -> via (has m) ids i j -> has (relax_all ids m) i j.
Proof.
  intros Hi Hj Hvia. unfold relax_all.
  apply (relax_passes_complete ids m ids []); [done| |done..|].
  - intros i' j' _ _ Hv. by apply (proj1 (via_nil _ _ _)) in Hv.
  - eapply via_mono; [|done]. set_solver.
Qed.

(** Soundness of the three loops: a key that is set stands for a path. *)
Lemma relax_all_sound ids m a b :
  good_ids ids -> ascii_only a = true ->
  has (relax_all ids m) a b -> via (has m) ids a b.
Proof.
  intros Hids. revert a b.
  apply (relax_all_preserves (λ m', ∀ a b, ascii_only a = true -> has m' a b ->
                                           via (has m) ids a b)).
  { intros a b _ ?. by apply via_edge. }
  intros k i j m' Hk Hi Hj IHm. cbv beta in *.
  intros a b Ha [?|(Heq & Hik & Hkj)]%relax_has_inv; [by apply IHm|].
  apply convKey_inj in Heq as [-> ->]; [|done|by apply (good_ids_elem ids)].
  apply via_step with k; [done|by apply IHm|].
  apply IHm; [by apply (good_ids_elem ids)|done].
Qed.

(** The key set after the loops is reachability through the units. *)
Lemma relax_all_reach ids m i j :
  good_ids ids -> i ∈ ids -> j ∈ ids ->
  has (relax_all ids m) i j <-> via (has m) ids i j.
Proof.
  intros Hids Hi Hj. split; [|by apply relax_all_complete].
  apply relax_all_sound; [done|by apply (good_ids_elem ids)].
Qed.

(** ** The seeds *)

Lemma seed_direct_snoc l c :
  seed_direct (l ++ [c]) =
  <[convKey (conv_fromUnitId c) (conv_toUnitId c) := conv_multiplier c]> (seed_direct l).
Proof. unfold seed_direct. by rewrite foldl_snoc. Qed.

Lemma seed_identity_snoc ids u m :
  seed_identity (ids ++ [u]) m = <[convKey u u := num_one]> (seed_identity ids m).
Proof. unfold seed_identity. by rewrite foldl_snoc. Qed.

(** A multiplier of the direct seed is the multiplier of a persisted
    equation with that key. *)
Lemma seed_direct_lookup l x v :
  seed_direct l !! x = Some v ->
  ∃ c, c ∈ l ∧ x = convKey (conv_fromUnitId c) (conv_toUnitId c) ∧ v = conv_multiplier c.
Proof.
  induction l as [|c l IH] using rev_ind.
  { unfold seed_direct. cbn [foldl]. by rewrite lookup_empty. }
  rewrite seed_direct_snoc.
  destruct (decide (convKey (conv_fromUnitId c) (conv_toUnitId c) = x)) as [<-|Hne].
  - rewrite lookup_insert_eq. intros [= <-]. exists c. set_solver.
  - rewrite lookup_insert_ne by done. intros (c' & Hc' & Hrest)%IH. exists c'. split; [|done]. apply elem_of_app. by left.
Qed.

Lemma seed_direct_has l c :
  c ∈ l -> has (seed_direct l) (conv_fromUnitId c) (conv_toUnitId c).
Proof.
  unfold has. induction l as [|c' l IH] using rev_ind; [by intros ?%elem_of_nil|].
  rewrite seed_direct_snoc, lookup_insert_is_Some'.
  intros [Hc| ->%list_elem_of_singleton]%elem_of_app; auto.
Qed.

Lemma seed_identity_lookup ids m x v :
  seed_identity ids m !! x = Some v ->
  m !! x = Some v ∨ ∃ u, u ∈ ids ∧ x = convKey u u ∧ v = num_one.
Proof.
  induction ids as [|u ids IH] using rev_ind; [by left|].
  rewrite seed_identity_snoc.
  destruct (decide (convKey u u = x)) as [<-|Hne].
  - rewrite lookup_insert_eq. intros [= <-]. right. exists u. set_solver.
  - rewrite lookup_insert_ne by done. intros [?|(u' & Hu' & Hrest)]%IH; [by left|].
    right. exists u'. split; [|done]. apply elem_of_app. by left.
Qed.

Lemma seed_identity_lookup_id ids m u :
  u ∈ ids -> seed_identity ids m !! convKey u u = Some num_one.
Proof.
  induction ids as [|u' ids IH] using rev_ind; [by intros ?%elem_of_nil|].
  rewrite seed_identity_snoc. intros Hu.
  destruct (decide (convKey u' u' = convKey u u)) as [->|Hne].
  - by rewrite lookup_insert_eq.
  - rewrite lookup_insert_ne by done. apply IH.
    apply elem_of_app in Hu as [?| ->%list_elem_of_singleton]; done.
Qed.

Lemma seed_identity_has_mono ids m a b : has m a b -> has (seed_identity ids m) a b.
Proof.
  unfold has. induction ids as [|u ids IH] using rev_ind; [done|].
  rewrite seed_identity_snoc, lookup_insert_is_Some'. auto.
Qed.

(** The edges the closure starts from: the identity on the units and the
    persisted equations. *)
Definition direct (ids : list string) (existingConversions : list Conversion)
    (a b : string) : Prop :=
  (a = b ∧ a ∈ ids) ∨ ∃ c, c ∈ existingConversions ∧ conv_pair c = (a, b).

Lemma seed_has_direct ids existing a b :
  direct ids existing a b -> has (seed_identity ids (seed_direct existing)) a b.
Proof.
  intros [[-> Ha]|(c & Hc & [= <- <-])].
  - unfold has. by rewrite seed_identity_lookup_id.
  - by apply seed_identity_has_mono, seed_direct_has.
Qed.

Lemma seed_has_inv ids existing a b :
  good_ids ids -> good_ids (conv_fromUnitId <$> existing) -> ascii_only a = true ->
  has (seed_identity ids (seed_direct existing)) a b -> direct ids existing a b.
Proof.
  intros Hids Hex Ha [v [Hv|(u & Hu & Heq & _)]%seed_identity_lookup].
  - apply seed_direct_lookup in Hv as (c & Hc & Heq & _). right. exists c.
    split; [done|]. apply convKey_inj in Heq as [-> ->]; [done..|].
    apply (good_ids_elem (conv_fromUnitId <$> existing)); [done|].
    by apply list_elem_of_fmap_2.
  - left. apply convKey_inj in Heq as [-> ->]; [done..|].
    by apply (good_ids_elem ids).
Qed.

(** ** The emission loop against its recursive definition *)

(** A pair of units the emission loop writes an equation for. *)
Definition slot (multipliers : gmap string Num) (p : Unit * Unit) : Prop :=
  has multipliers (unit_id p.1) (unit_id p.2) ∧ unit_id p.1 ≠ unit_id p.2.

#[export] Instance slot_dec m p : Decision (slot m p).
Proof. unfold slot. apply _. Defined.

(** The emission loop as a recursive function on the list of pairs. *)
Fixpoint emit_pairs (multipliers : gmap string Num) (existing : list Conversion)
    (ps : list (Unit * Unit)) (next : nat) : list Conversion * nat :=
  match ps with
  | [] => ([], next)
  | p :: ps' =>
      match decide (unit_id p.1 = unit_id p.2),
            multipliers !! convKey (unit_id p.1) (unit_id p.2) with
      | right _, Some multiplier =>
          match js_find (connects (unit_id p.1) (unit_id p.2)) existing with
          | Some e =>
              let r := emit_pairs multipliers existing ps' next in (e :: r.1, r.2)
          | None =>
              let r := emit_pairs multipliers existing ps' (S next) in
              (new_conversion next p.1 p.2 multiplier :: r.1, r.2)
          end
      | _, _ => emit_pairs multipliers existing ps' next
      end
  end.

Lemma emit_fold multipliers existing ps acc next :
  foldl (λ st p, emit multipliers existing st p.1 p.2) (acc, next) ps =
  (acc ++ (emit_pairs multipliers existing ps next).1,
   (emit_pairs multipliers existing ps next).2).
Proof.
  revert acc next. induction ps as [|p ps IH]; intros acc next.
  { by rewrite app_nil_r. }
  cbn [foldl emit_pairs]. unfold emit at 2.
  destruct (decide (unit_id p.1 = unit_id p.2)); [apply IH|].
  destruct (multipliers !! _); [|apply IH].
  destruct (js_find _ existing); rewrite IH; cbn [fst snd]; by rewrite <- app_assoc.
Qed.

(** The loops of lines 244-272 compute [emit_pairs] on the pairs of units
    in lexicographic order. *)
Lemma emit_all_pairs multipliers existing units next :
  emit_all multipliers existing units next =
  emit_pairs multipliers existing (list_prod units units) next.
Proof.
  unfold emit_all.
  rewrite (foldl_nested (λ st f t, emit multipliers existing st f t)).
  rewrite emit_fold. by destruct (emit_pairs _ _ _ _).
Qed.

(** What stands in the slot of a pair: the first persisted equation of the
    pair, or a new equation that carries the multiplier of the map. *)
Definition fills (multipliers : gmap string Num) (existing : list Conversion)
    (p : Unit * Unit) (c : Conversion) : Prop :=
  js_find (connects (unit_id p.1) (unit_id p.2)) existing = Some c ∨
  (js_find (connects (unit_id p.1) (unit_id p.2)) existing = None ∧
   ∃ n multiplier,
     multipliers !! convKey (unit_id p.1) (unit_id p.2) = Some multiplier ∧
     c = new_conversion n p.1 p.2 multiplier).

Lemma emit_pairs_fills multipliers existing ps next :
  Forall2 (fills multipliers existing) (filter (slot multipliers) ps)
          (emit_pairs multipliers existing ps next).1.
Proof.
  revert next. induction ps as [|p ps IH]; intros next; [constructor|].
  cbn [emit_pairs]. rewrite filter_cons.
  destruct (decide (slot multipliers p)) as [[[multiplier Hm] Hne]|Hns].
  - destruct (decide (unit_id p.1 = unit_id p.2)); [done|]. rewrite Hm.
    destruct (js_find _ existing) as [e|] eqn:Hfind; cbn [fst].
    + constructor; [by left|apply IH].
    + constructor; [right; eauto|apply IH].
  - destruct (decide (unit_id p.1 = unit_id p.2)); [apply IH|].
    destruct (multipliers !! _) as [multiplier|] eqn:Hm; [|apply IH].
    destruct Hns. split; [by eexists|done].
Qed.

Lemma fills_pair multipliers existing p c :
  fills multipliers existing p c -> conv_pair c = (unit_id p.1, unit_id p.2).
Proof.
  intros [[_ Hc]%js_find_Some|(_ & n & m & _ & ->)]; [|done].
  by apply connects_pair.
Qed.

(** ** The map the emission loop reads *)

Section closure_map_facts.
Context (units : list Unit) (existing : list Conversion).
Local Abbreviation ids := (unit_id <$> units).

Lemma closure_map_reach i j :
  good_ids ids -> good_ids (conv_fromUnitId <$> existing) -> i ∈ ids -> j ∈ ids ->
  has (closure_map units existing) i j <-> via (direct ids existing) ids i j.
Proof.
  intros Hids Hex Hi Hj. unfold closure_map. cbv zeta.
  rewrite relax_all_reach by done.
  assert (ascii_only i = true) by by apply (good_ids_elem ids).
  split; apply via_ext; try done; intros a b Ha.
  - by apply seed_has_inv.
  - intros ?. by apply seed_has_direct.
Qed.

Lemma closure_map_direct a b :
  direct ids existing a b -> has (closure_map units existing) a b.
Proof. intros ?. by apply relax_all_has_mono, seed_has_direct. Qed.

Lemma slots_elem f t :
  (f, t) ∈ filter (slot (closure_map units existing)) (list_prod units units) <->
  f ∈ units ∧ t ∈ units ∧
  has (closure_map units existing) (unit_id f) (unit_id t) ∧ unit_id f ≠ unit_id t.
Proof.
  rewrite list_elem_of_filter, elem_of_list_prod. unfold slot. cbn. tauto.
Qed.

End closure_map_facts.

(** ** The result of [generateCompleteConversions] *)

Section generate.
Context (units : list Unit) (existing : list Conversion) (next : nat).
Context (Hlen : 2 ≤ length units).
Local Abbreviation ids := (unit_id <$> units).
Local Abbreviation multipliers := (closure_map units existing).
Local Abbreviation out := (generateCompleteConversions units existing next).1.
Local Abbreviation slots := (filter (slot multipliers) (list_prod units units)).

Lemma generate_emit_pairs :
  generateCompleteConversions units existing next =
  emit_pairs multipliers existing (list_prod units units) next.
Proof.
  unfold generateCompleteConversions. destruct (decide _); [lia|]. apply emit_all_pairs.
Qed.

(** The output lists, pair by pair in lexicographic order of the units,
    what fills each slot. *)
Lemma generate_fills : Forall2 (fills multipliers existing) slots out.
Proof. rewrite generate_emit_pairs. apply emit_pairs_fills. Qed.

Lemma generate_pairs :
  conv_pair <$> out = (λ p, (unit_id p.1, unit_id p.2)) <$> slots.
Proof.
  symmetry. apply (Forall2_fmap_eq (fills multipliers existing)); [|apply generate_fills].
  intros p c Hpc. symmetry. by apply (fills_pair multipliers existing).
Qed.

Lemma out_elem c :
  c ∈ out -> ∃ f t, (f, t) ∈ slots ∧ fills multipliers existing (f, t) c.
Proof.
  intros Hc. destruct (Forall2_elem_of_r _ _ _ _ generate_fills Hc) as ([f t] & ? & ?).
  by exists f, t.
Qed.

Lemma slots_out f t :
  (f, t) ∈ slots -> ∃ c, c ∈ out ∧ fills multipliers existing (f, t) c.
Proof. intros Hp. apply (Forall2_elem_of_l _ _ _ _ generate_fills Hp). Qed.

(** Every equation of the output joins two distinct units of the group. *)
Lemma out_endpoints c :
  c ∈ out ->
  conv_fromUnitId c ∈ ids ∧ conv_toUnitId c ∈ ids ∧ conv_fromUnitId c ≠ conv_toUnitId c.
Proof.
  intros (f & t & (Hf & Ht & _ & Hne)%slots_elem & [= -> ->]%fills_pair)%out_elem.
  cbn. split_and!; [by apply list_elem_of_fmap_2..|done].
Qed.

(** With distinct unit identifiers no ordered pair has two equations. *)
Lemma out_NoDup_pairs : NoDup ids -> NoDup (conv_pair <$> out).
Proof.
  intros Hnd. rewrite generate_pairs. apply NoDup_fmap_2_strong.
  - intros [f t] [f' t'] (Hf & Ht & _)%slots_elem (Hf' & Ht' & _)%slots_elem [= Hff Htt].
    f_equal; by apply (NoDup_fmap_elem_inj unit_id units).
  - apply NoDup_filter, NoDup_list_prod; by apply (NoDup_fmap_1 unit_id).
Qed.

End generate.

Lemma out_length units existing next :
  2 ≤ length units ->
  length (generateCompleteConversions units existing next).1 =
  length (filter (slot (closure_map units existing)) (list_prod units units)).
Proof. intros Hlen. symmetry. apply (Forall2_length _ _ _ (generate_fills _ _ _ Hlen)). Qed.

Lemma slots_bound units multipliers :
  length (filter (slot multipliers) (list_prod units units))
    ≤ length units * (length units - 1).
Proof.
  etrans; [|apply (length_filter_offdiag unit_id units units); done].
  apply length_filter_weaken. by intros p [_ ?].
Qed.

(** C5: the loop writes at most one equation per ordered pair of distinct
    units: a group of [N >= 2] units has at most [N * (N - 1)] equations
    after the call. *)
Theorem generate_bound units existing next :
  2 ≤ length units ->
  length (generateCompleteConversions units existing next).1
    ≤ length units * (length units - 1).
Proof. intros Hlen. rewrite out_length by done. apply slots_bound. Qed.

(** C11: the output is well formed: every equation joins two distinct units of
    the group, and with distinct unit identifiers no ordered pair has two
    equations. *)
Theorem generate_wellformed units existing next :
  2 ≤ length units -> NoDup (unit_id <$> units) ->
  NoDup (conv_pair <$> (generateCompleteConversions units existing next).1) ∧
  Forall (λ c, conv_fromUnitId c ∈ unit_id <$> units ∧ conv_toUnitId c ∈ unit_id <$> units ∧
               conv_fromUnitId c ≠ conv_toUnitId c)
         (generateCompleteConversions units existing next).1.
Proof.
  intros Hlen Hnd. split; [by apply out_NoDup_pairs|].
  apply Forall_forall. intros c Hc. by apply (out_endpoints units existing next).
Qed.

(** The first persisted equation of a pair of distinct units of the group
    is in the output, as it was persisted. *)
Theorem generate_keeps_existing units existing next f t c :
  2 ≤ length units -> f ∈ units -> t ∈ units -> unit_id f ≠ unit_id t ->
  js_find (connects (unit_id f) (unit_id t)) existing = Some c ->
  c ∈ (generateCompleteConversions units existing next).1.
Proof.
  intros Hlen Hf Ht Hne Hfind.
  destruct (js_find_Some _ _ _ Hfind) as [Hc Hpair%connects_pair].
  destruct (slots_out units existing next Hlen f t) as (c' & Hc' & [Hl|[Hr _]]).
  - apply slots_elem. split_and!; [done..| |done].
    apply closure_map_direct. right. by exists c.
  - cbn in Hl. congruence.
  - cbn in Hr. congruence.
Qed.

(** C1: an equation from [f] to [t] is in the output exactly when [t] is
    reachable from [f] along persisted equations through units of the
    group. *)
Theorem generate_reach units existing next f t :
  2 ≤ length units ->
  good_ids (unit_id <$> units) -> good_ids (conv_fromUnitId <$> existing) ->
  f ∈ units -> t ∈ units -> unit_id f ≠ unit_id t ->
  (∃ c, c ∈ (generateCompleteConversions units existing next).1 ∧
        conv_pair c = (unit_id f, unit_id t)) <->
  via (direct (unit_id <$> units) existing) (unit_id <$> units) (unit_id f) (unit_id t).
Proof.
  intros Hlen Hids Hex Hf Ht Hne.
  rewrite <- (closure_map_reach units existing) by (done || by apply list_elem_of_fmap_2).
  split.
  - intros (c & Hc & Hpair).
    destruct (out_elem units existing next Hlen c Hc)
      as (f' & t' & (_ & _ & Hhas & _)%slots_elem & Hfill%fills_pair).
    rewrite Hpair in Hfill. by injection Hfill as -> ->.
  - intros Hhas.
    destruct (slots_out units existing next Hlen f t) as (c & Hc & Hfill%fills_pair);
      [|by exists c].
    by apply slots_elem.
Qed.

(** Every persisted equation has an equation the other way. *)
Definition symmetric (conversions : list Conversion) : Prop :=
  ∀ c, c ∈ conversions ->
       ∃ r, r ∈ conversions ∧ conv_pair r = (conv_toUnitId c, conv_fromUnitId c).

Lemma direct_sym ids existing a b :
  symmetric existing -> direct ids existing a b -> direct ids existing b a.
Proof.
  intros Hsym [[-> Ha]|(c & Hc & [= <- <-])]; [by left|].
  right. by apply Hsym.
Qed.

(** The closure of a symmetric graph is symmetric. *)
Lemma out_symmetric units existing next :
  2 ≤ length units ->
  good_ids (unit_id <$> units) -> good_ids (conv_fromUnitId <$> existing) ->
  symmetric existing -> symmetric (generateCompleteConversions units existing next).1.
Proof.
  intros Hlen Hids Hex Hsym c Hc.
  destruct (out_elem units existing next Hlen c Hc)
    as (f & t & (Hf & Ht & Hhas & Hne)%slots_elem & [= -> ->]%fills_pair).
  assert (unit_id f ∈ unit_id <$> units ∧ unit_id t ∈ unit_id <$> units) as [Hi Hj]
    by (split; by apply list_elem_of_fmap_2).
  apply closure_map_reach in Hhas; [|done..].
  apply (via_sym _ _ _ _ (λ a b, direct_sym _ existing a b Hsym)) in Hhas.
  apply closure_map_reach in Hhas; [|done..].
  destruct (slots_out units existing next Hlen t f) as (r & Hr & Hfill%fills_pair).
  { by apply slots_elem. }
  by exists r.
Qed.

(** ** The output is a fixed point *)

Lemma connects_bool_decide a b (c : Conversion) :
  connects a b c = bool_decide (conv_pair c = (a, b)).
Proof. apply eq_true_iff_eq. by rewrite connects_pair, bool_decide_eq_true. Qed.

(** When every slot has a persisted equation the loop draws no identifier
    and returns those equations. *)
Lemma emit_pairs_found multipliers existing ps next cs :
  Forall2 (λ p c, js_find (connects (unit_id p.1) (unit_id p.2)) existing = Some c)
          (filter (slot multipliers) ps) cs ->
  emit_pairs multipliers existing ps next = (cs, next).
Proof.
  revert cs. induction ps as [|p ps IH]; intros cs.
  { rewrite filter_nil. by intros ->%Forall2_nil_inv_l. }
  rewrite filter_cons. cbn [emit_pairs].
  destruct (decide (slot multipliers p)) as [[[multiplier Hm] Hne]|Hns].
  - intros (c & cs' & Hc & Hcs & ->)%Forall2_cons_inv_l.
    destruct (decide (unit_id p.1 = unit_id p.2)); [done|].
    by rewrite Hm, Hc, (IH cs').
  - intros Hcs. destruct (decide (unit_id p.1 = unit_id p.2)); [by apply IH|].
    destruct (multipliers !! _) as [multiplier|] eqn:Hm; [|by apply IH].
    destruct Hns. split; [by eexists|done].
Qed.

Section fixed_point.
Context (units : list Unit) (existing : list Conversion) (next : nat).
Context (Hlen : 2 ≤ length units).
Local Abbreviation ids := (unit_id <$> units).
Context (Hnd : NoDup ids) (Hids : good_ids ids).
Context (Hex : good_ids (conv_fromUnitId <$> existing)).
Local Abbreviation out := (generateCompleteConversions units existing next).1.
Local Abbreviation slots :=
  (filter (slot (closure_map units existing)) (list_prod units units)).

Lemma out_good_ids : good_ids (conv_fromUnitId <$> out).
Proof.
  apply Forall_forall. intros a (c & -> & Hc)%list_elem_of_fmap.
  apply (good_ids_elem ids); [done|].
  by destruct (out_endpoints units existing next Hlen c Hc).
Qed.

(** An edge of the output is a path of the input. *)
Lemma out_direct_via a b :
  direct ids out a b -> via (direct ids existing) ids a b.
Proof.
  intros [[-> Ha]|(c & Hc & Hab)]; [apply via_edge; by left|].
  destruct (out_elem units existing next Hlen c Hc) as (f & t & Hslot & Hfill%fills_pair).
  apply (slots_elem units existing) in Hslot as (Hf & Ht & Hhas & _).
  rewrite Hab in Hfill. injection Hfill as -> ->.
  apply (proj1 (closure_map_reach units existing _ _ Hids Hex
                  (list_elem_of_fmap_2 unit_id _ _ Hf) (list_elem_of_fmap_2 unit_id _ _ Ht))).
  done.
Qed.

Lemma out_via a b : via (direct ids out) ids a b -> via (direct ids existing) ids a b.
Proof.
  induction 1 as [a b Hab|a k b Hk _ IH1 _ IH2]; [by apply out_direct_via|].
  by apply via_step with k.
Qed.

(** The closure of the output knows the pairs the closure of the input
    knows. *)
Lemma closure_map_out f t :
  f ∈ units -> t ∈ units ->
  has (closure_map units out) (unit_id f) (unit_id t) <->
  has (closure_map units existing) (unit_id f) (unit_id t).
Proof.
  intros Hf Ht.
  assert (unit_id f ∈ ids ∧ unit_id t ∈ ids) as [Hi Hj]
    by (split; by apply list_elem_of_fmap_2).
  rewrite closure_map_reach by (done || apply out_good_ids).
  split; [intros Hv%out_via; by apply closure_map_reach|]. intros Hhas.
  apply via_edge. destruct (decide (unit_id f = unit_id t)) as [Heq|Hne]; [by left|].
  destruct (slots_out units existing next Hlen f t) as (c & Hc & Hfill%fills_pair).
  { by apply slots_elem. }
  right. by exists c.
Qed.

Lemma slots_out_eq :
  filter (slot (closure_map units out)) (list_prod units units) = slots.
Proof.
  apply filter_ext_elem. intros [f t] [Hf Ht]%elem_of_list_prod.
  unfold slot. cbn [fst snd]. by rewrite closure_map_out.
Qed.

(** Every equation of the output is the one [find] returns for its pair. *)
Lemma out_found :
  Forall2 (λ p c, js_find (connects (unit_id p.1) (unit_id p.2)) out = Some c) slots out.
Proof.
  eapply Forall2_impl; [apply Forall2_with_elem_of, (generate_fills units existing next Hlen)|].
  intros p c (Hfill%fills_pair & _ & Hc). cbv beta in *.
  rewrite <- (js_find_NoDup_key conv_pair out c); [|by apply out_NoDup_pairs|done].
  apply js_find_ext. intros y _. by rewrite connects_bool_decide, Hfill.
Qed.

End fixed_point.

(** C3: running the generator on its own output returns the output, equation
    for equation, and draws no identifier. *)
Theorem generate_idempotent units existing next next' :
  2 ≤ length units -> NoDup (unit_id <$> units) ->
  good_ids (unit_id <$> units) -> good_ids (conv_fromUnitId <$> existing) ->
  generateCompleteConversions units
    (generateCompleteConversions units existing next).1 next' =
  ((generateCompleteConversions units existing next).1, next').
Proof.
  intros Hlen Hnd Hids Hex.
  rewrite generate_emit_pairs by done. apply emit_pairs_found.
  rewrite slots_out_eq by done. by apply out_found.
Qed.

(** A group of fewer than two units is returned as it is. *)
Lemma generate_small units existing next :
  length units < 2 -> generateCompleteConversions units existing next = (existing, next).
Proof. intros ?. unfold generateCompleteConversions. by destruct (decide _). Qed.

(** ** Exact multipliers that agree with a scale *)

Section scale.
Context {EN : ExactNumber Num} (scale : string -> Num).
Local Open Scope js_scope.

(** An equation agrees with [scale] when its multiplier is the ratio of
    the scales of its two units: [multiplier * scale to ≈ scale from]. *)
Definition agrees (c : Conversion) : Prop :=
  num_mul (conv_multiplier c) (scale (conv_toUnitId c)) ≈ scale (conv_fromUnitId c).

Definition scaled (m : gmap string Num) : Prop :=
  ∀ a b v, ascii_only a = true -> m !! convKey a b = Some v ->
           num_mul v (scale b) ≈ scale a.

Lemma relax_scaled k i j m :
  ascii_only i = true -> ascii_only k = true -> scaled m -> scaled (relax k i j m).
Proof.
  intros Hi Hk Hm a b v Ha [Hv|(Heq & _ & ik & kj & Hik & Hkj & ->)]%relax_lookup_inv.
  { by apply (Hm a b). }
  apply convKey_inj in Heq as [-> ->]; [|done..].
  rewrite <- num_mul_assoc, (Hm k j kj Hk Hkj). by apply (Hm i k).
Qed.

Lemma relax_all_scaled ids m : good_ids ids -> scaled m -> scaled (relax_all ids m).
Proof.
  intros Hids Hm. apply relax_all_preserves; [done|].
  intros k i j m' Hk Hi Hj. apply relax_scaled; by apply (good_ids_elem ids).
Qed.

Lemma seed_scaled ids existing :
  good_ids ids -> good_ids (conv_fromUnitId <$> existing) -> Forall agrees existing ->
  scaled (seed_identity ids (seed_direct existing)).
Proof.
  intros Hids Hex Hag a b v Ha [Hv|(u & Hu & Heq & ->)]%seed_identity_lookup.
  - apply seed_direct_lookup in Hv as (c & Hc & Heq & ->).
    apply convKey_inj in Heq as [-> ->]; [by apply (proj1 (Forall_forall _ _) Hag)|done|].
    apply (good_ids_elem (conv_fromUnitId <$> existing)); [done|].
    by apply list_elem_of_fmap_2.
  - apply convKey_inj in Heq as [-> ->]; [apply num_mul_1_l|done|].
    by apply (good_ids_elem ids).
Qed.

Lemma closure_map_scaled units existing :
  good_ids (unit_id <$> units) -> good_ids (conv_fromUnitId <$> existing) ->
  Forall agrees existing -> scaled (closure_map units existing).
Proof. intros. unfold closure_map. by apply relax_all_scaled, seed_scaled. Qed.

(** If the persisted multipliers are ratios of one scale per unit, so are
    the multipliers of every equation of the output: on exact numbers the
    closure does not depend on the path it composes. *)
Lemma out_agrees units existing next :
  good_ids (unit_id <$> units) -> good_ids (conv_fromUnitId <$> existing) ->
  Forall agrees existing ->
  Forall agrees (generateCompleteConversions units existing next).1.
Proof.
  intros Hids Hex Hag. destruct (decide (length units < 2)) as [Hlt|Hge].
  { by rewrite generate_small. }
  apply Forall_forall. intros c Hc.
  destruct (out_elem units existing next ltac:(lia) c Hc) as (f & t & Hslot & Hfill).
  apply slots_elem in Hslot as (Hf & _).
  destruct Hfill as [[Hin _]%js_find_Some|(_ & n & m & Hm & ->)].
  - by apply (proj1 (Forall_forall _ _) Hag).
  - apply (closure_map_scaled units existing Hids Hex Hag _ _ _) in Hm; [done|].
    apply (good_ids_elem (unit_id <$> units)); [done|]. by apply list_elem_of_fmap_2.
Qed.

End scale.

End closure.

(** ** The closure on concrete groups *)

Module closure_examples.

Definition u (s : string) : Unit := mkUnit s s s [] "g".
Definition e {Num} (a b : string) (m : Num) : ConversionEquation Num :=
  mkConversion ("e-" +:+ a +:+ "-" +:+ b) a b m "x" "".
Definition uuid (n : nat) : string := "new-" +:+ pretty n.
Definition show {Num} (_ : Num) : string := "m".
Definition abc : list Unit := [u "A"; u "B"; u "C"].
Definition abcd : list Unit := [u "A"; u "B"; u "C"; u "D"].
Definition acbd : list Unit := [u "A"; u "C"; u "B"; u "D"].
Definition forward : list (ConversionEquation Q) := [e "A" "B" 2%Q; e "B" "C" 3%Q].
(** Two routes from A to D whose products differ. *)
Definition diamond : list (ConversionEquation Q) :=
  [e "A" "B" 2%Q; e "B" "D" 3%Q; e "A" "C" 5%Q; e "C" "D" 7%Q].
(** The scale of a group whose base unit is C: A is 6 C, B is 3 C. *)
Definition abc_scale (s : string) : Q :=
  if decide (s = "A") then 6%Q else if decide (s = "B") then 3%Q else 1%Q.

(** Units A, B, C with A→B (×2) and B→C (×3): the closure adds A→C (×6)
    and nothing else. *)
Example closure_forward :
  (generateCompleteConversions uuid show abc forward 0).1 =
  [e "A" "B" 2%Q; new_conversion uuid show 0 (u "A") (u "C") 6%Q; e "B" "C" 3%Q].
Proof. vm_compute. reflexivity. Qed.

(** With B→A (×0.5) and C→B (×1/3) also supplied, C→A is ×(1/6), and the
    six equations come in the order of the pairs of units. *)
Example closure_inverse :
  (generateCompleteConversions uuid show abc
     (forward ++ [e "B" "A" (1 # 2)%Q; e "C" "B" (1 # 3)%Q]) 0) =
  ([e "A" "B" 2%Q; new_conversion uuid show 0 (u "A") (u "C") 6%Q;
    e "B" "A" (1 # 2)%Q; e "B" "C" 3%Q;
    new_conversion uuid show 1 (u "C") (u "A") (1 # 6)%Q; e "C" "B" (1 # 3)%Q], 2).
Proof. vm_compute. reflexivity. Qed.

(** The same group on JavaScript's numbers: the multiplier of C→A is the
    double nearest to 1/6. *)
Example closure_float :
  (generateCompleteConversions uuid show abc
     [e "A" "B" 2%float; e "B" "C" 3%float; e "B" "A" 0.5%float;
      e "C" "B" (1 / 3)%float] 0).1 =
  [e "A" "B" 2%float; new_conversion uuid show 0 (u "A") (u "C") 6%float;
   e "B" "A" 0.5%float; e "B" "C" 3%float;
   new_conversion uuid show 1 (u "C") (u "A") (1 / 6)%float; e "C" "B" (1 / 3)%float].
Proof. vm_compute. reflexivity. Qed.

(** First write wins, so the multiplier the closure derives for a pair
    depends on the order of the units of the group when the persisted
    multipliers disagree: A→D is 2 × 3 when B comes before C and 5 × 7 when
    C comes before B. *)
Example closure_order_dependent :
  closure_map abcd diamond !! convKey "A" "D" = Some 6%Q ∧
  closure_map acbd diamond !! convKey "A" "D" = Some 35%Q.
Proof. split; vm_compute; reflexivity. Qed.

(** With two persisted equations for one pair the map is seeded with the
    multiplier of the last and the output keeps the first: the derived
    A→C composes ×4 with ×3 while the output says A→B is ×2. *)
Example closure_duplicate_pair :
  (generateCompleteConversions uuid show abc (e "A" "B" 2%Q :: e "A" "B" 4%Q :: [e "B" "C" 3%Q])
     0).1 =
  [e "A" "B" 2%Q; new_conversion uuid show 0 (u "A") (u "C") 12%Q; e "B" "C" 3%Q].
Proof. vm_compute. reflexivity. Qed.

(** A group of one unit keeps whatever equations it has, more than
    [1 * (1 - 1)] of them. *)
Example closure_single_unit :
  (generateCompleteConversions uuid show [u "A"] forward 0).1 = forward.
Proof. reflexivity. Qed.

Lemma generate_bound_witness :
  length (generateCompleteConversions uuid show abc forward 0).1
    ≤ length abc * (length abc - 1).
Proof. apply generate_bound. cbn. lia. Defined.

Lemma generate_wellformed_witness :
  NoDup (conv_pair <$> (generateCompleteConversions uuid show abc forward 0).1) ∧
  Forall (λ c, conv_fromUnitId c ∈ unit_id <$> abc ∧ conv_toUnitId c ∈ unit_id <$> abc ∧
               conv_fromUnitId c ≠ conv_toUnitId c)
         (generateCompleteConversions uuid show abc forward 0).1.
Proof. apply generate_wellformed; [cbn; lia|compute_done]. Defined.

Lemma generate_keeps_existing_witness :
  e "B" "C" 3%Q ∈ (generateCompleteConversions uuid show abc forward 0).1.
Proof.
  apply (generate_keeps_existing uuid show abc forward 0 (u "B") (u "C"));
    [cbn; lia|compute_done..|done|reflexivity].
Defined.

Lemma generate_reach_witness :
  (∃ c, c ∈ (generateCompleteConversions uuid show abc forward 0).1 ∧
        conv_pair c = (unit_id (u "A"), unit_id (u "C"))) <->
  via (direct (unit_id <$> abc) forward) (unit_id <$> abc) (unit_id (u "A")) (unit_id (u "C")).
Proof. apply generate_reach; [cbn; lia|compute_done..|done]. Defined.

Lemma generate_idempotent_witness :
  generateCompleteConversions uuid show abc
    (generateCompleteConversions uuid show abc forward 0).1 7 =
  ((generateCompleteConversions uuid show abc forward 0).1, 7).
Proof. apply generate_idempotent; [cbn; lia|compute_done..]. Defined.

(** The equations of the closure of [forward] are ratios of [abc_scale]. *)
Example closure_forward_agrees :
  Forall (agrees abc_scale) (generateCompleteConversions uuid show abc forward 0).1.
Proof.
  apply out_agrees; [compute_done..|].
  unfold forward. repeat (apply Forall_cons_2; [by vm_compute|]). apply Forall_nil_2.
Qed.

End closure_examples.
