(* ===== verification/Consistency.v ===== *)
(** * Consistency: the inverse check and the driver of the closure

    [validateConversions] and [ensureCompleteConversions] of
    [src/postprocess/ensureCompleteConversions.ts] (in [src/src/main.ts],
    lines 283-307 and 312-387).  The validator counts in [valid] and
    [issues] and writes its warnings with [console.warn]; here the warnings
    are the third field of the [Report] it returns.  The driver reads the
    registry, passes every group with fewer than [n * (n - 1)] equations to
    the closure, and writes the registry back with its metadata; here it is
    a left fold over the groups that threads the groups written so far, the
    three counters of the summary and the counter of the UUID supply.

    The file proves: the validator is a map of a verdict over the edges;
    every edge is counted once; with one equation per ordered pair every
    edge with a reverse is within tolerance or in the warnings; exact
    multipliers that agree with a scale never mismatch; the driver keeps the
    groups and their units, accounts for every equation, bounds the groups
    it completes, and is idempotent. *)

From Stdlib Require Import QArith.
From stdpp Require Import gmap strings list pretty.
From S2P Require Import Spec2Rocq JsNumber Schemas Closure.

Section consistency.
Context {Num : Type} {JN : JsNumber Num}.
Context (uuid : nat -> string) (show : Num -> string).

Local Abbreviation Conversion := (ConversionEquation Num).

(** The two [console.warn] lines of the validator. *)
Inductive Warning : Type :=
| InverseMismatch (fromUnitId toUnitId : string) (product : Num)
| MissingReverse (fromUnitId toUnitId : string).

(** [{ valid, issues }] with the warnings written on the way. *)
Record Report : Type := mkReport {
  report_valid : nat;
  report_issues : nat;
  report_warnings : list Warning;
}.

(** Lines 288-290:
    [conversions.find(c => c.fromUnitId === conv.toUnitId && c.toUnitId === conv.fromUnitId)]. *)
Definition find_reverse (conversions : list Conversion) (conv : Conversion) :
    option Conversion :=
  js_find (connects (conv_toUnitId conv) (conv_fromUnitId conv)) conversions.

(** Lines 287-303, the body of the loop. *)
Definition check_conversion (conversions : list Conversion) (r : Report)
    (conv : Conversion) : Report :=
  match find_reverse conversions conv with
  | Some reverse =>
      let product := num_mul (conv_multiplier conv) (conv_multiplier reverse) in
      if near_one product then
        {| report_valid := S (report_valid r);
           report_issues := report_issues r;
           report_warnings := report_warnings r |}
      else
        {| report_valid := report_valid r;
           report_issues := S (report_issues r);
           report_warnings :=
             report_warnings r ++
             [InverseMismatch (conv_fromUnitId conv) (conv_toUnitId conv) product] |}
  | None =>
      {| report_valid := report_valid r;
         report_issues := S (report_issues r);
         report_warnings :=
           report_warnings r ++ [MissingReverse (conv_fromUnitId conv) (conv_toUnitId conv)] |}
  end.

(** Lines 283-307. *)
Definition validateConversions (conversions : list Conversion) : Report :=
  foldl (check_conversion conversions) (mkReport 0 0 []) conversions.

(** The three counters of the summary.  [totalGenerated] adds
    [completeConversions.length - originalCount], which is negative when
    the closure returns fewer equations than the group had. *)
Record Summary : Type := mkSummary {
  totalOriginal : nat;
  totalGenerated : Z;
  groupsFixed : nat;
}.

(** The state of the driver's loop: the groups visited so far as they will
    be written, the summary, the number of identifiers drawn, and the
    reports of the validator, one per completed group. *)
Record Pass : Type := mkPass {
  run_groups : list (UnitGroup Num);
  run_summary : Summary;
  run_next : nat;
  run_log : list Report;
}.

(** Line 331: [allUnits.filter(u => group.unitIds.includes(u.id))]. *)
Definition groupUnitsOf (allUnits : list Unit) (group : UnitGroup Num) : list Unit :=
  filter (λ u, unit_id u ∈ group_unitIds group) allUnits.

(** Line 333: [groupUnits.length * (groupUnits.length - 1)]. *)
Definition expectedCount (groupUnits : list Unit) : nat :=
  length groupUnits * (length groupUnits - 1).

(** Lines 330-360, the body of the loop over the groups. *)
Definition fix_group (allUnits : list Unit) (st : Pass) (group : UnitGroup Num) : Pass :=
  let groupUnits := groupUnitsOf allUnits group in
  let originalCount := length (group_conversions group) in
  if decide (originalCount < expectedCount groupUnits) then
    let r := generateCompleteConversions uuid show groupUnits (group_conversions group)
               (run_next st) in
    let completeConversions := r.1 in
    let added := (Z.of_nat (length completeConversions) - Z.of_nat originalCount)%Z in
    {| run_groups := run_groups st ++ [set_conversions completeConversions group];
       run_summary :=
         {| totalOriginal := totalOriginal (run_summary st) + originalCount;
            totalGenerated := (totalGenerated (run_summary st) + added)%Z;
            groupsFixed := S (groupsFixed (run_summary st)) |};
       run_next := r.2;
       run_log := run_log st ++ [validateConversions completeConversions] |}
  else
    {| run_groups := run_groups st ++ [group];
       run_summary :=
         {| totalOriginal := totalOriginal (run_summary st) + originalCount;
            totalGenerated := totalGenerated (run_summary st);
            groupsFixed := groupsFixed (run_summary st) |};
       run_next := run_next st;
       run_log := run_log st |}.

(** Lines 312-387: the loop from an empty summary, and the file written. *)
Definition ensureCompleteConversions (data : Registry Num) (next : nat) :
    MasterFile Num * Pass :=
  let run := foldl (fix_group (reg_units data)) (mkPass [] (mkSummary 0 0 0) next [])
                   (reg_unitGroups data) in
  (master_file (reg_units data) (run_groups run), run).

(** ** The validator as a map of verdicts *)

(** What the loop decides for one edge: [None] when it counts the edge as
    valid, the warning it writes otherwise. *)
Definition verdict (conversions : list Conversion) (conv : Conversion) : option Warning :=
  match find_reverse conversions conv with
  | Some reverse =>
      let product := num_mul (conv_multiplier conv) (conv_multiplier reverse) in
      if near_one product then None
      else Some (InverseMismatch (conv_fromUnitId conv) (conv_toUnitId conv) product)
  | None => Some (MissingReverse (conv_fromUnitId conv) (conv_toUnitId conv))
  end.

Lemma check_conversion_verdict cs r c :
  check_conversion cs r c =
  match verdict cs c with
  | None => mkReport (S (report_valid r)) (report_issues r) (report_warnings r)
  | Some w => mkReport (report_valid r) (S (report_issues r)) (report_warnings r ++ [w])
  end.
Proof.
  unfold check_conversion, verdict. destruct (find_reverse cs c); [|done].
  cbv zeta. by destruct (near_one _).
Qed.

Lemma validate_fold cs l r :
  foldl (check_conversion cs) r l =
  mkReport (report_valid r + length (filter (λ c, verdict cs c = None) l))
           (report_issues r + length (omap (verdict cs) l))
           (report_warnings r ++ omap (verdict cs) l).
Proof.
  revert r. induction l as [|c l IH]; intros r.
  { destruct r. cbn. by rewrite !Nat.add_0_r, app_nil_r. }
  cbn [foldl]. rewrite IH, check_conversion_verdict, filter_cons. cbn [omap list_omap].
  destruct (verdict cs c) as [w|] eqn:Hv; cbn [report_valid report_issues report_warnings].
  - destruct (decide (Some w = None)); [done|]. cbn [length].
    f_equal; [lia|by rewrite <- app_assoc].
  - destruct (decide (None = None)); [|done]. cbn [length]. f_equal; lia.
Qed.

Lemma verdict_partition cs l :
  length (filter (λ c, verdict cs c = None) l) + length (omap (verdict cs) l) = length l.
Proof.
  induction l as [|c l IH]; [done|]. rewrite filter_cons. cbn [omap list_omap].
  destruct (verdict cs c) as [w|]; destruct (decide _); try done; cbn [length]; lia.
Qed.

(** The loop returns the number of edges without a verdict, the number of
    verdicts, and the verdicts in the order of the edges. *)
Theorem validate_verdicts conversions :
  validateConversions conversions =
  mkReport (length (filter (λ c, verdict conversions c = None) conversions))
           (length (omap (verdict conversions) conversions))
           (omap (verdict conversions) conversions).
Proof. unfold validateConversions. by rewrite validate_fold. Qed.

(** Every edge is counted once, as valid or as an issue, and every issue
    has its warning. *)
Theorem validate_total conversions :
  report_valid (validateConversions conversions) +
  report_issues (validateConversions conversions) = length conversions ∧
  report_issues (validateConversions conversions) =
  length (report_warnings (validateConversions conversions)).
Proof.
  unfold validateConversions. rewrite validate_fold.
  cbn [report_valid report_issues report_warnings]. split; [|done].
  cbn. apply verdict_partition.
Qed.

Lemma validate_warnings_elem cs w :
  w ∈ report_warnings (validateConversions cs) <->
  ∃ c, c ∈ cs ∧ verdict cs c = Some w.
Proof.
  unfold validateConversions. rewrite validate_fold. cbn [report_warnings app].
  apply list_elem_of_omap.
Qed.

(** With one equation per ordered pair, [find] returns the reverse. *)
Lemma find_reverse_NoDup cs conv reverse :
  NoDup (conv_pair <$> cs) -> reverse ∈ cs ->
  conv_pair reverse = (conv_toUnitId conv, conv_fromUnitId conv) ->
  find_reverse cs conv = Some reverse.
Proof.
  intros Hnd Hr Hpair. unfold find_reverse.
  rewrite <- (js_find_NoDup_key conv_pair cs reverse) by done.
  apply js_find_ext. intros y _. by rewrite connects_bool_decide, Hpair.
Qed.

(** C4: for every edge with a reverse edge, the product of the two multipliers
    is within the tolerance or the pair is in the warnings, provided no
    ordered pair has two equations. *)
Theorem validate_reverse_checked conversions conv reverse :
  NoDup (conv_pair <$> conversions) -> conv ∈ conversions -> reverse ∈ conversions ->
  conv_pair reverse = (conv_toUnitId conv, conv_fromUnitId conv) ->
  near_one (num_mul (conv_multiplier conv) (conv_multiplier reverse)) = true ∨
  InverseMismatch (conv_fromUnitId conv) (conv_toUnitId conv)
    (num_mul (conv_multiplier conv) (conv_multiplier reverse))
    ∈ report_warnings (validateConversions conversions).
Proof.
  intros Hnd Hc Hr Hpair.
  destruct (near_one _) eqn:Hnear; [by left|right].
  apply validate_warnings_elem. exists conv. split; [done|].
  unfold verdict. rewrite (find_reverse_NoDup _ _ reverse) by done. cbv zeta.
  by rewrite Hnear.
Qed.

(** An edge is reported as missing its reverse exactly when no equation
    goes the other way. *)
Theorem validate_missing conversions f t :
  MissingReverse f t ∈ report_warnings (validateConversions conversions) <->
  ∃ conv, conv ∈ conversions ∧ conv_pair conv = (f, t) ∧
          Forall (λ c, conv_pair c ≠ (t, f)) conversions.
Proof.
  rewrite validate_warnings_elem. unfold verdict, find_reverse.
  split; intros (c & Hc & H); exists c; (split; [done|]).
  - destruct (js_find _ _) eqn:Hfind; [by destruct (near_one _)|].
    injection H as <- <-. split; [done|]. apply Forall_forall. intros c' Hc' Hpair.
    apply connects_pair in Hpair.
    by rewrite (proj1 (js_find_None _ _) Hfind c' Hc') in Hpair.
  - destruct H as [[= <- <-] Hall].
    rewrite (proj2 (js_find_None _ _)); [done|]. intros c' Hc'.
    apply not_true_is_false. rewrite connects_pair.
    by apply (proj1 (Forall_forall _ _) Hall).
Qed.

(** ** Exact multipliers *)

Definition is_missing (w : Warning) : Prop :=
  match w with
  | MissingReverse _ _ => True
  | InverseMismatch _ _ _ => False
  end.

Section exact.
Context {EN : ExactNumber Num} (scale : string -> Num).
Local Open Scope js_scope.

(** Two opposite equations that are ratios of the same scale pass the
    inverse check. *)
Lemma agrees_inverse c r :
  agrees scale c -> agrees scale r ->
  conv_pair r = (conv_toUnitId c, conv_fromUnitId c) ->
  ¬ scale (conv_fromUnitId c) ≈ num_zero ->
  near_one (num_mul (conv_multiplier c) (conv_multiplier r)) = true.
Proof.
  unfold agrees. intros Hc Hr [= Hrf Hrt] Hnz. rewrite Hrf, Hrt in Hr.
  rewrite (num_mul_cancel _ (scale (conv_fromUnitId c))); [apply near_one_one|done|].
  by rewrite <- num_mul_assoc, Hr.
Qed.

Lemma verdict_agrees cs c w :
  Forall (agrees scale) cs -> c ∈ cs -> ¬ scale (conv_fromUnitId c) ≈ num_zero ->
  verdict cs c = Some w -> is_missing w.
Proof.
  intros Hag Hc Hnz. unfold verdict.
  destruct (find_reverse cs c) as [r|] eqn:Hfind; [|by intros [= <-]].
  apply js_find_Some in Hfind as [Hr Hpair%connects_pair]. cbv zeta.
  rewrite agrees_inverse; [done| | |done..]; by apply (proj1 (Forall_forall _ _) Hag).
Qed.

(** Equations that are ratios of one non-zero scale never mismatch: every
    warning is a missing reverse. *)
Lemma warnings_missing cs :
  Forall (agrees scale) cs ->
  Forall (λ c, ¬ scale (conv_fromUnitId c) ≈ num_zero) cs ->
  Forall is_missing (report_warnings (validateConversions cs)).
Proof.
  intros Hag Hnz. apply Forall_forall. intros w (c & Hc & Hv)%validate_warnings_elem.
  apply (verdict_agrees cs c w); [done..| |done].
  by apply (proj1 (Forall_forall _ _) Hnz).
Qed.

Section closed.
Context (units : list Unit) (existing : list Conversion) (next : nat).
Context (Hlen : 2 ≤ length units).
Context (Hids : good_ids (unit_id <$> units)).
Context (Hex : good_ids (conv_fromUnitId <$> existing)).
Context (Hag : Forall (agrees scale) existing).
Context (Hnz : Forall (λ u, ¬ scale (unit_id u) ≈ num_zero) units).
Local Abbreviation out := (generateCompleteConversions uuid show units existing next).1.

Lemma out_nonzero : Forall (λ c, ¬ scale (conv_fromUnitId c) ≈ num_zero) out.
Proof using Hlen Hnz.
  apply Forall_forall. intros c Hc.
  destruct (out_endpoints uuid show units existing next Hlen c Hc)
    as [(u & -> & Hu)%list_elem_of_fmap _].
  by apply (proj1 (Forall_forall _ _) Hnz).
Qed.

Lemma out_verdict_None c :
  symmetric existing -> c ∈ out -> verdict out c = None.
Proof using All.
  intros Hsym Hc.
  destruct (out_symmetric uuid show units existing next Hlen Hids Hex Hsym c Hc)
    as (r & Hr & Hpair).
  assert (is_Some (find_reverse out c)) as [r' Hfind].
  { apply js_find_is_Some. exists r. split; [done|]. by apply connects_pair. }
  unfold verdict. rewrite Hfind. cbv zeta.
  apply js_find_Some in Hfind as [Hr' Hpair'%connects_pair].
  pose proof (out_agrees uuid show scale units existing next Hids Hex Hag) as Hout.
  rewrite agrees_inverse; [done| | |done|]; try by apply (proj1 (Forall_forall _ _) Hout).
  by apply (proj1 (Forall_forall _ _) out_nonzero).
Qed.

End closed.

(** C12: the closure of equations that are ratios of one non-zero scale passes
    the inverse check on every pair that has both directions: the validator
    reports missing reverses only. *)
Theorem closure_consistent units existing next :
  2 ≤ length units ->
  good_ids (unit_id <$> units) -> good_ids (conv_fromUnitId <$> existing) ->
  Forall (agrees scale) existing ->
  Forall (λ u, ¬ scale (unit_id u) ≈ num_zero) units ->
  Forall is_missing
    (report_warnings
       (validateConversions (generateCompleteConversions uuid show units existing next).1)).
Proof.
  intros Hlen Hids Hex Hag Hnz.
  apply warnings_missing; [by apply out_agrees|by apply out_nonzero].
Qed.

(** If moreover every persisted equation has its reverse, the validator
    counts every equation of the closure as valid and reports nothing. *)
Theorem closure_symmetric_valid units existing next :
  2 ≤ length units ->
  good_ids (unit_id <$> units) -> good_ids (conv_fromUnitId <$> existing) ->
  Forall (agrees scale) existing ->
  Forall (λ u, ¬ scale (unit_id u) ≈ num_zero) units ->
  symmetric existing ->
  validateConversions (generateCompleteConversions uuid show units existing next).1 =
  mkReport (length (generateCompleteConversions uuid show units existing next).1) 0 [].
Proof.
  intros Hlen Hids Hex Hag Hnz Hsym. unfold validateConversions. rewrite validate_fold.
  rewrite omap_none by (intros c Hc; by apply out_verdict_None).
  rewrite filter_all; [done|]. intros c Hc. by apply out_verdict_None.
Qed.

End exact.

(** ** The driver against its recursive definition *)

(** Line 339, [originalCount < expectedCount]. *)
Definition needs_fix (allUnits : list Unit) (group : UnitGroup Num) : Prop :=
  length (group_conversions group) < expectedCount (groupUnitsOf allUnits group).

#[export] Instance needs_fix_dec allUnits group : Decision (needs_fix allUnits group).
Proof. unfold needs_fix. apply _. Defined.

(** What the driver writes for one group, with the number of identifiers
    drawn after it. *)
Definition fixed (allUnits : list Unit) (next : nat) (group : UnitGroup Num) :
    UnitGroup Num * nat :=
  if decide (needs_fix allUnits group) then
    let r := generateCompleteConversions uuid show (groupUnitsOf allUnits group)
               (group_conversions group) next in
    (set_conversions r.1 group, r.2)
  else (group, next).

Fixpoint fix_groups (allUnits : list Unit) (next : nat) (groups : list (UnitGroup Num)) :
    list (UnitGroup Num) * nat :=
  match groups with
  | [] => ([], next)
  | g :: gs =>
      let r := fix_groups allUnits (fixed allUnits next g).2 gs in
      ((fixed allUnits next g).1 :: r.1, r.2)
  end.

Lemma fix_group_fixed allUnits st g :
  run_groups (fix_group allUnits st g) = run_groups st ++ [(fixed allUnits (run_next st) g).1] ∧
  run_next (fix_group allUnits st g) = (fixed allUnits (run_next st) g).2.
Proof. unfold fix_group, fixed, needs_fix. by destruct (decide _). Qed.

Lemma fold_fix_groups allUnits gs st :
  run_groups (foldl (fix_group allUnits) st gs) =
    run_groups st ++ (fix_groups allUnits (run_next st) gs).1 ∧
  run_next (foldl (fix_group allUnits) st gs) = (fix_groups allUnits (run_next st) gs).2.
Proof.
  revert st. induction gs as [|g gs IH]; intros st; [by rewrite app_nil_r|].
  cbn [foldl fix_groups fst snd]. destruct (IH (fix_group allUnits st g)) as [-> ->].
  destruct (fix_group_fixed allUnits st g) as [-> ->]. by rewrite <- app_assoc.
Qed.

(** The groups the driver writes are the groups [fix_groups] computes. *)
Lemma ensure_file data next :
  (ensureCompleteConversions data next).1 =
  master_file (reg_units data) (fix_groups (reg_units data) next (reg_unitGroups data)).1.
Proof.
  unfold ensureCompleteConversions. cbn [fst].
  by destruct (fold_fix_groups (reg_units data) (reg_unitGroups data)
                 (mkPass [] (mkSummary 0 0 0) next [])) as [-> _].
Qed.

Lemma ensure_next data next :
  run_next (ensureCompleteConversions data next).2 =
  (fix_groups (reg_units data) next (reg_unitGroups data)).2.
Proof.
  unfold ensureCompleteConversions. cbn [snd].
  by destruct (fold_fix_groups (reg_units data) (reg_unitGroups data)
                 (mkPass [] (mkSummary 0 0 0) next [])) as [_ ->].
Qed.

(** A group is written with its identifier, name, description, base unit
    and units; a group that has its [n * (n - 1)] equations is written as
    it was read. *)
Lemma fixed_frame allUnits next g :
  set_conversions [] (fixed allUnits next g).1 = set_conversions [] g ∧
  (¬ needs_fix allUnits g -> fixed allUnits next g = (g, next)).
Proof. unfold fixed. by destruct (decide _). Qed.

(** A group the driver completes has at most [n * (n - 1)] equations. *)
Lemma fixed_bound allUnits next g :
  needs_fix allUnits g ->
  length (group_conversions (fixed allUnits next g).1)
    ≤ expectedCount (groupUnitsOf allUnits g).
Proof.
  intros Hfix. unfold fixed. destruct (decide _); [|done]. cbn.
  assert (2 ≤ length (groupUnitsOf allUnits g)).
  { unfold needs_fix, expectedCount in Hfix.
    destruct (length (groupUnitsOf allUnits g)) as [|[|k]]; cbn in Hfix; lia. }
  rewrite out_length by done. apply slots_bound.
Qed.

Lemma fix_groups_Forall2 (R : UnitGroup Num -> UnitGroup Num -> Prop) allUnits gs next :
  (∀ n g, g ∈ gs -> R g (fixed allUnits n g).1) ->
  Forall2 R gs (fix_groups allUnits next gs).1.
Proof.
  revert next. induction gs as [|g gs IH]; intros next HR; [constructor|].
  cbn [fix_groups fst]. constructor; [apply HR; left|].
  apply IH. intros n g' Hg'. apply HR. by right.
Qed.

(** The driver changes nothing but the equations of the groups it
    completes: the units are written as read, every group keeps its other
    fields, and a group that has its [n * (n - 1)] equations is written as
    it was read. *)
Theorem ensure_frame data next :
  file_units (ensureCompleteConversions data next).1 = reg_units data ∧
  Forall2 (λ g g', set_conversions [] g' = set_conversions [] g ∧
                   (¬ needs_fix (reg_units data) g -> g' = g))
          (reg_unitGroups data) (file_unitGroups (ensureCompleteConversions data next).1).
Proof.
  split; [done|]. rewrite ensure_file. cbn [master_file file_unitGroups].
  apply fix_groups_Forall2. intros n g _.
  destruct (fixed_frame (reg_units data) n g) as [Heq Hsame].
  split; [done|]. intros Hno. by rewrite Hsame.
Qed.

(** Every group the driver completes is written with at most
    [n * (n - 1)] equations, [n] the number of its units in the registry. *)
Theorem ensure_bound data next :
  Forall2 (λ g g', needs_fix (reg_units data) g ->
                   length (group_conversions g')
                     ≤ expectedCount (groupUnitsOf (reg_units data) g))
          (reg_unitGroups data) (file_unitGroups (ensureCompleteConversions data next).1).
Proof.
  rewrite ensure_file. cbn [master_file file_unitGroups].
  apply fix_groups_Forall2. intros n g _. apply fixed_bound.
Qed.

(** ** The summary *)

(** The counters agree with the groups visited: [gs] are the groups read
    so far. *)
Definition accounted (st : Pass)(gs : list (UnitGroup Num)) : Prop :=
  (Z.of_nat (totalOriginal (run_summary st)) + totalGenerated (run_summary st) =
   Z.of_nat (total_conversions (run_groups st)))%Z ∧
  totalOriginal (run_summary st) = total_conversions gs ∧
  groupsFixed (run_summary st) = length (run_log st) ∧
  length (run_groups st) = length gs.

Lemma total_conversions_snoc (gs : list (UnitGroup Num)) g :
  total_conversions (gs ++ [g]) = total_conversions gs + length (group_conversions g).
Proof. rewrite total_conversions_app. unfold total_conversions at 2. by cbn. Qed.

Lemma fix_group_accounted allUnits st gs g :
  accounted st gs -> accounted (fix_group allUnits st g) (gs ++ [g]).
Proof.
  intros (Hsum & Horig & Hfixed & Hlen). unfold accounted, fix_group.
  destruct (decide _); cbn [run_summary run_groups run_log totalOriginal totalGenerated
                              groupsFixed];
    rewrite !total_conversions_snoc, !length_app; cbn [group_conversions set_conversions length];
    split_and!; lia.
Qed.

Lemma fold_accounted allUnits gs st gs0 :
  accounted st gs0 -> accounted (foldl (fix_group allUnits) st gs) (gs0 ++ gs).
Proof.
  revert st gs0. induction gs as [|g gs IH]; intros st gs0 Hst; [by rewrite app_nil_r|].
  cbn [foldl]. rewrite cons_middle, (assoc_L (++)). by apply IH, fix_group_accounted.
Qed.

(** The summary accounts for every equation: the original and the
    generated equations add up to the total written in the metadata, the
    original ones are those read, and one report is logged per completed
    group. *)
Theorem ensure_accounting data next :
  accounted (ensureCompleteConversions data next).2 (reg_unitGroups data) ∧
  file_metadata (ensureCompleteConversions data next).1 =
  mkMetadata (length (reg_units data)) (length (reg_unitGroups data))
             (total_conversions (run_groups (ensureCompleteConversions data next).2)).
Proof.
  pose proof (fold_accounted (reg_units data) (reg_unitGroups data)
                (mkPass [] (mkSummary 0 0 0) next []) []) as Hacc.
  split; [by apply Hacc|]. unfold ensureCompleteConversions, master_file.
  cbn [fst snd file_metadata]. f_equal. by apply Hacc.
Qed.

(** ** Running the driver again *)

Lemma groupUnits_NoDup allUnits (g : UnitGroup Num) :
  NoDup (unit_id <$> allUnits) -> NoDup (unit_id <$> groupUnitsOf allUnits g).
Proof. intros Hnd. eapply sublist_NoDup; [done|]. apply fmap_sublist, sublist_filter. Qed.

Lemma groupUnits_good allUnits (g : UnitGroup Num) :
  good_ids (unit_id <$> allUnits) -> good_ids (unit_id <$> groupUnitsOf allUnits g).
Proof.
  unfold good_ids. rewrite !Forall_fmap. intros Hall. apply Forall_forall.
  intros u [_ Hu]%list_elem_of_filter. by apply (proj1 (Forall_forall _ _) Hall).
Qed.

Lemma needs_fix_two allUnits (g : UnitGroup Num) :
  needs_fix allUnits g -> 2 ≤ length (groupUnitsOf allUnits g).
Proof.
  unfold needs_fix, expectedCount.
  destruct (length (groupUnitsOf allUnits g)) as [|[|k]]; cbn; lia.
Qed.

(** The well-formedness of a registry the idempotence rests on: distinct
    ASCII unit identifiers, and ASCII source identifiers in the equations. *)
Definition registry_ok (data : Registry Num) : Prop :=
  NoDup (unit_id <$> reg_units data) ∧ good_ids (unit_id <$> reg_units data) ∧
  Forall (λ g, good_ids (conv_fromUnitId <$> group_conversions g)) (reg_unitGroups data).

Lemma fixed_idem allUnits n n' g :
  NoDup (unit_id <$> allUnits) -> good_ids (unit_id <$> allUnits) ->
  good_ids (conv_fromUnitId <$> group_conversions g) ->
  fixed allUnits n' (fixed allUnits n g).1 = ((fixed allUnits n g).1, n').
Proof.
  intros Hnd Hids Hex. unfold fixed at 2 3.
  destruct (decide (needs_fix allUnits g)) as [Hfix|Hno]; cbn [fst];
    unfold fixed; destruct (decide _) as [Hfix'|]; try done.
  change (groupUnitsOf allUnits (set_conversions _ g)) with (groupUnitsOf allUnits g).
  cbn [group_conversions set_conversions].
  pose proof (needs_fix_two _ _ Hfix) as Hlen.
  pose proof (groupUnits_NoDup allUnits g Hnd) as Hnd'.
  pose proof (groupUnits_good allUnits g Hids) as Hids'.
  rewrite (generate_emit_pairs uuid show (groupUnitsOf allUnits g) _ n') by done.
  rewrite (emit_pairs_found uuid show _ _ _ n'
             (generateCompleteConversions uuid show (groupUnitsOf allUnits g)
                (group_conversions g) n).1); [done|].
  rewrite slots_out_eq by done. by apply out_found.
Qed.

Lemma fix_groups_idem allUnits gs n n' :
  NoDup (unit_id <$> allUnits) -> good_ids (unit_id <$> allUnits) ->
  Forall (λ g, good_ids (conv_fromUnitId <$> group_conversions g)) gs ->
  fix_groups allUnits n' (fix_groups allUnits n gs).1 = ((fix_groups allUnits n gs).1, n').
Proof.
  intros Hnd Hids. revert n n'. induction gs as [|g gs IH]; intros n n' Hgs; [done|].
  apply Forall_cons in Hgs as [Hg Hgs]. cbn [fix_groups fst snd].
  by rewrite fixed_idem, IH.
Qed.

(** The registry a later run reads from the file this run wrote. *)
Definition reread (file : MasterFile Num) : Registry Num :=
  mkRegistry (file_units file) (file_unitGroups file).

(** Running the driver on the registry it wrote writes the same registry
    and draws no identifier. *)
Theorem ensure_idempotent data next next' :
  registry_ok data ->
  (ensureCompleteConversions (reread (ensureCompleteConversions data next).1) next').1 =
    (ensureCompleteConversions data next).1 ∧
  run_next (ensureCompleteConversions (reread (ensureCompleteConversions data next).1) next').2
    = next'.
Proof.
  intros (Hnd & Hids & Hgs). rewrite !ensure_file, ensure_next.
  cbn [reread reg_units reg_unitGroups file_units file_unitGroups master_file].
  by rewrite fix_groups_idem.
Qed.

End consistency.

(** ** The validator and the driver on concrete registries *)

Module consistency_examples.
Import closure_examples.

Definition inverse : list (ConversionEquation Q) :=
  forward ++ [e "B" "A" (1 # 2)%Q; e "C" "B" (1 # 3)%Q].

(** Two equations per ordered pair, each within one per cent of the first
    equation the other way. *)
Definition doubled : list (ConversionEquation Q) :=
  [e "A" "B" 1%Q; e "B" "A" 1%Q; e "A" "B" (1009 # 1000)%Q; e "B" "A" (1009 # 1000)%Q].

Definition group (unitIds : list string) (cs : list (ConversionEquation Q)) : UnitGroup Q :=
  mkUnitGroup "ug-g" "g" "" None unitIds cs.

(** A registry of three units in one group with [A→B] twice and an
    equation between units that are not in the registry. *)
Definition untidy : Registry Q :=
  mkRegistry abc [group ["A"; "B"; "C"] [e "A" "B" 2%Q; e "A" "B" 2%Q; e "X" "Y" 5%Q]].

Definition tidy : Registry Q :=
  mkRegistry abc [group ["A"; "B"; "C"] forward; group ["A"] forward].

(** The closure of the four persisted equations validates: six edges, no
    issue. *)
Example validate_inverse :
  validateConversions (generateCompleteConversions uuid show abc inverse 0).1 = mkReport 6 0 [].
Proof. vm_compute. reflexivity. Qed.

(** Without the reverse equations every edge of the closure is reported. *)
Example validate_forward :
  validateConversions (generateCompleteConversions uuid show abc forward 0).1 =
  mkReport 0 3 [MissingReverse "A" "B"; MissingReverse "A" "C"; MissingReverse "B" "C"].
Proof. vm_compute. reflexivity. Qed.

(** The validator compares an edge with the first equation the other way
    only: in [doubled] the third and the fourth equation are opposite and
    their product is outside the tolerance, yet nothing is reported. *)
Example validate_first_reverse_only :
  validateConversions doubled = mkReport 4 0 [] ∧
  near_one (num_mul (1009 # 1000)%Q (1009 # 1000)%Q) = false.
Proof. split; vm_compute; reflexivity. Qed.

(** The closure keeps one equation per ordered pair of units of the group,
    so the driver can write fewer equations than it read: [added] is
    negative. *)
Example ensure_drops_equations :
  (file_unitGroups (ensureCompleteConversions uuid show untidy 0).1,
   run_summary (ensureCompleteConversions uuid show untidy 0).2) =
  ([group ["A"; "B"; "C"] [e "A" "B" 2%Q]], mkSummary 3 (-2) 1).
Proof. vm_compute. reflexivity. Qed.

(** A group that is not completed is written as read, whatever it holds:
    the second group of [tidy] has one unit and keeps two equations. *)
Example ensure_skips_small_group :
  file_unitGroups (ensureCompleteConversions uuid show tidy 0).1 =
  [group ["A"; "B"; "C"] (generateCompleteConversions uuid show abc forward 0).1;
   group ["A"] forward].
Proof. vm_compute. reflexivity. Qed.

Lemma validate_reverse_checked_witness :
  near_one (num_mul (conv_multiplier (e "A" "B" 2%Q)) (conv_multiplier (e "B" "A" (1 # 2)%Q)))
    = true ∨
  InverseMismatch (conv_fromUnitId (e "A" "B" 2%Q)) (conv_toUnitId (e "A" "B" 2%Q))
    (num_mul (conv_multiplier (e "A" "B" 2%Q)) (conv_multiplier (e "B" "A" (1 # 2)%Q)))
    ∈ report_warnings (validateConversions inverse).
Proof.
  apply validate_reverse_checked; [compute_done|unfold inverse, forward; cbn [app]..|done];
    repeat constructor.
Defined.

Lemma closure_consistent_witness :
  Forall is_missing
    (report_warnings
       (validateConversions (generateCompleteConversions uuid show abc forward 0).1)).
Proof.
  apply (closure_consistent uuid show abc_scale); [cbn; lia|compute_done..| |].
  - unfold forward. repeat (apply Forall_cons_2; [by vm_compute|]). apply Forall_nil_2.
  - unfold abc. repeat (apply Forall_cons_2; [by vm_compute|]). apply Forall_nil_2.
Defined.

Lemma inverse_symmetric : symmetric inverse.
Proof.
  intros c Hc. unfold inverse, forward in *. cbn [app] in Hc.
  repeat (apply elem_of_cons in Hc as [->|Hc]);
    [exists (e "B" "A" (1 # 2)%Q)|exists (e "C" "B" (1 # 3)%Q)
    |exists (e "A" "B" 2%Q)|exists (e "B" "C" 3%Q)|by apply elem_of_nil in Hc];
    (split; [repeat constructor|reflexivity]).
Qed.

Lemma closure_symmetric_valid_witness :
  validateConversions (generateCompleteConversions uuid show abc inverse 0).1 =
  mkReport (length (generateCompleteConversions uuid show abc inverse 0).1) 0 [].
Proof.
  apply (closure_symmetric_valid uuid show abc_scale);
    [cbn; lia|compute_done..| | |apply inverse_symmetric].
  - unfold inverse, forward. cbn [app].
    repeat (apply Forall_cons_2; [by vm_compute|]). apply Forall_nil_2.
  - unfold abc. repeat (apply Forall_cons_2; [by vm_compute|]). apply Forall_nil_2.
Defined.

Lemma ensure_idempotent_witness :
  (ensureCompleteConversions uuid show
     (reread (ensureCompleteConversions uuid show tidy 0).1) 9).1 =
    (ensureCompleteConversions uuid show tidy 0).1 ∧
  run_next (ensureCompleteConversions uuid show
              (reread (ensureCompleteConversions uuid show tidy 0).1) 9).2 = 9.
Proof. apply ensure_idempotent. unfold registry_ok. split_and!; compute_done. Defined.

End consistency_examples.
