(* ===== verification/Linker.v ===== *)
(** * Linker: resolving unit references of spec types

    [findUnitBySymbol] and [linkUnits] of [src/postprocess/linkUnits.ts]
    (in [src/dist/postprocess/linkUnits.js], lines 8-15 and 19-106).  The
    lookup is one [find] with a four-way disjunction; the linker walks the
    spec types, writes the identifiers it resolves into each of them and
    counts the references; its set of unmatched references is a list in
    insertion order, as a JavaScript [Set] iterates.  The spec types come
    from the master file and are written to two files; both hold the list
    [link_specTypes] of the result.

    The file proves: the lookup returns the first unit that matches, it is
    insensitive to the case of the reference, it agrees with the prioritised
    lookup of the specification on whether a unit is found and, when at most
    one unit matches, on the unit; the linker counts every reference once,
    writes identifiers of matching units only, leaves everything else of a
    spec type alone, and is idempotent. *)

From stdpp Require Import gmap strings list.
From S2P Require Import Spec2Rocq Schemas.

(** [name === symbol || name.toLowerCase() === symbol.toLowerCase()]. *)
Definition matches_name (symbol name : string) : bool :=
  bool_decide (name = symbol) || bool_decide (toLowerCase name = toLowerCase symbol).

(** Lines 11-14, the predicate of the [find]. *)
Definition matches (symbol : string) (u : Unit) : bool :=
  matches_name symbol (unit_symbol u) ||
  js_some (matches_name symbol) (unit_abbreviations u).

(** Lines 8-15. *)
Definition findUnitBySymbol (symbol : string) (units : list Unit) : option Unit :=
  if negb (str_truthy symbol) then None else js_find (matches symbol) units.

(** The lookup as the specification words it: the first unit whose symbol
    is the reference, else the first whose symbol is the reference up to
    case, else the first with the reference among its abbreviations, else
    the first with it among them up to case. *)
Definition priority_tests (symbol : string) : list (Unit -> bool) :=
  [ λ u, bool_decide (unit_symbol u = symbol);
    λ u, bool_decide (toLowerCase (unit_symbol u) = toLowerCase symbol);
    λ u, js_some (λ a, bool_decide (a = symbol)) (unit_abbreviations u);
    λ u, js_some (λ a, bool_decide (toLowerCase a = toLowerCase symbol))
                 (unit_abbreviations u) ].

(** The first unit that passes the first test some unit passes. *)
Fixpoint find_first_of (tests : list (Unit -> bool)) (units : list Unit) : option Unit :=
  match tests with
  | [] => None
  | p :: tests' =>
      match js_find p units with
      | Some u => Some u
      | None => find_first_of tests' units
      end
  end.

Definition find_by_priority (symbol : string) (units : list Unit) : option Unit :=
  if negb (str_truthy symbol) then None
  else find_first_of (priority_tests symbol) units.

(** ** The lookup *)

(** The exact comparison is subsumed by the comparison up to case. *)
Lemma matches_name_lower symbol name :
  matches_name symbol name = bool_decide (toLowerCase name = toLowerCase symbol).
Proof.
  unfold matches_name. case_bool_decide as Heq; [|done]. subst.
  by rewrite bool_decide_true.
Qed.

Lemma matches_lower symbol u :
  matches symbol u =
  bool_decide (toLowerCase (unit_symbol u) = toLowerCase symbol) ||
  js_some (λ a, bool_decide (toLowerCase a = toLowerCase symbol)) (unit_abbreviations u).
Proof.
  unfold matches. rewrite matches_name_lower. f_equal.
  apply js_some_ext, matches_name_lower.
Qed.

(** The four tests of the prioritised lookup, together, are the test of the
    lookup. *)
Lemma matches_split symbol u :
  matches symbol u =
  bool_decide (unit_symbol u = symbol) ||
  bool_decide (toLowerCase (unit_symbol u) = toLowerCase symbol) ||
  js_some (λ a, bool_decide (a = symbol)) (unit_abbreviations u) ||
  js_some (λ a, bool_decide (toLowerCase a = toLowerCase symbol)) (unit_abbreviations u).
Proof.
  unfold matches, matches_name. rewrite js_some_orb.
  by rewrite !orb_assoc.
Qed.

(** The lookup returns a unit exactly when the reference is not empty
    and the unit is the first of the registry that matches it. *)
Theorem find_first symbol units u :
  findUnitBySymbol symbol units = Some u <->
  symbol ≠ EmptyString ∧
  ∃ l1 l2, units = l1 ++ u :: l2 ∧ matches symbol u = true ∧
           Forall (λ x, matches symbol x = false) l1.
Proof.
  unfold findUnitBySymbol. destruct (str_truthy symbol) eqn:Hs; cbn [negb].
  - apply str_truthy_true in Hs. rewrite js_find_split. tauto.
  - apply str_truthy_false in Hs. split; [done|]. by intros [? _].
Qed.

(** The lookup finds nothing for the empty reference and when no unit
    matches. *)
Theorem find_none symbol units :
  findUnitBySymbol symbol units = None <->
  symbol = EmptyString ∨ Forall (λ u, matches symbol u = false) units.
Proof.
  unfold findUnitBySymbol. destruct (str_truthy symbol) eqn:Hs; cbn [negb].
  - apply str_truthy_true in Hs. rewrite js_find_None, Forall_forall. tauto.
  - apply str_truthy_false in Hs. tauto.
Qed.

Lemma find_Some symbol units u :
  findUnitBySymbol symbol units = Some u -> u ∈ units ∧ matches symbol u = true.
Proof.
  unfold findUnitBySymbol. destruct (negb _); [done|]. apply js_find_Some.
Qed.

(** The lookup does not depend on the case of the reference. *)
Theorem find_case_insensitive symbol symbol' units :
  toLowerCase symbol = toLowerCase symbol' ->
  findUnitBySymbol symbol units = findUnitBySymbol symbol' units.
Proof.
  intros Heq. unfold findUnitBySymbol.
  rewrite <- (toLowerCase_truthy symbol), Heq, toLowerCase_truthy.
  destruct (negb _); [done|]. apply js_find_ext. intros u _.
  by rewrite !matches_lower, Heq.
Qed.

(** ** The lookup against the prioritised lookup *)

Lemma find_first_of_Some tests units u :
  find_first_of tests units = Some u -> u ∈ units ∧ js_some (λ p, p u) tests = true.
Proof.
  unfold js_some. induction tests as [|p tests IH]; [done|]. cbn [find_first_of existsb].
  destruct (js_find p units) as [v|] eqn:Hp.
  - intros [= ->]. apply js_find_Some in Hp as [? Hp]. split; [done|]. by rewrite Hp.
  - intros [? Hsome]%IH. split; [done|]. by rewrite Hsome, orb_true_r.
Qed.

Lemma find_first_of_None tests units u :
  find_first_of tests units = None -> u ∈ units -> js_some (λ p, p u) tests = false.
Proof.
  intros Hnone Hu. unfold js_some.
  induction tests as [|p tests IH]; [done|]. cbn [find_first_of] in Hnone.
  destruct (js_find p units) as [v|] eqn:Hp; [done|].
  cbn [existsb]. rewrite (proj1 (js_find_None _ _) Hp u Hu). by apply IH.
Qed.

Lemma matches_tests symbol u : matches symbol u = js_some (λ p, p u) (priority_tests symbol).
Proof.
  rewrite matches_split. unfold js_some at 3. cbn [existsb priority_tests].
  by rewrite orb_false_r, !orb_assoc.
Qed.

Lemma find_by_priority_Some symbol units u :
  find_by_priority symbol units = Some u -> u ∈ units ∧ matches symbol u = true.
Proof.
  unfold find_by_priority. destruct (negb _); [done|]. rewrite matches_tests.
  apply find_first_of_Some.
Qed.

(** Both lookups find a unit for the same references. *)
Lemma priority_found_iff symbol units :
  is_Some (find_by_priority symbol units) <-> is_Some (findUnitBySymbol symbol units).
Proof.
  split.
  - intros [u Hfound]. pose proof (find_by_priority_Some _ _ _ Hfound) as [Hu Hm].
    unfold findUnitBySymbol. unfold find_by_priority in Hfound.
    destruct (negb _); [done|]. apply js_find_is_Some. by exists u.
  - unfold findUnitBySymbol, find_by_priority. destruct (negb _); [done|].
    intros [u [Hu Hm]%js_find_Some]. rewrite matches_tests in Hm.
    destruct (find_first_of _ units) eqn:Hnone; [by eexists|].
    by rewrite (find_first_of_None _ _ u Hnone Hu) in Hm.
Qed.

(** The lookup and the prioritised lookup of the specification find a unit
    for the same references, and when at most one unit matches a reference
    both return it. *)
Theorem priority_agree symbol units :
  (is_Some (find_by_priority symbol units) <-> is_Some (findUnitBySymbol symbol units)) ∧
  ((∀ u v, u ∈ units -> v ∈ units ->
           matches symbol u = true -> matches symbol v = true -> u = v) ->
   find_by_priority symbol units = findUnitBySymbol symbol units).
Proof.
  split; [apply priority_found_iff|].
  intros Huniq. destruct (findUnitBySymbol symbol units) as [u|] eqn:Hf.
  - destruct (proj2 (priority_found_iff symbol units)) as [v Hv]; [by rewrite Hf|].
    rewrite Hv. f_equal. apply find_Some in Hf as [??].
    apply find_by_priority_Some in Hv as [??]. by apply Huniq.
  - destruct (find_by_priority symbol units) as [v|] eqn:Hv; [|done].
    destruct (proj1 (priority_found_iff symbol units)) as [u Hu]; [by rewrite Hv|].
    congruence.
Qed.

(** [linked], [unmatched] and the set [unmatchedUnits], in insertion order. *)
Record Tally : Type := mkTally {
  linked : nat;
  unmatched : nat;
  unmatchedUnits : list string;
}.

Definition tally_linked (t : Tally) : Tally :=
  {| linked := S (linked t); unmatched := unmatched t; unmatchedUnits := unmatchedUnits t |}.

Definition tally_unmatched (x : string) (t : Tally) : Tally :=
  {| linked := linked t; unmatched := S (unmatched t);
     unmatchedUnits := set_add x (unmatchedUnits t) |}.

(** [s || undefined]. *)
Definition or_undefined (s : string) : option string :=
  if str_truthy s then Some s else None.

Section linker.
Context {Num : Type}.
Local Abbreviation Spec := (SpecType Num).

(** Lines 38-50. *)
Definition link_primary (units : list Unit) (st : Spec * Tally) : Spec * Tally :=
  match spec_primaryUnit st.1 with
  | Some primaryUnit =>
      if str_truthy primaryUnit then
        match findUnitBySymbol primaryUnit units with
        | Some unit =>
            (set_primaryUnitIds (Some (unit_id unit)) (or_undefined (unit_unitGroupId unit)) st.1,
             tally_linked st.2)
        | None => (st.1, tally_unmatched primaryUnit st.2)
        end
      else st
  | None => st
  end.

(** Lines 54-64, the body of the loop over the alternate units: [st.1] is
    [specType.alternateUnitIds]. *)
Definition link_alternate (units : list Unit) (st : list string * Tally)
    (altUnit : string) : list string * Tally :=
  match findUnitBySymbol altUnit units with
  | Some unit => (st.1 ++ [unit_id unit], tally_linked st.2)
  | None => (st.1, tally_unmatched altUnit st.2)
  end.

(** Lines 52-68. *)
Definition link_alternates (units : list Unit) (st : Spec * Tally) : Spec * Tally :=
  match spec_alternateUnits st.1 with
  | Some alternateUnits =>
      if decide (0 < length alternateUnits) then
        let r := foldl (link_alternate units) ([], st.2) alternateUnits in
        (set_alternateUnitIds (Some r.1) st.1, r.2)
      else st
  | None => st
  end.

(** Lines 35-69, the body of the loop over the spec types. *)
Definition link_specType (units : list Unit) (st : list Spec * Tally) (specType : Spec) :
    list Spec * Tally :=
  let r := link_alternates units (link_primary units (specType, st.2)) in
  (st.1 ++ [r.1], r.2).

(** The [metadata] of [spec-types-with-unit-ids.json], without the clock. *)
Record LinkMetadata : Type := mkLinkMetadata {
  totalSpecTypes : nat;
  linkedUnits : nat;
  unmatchedCount : nat;
}.

(** What a run writes: the spec types (in both files), the metadata of the
    linked file, [totalCount] of the master file, and the unmatched
    references it prints. *)
Record LinkOutput : Type := mkLinkOutput {
  link_specTypes : list Spec;
  link_metadata : LinkMetadata;
  link_totalCount : nat;
  link_printed : list string;
}.

(** Lines 31-69: the loop from the empty tally. *)
Definition link_loop (units : list Unit) (specTypes : list Spec) : list Spec * Tally :=
  foldl (link_specType units) ([], mkTally 0 0 []) specTypes.

(** Lines 19-106. *)
Definition linkUnits (units : list Unit) (specTypes : list Spec) : LinkOutput :=
  let r := link_loop units specTypes in
  {| link_specTypes := r.1;
     link_metadata :=
       {| totalSpecTypes := length specTypes; linkedUnits := linked r.2;
          unmatchedCount := unmatched r.2 |};
     link_totalCount := length specTypes;
     link_printed := slice 0 20 (unmatchedUnits r.2) |}.

(** ** The linker as a map and a count *)

(** What the linker writes into one spec type. *)
Definition resolve (units : list Unit) (specType : Spec) : Spec :=
  (link_alternates units (link_primary units (specType, mkTally 0 0 []))).1.

(** The references the linker looks up for a spec type, in order. *)
Definition references (specType : Spec) : list string :=
  match spec_primaryUnit specType with
  | Some primaryUnit => if str_truthy primaryUnit then [primaryUnit] else []
  | None => []
  end ++ default [] (spec_alternateUnits specType).

(** What one lookup does to the tally. *)
Definition count (units : list Unit) (t : Tally) (reference : string) : Tally :=
  match findUnitBySymbol reference units with
  | Some _ => tally_linked t
  | None => tally_unmatched reference t
  end.

Lemma link_primary_fst units s t :
  (link_primary units (s, t)).1 = (link_primary units (s, mkTally 0 0 [])).1.
Proof.
  unfold link_primary. cbn [fst snd]. destruct (spec_primaryUnit s) as [p|]; [|done].
  destruct (str_truthy p); [|done]. by destruct (findUnitBySymbol p units).
Qed.

Lemma link_primary_alternateUnits units s t :
  spec_alternateUnits (link_primary units (s, t)).1 = spec_alternateUnits s.
Proof.
  unfold link_primary. cbn [fst snd]. destruct (spec_primaryUnit s) as [p|]; [|done].
  destruct (str_truthy p); [|done]. by destruct (findUnitBySymbol p units).
Qed.

Lemma link_primary_snd units s t :
  (link_primary units (s, t)).2 =
  foldl (count units) t
        match spec_primaryUnit s with
        | Some primaryUnit => if str_truthy primaryUnit then [primaryUnit] else []
        | None => []
        end.
Proof.
  unfold link_primary. cbn [fst snd]. destruct (spec_primaryUnit s) as [p|]; [|done].
  destruct (str_truthy p); [|done]. cbn [foldl]. unfold count.
  by destruct (findUnitBySymbol p units).
Qed.

(** The loop over the alternate units collects the identifiers of the
    units found and counts every reference. *)
Lemma link_alternate_fold units alts ids t :
  foldl (link_alternate units) (ids, t) alts =
  (ids ++ (unit_id <$> omap (λ a, findUnitBySymbol a units) alts),
   foldl (count units) t alts).
Proof.
  revert ids t. induction alts as [|a alts IH]; intros ids t; [by rewrite app_nil_r|].
  cbn [foldl omap list_omap]. unfold link_alternate at 2, count at 2. cbn [fst snd].
  destruct (findUnitBySymbol a units) as [u|]; rewrite IH; [|done].
  cbn [fmap list_fmap]. by rewrite <- app_assoc.
Qed.

Lemma link_alternates_fst units s t :
  (link_alternates units (s, t)).1 = (link_alternates units (s, mkTally 0 0 [])).1.
Proof.
  unfold link_alternates. cbn [fst snd]. destruct (spec_alternateUnits s) as [alts|]; [|done].
  destruct (decide _); [|done]. cbv zeta. by rewrite !link_alternate_fold.
Qed.

Lemma link_alternates_snd units s t :
  (link_alternates units (s, t)).2 =
  foldl (count units) t (default [] (spec_alternateUnits s)).
Proof.
  unfold link_alternates. cbn [fst snd]. destruct (spec_alternateUnits s) as [alts|]; [|done].
  destruct (decide _) as [|Hlen]; cbv zeta; [by rewrite link_alternate_fold|].
  destruct alts; [done|]. cbn in Hlen. lia.
Qed.

Lemma link_specType_resolve units st s :
  link_specType units st s =
  (st.1 ++ [resolve units s], foldl (count units) st.2 (references s)).
Proof.
  unfold link_specType, resolve, references. cbv zeta. rewrite foldl_app. f_equal.
  - f_equal. pose proof (link_primary_fst units s st.2) as Hfst.
    destruct (link_primary units (s, st.2)) as [s1 t1].
    destruct (link_primary units (s, mkTally 0 0 [])) as [s2 t2].
    cbn [fst] in Hfst. subst s2.
    by rewrite (link_alternates_fst units s1 t1), (link_alternates_fst units s1 t2).
  - destruct (link_primary units (s, st.2)) as [s1 t1] eqn:H1.
    rewrite link_alternates_snd. f_equal.
    + change t1 with (s1, t1).2. by rewrite <- H1, link_primary_snd.
    + change s1 with (s1, t1).1. by rewrite <- H1, link_primary_alternateUnits.
Qed.

Lemma link_loop_from units specTypes st :
  foldl (link_specType units) st specTypes =
  (st.1 ++ (resolve units <$> specTypes),
   foldl (count units) st.2 (concat (references <$> specTypes))).
Proof.
  revert st. induction specTypes as [|s specTypes IH]; intros st.
  { cbn. rewrite app_nil_r. by destruct st. }
  cbn [foldl fmap list_fmap concat]. rewrite IH, link_specType_resolve. cbn [fst snd].
  by rewrite <- app_assoc, foldl_app.
Qed.

(** The loop writes [resolve] of every spec type and counts every
    reference, in order. *)
Theorem link_loop_map units specTypes :
  link_loop units specTypes =
  (resolve units <$> specTypes,
   foldl (count units) (mkTally 0 0 []) (concat (references <$> specTypes))).
Proof. unfold link_loop. by rewrite link_loop_from. Qed.

(** ** The tally *)


(** A reference some unit matches. *)
Definition found (units : list Unit) (reference : string) : Prop :=
  is_Some (findUnitBySymbol reference units).

#[export] Instance found_dec units reference : Decision (found units reference).
Proof. unfold found. apply _. Defined.

Lemma count_found units t r : found units r -> count units t r = tally_linked t.
Proof. unfold count. by intros [u ->]. Qed.

Lemma count_not_found units t r : ¬ found units r -> count units t r = tally_unmatched r t.
Proof.
  unfold count, found. destruct (findUnitBySymbol r units); [|done].
  intros []. by eexists.
Qed.

Lemma count_fold units refs t :
  linked (foldl (count units) t refs) = linked t + length (filter (found units) refs) ∧
  unmatched (foldl (count units) t refs) =
    unmatched t + length (filter (λ r, ¬ found units r) refs) ∧
  (NoDup (unmatchedUnits t) -> NoDup (unmatchedUnits (foldl (count units) t refs))) ∧
  ∀ x, x ∈ unmatchedUnits (foldl (count units) t refs) <->
       x ∈ unmatchedUnits t ∨ (x ∈ refs ∧ ¬ found units x).
Proof.
  revert t. induction refs as [|r refs IH]; intros t.
  { cbn. split_and!; [lia..|done|]. intros x. rewrite elem_of_nil. tauto. }
  cbn [foldl]. destruct (IH (count units t r)) as (-> & -> & Hnd & Hset).
  destruct (decide (found units r)) as [Hr|Hr].
  - rewrite filter_cons_True, filter_cons_False by tauto.
    rewrite count_found in * by done.
    cbn [length tally_linked linked unmatched unmatchedUnits] in *.
    split_and!; [lia..|done|]. intros x. rewrite Hset, elem_of_cons.
    split; [tauto|]. by intros [?|[[->|?] Hx]]; [tauto| |tauto].
  - rewrite filter_cons_False, filter_cons_True by tauto.
    rewrite count_not_found in * by done.
    cbn [length tally_unmatched linked unmatched unmatchedUnits] in *.
    split_and!; [lia..| |].
    + intros ?. by apply Hnd, set_add_NoDup.
    + intros x. rewrite Hset, set_add_elem, elem_of_cons.
      split; [|tauto]. intros [[->|?]|?]; tauto.
Qed.

(** C8: every reference is counted once: as linked when some unit matches it,
    as unmatched otherwise; the metadata counts the spec types read. *)
Theorem link_counts units specTypes :
  linkedUnits (link_metadata (linkUnits units specTypes)) =
    length (filter (found units) (concat (references <$> specTypes))) ∧
  unmatchedCount (link_metadata (linkUnits units specTypes)) =
    length (filter (λ r, ¬ found units r) (concat (references <$> specTypes))) ∧
  linkedUnits (link_metadata (linkUnits units specTypes)) +
  unmatchedCount (link_metadata (linkUnits units specTypes)) =
    length (concat (references <$> specTypes)) ∧
  length (link_specTypes (linkUnits units specTypes)) = length specTypes.
Proof.
  unfold linkUnits. cbv zeta. cbn [link_metadata linkedUnits unmatchedCount link_specTypes].
  unfold link_loop. rewrite link_loop_from. cbn [fst snd app].
  destruct (count_fold units (concat (references <$> specTypes)) (mkTally 0 0 []))
    as (-> & -> & _). cbn [linked unmatched]. split_and!; [done..| |by rewrite length_fmap].
  rewrite !Nat.add_0_l. apply filter_partition_length.
Qed.

(** The set of unmatched references holds, once each, the references no
    unit matches; the first twenty of them are printed. *)
Theorem link_unmatched_set units specTypes :
  NoDup (unmatchedUnits (link_loop units specTypes).2) ∧
  (∀ x, x ∈ unmatchedUnits (link_loop units specTypes).2 <->
        x ∈ concat (references <$> specTypes) ∧ findUnitBySymbol x units = None) ∧
  link_printed (linkUnits units specTypes) =
    take 20 (unmatchedUnits (link_loop units specTypes).2).
Proof.
  unfold linkUnits, link_loop. rewrite link_loop_from. cbn [fst snd link_printed].
  destruct (count_fold units (concat (references <$> specTypes)) (mkTally 0 0 []))
    as (_ & _ & Hnd & Hset).
  split_and!; [apply Hnd; constructor| |done].
  intros x. rewrite Hset. cbn [unmatchedUnits]. rewrite elem_of_nil. unfold found.
  rewrite <- eq_None_not_Some. tauto.
Qed.

(** ** What is written into a spec type *)

(** Lines 38-50 without the tally. *)
Definition resolve_primary (units : list Unit) (s : Spec) : Spec :=
  match spec_primaryUnit s with
  | Some primaryUnit =>
      match findUnitBySymbol primaryUnit units with
      | Some unit =>
          set_primaryUnitIds (Some (unit_id unit)) (or_undefined (unit_unitGroupId unit)) s
      | None => s
      end
  | None => s
  end.

(** Lines 52-68 without the tally. *)
Definition resolve_alternates (units : list Unit) (s : Spec) : Spec :=
  match spec_alternateUnits s with
  | Some (a :: alts) =>
      set_alternateUnitIds
        (Some (unit_id <$> omap (λ a, findUnitBySymbol a units) (a :: alts))) s
  | _ => s
  end.

Lemma link_primary_resolve units s t :
  (link_primary units (s, t)).1 = resolve_primary units s.
Proof.
  unfold link_primary, resolve_primary. cbn [fst snd].
  destruct (spec_primaryUnit s) as [p|]; [|done].
  destruct (str_truthy p) eqn:Hp; [by destruct (findUnitBySymbol p units)|].
  by apply str_truthy_false in Hp as ->.
Qed.

Lemma link_alternates_resolve units s t :
  (link_alternates units (s, t)).1 = resolve_alternates units s.
Proof.
  unfold link_alternates, resolve_alternates. cbn [fst snd].
  destruct (spec_alternateUnits s) as [[|a alts]|]; [done| |done].
  cbn [length]. destruct (decide _); [|lia]. cbv zeta. by rewrite link_alternate_fold.
Qed.

Lemma resolve_eq units s : resolve units s = resolve_alternates units (resolve_primary units s).
Proof.
  unfold resolve. pose proof (link_primary_resolve units s (mkTally 0 0 [])) as Hp.
  destruct (link_primary units (s, mkTally 0 0 [])) as [s1 t1]. cbn [fst] in Hp. subst s1.
  apply link_alternates_resolve.
Qed.

(** A primary unit that resolves writes the identifier of the unit found
    and of its group; the identifiers of the alternate units that resolve
    are written in order; every other field is written as read. *)
Theorem resolve_writes units s :
  (∀ p u, spec_primaryUnit s = Some p -> findUnitBySymbol p units = Some u ->
          spec_primaryUnitId (resolve units s) = Some (unit_id u) ∧
          spec_primaryUnitGroupId (resolve units s) = or_undefined (unit_unitGroupId u)) ∧
  (∀ a alts, spec_alternateUnits s = Some (a :: alts) ->
             spec_alternateUnitIds (resolve units s) =
             Some (unit_id <$> omap (λ a, findUnitBySymbol a units) (a :: alts))) ∧
  set_primaryUnitIds None None (set_alternateUnitIds None (resolve units s)) =
  set_primaryUnitIds None None (set_alternateUnitIds None s).
Proof.
  rewrite resolve_eq. unfold resolve_alternates, resolve_primary. split_and!.
  - intros p u -> ->. by destruct (spec_alternateUnits _) as [[|]|].
  - intros a alts Halts.
    destruct (spec_primaryUnit s) as [p|]; [destruct (findUnitBySymbol p units)|];
      cbn [spec_alternateUnits set_primaryUnitIds]; by rewrite Halts.
  - destruct (spec_primaryUnit s) as [p|]; [destruct (findUnitBySymbol p units)|];
      by destruct (spec_alternateUnits _) as [[|]|].
Qed.

(** A primary unit that does not resolve leaves the identifiers the spec
    type had. *)
Theorem resolve_keeps_stale units s p :
  spec_primaryUnit s = Some p -> findUnitBySymbol p units = None ->
  spec_primaryUnitId (resolve units s) = spec_primaryUnitId s ∧
  spec_primaryUnitGroupId (resolve units s) = spec_primaryUnitGroupId s.
Proof.
  intros Hp Hnone. rewrite resolve_eq. unfold resolve_alternates, resolve_primary.
  rewrite Hp, Hnone. by destruct (spec_alternateUnits s) as [[|]|].
Qed.

Lemma resolve_idem units s : resolve units (resolve units s) = resolve units s.
Proof.
  rewrite !resolve_eq. unfold resolve_alternates, resolve_primary. destruct s as [].
  cbn. repeat case_match; simplify_eq/=; done.
Qed.

Lemma resolve_references units s : references (resolve units s) = references s.
Proof.
  rewrite resolve_eq. unfold resolve_alternates, resolve_primary, references.
  destruct s as []. cbn. repeat case_match; simplify_eq/=; congruence.
Qed.

(** Linking the spec types a run wrote writes the same files. *)
Theorem link_idempotent units specTypes :
  linkUnits units (link_specTypes (linkUnits units specTypes)) = linkUnits units specTypes.
Proof.
  unfold linkUnits. cbv zeta. cbn [link_specTypes]. unfold link_loop.
  rewrite !link_loop_from. cbn [fst snd app]. rewrite length_fmap.
  rewrite <- !list_fmap_compose.
  rewrite (list_fmap_ext (resolve units ∘ resolve units) (resolve units) specTypes)
    by (intros; apply resolve_idem).
  by rewrite (list_fmap_ext (references ∘ resolve units) references specTypes)
    by (intros; apply resolve_references).
Qed.

End linker.

(** ** The linker on a concrete registry *)

Module linker_examples.

Definition gpm : Unit := mkUnit "u-gpm" "GPM" "gallons per minute" ["gal/min"] "ug-flow".
(** A unit that lists another unit's symbol among its abbreviations. *)
Definition gal : Unit := mkUnit "u-gal" "gal" "gallon" ["GPM"] "".

Definition spec (name : string) (primaryUnit : option string)
    (alternateUnits : option (list string)) (primaryUnitId : option string) : SpecType Z :=
  mkSpecType ("st-" +:+ name) name [] [] "" HVAC primaryUnit primaryUnitId None None
             alternateUnits None NUMERIC None None None false None None.

(** The references "gpm", "GPM" and "gal/min" resolve to the unit, "L/min"
    and the empty reference to none. *)
Example find_gpm :
  findUnitBySymbol "gpm" [gpm] = Some gpm ∧ findUnitBySymbol "GPM" [gpm] = Some gpm ∧
  findUnitBySymbol "gal/min" [gpm] = Some gpm ∧ findUnitBySymbol "L/min" [gpm] = None ∧
  findUnitBySymbol "" [gpm] = None.
Proof. repeat split; reflexivity. Qed.

(** The lookup returns the first unit that matches by any of the four
    tests, the prioritised lookup the unit whose symbol is the reference. *)
Example find_ignores_priority :
  findUnitBySymbol "GPM" [gal; gpm] = Some gal ∧ find_by_priority "GPM" [gal; gpm] = Some gpm.
Proof. split; reflexivity. Qed.

(** One spec type resolves its primary unit and one of two alternates; one
    keeps the identifier it had for a unit that is not in the registry. *)
Example link_run :
  linkUnits [gpm] [spec "flow" (Some "gpm") (Some ["gal/min"; "L/min"]) None;
                   spec "head" (Some "ft") (Some []) (Some "u-old")] =
  mkLinkOutput
    [set_alternateUnitIds (Some ["u-gpm"])
       (set_primaryUnitIds (Some "u-gpm") (Some "ug-flow")
          (spec "flow" (Some "gpm") (Some ["gal/min"; "L/min"]) None));
     spec "head" (Some "ft") (Some []) (Some "u-old")]
    (mkLinkMetadata 2 2 2) 2 ["L/min"; "ft"].
Proof. vm_compute. reflexivity. Qed.

Lemma find_case_insensitive_witness :
  findUnitBySymbol "Gal/Min" [gal; gpm] = findUnitBySymbol "gal/min" [gal; gpm].
Proof. by apply find_case_insensitive. Defined.

Lemma resolve_keeps_stale_witness :
  spec_primaryUnitId (resolve [gpm] (spec "head" (Some "ft") None (Some "u-old"))) =
    spec_primaryUnitId (spec "head" (Some "ft") None (Some "u-old")) ∧
  spec_primaryUnitGroupId (resolve [gpm] (spec "head" (Some "ft") None (Some "u-old"))) =
    spec_primaryUnitGroupId (spec "head" (Some "ft") None (Some "u-old")).
Proof. by apply (resolve_keeps_stale [gpm] _ "ft"). Defined.

End linker_examples.
