(* ===== verification/Collector.v ===== *)
(** * Collector: the Oracle boundary of the conversion generator

    [classifyUnit], [validateConversion] and [generateConversionsFromUnit]
    of [src/postprocess/generateCustomConversions.ts] (in
    [src/dist/postprocess/linkUnits.js], lines 112-144).  The Oracle is
    [askClaudeJSON]: it returns a parsed JSON value or throws.  [Oracle] is
    its interface here, a function of what the prompt is built from; [Json]
    is the value it returns, of which nothing is assumed.  Property access,
    truthiness, [typeof], [===] and the method calls of the source are
    written out on [Json], the calls that throw a [TypeError] included.

    The file proves: the classifier is total and falls back to
    ["Uncategorized"]; the validator accepts exactly the well-formed edges
    that leave the unit for a symbol of the group with a positive finite
    multiplier; it throws exactly on a truthy equation that is not a string;
    what it accepts is trimmed and mentions [x]. *)

From Stdlib Require Import Ascii QArith.
From stdpp Require Import gmap strings list.
From S2P Require Import Spec2Rocq JsNumber Schemas.

Local Open Scope js_scope.

Section collector.
Context {Num : Type} {JN : JsNumber Num}.

(** A parsed JSON value. *)
#[warnings="-register-all"]
Inductive Json : Type :=
| JNull
| JBool (b : bool)
| JNum (n : Num)
| JStr (s : string)
| JArr (items : list Json)
| JObj (fields : list (string * Json)).

(** [v.k] on a value that is not [null]: [None] is [undefined].  A key that
    occurs twice in an object has the value of its last occurrence, as
    [JSON.parse] builds it. *)
Definition field (k : string) (v : Json) : option Json :=
  match v with
  | JObj fields => snd <$> last (filter (λ p, p.1 = k) fields)
  | _ => None
  end.

(** Truthiness of a property. *)
Definition truthy (v : option Json) : bool :=
  match v with
  | None | Some JNull => false
  | Some (JBool b) => b
  | Some (JNum n) => num_truthy n
  | Some (JStr s) => str_truthy s
  | Some (JArr _) | Some (JObj _) => true
  end.

(** [typeof v === 'number']. *)
Definition is_number (v : option Json) : bool :=
  match v with
  | Some (JNum _) => true
  | _ => false
  end.

(** [v === s] for a string [s]. *)
Definition is_string (s : string) (v : option Json) : bool :=
  match v with
  | Some (JStr s') => bool_decide (s' = s)
  | _ => false
  end.

(** The Oracle: what [askClaudeJSON] answers to the prompt of
    [classifyUnit] (built from the unit's symbol and the known group names)
    and to the prompt of [generateConversionsFromUnit] (built from the
    unit's symbol, the symbols of the other units and the group's name). *)
Class Oracle : Type := {
  askClassify : string -> list string -> outcome Json;
  askConversions : string -> list string -> string -> outcome Json;
}.

Context {oracle : Oracle}.

(** The object [validateConversion] returns. *)
Record Edge : Type := mkEdge {
  edge_from : string;
  edge_to : string;
  edge_multiplier : Num;
  edge_equation : string;
}.

(** Lines 112-123.  [response.groupName.trim()] throws when the response is
    [null] or its [groupName] is not a string; the [catch] answers for
    every throw. *)
Definition classifyUnit (unit : Unit) (existingGroups : list string) : string :=
  try (response ← askClassify (unit_symbol unit) existingGroups;
       match response with
       | JNull => Thrown "TypeError: Cannot read properties of null"
       | _ =>
           match field "groupName" response with
           | Some (JStr groupName) => Returned (trim groupName)
           | _ => Thrown "TypeError: response.groupName.trim is not a function"
           end
       end)
  catch (λ _, "Uncategorized").

(** [arr.includes('x')] on an array of JSON values. *)
Definition includes_x (items : list Json) : bool :=
  js_some (λ v, is_string "x" (Some v)) items.

(** Lines 125-131, on the four properties of [conv].  [None] is [null]. *)
Definition validate_fields (from to multiplier equation : option Json) (fromUnit : Unit)
    (allUnits : list Unit) : outcome (option Edge) :=
  if negb (truthy from) || negb (truthy to) || negb (is_number multiplier) ||
     negb (truthy equation)
  then Returned None
  else if negb (is_string (unit_symbol fromUnit) from) ||
          negb (js_some (λ u, is_string (unit_symbol u) to) allUnits)
  then Returned None
  else
    match from, to, multiplier with
    | Some (JStr f), Some (JStr t), Some (JNum m) =>
        if negb (positive_finite m) then Returned None
        else
          match equation with
          | Some (JStr e) =>
              if negb (includes_char "x" e) then Returned None
              else Returned (Some (mkEdge f t m (trim e)))
          | Some (JArr items) =>
              if negb (includes_x items) then Returned None
              else Thrown "TypeError: conv.equation.trim is not a function"
          | _ => Thrown "TypeError: conv.equation.includes is not a function"
          end
    | _, _, _ => Returned None
    end.

(** Lines 124-132.  Reading a property of [null] throws. *)
Definition validateConversion (conv : Json) (fromUnit : Unit) (allUnits : list Unit) :
    outcome (option Edge) :=
  match conv with
  | JNull => Thrown "TypeError: Cannot read properties of null"
  | _ =>
      validate_fields (field "from" conv) (field "to" conv) (field "multiplier" conv)
                      (field "equation" conv) fromUnit allUnits
  end.

(** Lines 133-144. *)
Definition generateConversionsFromUnit (fromUnit : Unit) (toUnits : list Unit)
    (groupName : string) : Json :=
  try (askConversions (unit_symbol fromUnit) (unit_symbol <$> toUnits) groupName)
  catch (λ _, JArr []).

(** [conversions.map(c => validateConversion(c, fromUnit, groupUnits))]:
    the first throw ends the map. *)
Fixpoint validate_all (items : list Json) (fromUnit : Unit) (groupUnits : list Unit) :
    outcome (list (option Edge)) :=
  match items with
  | [] => Returned []
  | c :: items' =>
      v ← validateConversion c fromUnit groupUnits;
      vs ← validate_all items' fromUnit groupUnits;
      Returned (v :: vs)
  end.

(** Lines 247-252 of [main], the body of the promise of one unit:
    the answer of the Oracle, validated and filtered.  [.map] throws on an
    answer that is not an array. *)
Definition collect (fromUnit : Unit) (groupUnits : list Unit) (groupName : string) :
    outcome (list Edge) :=
  let toUnits := filter (λ u, unit_id u ≠ unit_id fromUnit) groupUnits in
  match generateConversionsFromUnit fromUnit toUnits groupName with
  | JArr conversions =>
      match validate_all conversions fromUnit groupUnits with
      | Returned valid => Returned (omap (λ v : option Edge, v) valid)
      | Thrown e => Thrown e
      end
  | _ => Thrown "TypeError: conversions.map is not a function"
  end.

(** ** The classifier *)

(** The classifier returns the trimmed [groupName] of the answer when it is
    a string, and ["Uncategorized"] in every other case: a failed call, a
    [null] answer, an answer without a string [groupName]. *)
Theorem classify_total unit existingGroups :
  classifyUnit unit existingGroups =
  match askClassify (unit_symbol unit) existingGroups with
  | Returned response =>
      match field "groupName" response with
      | Some (JStr groupName) => trim groupName
      | _ => "Uncategorized"
      end
  | Thrown _ => "Uncategorized"
  end.
Proof.
  unfold classifyUnit. destruct (askClassify _ _) as [response|e]; [|done].
  destruct response; try done; cbn; by repeat case_match.
Qed.

(** ** The validator of edges *)

Lemma is_string_true s v : is_string s v = true <-> v = Some (JStr s).
Proof.
  destruct v as [[]|]; cbn; try by split.
  rewrite bool_decide_eq_true. split; [by intros ->|by intros [= ->]].
Qed.

Lemma some_symbol_true v allUnits :
  js_some (λ u, is_string (unit_symbol u) v) allUnits = true <->
  ∃ u, u ∈ allUnits ∧ v = Some (JStr (unit_symbol u)).
Proof. rewrite js_some_true. by setoid_rewrite is_string_true. Qed.

Lemma field_null k : field k JNull = None.
Proof. done. Qed.

Lemma includes_x_truthy s : includes_char "x" s = true -> str_truthy s = true.
Proof. by destruct s. Qed.

(** What [validate_fields] admits: [from] is the non-empty symbol of the
    unit, [to] the non-empty symbol of a unit of the group, [multiplier] a
    positive finite number, [equation] a string that mentions [x], which is
    returned trimmed. *)
Definition fields_ok (from to multiplier equation : option Json) (fromUnit : Unit)
    (allUnits : list Unit) (e : Edge) : Prop :=
  from = Some (JStr (edge_from e)) ∧
  edge_from e = unit_symbol fromUnit ∧ edge_from e ≠ EmptyString ∧
  to = Some (JStr (edge_to e)) ∧
  edge_to e ≠ EmptyString ∧ (∃ u, u ∈ allUnits ∧ unit_symbol u = edge_to e) ∧
  multiplier = Some (JNum (edge_multiplier e)) ∧
  positive_finite (edge_multiplier e) = true ∧
  ∃ eq, equation = Some (JStr eq) ∧ includes_char "x" eq = true ∧ edge_equation e = trim eq.

(** The edges the validator admits for an answer [conv]. *)
Definition well_formed (conv : Json) (fromUnit : Unit) (allUnits : list Unit) (e : Edge) :
    Prop :=
  fields_ok (field "from" conv) (field "to" conv) (field "multiplier" conv)
            (field "equation" conv) fromUnit allUnits e.

Lemma validate_fields_accepts from to multiplier equation fromUnit allUnits e :
  validate_fields from to multiplier equation fromUnit allUnits = Returned (Some e) <->
  fields_ok from to multiplier equation fromUnit allUnits e.
Proof.
  unfold fields_ok, validate_fields. split.
  - destruct (negb (truthy from) || _ || _ || _) eqn:H1; [done|].
    destruct (negb (is_string _ _) || _) eqn:H2; [done|].
    apply orb_false_iff in H2 as [Hf%negb_false_iff%is_string_true
                                  Ht%negb_false_iff%some_symbol_true].
    destruct Ht as (u & Hu & Ht). subst from to.
    destruct multiplier as [[| |m| | |]|]; try done.
    destruct (negb (positive_finite m)) eqn:Hm; [done|]. apply negb_false_iff in Hm.
    cbn in H1. rewrite !orb_false_iff, !negb_false_iff, !str_truthy_true in H1.
    destruct H1 as [[[? ?] _] _].
    destruct equation as [[| | |eq|items|]|]; try done.
    + destruct (negb (includes_char "x" eq)) eqn:Hx; [done|]. apply negb_false_iff in Hx.
      intros [= <-]. cbn. split_and!; eauto.
    + by destruct (negb (includes_x items)).
  - intros (-> & Hsym & Hfne & -> & Htne & (u & Hu & Hto) & -> & Hpos & eq & -> & Hx & Htrim).
    cbn [truthy is_number].
    rewrite (proj2 (str_truthy_true _) Hfne), (proj2 (str_truthy_true _) Htne),
      (includes_x_truthy _ Hx). cbn [negb orb].
    rewrite (proj2 (is_string_true _ _)) by (by rewrite Hsym).
    rewrite (proj2 (some_symbol_true _ _)) by (exists u; by rewrite Hto).
    cbn [negb orb]. rewrite Hpos, Hx. cbn [negb]. rewrite <- Htrim. by destruct e.
Qed.

(** C7: the validator accepts exactly the well-formed edges: [from] is the
    symbol of the unit, [to] the symbol of a unit of the group, the
    multiplier a positive finite number, the equation a string that
    contains [x]; the edge returned carries the trimmed equation. *)
Theorem validate_accepts conv fromUnit allUnits e :
  validateConversion conv fromUnit allUnits = Returned (Some e) <->
  well_formed conv fromUnit allUnits e.
Proof.
  unfold well_formed. rewrite <- (validate_fields_accepts _ _ _ _ fromUnit allUnits e).
  by destruct conv.
Qed.

(** An equation on which [includes] or [trim] throws: a truthy value that
    is not a string, an array only if it holds ["x"]. *)
Definition bad_equation (equation : option Json) : Prop :=
  truthy equation = true ∧
  match equation with
  | Some (JStr _) => False
  | Some (JArr items) => includes_x items = true
  | _ => True
  end.

Lemma validate_fields_throws from to multiplier equation fromUnit allUnits :
  (∃ msg, validate_fields from to multiplier equation fromUnit allUnits = Thrown msg) <->
  (∃ e, fields_ok from to multiplier (Some (JStr "x")) fromUnit allUnits e) ∧
  bad_equation equation.
Proof.
  split.
  - intros [msg Hthrown]. unfold validate_fields in Hthrown.
    destruct (negb (truthy from) || _ || _ || _) eqn:H1; [done|].
    destruct (negb (is_string _ _) || _) eqn:H2; [done|].
    apply orb_false_iff in H2 as [Hf%negb_false_iff%is_string_true
                                  Ht%negb_false_iff%some_symbol_true].
    destruct Ht as (u & Hu & Ht). subst from to.
    destruct multiplier as [[| |m| | |]|]; try done.
    destruct (negb (positive_finite m)) eqn:Hm; [done|]. apply negb_false_iff in Hm.
    cbn [truthy is_number negb] in H1.
    rewrite !orb_false_iff, !negb_false_iff, !str_truthy_true in H1.
    destruct H1 as [[[? ?] _] Heq]. split.
    + exists (mkEdge (unit_symbol fromUnit) (unit_symbol u) m (trim "x")).
      unfold fields_ok. cbn. split_and!; eauto.
    + split; [done|]. destruct equation as [[| | |eq|items|]|]; try done.
      * by destruct (negb (includes_char "x" eq)).
      * by destruct (includes_x items).
  - intros [[e (-> & Hsym & Hfne & -> & Htne & (u & Hu & Hto) & -> & Hpos & _)] [Htruthy Hbad]].
    unfold validate_fields. cbn [truthy is_number].
    rewrite (proj2 (str_truthy_true _) Hfne), (proj2 (str_truthy_true _) Htne), Htruthy.
    cbn [negb orb].
    rewrite (proj2 (is_string_true _ _)) by (by rewrite Hsym).
    rewrite (proj2 (some_symbol_true _ _)) by (exists u; by rewrite Hto).
    cbn [negb orb]. rewrite Hpos. cbn [negb].
    destruct equation as [[| | |eq|items|]|]; try done; try by eexists.
    rewrite Hbad. by eexists.
Qed.

(** The validator throws exactly on [null] and on an edge that passes the
    checks on [from], [to] and [multiplier] with a bad equation. *)
Theorem validate_throws conv fromUnit allUnits :
  (∃ msg, validateConversion conv fromUnit allUnits = Thrown msg) <->
  conv = JNull ∨
  ((∃ e, fields_ok (field "from" conv) (field "to" conv) (field "multiplier" conv)
                   (Some (JStr "x")) fromUnit allUnits e) ∧
   bad_equation (field "equation" conv)).
Proof.
  rewrite <- validate_fields_throws. destruct conv; cbn [validateConversion];
    try (split; [by right|by intros [[=]|?]]).
  split; [by left|by eexists].
Qed.

Lemma validate_Some conv fromUnit allUnits e :
  validateConversion conv fromUnit allUnits = Returned (Some e) ->
  well_formed conv fromUnit allUnits e.
Proof. intros Hv. apply validate_fields_accepts. by destruct conv. Qed.

(** What the merge relies on: an accepted edge leaves the unit for a unit
    of the group, carries a multiplier the collector admits, and its
    equation mentions [x]. *)
Definition edge_ok (fromUnit : Unit) (allUnits : list Unit) (e : Edge) : Prop :=
  edge_from e = unit_symbol fromUnit ∧
  (∃ u, u ∈ allUnits ∧ unit_symbol u = edge_to e) ∧
  positive_finite (edge_multiplier e) = true ∧
  includes_char "x" (edge_equation e) = true.

Lemma validate_edge_ok conv fromUnit allUnits e :
  validateConversion conv fromUnit allUnits = Returned (Some e) ->
  edge_ok fromUnit allUnits e.
Proof.
  intros (_ & ? & _ & _ & _ & ? & _ & ? & eq & _ & Hx & Htrim)%validate_Some.
  unfold edge_ok. by rewrite Htrim, includes_char_trim.
Qed.

(** ** The edges collected for a unit *)

Lemma validate_all_Returned items fromUnit groupUnits vs :
  validate_all items fromUnit groupUnits = Returned vs ->
  Forall2 (λ c v, validateConversion c fromUnit groupUnits = Returned v) items vs.
Proof.
  revert vs. induction items as [|c items IH]; intros vs; cbn [validate_all].
  { intros [= <-]. constructor. }
  destruct (validateConversion c fromUnit groupUnits) as [v|] eqn:Hc; [|done].
  cbn. destruct (validate_all items fromUnit groupUnits) as [vs'|]; [|done].
  cbn. intros [= <-]. constructor; [done|by apply IH].
Qed.

Lemma collect_Returned fromUnit groupUnits groupName edges :
  collect fromUnit groupUnits groupName = Returned edges ->
  ∃ items vs,
    generateConversionsFromUnit fromUnit
      (filter (λ u, unit_id u ≠ unit_id fromUnit) groupUnits) groupName = JArr items ∧
    Forall2 (λ c v, validateConversion c fromUnit groupUnits = Returned v) items vs ∧
    edges = omap (λ v, v) vs.
Proof.
  unfold collect. cbv zeta.
  destruct (generateConversionsFromUnit _ _ _) as [| | | |items|]; try done.
  destruct (validate_all items fromUnit groupUnits) as [vs|] eqn:Hvs; [|done].
  intros [= <-]. apply validate_all_Returned in Hvs. by exists items, vs.
Qed.

Lemma collect_edges_ok fromUnit groupUnits groupName edges :
  collect fromUnit groupUnits groupName = Returned edges ->
  Forall (edge_ok fromUnit groupUnits) edges.
Proof.
  intros (items & vs & _ & Hvs & ->)%collect_Returned.
  apply Forall_forall. intros e (v & Hv & ->)%list_elem_of_omap.
  destruct (Forall2_elem_of_r _ _ _ _ Hvs Hv) as (c & _ & Hc).
  by apply (validate_edge_ok c).
Qed.

(** C17: every edge collected for a unit is an edge the merge can rely on, and
    there is at most one per item of the Oracle's answer. *)
Theorem collect_sound fromUnit groupUnits groupName edges :
  collect fromUnit groupUnits groupName = Returned edges ->
  Forall (edge_ok fromUnit groupUnits) edges ∧
  ∃ items, generateConversionsFromUnit fromUnit
             (filter (λ u, unit_id u ≠ unit_id fromUnit) groupUnits) groupName = JArr items ∧
           length edges ≤ length items.
Proof.
  intros Hc. split; [by apply (collect_edges_ok _ _ groupName)|].
  apply collect_Returned in Hc as (items & vs & Hitems & Hvs & ->).
  exists items. split; [done|]. rewrite (Forall2_length _ _ _ Hvs). apply omap_length_le.
Qed.

(** A failed call yields no edge for the unit, and no throw. *)
Theorem collect_oracle_failure fromUnit groupUnits groupName msg :
  askConversions (unit_symbol fromUnit)
    (unit_symbol <$> filter (λ u, unit_id u ≠ unit_id fromUnit) groupUnits) groupName
    = Thrown msg ->
  collect fromUnit groupUnits groupName = Returned [].
Proof. intros Hask. unfold collect, generateConversionsFromUnit. by rewrite Hask. Qed.

End collector.

Arguments Json : clear implicits.
Arguments Edge : clear implicits.
Arguments Oracle : clear implicits.

(** ** Examples: an Oracle given by a table *)

Module collector_examples.

Definition unit (s : string) : Unit := mkUnit ("u-" +:+ s) s s [] "".

Definition units4 : list Unit := unit <$> ["a"; "b"; "c"; "d"].

(** The size of a unit in a common measure. *)
Definition scale (s : string) : Q :=
  (if decide (s = "a") then 1 else if decide (s = "b") then 2
   else if decide (s = "c") then 4 else 8)%Q.

Definition answer (from to : string) : Json Q :=
  JObj [("from", JStr from); ("to", JStr to);
        ("multiplier", JNum (scale from / scale to)%Q); ("equation", JStr " x * k ")].

(** An Oracle that puts every unit into one group and answers every
    request for conversions in full. *)
#[export] Instance table : Oracle Q := {|
  askClassify symbol groups := Returned (JObj [("groupName", JStr " Flow Rate ")]);
  askConversions from tos name := Returned (JArr (answer from <$> tos));
|}.

(** An Oracle whose calls all fail. *)
Definition failing : Oracle Q := {|
  askClassify symbol groups := Thrown "timeout";
  askConversions from tos name := Thrown "timeout";
|}.

Example classify_trims : classifyUnit (unit "a") [] = "Flow Rate".
Proof. by vm_compute. Qed.

Example classify_fallback : classifyUnit (oracle:=failing) (unit "a") [] = "Uncategorized".
Proof. by vm_compute. Qed.

Example collect_table :
  collect (unit "a") units4 "Flow Rate" =
  Returned [mkEdge "a" "b" (1 / 2)%Q "x * k"; mkEdge "a" "c" (1 / 4)%Q "x * k";
            mkEdge "a" "d" (1 / 8)%Q "x * k"].
Proof. by vm_compute. Qed.

(** The target of an edge is looked up among all the units of the group,
    the unit itself included: an edge from a unit to itself is accepted. *)
Example validate_self_loop :
  validateConversion (answer "a" "a") (unit "a") units4 =
  Returned (Some (mkEdge "a" "a" 1%Q "x * k")).
Proof. by vm_compute. Qed.

Example validate_zero_multiplier :
  validateConversion
    (JObj [("from", JStr "a"); ("to", JStr "b"); ("multiplier", JNum 0%Q);
           ("equation", JStr "x")]) (unit "a") units4 = Returned None.
Proof. by vm_compute. Qed.

(** An equation that is an array holding ["x"] passes [includes] and makes
    [trim] throw; the throw is outside the [catch] of the request. *)
Example validate_array_equation :
  validateConversion
    (JObj [("from", JStr "a"); ("to", JStr "b"); ("multiplier", JNum 2%Q);
           ("equation", JArr [JStr "x"])]) (unit "a") units4 =
  Thrown "TypeError: conv.equation.trim is not a function".
Proof. by vm_compute. Qed.

Lemma collect_sound_witness :
  Forall (edge_ok (unit "a") units4)
    [mkEdge "a" "b" (1 / 2)%Q "x * k"; mkEdge "a" "c" (1 / 4)%Q "x * k";
     mkEdge "a" "d" (1 / 8)%Q "x * k"] ∧
  ∃ items, generateConversionsFromUnit (unit "a")
             (filter (λ u, unit_id u ≠ unit_id (unit "a")) units4) "Flow Rate" = JArr items ∧
           length [mkEdge "a" "b" (1 / 2)%Q "x * k"; mkEdge "a" "c" (1 / 4)%Q "x * k";
                   mkEdge "a" "d" (1 / 8)%Q "x * k"] ≤ length items.
Proof. apply (collect_sound (unit "a") units4 "Flow Rate"). by vm_compute. Defined.

Lemma collect_oracle_failure_witness :
  collect (oracle:=failing) (unit "a") units4 "Flow Rate" = Returned [].
Proof. by apply (collect_oracle_failure (oracle:=failing) _ _ _ "timeout"). Defined.

End collector_examples.
