(* ===== verification/Store.v ===== *)
(** * Store: the checkpoint, the registry file and the state of a run

    [loadCheckpoint], [saveCheckpoint] and [saveData] of
    [src/postprocess/generateCustomConversions.ts] (in
    [src/dist/postprocess/linkUnits.js], lines 145-164), and the state the
    generator's [main] threads: the units and the groups read from the
    registry, the checkpoint, the number of identifiers drawn, and the
    events of the run in order (the requests sent to the Oracle and the
    files written).  [Run] is the monad of [main]: a computation from a
    state to a state with a value or a thrown error; the state at a throw
    is the state of the events that happened before it, so that the files
    on disk after a crash are the last ones written.

    [groupsClassified] is a JavaScript object used as a map from group names
    to arrays of unit identifiers; it is an association list in insertion
    order, which is the order of [Object.keys] and [Object.entries] for keys
    that are not array indices.  Reading a key that the object does not own
    finds the properties of [Object.prototype]. *)

From stdpp Require Import gmap strings list.
From S2P Require Import Spec2Rocq JsNumber Schemas Collector.

Section store.
Context {Num : Type}.

Record Checkpoint : Type := mkCheckpoint {
  classificationComplete : bool;
  groupsClassified : list (string * list string);
  conversionsGroupsCompleted : list string;
  currentConversionGroupId : option string;
  unitsCompleted : list string;
}.

(** What [conversions-checkpoint.json] holds: nothing, something that does
    not parse or has no [classificationComplete], or a checkpoint. *)
Inductive CheckpointFile : Type :=
| Missing
| Unreadable
| Stored (cp : Checkpoint).

(** Line 155, the checkpoint of a run that starts from nothing. *)
Definition fresh_checkpoint : Checkpoint :=
  {| classificationComplete := false; groupsClassified := [];
     conversionsGroupsCompleted := []; currentConversionGroupId := None;
     unitsCompleted := [] |}.

(** Lines 145-156. *)
Definition loadCheckpoint (file : CheckpointFile) : Checkpoint :=
  match file with
  | Stored data => data
  | Missing | Unreadable => fresh_checkpoint
  end.

(** The two files of the generator. *)
Record Disk : Type := mkDisk {
  disk_checkpoint : CheckpointFile;
  disk_master : Registry Num;
}.

Inductive Event : Type :=
| AskedClassify (symbol : string) (existingGroups : list string)
| AskedConversions (fromSymbol : string) (toSymbols : list string) (groupName : string)
| SavedCheckpoint (cp : Checkpoint)
| SavedData (file : MasterFile Num).

Record State : Type := mkState {
  st_units : list Unit;
  st_groups : list (UnitGroup Num);
  st_checkpoint : Checkpoint;
  st_next : nat;
  st_events : list Event;
}.

(** A computation of [main]. *)
Definition Run (A : Type) : Type := State -> State * outcome A.

#[export] Instance run_ret : MRet Run := λ A a s, (s, Returned a).

#[export] Instance run_bind : MBind Run := λ A B f m s,
  match m s with
  | (s', Returned a) => f a s'
  | (s', Thrown e) => (s', Thrown e)
  end.

Definition get : Run State := λ s, (s, Returned s).

Definition throw {A} (msg : string) : Run A := λ s, (s, Thrown msg).

Definition set_units (units : list Unit) : Run () := λ s,
  (mkState units (st_groups s) (st_checkpoint s) (st_next s) (st_events s), Returned ()).

Definition set_groups (groups : list (UnitGroup Num)) : Run () := λ s,
  (mkState (st_units s) groups (st_checkpoint s) (st_next s) (st_events s), Returned ()).

Definition set_checkpoint (cp : Checkpoint) : Run () := λ s,
  (mkState (st_units s) (st_groups s) cp (st_next s) (st_events s), Returned ()).

(** [generateUUID()]: the identifier of the next index of the supply. *)
Definition draw (uuid : nat -> string) : Run string := λ s,
  (mkState (st_units s) (st_groups s) (st_checkpoint s) (S (st_next s)) (st_events s),
   Returned (uuid (st_next s))).

Definition record (ev : Event) : Run () := λ s,
  (mkState (st_units s) (st_groups s) (st_checkpoint s) (st_next s) (st_events s ++ [ev]),
   Returned ()).

(** Lines 157-160. *)
Definition saveCheckpoint : Run () :=
  s ← get; record (SavedCheckpoint (st_checkpoint s)).

(** Lines 161-164. *)
Definition saveData : Run () :=
  s ← get; record (SavedData (master_file (st_units s) (st_groups s))).

(** [for (const x of l) body(x)] in [Run]. *)
Fixpoint for_each {A} (l : list A) (body : A -> Run ()) : Run () :=
  match l with
  | [] => mret ()
  | x :: l' => body x;; for_each l' body
  end.

(** The files a sequence of events leaves on a disk. *)
Definition write (d : Disk) (ev : Event) : Disk :=
  match ev with
  | SavedCheckpoint cp => mkDisk (Stored cp) (disk_master d)
  | SavedData file => mkDisk (disk_checkpoint d) (mkRegistry (file_units file) (file_unitGroups file))
  | _ => d
  end.

Definition disk_after (d : Disk) (events : list Event) : Disk := foldl write d events.

(** ** Properties of an object used as a map *)

(** The keys [Object.prototype] answers for. *)
Definition prototype_keys : list string :=
  ["constructor"; "toString"; "toLocaleString"; "valueOf"; "hasOwnProperty";
   "isPrototypeOf"; "propertyIsEnumerable"; "__proto__"; "__defineGetter__";
   "__defineSetter__"; "__lookupGetter__"; "__lookupSetter__"].

(** [Object.keys(obj)]. *)
Definition keys {V} (obj : list (string * V)) : list string := fst <$> obj.

(** The own property [obj[k]]. *)
Definition own {V} (k : string) (obj : list (string * V)) : option V :=
  snd <$> js_find (λ p, bool_decide (p.1 = k)) obj.

(** [obj[k] = v] on an object that owns [k] or not. *)
Fixpoint assign {V} (k : string) (v : V) (obj : list (string * V)) : list (string * V) :=
  match obj with
  | [] => [(k, v)]
  | p :: obj' => if bool_decide (p.1 = k) then (k, v) :: obj' else p :: assign k v obj'
  end.

(** [if (!obj[k]) obj[k] = []; obj[k].push(v)] for a key that
    [Object.prototype] does not answer for. *)
Definition push_own {V} (k : string) (v : V) (obj : list (string * list V)) :
    list (string * list V) :=
  match own k obj with
  | Some vs => assign k (vs ++ [v]) obj
  | None => assign k [v] obj
  end.

(** The values of an object of arrays, key after key: the unit identifiers
    of a classification, group after group. *)
Definition members {V} (obj : list (string * list V)) : list V :=
  concat (snd <$> obj).

Lemma keys_not_elem {V} k (obj : list (string * V)) :
  k ∉ keys obj <-> Forall (λ p, bool_decide (p.1 = k) = false) obj.
Proof.
  unfold keys. rewrite Forall_forall, list_elem_of_fmap. split.
  - intros Hnot p Hp. apply bool_decide_false. intros <-. apply Hnot. by exists p.
  - intros Hall (p & -> & Hp). specialize (Hall p Hp). by rewrite bool_decide_true in Hall.
Qed.

Lemma own_None {V} k (obj : list (string * V)) : own k obj = None <-> k ∉ keys obj.
Proof.
  unfold own. by rewrite fmap_None, js_find_None, keys_not_elem, Forall_forall.
Qed.

Lemma own_Some {V} k (v : V) obj :
  own k obj = Some v <-> ∃ l1 l2, obj = l1 ++ (k, v) :: l2 ∧ k ∉ keys l1.
Proof.
  unfold own. rewrite fmap_Some. setoid_rewrite keys_not_elem. split.
  - intros ([k' v'] & (l1 & l2 & -> & Hk%bool_decide_eq_true & Hl1)%js_find_split & ->).
    cbn in Hk. subst k'. by exists l1, l2.
  - intros (l1 & l2 & -> & Hl1). exists (k, v). split; [|done].
    apply js_find_split. exists l1, l2. split_and!; [done|by apply bool_decide_true|done].
Qed.

Lemma assign_new {V} k (v : V) obj : k ∉ keys obj -> assign k v obj = obj ++ [(k, v)].
Proof.
  induction obj as [|p obj IH]; [done|]. cbn [assign keys fmap list_fmap].
  rewrite not_elem_of_cons. intros [Hp Hobj]. rewrite bool_decide_false by done.
  by rewrite IH.
Qed.

Lemma assign_own {V} k (v w : V) l1 l2 :
  k ∉ keys l1 -> assign k w (l1 ++ (k, v) :: l2) = l1 ++ (k, w) :: l2.
Proof.
  induction l1 as [|p l1 IH]; cbn [assign app keys fmap list_fmap].
  { intros _. by rewrite bool_decide_true. }
  rewrite not_elem_of_cons. intros [Hp Hl1]. rewrite bool_decide_false by done.
  by rewrite IH.
Qed.

Lemma own_elem_of {V} k (v : V) obj : NoDup (keys obj) -> (k, v) ∈ obj <-> own k obj = Some v.
Proof.
  intros Hnd. rewrite own_Some. split.
  - intros (l1 & l2 & ->)%list_elem_of_split. exists l1, l2. split; [done|].
    unfold keys in Hnd. rewrite fmap_app in Hnd. apply NoDup_app in Hnd as (_ & Hnd & _).
    intros Hk. apply (Hnd k Hk). cbn [fmap list_fmap fst]. left.
  - intros (l1 & l2 & -> & _). set_solver.
Qed.

(** Pushing under a key adds the value at the end of the array of the key
    and leaves the other keys alone; a new key comes last. *)
Lemma push_own_spec {V} k (v : V) obj :
  (∃ l1 vs l2, obj = l1 ++ (k, vs) :: l2 ∧ (k ∉ keys l1) ∧
               push_own k v obj = l1 ++ (k, vs ++ [v]) :: l2) ∨
  ((k ∉ keys obj) ∧ push_own k v obj = obj ++ [(k, [v])]).
Proof.
  unfold push_own. destruct (own k obj) as [vs|] eqn:Hown.
  - left. apply own_Some in Hown as (l1 & l2 & -> & Hl1). exists l1, vs, l2.
    by rewrite assign_own.
  - right. apply own_None in Hown. by rewrite assign_new.
Qed.

Lemma push_own_keys {V} k (v : V) obj : NoDup (keys obj) -> NoDup (keys (push_own k v obj)).
Proof.
  destruct (push_own_spec k v obj) as [(l1 & vs & l2 & -> & _ & ->)|[Hk ->]]; unfold keys.
  { by rewrite !fmap_app. }
  rewrite fmap_app. intros Hnd. apply NoDup_app. split_and!; [done| |apply NoDup_singleton].
  intros k' Hk' Heq%list_elem_of_singleton. by subst k'.
Qed.

Lemma push_own_members {V} k (v : V) obj : members (push_own k v obj) ≡ₚ members obj ++ [v].
Proof.
  destruct (push_own_spec k v obj) as [(l1 & vs & l2 & -> & _ & ->)|[Hk ->]]; unfold members;
    rewrite !fmap_app, !concat_app; cbn [fmap list_fmap concat fst snd].
  - solve_Permutation.
  - by rewrite app_nil_r.
Qed.

Lemma push_own_lookup {V} k k' (v : V) obj :
  own k' (push_own k v obj) =
  if decide (k' = k) then Some (default [] (own k obj) ++ [v]) else own k' obj.
Proof.
  destruct (push_own_spec k v obj) as [(l1 & vs & l2 & Hobj & Hl1 & ->)|[Hk ->]].
  - assert (own k obj = Some vs) as Hk by (apply own_Some; eauto).
    rewrite Hk. subst obj. case_decide as Heq; [subst k'; apply own_Some; eauto|].
    unfold own. rewrite !js_find_app. unfold js_find. cbn [find fst].
    by rewrite (bool_decide_false (k = k')) by done.
  - rewrite (proj2 (own_None k obj) Hk). unfold own. rewrite js_find_app.
    case_decide as Heq.
    + subst k'. apply own_None, fmap_None in Hk. rewrite Hk. unfold js_find.
      cbn [find fst from_option]. by rewrite bool_decide_true.
    + unfold js_find. cbn [find fst]. rewrite (bool_decide_false (k = k')) by done.
      by destruct (find _ obj).
Qed.

(** ** Reasoning about runs *)

(** [post m s Q E]: run from [s], [m] returns a value and a state that
    satisfy [Q], or throws in a state that satisfies [E]. *)
Definition post {A} (m : Run A) (s : State) (Q : A -> State -> Prop) (E : State -> Prop) :
    Prop :=
  match m s with
  | (s', Returned a) => Q a s'
  | (s', Thrown _) => E s'
  end.

Lemma post_ret {A} (a : A) s (Q : A -> State -> Prop) E : Q a s -> post (mret a) s Q E.
Proof. done. Qed.

Lemma post_bind {A B} (m : Run A) (f : A -> Run B) s (Q : B -> State -> Prop) E :
  post m s (λ a s', post (f a) s' Q E) E -> post (m ≫= f) s Q E.
Proof.
  unfold post, mbind, run_bind. destruct (m s) as [s' [a|e]]; [|done].
  by destruct (f a s') as [s'' [b|e]].
Qed.

Lemma post_get s (Q : State -> State -> Prop) E : Q s s -> post get s Q E.
Proof. done. Qed.

Lemma post_throw {A} msg s (Q : A -> State -> Prop) (E : State -> Prop) :
  E s -> post (throw msg) s Q E.
Proof. done. Qed.

Lemma post_mono {A} (m : Run A) s (Q Q' : A -> State -> Prop) (E E' : State -> Prop) :
  (∀ a s', Q a s' -> Q' a s') -> (∀ s', E s' -> E' s') ->
  post m s Q E -> post m s Q' E'.
Proof. unfold post. intros HQ HE. destruct (m s) as [s' [a|e]]; auto. Qed.

(** The rule of the [for ... of] loop: [I done] holds when the elements
    [done] have been visited. *)
Lemma post_for_each {A} (l : list A) (body : A -> Run ()) (I : list A -> State -> Prop)
    (E : State -> Prop) s :
  I [] s ->
  (∀ done x rest s', l = done ++ x :: rest -> I done s' ->
                     post (body x) s' (λ _, I (done ++ [x])) E) ->
  post (for_each l body) s (λ _, I l) E.
Proof.
  intros Hs Hbody.
  enough (∀ done rest s', l = done ++ rest -> I done s' ->
                          post (for_each rest body) s' (λ _, I l) E) as Hgen
    by by apply (Hgen [] l).
  intros done rest. revert done. induction rest as [|x rest IH]; intros done s' Hl Hdone.
  { rewrite app_nil_r in Hl. by subst. }
  cbn [for_each]. apply post_bind.
  eapply post_mono; [|done|by apply (Hbody done x rest)].
  intros [] s'' Hx. apply (IH (done ++ [x])); [|done]. by rewrite <- app_assoc.
Qed.

(** The same rule for an invariant that does not depend on the progress. *)
Lemma post_for_each_inv {A} (l : list A) (body : A -> Run ()) (I : State -> Prop)
    (E : State -> Prop) s :
  I s -> (∀ x s', x ∈ l -> I s' -> post (body x) s' (λ _, I) E) ->
  post (for_each l body) s (λ _, I) E.
Proof.
  intros Hs Hbody. apply (post_for_each l body (λ _, I)); [done|].
  intros done x rest s' -> Hs'. apply Hbody; [|done]. set_solver.
Qed.

End store.

Arguments Checkpoint : clear implicits.
Arguments State : clear implicits.
Arguments Event : clear implicits.
Arguments Disk : clear implicits.
Arguments Run : clear implicits.
