(* ===== verification/Pipeline.v ===== *)
(** * Pipeline: the resumable conversion generator

    [main] of [src/postprocess/generateCustomConversions.ts] (in
    [src/dist/postprocess/linkUnits.js], lines 165-287), in the monad [Run]
    of [Store].  Phase 1 classifies the units that have no group, twenty at
    a time, and saves the checkpoint after every batch.  Phase 2 creates or
    extends the groups of the classification, then asks the Oracle for the
    conversions of every unit of every group that lacks conversions, twenty
    units at a time, merges the validated edges and saves the checkpoint and
    the registry after every unit.

    The arrays [allUnits] and [unitGroups] hold objects that the source
    mutates in place; here a group or a unit is addressed by its index in
    the list of the state, which is what a reference to the object amounts
    to.  The requests of a batch are sent before any answer is merged
    ([Promise.all]), so a batch records its requests first; a promise that
    rejects makes [main] throw after the requests of its batch. *)

From Stdlib Require Import QArith.
From stdpp Require Import gmap strings list pretty.
From S2P Require Import Spec2Rocq JsNumber Schemas Consistency Collector Store.

Section pipeline.
Context {Num : Type} {JN : JsNumber Num} {oracle : Oracle Num}.
Context (uuid : nat -> string).

Local Abbreviation M := (Run Num).

Definition set_groupsClassified (gc : list (string * list string)) (cp : Checkpoint) :
    Checkpoint :=
  {| classificationComplete := classificationComplete cp; groupsClassified := gc;
     conversionsGroupsCompleted := conversionsGroupsCompleted cp;
     currentConversionGroupId := currentConversionGroupId cp;
     unitsCompleted := unitsCompleted cp |}.

Definition set_classificationComplete (b : bool) (cp : Checkpoint) : Checkpoint :=
  {| classificationComplete := b; groupsClassified := groupsClassified cp;
     conversionsGroupsCompleted := conversionsGroupsCompleted cp;
     currentConversionGroupId := currentConversionGroupId cp;
     unitsCompleted := unitsCompleted cp |}.

(** Lines 269-270: [unitsCompleted.push(id); currentConversionGroupId = groupId]. *)
Definition unit_done (unitId groupId : string) (cp : Checkpoint) : Checkpoint :=
  {| classificationComplete := classificationComplete cp;
     groupsClassified := groupsClassified cp;
     conversionsGroupsCompleted := conversionsGroupsCompleted cp;
     currentConversionGroupId := Some groupId;
     unitsCompleted := unitsCompleted cp ++ [unitId] |}.

(** Lines 278-280: the group is completed and the progress within it is
    reset. *)
Definition group_done (groupId : string) (cp : Checkpoint) : Checkpoint :=
  {| classificationComplete := classificationComplete cp;
     groupsClassified := groupsClassified cp;
     conversionsGroupsCompleted := conversionsGroupsCompleted cp ++ [groupId];
     currentConversionGroupId := None;
     unitsCompleted := [] |}.

(** Line 175: [allUnits.filter(u => !u.unitGroupId)]. *)
Definition unmappedOf (allUnits : list Unit) : list Unit :=
  filter (λ u, str_truthy (unit_unitGroupId u) = false) allUnits.

(** Lines 191-193: [if (!gc[name]) gc[name] = []; gc[name].push(id)].  A
    name the object does not own but its prototype answers for is truthy
    and has no [push]. *)
Definition classified_push (name id : string) (gc : list (string * list string)) :
    outcome (list (string * list string)) :=
  if bool_decide (own name gc = None) && bool_decide (name ∈ prototype_keys)
  then Thrown "TypeError: checkpoint.groupsClassified[...].push is not a function"
  else Returned (push_own name id gc).

(** Lines 187-197, one batch of Phase 1. *)
Definition classify_batch (batch : list Unit) : M () :=
  s ← get;
  let existing := keys (groupsClassified (st_checkpoint s)) in
  for_each batch (λ u, record (AskedClassify (unit_symbol u) existing));;
  for_each batch (λ unit,
    s ← get;
    match classified_push (classifyUnit unit existing) (unit_id unit)
                          (groupsClassified (st_checkpoint s)) with
    | Returned gc => set_checkpoint (set_groupsClassified gc (st_checkpoint s))
    | Thrown e => throw e
    end);;
  saveCheckpoint.

(** Lines 184-202, Phase 1. *)
Definition classify_phase : M () :=
  s ← get;
  let unmapped := unmappedOf (st_units s) in
  if negb (classificationComplete (st_checkpoint s)) && bool_decide (0 < length unmapped)
  then
    for_each (batches 20 unmapped) classify_batch;;
    s ← get;
    set_checkpoint (set_classificationComplete true (st_checkpoint s));;
    saveCheckpoint
  else mret ().

(** Line 206: ['ug-' + groupName.toLowerCase().replace(/[^a-z0-9]+/g, '-')]. *)
Definition groupIdOf (groupName : string) : string :=
  "ug-" +:+ replace_non_slug false (toLowerCase groupName).

(** Lines 206-219, the body of the loop over the classification. *)
Definition assign_group (entry : string * list string) : M () :=
  let groupName := entry.1 in
  let unitIds := entry.2 in
  let groupId := groupIdOf groupName in
  s ← get;
  match list_find (λ g, group_id g = groupId) (st_groups s) with
  | None =>
      set_groups (st_groups s ++
                  [mkUnitGroup groupId groupName ("Custom MEP " +:+ groupName) None unitIds []])
  | Some (i, group) =>
      set_groups (<[i := set_unitIds (dedupe (group_unitIds group ++ unitIds)) group]>
                    (st_groups s))
  end;;
  for_each unitIds (λ unitId,
    s ← get;
    match list_find (λ u, unit_id u = unitId) (st_units s) with
    | Some (j, unit) => set_units (<[j := set_unitGroupId groupId unit]> (st_units s))
    | None => mret ()
    end).

(** Lines 205-220. *)
Definition assign_groups : M () :=
  s ← get; for_each (groupsClassified (st_checkpoint s)) assign_group.

(** Lines 221-226, the predicate of [groupsNeedingConversions]. *)
Definition needs_conversions (allUnits : list Unit) (cp : Checkpoint) (g : UnitGroup Num) :
    bool :=
  if bool_decide (group_id g ∈ conversionsGroupsCompleted cp) then false
  else
    let units := groupUnitsOf allUnits g in
    bool_decide (length (group_conversions g) < expectedCount units) &&
    bool_decide (2 ≤ length units).

(** The groups of [groupsNeedingConversions], by index in [unitGroups]. *)
Definition groupsNeedingConversions (s : State Num) : list nat :=
  filter (λ i, from_option (needs_conversions (st_units s) (st_checkpoint s)) false
                           (st_groups s !! i) = true)
         (seq 0 (length (st_groups s))).

(** Lines 255-268, the body of the loop over the validated edges of one
    unit; [i] is the index of the group. *)
Definition merge_edge (groupUnits : list Unit) (fromUnit : Unit) (i : nat)
    (convData : Edge Num) : M () :=
  s ← get;
  match st_groups s !! i,
        js_find (λ u, bool_decide (unit_symbol u = edge_to convData)) groupUnits with
  | Some group, Some toUnit =>
      if js_some (connects (unit_id fromUnit) (unit_id toUnit)) (group_conversions group)
      then mret ()
      else
        id ← draw uuid;
        set_groups
          (<[i := set_conversions
                    (group_conversions group ++
                     [mkConversion id (unit_id fromUnit) (unit_id toUnit)
                        (edge_multiplier convData) (edge_equation convData)
                        (unit_symbol fromUnit +:+ " to " +:+ unit_symbol toUnit)])
                    group]> (st_groups s))
  | _, _ => mret ()
  end.

(** Lines 254-273, the body of the loop over the results of a batch. *)
Definition merge_unit (groupUnits : list Unit) (i : nat) (result : Unit * list (Edge Num)) :
    M () :=
  for_each result.2 (merge_edge groupUnits result.1 i);;
  s ← get;
  match st_groups s !! i with
  | Some group =>
      set_checkpoint (unit_done (unit_id result.1) (group_id group) (st_checkpoint s))
  | None => mret ()
  end;;
  saveCheckpoint;;
  saveData.

(** [Promise.all] over the promises of a batch: the results in the order of
    the batch, or the throw of a promise that rejects. *)
Fixpoint collect_all (batch : list Unit) (groupUnits : list Unit) (groupName : string) :
    outcome (list (Unit * list (Edge Num))) :=
  match batch with
  | [] => Returned []
  | fromUnit :: batch' =>
      match collect fromUnit groupUnits groupName,
            collect_all batch' groupUnits groupName with
      | Returned conversions, Returned results => Returned ((fromUnit, conversions) :: results)
      | Thrown e, _ | _, Thrown e => Thrown e
      end
  end.

(** Lines 246-273, one batch of a group. *)
Definition convert_batch (groupUnits : list Unit) (groupName : string) (i : nat)
    (batch : list Unit) : M () :=
  for_each batch (λ fromUnit,
    record (AskedConversions (unit_symbol fromUnit)
              (unit_symbol <$> filter (λ u, unit_id u ≠ unit_id fromUnit) groupUnits)
              groupName));;
  match collect_all batch groupUnits groupName with
  | Returned results => for_each results (merge_unit groupUnits i)
  | Thrown e => throw e
  end.

(** Lines 235-237. *)
Definition unitsToProcessOf (cp : Checkpoint) (group : UnitGroup Num) (groupUnits : list Unit) :
    list Unit :=
  if bool_decide (currentConversionGroupId cp = Some (group_id group))
  then filter (λ u, unit_id u ∉ unitsCompleted cp) groupUnits
  else groupUnits.

(** Lines 234-282, the body of the loop over the groups that need
    conversions, after the test of the limit.  The result says whether the
    group was processed ([groupsProcessed++]) or skipped ([continue]). *)
Definition process_group (i : nat) : M bool :=
  s ← get;
  match st_groups s !! i with
  | None => mret false
  | Some group =>
      let groupUnits := groupUnitsOf (st_units s) group in
      let unitsToProcess := unitsToProcessOf (st_checkpoint s) group groupUnits in
      if bool_decide (length unitsToProcess = 0) then mret false
      else
        for_each (batches 20 unitsToProcess) (convert_batch groupUnits (group_name group) i);;
        s ← get;
        set_checkpoint (group_done (group_id group) (st_checkpoint s));;
        saveCheckpoint;;
        mret true
  end.

(** [batchGroupLimit && groupsProcessed >= batchGroupLimit]: no limit, or a
    limit of zero, never stops the loop. *)
Definition limit_reached (batchGroupLimit : option nat) (groupsProcessed : nat) : bool :=
  match batchGroupLimit with
  | Some limit => bool_decide (0 < limit) && bool_decide (limit ≤ groupsProcessed)
  | None => false
  end.

(** Lines 228-283, the loop over [groupsNeedingConversions] with its
    [break]. *)
Fixpoint process_groups (batchGroupLimit : option nat) (groupsProcessed : nat)
    (needing : list nat) : M () :=
  match needing with
  | [] => mret ()
  | i :: rest =>
      if limit_reached batchGroupLimit groupsProcessed then mret ()
      else
        processed ← process_group i;
        process_groups batchGroupLimit
          (if processed : bool then S groupsProcessed else groupsProcessed) rest
  end.

(** Lines 165-287 after the files are read. *)
Definition generate (batchGroupLimit : option nat) : M () :=
  classify_phase;;
  assign_groups;;
  s ← get;
  process_groups batchGroupLimit 0 (groupsNeedingConversions s);;
  saveData.

(** The state [main] starts from. *)
Definition boot (disk : Disk Num) (next : nat) : State Num :=
  {| st_units := reg_units (disk_master disk);
     st_groups := reg_unitGroups (disk_master disk);
     st_checkpoint := loadCheckpoint (disk_checkpoint disk);
     st_next := next; st_events := [] |}.

(** Lines 165-287: a run from the files on disk. *)
Definition main (batchGroupLimit : option nat) (disk : Disk Num) (next : nat) :
    State Num * outcome () :=
  generate batchGroupLimit (boot disk next).

(** ** Every file written is well formed *)

(** A group is well formed when no ordered pair of units has two equations
    and every multiplier is positive and finite. *)
Definition group_wf (g : UnitGroup Num) : Prop :=
  NoDup (conv_pair <$> group_conversions g) ∧
  Forall (λ c, positive_finite (conv_multiplier c) = true) (group_conversions g).

(** The units of a run are the units read, up to their group. *)
Definition same_units (units0 units : list Unit) : Prop :=
  set_unitGroupId "" <$> units = set_unitGroupId "" <$> units0.

Definition registry_wf (units0 : list Unit) (r : Registry Num) : Prop :=
  same_units units0 (reg_units r) ∧ Forall group_wf (reg_unitGroups r).

Definition event_wf (units0 : list Unit) (ev : Event Num) : Prop :=
  match ev with
  | SavedData file => registry_wf units0 (reread file)
  | _ => True
  end.

(** The invariant of a run: the registry in memory and every registry
    written so far are well formed. *)
Definition safe (units0 : list Unit) (s : State Num) : Prop :=
  same_units units0 (st_units s) ∧ Forall group_wf (st_groups s) ∧
  Forall (event_wf units0) (st_events s).

Definition preserves {A} (units0 : list Unit) (m : M A) : Prop :=
  ∀ s, safe units0 s -> post m s (λ _, safe units0) (safe units0).

Section safety.
Context (units0 : list Unit).
Local Abbreviation safe0 := (safe units0).

Lemma preserves_ret {A} (a : A) : preserves units0 (mret a : M A).
Proof. by intros s Hs. Qed.

Lemma preserves_throw {A} msg : preserves units0 (throw msg : M A).
Proof. by intros s Hs. Qed.

Lemma preserves_bind {A B} (m : M A) (f : A -> M B) :
  preserves units0 m -> (∀ a, preserves units0 (f a)) -> preserves units0 (m ≫= f).
Proof.
  intros Hm Hf s Hs. apply post_bind. eapply post_mono; [|done|by apply Hm].
  intros a s' Hs'. by apply Hf.
Qed.

(** A computation that reads the state preserves the invariant if it does
    so from the state it read. *)
Lemma preserves_get {B} (f : State Num -> M B) :
  (∀ s, safe0 s -> post (f s) s (λ _, safe0) safe0) -> preserves units0 (get ≫= f).
Proof. intros Hf s Hs. apply post_bind, post_get. by apply Hf. Qed.

Lemma preserves_for_each {A} (l : list A) (body : A -> M ()) :
  (∀ x, x ∈ l -> preserves units0 (body x)) -> preserves units0 (for_each l body).
Proof.
  intros Hbody s Hs. apply post_for_each_inv; [done|].
  intros x s' Hx Hs'. by apply Hbody.
Qed.

Lemma preserves_set_checkpoint cp : preserves units0 (set_checkpoint cp).
Proof. by intros s Hs. Qed.

Lemma preserves_draw : preserves units0 (draw uuid).
Proof. by intros s Hs. Qed.

Lemma preserves_record ev : event_wf units0 ev -> preserves units0 (record ev).
Proof.
  intros Hev s (Hu & Hg & He). unfold post. cbn. split_and!; [done..|].
  apply Forall_app. split; [done|]. by apply Forall_singleton.
Qed.

Lemma preserves_saveCheckpoint : preserves units0 saveCheckpoint.
Proof. apply preserves_get. intros s Hs. by apply preserves_record. Qed.

Lemma preserves_saveData : preserves units0 saveData.
Proof.
  apply preserves_get. intros s Hs. apply preserves_record; [|done].
  destruct Hs as (Hu & Hg & _). by split.
Qed.

Lemma safe_set_groups s groups :
  safe0 s -> Forall group_wf groups ->
  post (set_groups groups) s (λ _, safe0) safe0.
Proof. intros (Hu & _ & He) Hg. by split_and!. Qed.

Lemma safe_set_units s units :
  safe0 s -> same_units units0 units ->
  post (set_units units) s (λ _, safe0) safe0.
Proof. intros (_ & Hg & He) Hu. by split_and!. Qed.

Lemma preserves_read {B} (f : State Num -> M B) :
  (∀ s0, preserves units0 (f s0)) -> preserves units0 (get ≫= f).
Proof. intros Hf. apply preserves_get. intros s Hs. by apply Hf. Qed.

(** The rules of the steps that do not touch the registry. *)
Ltac preserve_step :=
  lazymatch goal with
  | |- preserves _ (mret _) => apply preserves_ret
  | |- preserves _ (throw _) => apply preserves_throw
  | |- preserves _ (set_checkpoint _) => apply preserves_set_checkpoint
  | |- preserves _ (draw _) => apply preserves_draw
  | |- preserves _ saveCheckpoint => apply preserves_saveCheckpoint
  | |- preserves _ saveData => apply preserves_saveData
  | |- preserves _ (record _) => by apply preserves_record
  | |- preserves _ (get ≫= _) => apply preserves_read; intros ?
  | |- preserves _ (_ ≫= _) => apply preserves_bind; [|intros ?]
  | |- preserves _ (for_each _ _) => apply preserves_for_each; intros ? ?
  end.

Ltac preserve := repeat (preserve_step; cbv beta zeta).

Lemma classify_batch_safe batch : preserves units0 (classify_batch batch).
Proof. unfold classify_batch. preserve. destruct (classified_push _ _ _); preserve. Qed.

Lemma classify_phase_safe : preserves units0 classify_phase.
Proof.
  unfold classify_phase. preserve. cbv zeta. destruct (_ && _); preserve.
  apply classify_batch_safe.
Qed.

Lemma same_units_insert units j u groupId :
  units !! j = Some u -> same_units units0 units ->
  same_units units0 (<[j := set_unitGroupId groupId u]> units).
Proof.
  unfold same_units. intros Hj <-. rewrite list_fmap_insert.
  apply list_insert_id. by rewrite list_lookup_fmap, Hj.
Qed.

Lemma assign_group_safe entry : preserves units0 (assign_group entry).
Proof.
  unfold assign_group. cbv zeta. apply preserves_get. intros s Hs. apply post_bind.
  assert (∀ s', safe0 s' ->
            post (for_each entry.2 (λ unitId,
              s ← get;
              match list_find (λ u, unit_id u = unitId) (st_units s) with
              | Some (j, unit) =>
                  set_units (<[j := set_unitGroupId (groupIdOf entry.1) unit]> (st_units s))
              | None => mret ()
              end)) s' (λ _, safe0) safe0) as Hunits.
  { apply preserves_for_each. intros unitId _. apply preserves_get. intros s1 Hs1.
    destruct (list_find _ _) as [[j unit]|] eqn:Hfind; [|done].
    apply list_find_Some in Hfind as (Hj & _). apply safe_set_units; [done|].
    apply same_units_insert; [done|apply Hs1]. }
  destruct Hs as (Hu & Hg & He).
  destruct (list_find _ (st_groups s)) as [[i group]|] eqn:Hfind.
  - apply list_find_Some in Hfind as (Hi & _).
    apply (post_mono _ _ (λ _, safe0) _ safe0 safe0); [intros [] s'; apply Hunits|done|].
    apply safe_set_groups; [done|]. apply Forall_insert; [done|].
    apply (proj1 (Forall_lookup _ _) Hg i group Hi).
  - apply (post_mono _ _ (λ _, safe0) _ safe0 safe0); [intros [] s'; apply Hunits|done|].
    apply safe_set_groups; [done|]. apply Forall_app. split; [done|].
    apply Forall_singleton. split; cbn; constructor.
Qed.

Lemma assign_groups_safe : preserves units0 assign_groups.
Proof. unfold assign_groups. preserve. apply assign_group_safe. Qed.

(** Appending an equation for a pair that has none keeps a group well
    formed. *)
Lemma group_wf_push (g : UnitGroup Num) c :
  group_wf g -> js_some (connects (conv_fromUnitId c) (conv_toUnitId c)) (group_conversions g) = false ->
  positive_finite (conv_multiplier c) = true ->
  group_wf (set_conversions (group_conversions g ++ [c]) g).
Proof.
  intros [Hnd Hpos] Hnew Hc. split; cbn [group_conversions set_conversions].
  - rewrite fmap_app. apply NoDup_app. split_and!; [done| |apply NoDup_singleton].
    intros p (c' & -> & Hc')%list_elem_of_fmap Heq%list_elem_of_singleton.
    rewrite js_some_false in Hnew. specialize (Hnew c' Hc').
    apply not_true_iff_false in Hnew. apply Hnew. by apply connects_pair.
  - apply Forall_app. split; [done|]. by apply Forall_singleton.
Qed.

Lemma merge_edge_safe groupUnits fromUnit i convData :
  positive_finite (edge_multiplier convData) = true ->
  preserves units0 (merge_edge groupUnits fromUnit i convData).
Proof.
  intros Hpos. unfold merge_edge. apply preserves_get. intros s Hs.
  destruct (st_groups s !! i) as [group|] eqn:Hi; [|done].
  destruct (js_find _ groupUnits) as [toUnit|]; [|done].
  destruct (js_some _ _) eqn:Hnew; [done|].
  apply post_bind. unfold post. cbn.
  destruct Hs as (Hu & Hg & He). split_and!; [done| |done].
  apply Forall_insert; [done|]. apply group_wf_push; [|done..].
  apply (proj1 (Forall_lookup _ _) Hg i group Hi).
Qed.

Lemma merge_unit_safe groupUnits i result :
  Forall (λ e, positive_finite (edge_multiplier e) = true) result.2 ->
  preserves units0 (merge_unit groupUnits i result).
Proof.
  intros Hpos. unfold merge_unit. preserve.
  - apply merge_edge_safe. by apply (proj1 (Forall_forall _ _) Hpos).
  - destruct (st_groups _ !! i); preserve.
Qed.

Lemma collect_all_ok batch groupUnits groupName results :
  collect_all batch groupUnits groupName = Returned results ->
  Forall (λ r, Forall (λ e, positive_finite (edge_multiplier e) = true) r.2) results.
Proof.
  revert results. induction batch as [|u batch IH]; intros results; cbn [collect_all].
  { intros [= <-]. constructor. }
  destruct (collect u groupUnits groupName) as [edges|] eqn:Hu;
    destruct (collect_all batch groupUnits groupName) as [rs|]; try done.
  intros [= <-]. constructor; [|by apply IH]. cbn [snd].
  eapply Forall_impl; [by apply (collect_edges_ok _ _ _ _ Hu)|]. by intros e (_ & _ & ? & _).
Qed.

Lemma convert_batch_safe groupUnits groupName i batch :
  preserves units0 (convert_batch groupUnits groupName i batch).
Proof.
  unfold convert_batch. preserve.
  destruct (collect_all batch groupUnits groupName) as [results|] eqn:Hres; preserve.
  apply merge_unit_safe. apply collect_all_ok in Hres.
  by apply (proj1 (Forall_forall _ _) Hres).
Qed.

Lemma process_group_safe i : preserves units0 (process_group i).
Proof.
  unfold process_group. preserve. destruct (st_groups _ !! i); preserve.
  destruct (bool_decide _); preserve. apply convert_batch_safe.
Qed.

Lemma process_groups_safe limit n needing :
  preserves units0 (process_groups limit n needing).
Proof.
  revert n. induction needing as [|i rest IH]; intros n; cbn [process_groups]; preserve.
  destruct (limit_reached limit n); preserve; [apply process_group_safe|apply IH].
Qed.

Lemma generate_safe limit : preserves units0 (generate limit).
Proof.
  unfold generate. preserve;
    [apply classify_phase_safe|apply assign_groups_safe|apply process_groups_safe].
Qed.

End safety.

(** A registry on disk is well formed when its groups are. *)
Definition disk_wf (disk : Disk Num) : Prop :=
  Forall group_wf (reg_unitGroups (disk_master disk)).

Lemma boot_safe disk next :
  disk_wf disk -> safe (reg_units (disk_master disk)) (boot disk next).
Proof. intros Hwf. by split_and!. Qed.

Lemma main_preserves limit disk next :
  disk_wf disk -> safe (reg_units (disk_master disk)) (main limit disk next).1.
Proof.
  intros Hwf. pose proof (generate_safe _ limit _ (boot_safe disk next Hwf)) as Hpost.
  unfold post in Hpost. unfold main. by destruct (generate limit _) as [s' [[]|e]].
Qed.

Lemma disk_after_wf units0 (d : Disk Num) events :
  registry_wf units0 (disk_master d) -> Forall (event_wf units0) events ->
  registry_wf units0 (disk_master (disk_after d events)).
Proof.
  unfold disk_after. revert d. induction events as [|ev events IH]; intros d Hd Hevs; [done|].
  apply Forall_cons in Hevs as [Hev Hevs]. cbn [foldl]. apply IH; [|done].
  by destruct ev.
Qed.

(** C2: whatever the Oracle answers, whether the run returns or throws, and
    wherever it is interrupted, the registry on disk is well formed: after
    every prefix of the events of a run from a well-formed registry, the
    file holds the units that were read, up to their group, and groups in
    which no ordered pair has two equations and every multiplier is positive
    and finite. *)
Theorem main_crash_safe limit disk next k :
  disk_wf disk ->
  registry_wf (reg_units (disk_master disk))
    (disk_master (disk_after disk (take k (st_events (main limit disk next).1)))).
Proof.
  intros Hwf. apply disk_after_wf; [by split|].
  apply Forall_take. by apply main_preserves.
Qed.

(** ** Phase 1 classifies every unit once *)

Lemma classified_push_members name id gc gc' :
  classified_push name id gc = Returned gc' ->
  members gc' ≡ₚ members gc ++ [id] ∧ (NoDup (keys gc) -> NoDup (keys gc')).
Proof.
  unfold classified_push. destruct (_ && _); [done|]. intros [= <-].
  split; [apply push_own_members|apply push_own_keys].
Qed.

(** The state of Phase 1 when the units [done] have been classified from
    the classification [gc0]. *)
Definition classified (s0 : State Num) (done : list Unit) (s : State Num) : Prop :=
  members (groupsClassified (st_checkpoint s)) ≡ₚ
    members (groupsClassified (st_checkpoint s0)) ++ (unit_id <$> done) ∧
  (NoDup (keys (groupsClassified (st_checkpoint s0))) ->
   NoDup (keys (groupsClassified (st_checkpoint s)))) ∧
  st_units s = st_units s0 ∧ st_groups s = st_groups s0.

Lemma classify_batch_classified s0 done batch s :
  classified s0 done s ->
  post (classify_batch batch) s (λ _, classified s0 (done ++ batch)) (λ _, True).
Proof.
  intros Hs. unfold classify_batch. apply post_bind, post_get. cbv zeta. apply post_bind.
  apply (post_mono _ _ (λ _, classified s0 done) _ (λ _, True) (λ _, True)); [|done|].
  2:{ apply post_for_each_inv; [done|]. by intros u s' _ Hs'. }
  intros [] s1 Hs1. apply post_bind.
  apply (post_mono _ _ (λ _, classified s0 (done ++ batch)) _ (λ _, True) (λ _, True));
    [|done|].
  { intros [] s2 Hs2. apply post_bind, post_get. exact Hs2. }
  apply (post_for_each batch _ (λ d, classified s0 (done ++ d))).
  { by rewrite app_nil_r. }
  intros d u rest s2 _ (Hmem & Hnd & Hu & Hg). apply post_bind, post_get.
  destruct (classified_push _ _ _) as [gc|e] eqn:Hpush; [|done].
  apply classified_push_members in Hpush as [Hmem' Hnd']. unfold post. cbn.
  split_and!; [|by auto|done..].
  rewrite Hmem', Hmem, !fmap_app. cbn. by rewrite <- !app_assoc.
Qed.

(** C10: Phase 1 from a checkpoint that is not complete: when it returns, the
    classification lists, besides what it listed before, every unit without
    a group once; it is then complete, and the registry in memory is
    untouched. *)
Theorem classify_phase_partition s :
  classificationComplete (st_checkpoint s) = false ->
  post classify_phase s
    (λ _ s', classified s (unmappedOf (st_units s)) s' ∧
             (unmappedOf (st_units s) ≠ [] ->
              classificationComplete (st_checkpoint s') = true))
    (λ _, True).
Proof.
  intros Hfresh. unfold classify_phase. apply post_bind, post_get. cbv zeta.
  rewrite Hfresh. cbn [negb andb]. case_bool_decide as Hlen.
  2:{ apply post_ret. destruct (unmappedOf (st_units s)); [|cbn in Hlen; lia].
      split; [|done]. split_and!; [|done..]. cbn. by rewrite app_nil_r. }
  apply post_bind.
  apply (post_mono _ _ (λ _, classified s (concat (batches 20 (unmappedOf (st_units s)))))
           _ (λ _, True) (λ _, True)); [|done|].
  { intros [] s1. rewrite batches_concat by lia. intros (Hmem & Hnd & Hu & Hg).
    apply post_bind, post_get. unfold post. cbn. by split_and!. }
  apply (post_for_each _ _ (λ d, classified s (concat d))).
  { split_and!; [|done..]. cbn. by rewrite app_nil_r. }
  intros d batch rest s1 _ Hs1. rewrite concat_app. cbn [concat]. rewrite app_nil_r.
  by apply classify_batch_classified.
Qed.

End pipeline.

(** ** Examples: runs against the Oracle of [collector_examples] *)

Module pipeline_examples.
Import collector_examples.

Definition uuid (n : nat) : string := "c-" +:+ pretty n.

(** Four units without a group, no group, no checkpoint. *)
Definition disk0 : Disk Q := mkDisk Missing (mkRegistry units4 []).

Definition full : State Q * outcome () := main uuid None disk0 0.

Definition kind (ev : Event Q) : string :=
  match ev with
  | AskedClassify s _ => "classify " +:+ s
  | AskedConversions s _ _ => "convert " +:+ s
  | SavedCheckpoint _ => "checkpoint"
  | SavedData _ => "data"
  end.

(** The units a run asked the conversions of. *)
Definition asked (s : State Q) : list string :=
  omap (λ ev, match ev with AskedConversions f _ _ => Some f | _ => None end) (st_events s).

Definition shape (s : State Q) : list (string * list string * list (string * string)) :=
  (λ g, (group_id g, group_unitIds g, conv_pair <$> group_conversions g)) <$> st_groups s.

(** The run restarted from the files the first [k] events of [full] left. *)
Definition resumed (k : nat) : State Q * outcome () :=
  main uuid None (disk_after disk0 (take k (st_events full.1))) 100.

(** An Oracle that names a group after a property of [Object.prototype]. *)
Definition proto : Oracle Q := {|
  askClassify symbol groups := Returned (JObj [("groupName", JStr "constructor")]);
  askConversions from tos name := Returned (JArr (answer from <$> tos));
|}.

(** An uninterrupted run: one batch of classification, one batch of
    requests, the checkpoint and the registry saved after every unit. *)
Example run_events :
  full.2 = Returned () ∧
  kind <$> st_events full.1 =
  ["classify a"; "classify b"; "classify c"; "classify d"; "checkpoint"; "checkpoint";
   "convert a"; "convert b"; "convert c"; "convert d";
   "checkpoint"; "data"; "checkpoint"; "data"; "checkpoint"; "data"; "checkpoint"; "data";
   "checkpoint"; "data"].
Proof. by vm_compute. Qed.

Example run_complete :
  (λ g, (group_id g, group_unitIds g, length (group_conversions g))) <$> st_groups full.1 =
  [("ug-flow-rate", ["u-a"; "u-b"; "u-c"; "u-d"], 12)].
Proof. by vm_compute. Qed.

(** The files after the registry of the second unit is saved record the
    group in progress with two units completed; the restarted run asks for
    the other two only and ends with the conversions of the uninterrupted
    run. *)
Example resume_in_progress :
  disk_checkpoint (disk_after disk0 (take 14 (st_events full.1))) =
    Stored (mkCheckpoint true [("Flow Rate", ["u-a"; "u-b"; "u-c"; "u-d"])] []
                         (Some "ug-flow-rate") ["u-a"; "u-b"]) ∧
  asked (resumed 14).1 = ["c"; "d"] ∧
  shape (resumed 14).1 = shape full.1.
Proof. by vm_compute. Qed.

(** The checkpoint is written before the registry.  A run interrupted
    between the two has a checkpoint that counts the second unit and a
    registry without its conversions: the restarted run never asks for them
    and completes the group with nine conversions out of twelve. *)
Example resume_between_saves :
  asked (resumed 13).1 = ["c"; "d"] ∧
  (resumed 13).2 = Returned () ∧
  (λ g, length (group_conversions g)) <$> st_groups (resumed 13).1 = [9] ∧
  conversionsGroupsCompleted (st_checkpoint (resumed 13).1) = ["ug-flow-rate"].
Proof. by vm_compute. Qed.

(** A run interrupted after the first checkpoint of Phase 1 classifies the
    same units again: the registry is not written in Phase 1, so the units
    still have no group, and the group lists every unit twice. *)
Example resume_in_classification :
  (λ g, group_unitIds g) <$> st_groups (resumed 5).1 =
  [["u-a"; "u-b"; "u-c"; "u-d"; "u-a"; "u-b"; "u-c"; "u-d"]].
Proof. by vm_compute. Qed.

(** A group name that [Object.prototype] answers for stops the run in
    Phase 1, before any file is written. *)
Example prototype_group_name :
  (main (oracle:=proto) uuid None disk0 0).2 =
    Thrown "TypeError: checkpoint.groupsClassified[...].push is not a function" ∧
  kind <$> st_events (main (oracle:=proto) uuid None disk0 0).1 =
    ["classify a"; "classify b"; "classify c"; "classify d"].
Proof. by vm_compute. Qed.

(** When every call fails the units fall into ["Uncategorized"], no edge is
    collected, and the group is recorded as completed all the same: a later
    run does not ask again. *)
Example failed_calls_complete :
  (main (oracle:=failing) uuid None disk0 0).2 = Returned () ∧
  (λ g, (group_id g, length (group_conversions g))) <$>
    st_groups (main (oracle:=failing) uuid None disk0 0).1 = [("ug-uncategorized", 0)] ∧
  conversionsGroupsCompleted (st_checkpoint (main (oracle:=failing) uuid None disk0 0).1) =
    ["ug-uncategorized"].
Proof. by vm_compute. Qed.

(** A limit of zero is no limit. *)
Example limit_zero : main uuid (Some 0) disk0 0 = full.
Proof. by vm_compute. Qed.

Lemma main_crash_safe_witness :
  registry_wf units4 (disk_master (disk_after disk0 (take 13 (st_events full.1)))).
Proof.
  apply (main_crash_safe uuid None disk0 0 13). constructor.
Defined.

Lemma classify_phase_partition_witness :
  post (classify_phase (oracle:=table)) (boot disk0 0)
    (λ _ s', classified (boot disk0 0) (unmappedOf (st_units (boot disk0 0))) s' ∧
             (unmappedOf (st_units (boot disk0 0)) ≠ [] ->
              classificationComplete (st_checkpoint s') = true))
    (λ _, True).
Proof. by apply (classify_phase_partition (boot disk0 0)). Defined.

End pipeline_examples.
