(* ===== verification/Verdict.v ===== *)
(** * Verdict: the Oracle's judgement of a pair of specification entries

    The three stages that look for duplicates ([cleanupDuplicates.js] line
    50, [validator.ts] line 149, [preValidator.ts] lines 120-121) read the
    same two properties of the parsed answer and apply the same rule:
    [result.areDuplicates || result.similarity >= 85].

    A verdict is the answer after [JSON.parse] as these tests see it: the
    truthiness of the flag, and the number the comparison with 85 converts
    [similarity] to, [None] when the property is absent or converts to no
    number (the comparison is then [false] in both directions). *)

From stdpp Require Import base option strings list.
From S2P Require Import Spec2Rocq JsNumber.

Section verdict.
Context {Num : Type} {JN : JsNumber Num}.

Record Verdict : Type := mkVerdict {
  verdict_flag : bool;
  verdict_similarity : option Num;
  verdict_reason : option string;
}.

(** [similarity >= n]. *)
Definition score_geb (similarity : option Num) (n : nat) : bool :=
  from_option (λ s, num_geb s (num_of_nat n)) false similarity.

(** [similarity < n]. *)
Definition score_ltb (similarity : option Num) (n : nat) : bool :=
  from_option (λ s, num_ltb s (num_of_nat n)) false similarity.

(** [result.areDuplicates || result.similarity >= 85]. *)
Definition judged_duplicate (r : Verdict) : bool :=
  verdict_flag r || score_geb (verdict_similarity r) 85.

(** [!result.isDuplicate && result.similarity < 85]. *)
Definition judged_unique (r : Verdict) : bool :=
  negb (verdict_flag r) && score_ltb (verdict_similarity r) 85.

Lemma judged_duplicate_flag r : verdict_flag r = true -> judged_duplicate r = true.
Proof. unfold judged_duplicate. by intros ->. Qed.

Lemma judged_duplicate_cases r :
  judged_duplicate r = true <->
  verdict_flag r = true ∨ ∃ s, verdict_similarity r = Some s ∧ num_geb s (num_of_nat 85) = true.
Proof.
  unfold judged_duplicate, score_geb. rewrite orb_true_iff.
  destruct (verdict_similarity r) as [s|]; cbn.
  - split; [intros [?|?]; eauto|intros [?|(? & [= <-] & ?)]; auto].
  - split; [intros [?|?]; [by left|done]|intros [?|(? & ? & _)]; [by left|done]].
Qed.

(** On exact numbers the two judgements exclude each other, and one of
    them holds as soon as the similarity is a number. *)
Lemma judged_exclusive `{!ExactNumber Num} r :
  judged_unique r = true -> judged_duplicate r = false.
Proof.
  unfold judged_unique, judged_duplicate, score_ltb, score_geb, num_geb.
  destruct (verdict_flag r), (verdict_similarity r) as [s|]; cbn; try done.
  rewrite num_ltb_leb. by intros ->%negb_true_iff.
Qed.

Lemma judged_total `{!ExactNumber Num} r :
  is_Some (verdict_similarity r) -> judged_unique r = negb (judged_duplicate r).
Proof.
  intros [s Hs]. unfold judged_unique, judged_duplicate, score_ltb, score_geb, num_geb.
  rewrite Hs. cbn. rewrite num_ltb_leb. by destruct (verdict_flag r), (num_leb _ s).
Qed.

End verdict.

Arguments Verdict : clear implicits.
