(* ===== verification/Duplicates.v ===== *)
(** * Duplicates: the two-stage search for duplicate specification entries

    [src/dist/postprocess/cleanupDuplicates.js].  Stage 1
    ([findSemanticDuplicates], lines 91-132) groups the entries by domain
    and keeps, within a domain, the pairs whose primary names have a Jaccard
    similarity of at least 30 per cent ([calculateStringSimilarity], lines
    9-15).  Stage 2 ([batchDetectDuplicates], lines 19-87) sends the
    candidates to the Oracle ten at a time; a pair the Oracle judges a
    duplicate becomes a group, and a progress report is written after every
    batch.  [cleanupDuplicates] (lines 136-184) writes the final report.

    The Oracle answers a batch with an array of results; a result names its
    pair by [pairIndex], an index into the batch.  An answer that cannot be
    iterated, a result that is [null] and a [pairIndex] that names no pair
    make the body of the [try] throw: the results that follow in the answer
    are lost, the groups found before are kept. *)

From Stdlib Require Import QArith Floats.
From stdpp Require Import gmap strings list.
From S2P Require Import Spec2Rocq JsNumber Schemas Store Verdict.

Section duplicates.
Context {Num : Type} {JN : JsNumber Num}.

Local Abbreviation Spec := (SpecType Num).

(** Lines 10-11: [new Set(str.toLowerCase().split(/\s+/))]. *)
Definition word_set (str : string) : list string := dedupe (split_ws (toLowerCase str)).

(** Lines 9-15. *)
Definition calculateStringSimilarity (str1 str2 : string) : Num :=
  let words1 := word_set str1 in
  let words2 := word_set str2 in
  let intersection := dedupe (filter (λ x, x ∈ words2) words1) in
  let union := dedupe (words1 ++ words2) in
  num_mul (num_div (num_of_nat (length intersection)) (num_of_nat (length union)))
          (num_of_nat 100).

Record Candidate : Type := mkCandidate {
  spec1 : Spec;
  spec2 : Spec;
  stringSimilarity : Num;
}.

(** Lines 94-100.  The keys are the names of the four domains, none of
    which [Object.prototype] answers for. *)
Definition byDomain (specTypes : list Spec) : list (string * list Spec) :=
  foldl (λ obj spec, push_own (domain_name (spec_domain spec)) spec obj) [] specTypes.

(** Lines 112-120, the body of the inner loop. *)
Definition candidate_of (p : Spec * Spec) : option Candidate :=
  let similarity := calculateStringSimilarity (spec_primaryName p.1) (spec_primaryName p.2) in
  if num_geb similarity (num_of_nat 30) then Some (mkCandidate p.1 p.2 similarity) else None.

(** Lines 107-123; [pairs] is the two loops of lines 110-111. *)
Definition findCandidates (specTypes : list Spec) : list Candidate :=
  entry ← byDomain specTypes; omap candidate_of (pairs entry.2).

(** A result of the Oracle's answer: [pairIndex] as an index of an array,
    [None] when it is none, and the verdict. *)
Record BatchVerdict : Type := mkBatchVerdict {
  pairIndex : option nat;
  verdict : Verdict Num;
}.

(** The Oracle of stage 2: the answer to the prompt built from a batch, or
    a throw when the call fails or the answer cannot be iterated.  A result
    that is [null] is [None]. *)
Class DuplicateOracle : Type :=
  askDuplicates : list Candidate -> outcome (list (option BatchVerdict)).

Context {oracle : DuplicateOracle}.

Record DuplicateGroup : Type := mkDuplicateGroup {
  dup_similarity : option Num;
  dup_reason : option string;
  dup_specTypes : list Spec;
}.

(** Lines 49-58, the loop over the results inside the [try]; a throw ends
    the loop and keeps the groups pushed so far. *)
Fixpoint judge (batch : list Candidate) (results : list (option BatchVerdict))
    (duplicateGroups : list DuplicateGroup) : list DuplicateGroup :=
  match results with
  | [] => duplicateGroups
  | None :: _ => duplicateGroups
  | Some result :: results' =>
      if judged_duplicate (verdict result) then
        match pairIndex result ≫= (batch !!.) with
        | Some cand =>
            judge batch results'
              (duplicateGroups ++
               [mkDuplicateGroup (verdict_similarity (verdict result))
                                 (verdict_reason (verdict result)) [spec1 cand; spec2 cand]])
        | None => duplicateGroups
        end
      else judge batch results' duplicateGroups
  end.

(** Lines 74-78 and 171-176: what a report says of an entry. *)
Record SpecRef : Type := mkSpecRef {
  ref_id : string;
  ref_primaryName : string;
  ref_domain : Domain;
  ref_alternateNames : option (list string);
}.

Record GroupSummary : Type := mkGroupSummary {
  sum_similarity : option Num;
  sum_reason : option string;
  sum_specTypes : list SpecRef;
}.

Definition summarize (withAlternates : bool) (g : DuplicateGroup) : GroupSummary :=
  mkGroupSummary (dup_similarity g) (dup_reason g)
    ((λ s, mkSpecRef (spec_id s) (spec_primaryName s) (spec_domain s)
             (if withAlternates then Some (spec_alternateNames s) else None))
       <$> dup_specTypes g).

(** Lines 67-82, [duplicate-report-in-progress.json]. *)
Record ProgressReport : Type := mkProgressReport {
  progress_totalSpecTypes : nat;
  candidatesAnalyzed : nat;
  totalCandidates : nat;
  progress_duplicateGroups : list GroupSummary;
}.

(** Lines 166-179, [duplicate-report.json]. *)
Record DuplicateReport : Type := mkDuplicateReport {
  report_totalSpecTypes : nat;
  report_duplicateGroups : list GroupSummary;
}.

(** The state of the loop of lines 24-84: the index [i], the groups found
    and the progress reports written. *)
Record Detection : Type := mkDetection {
  det_i : nat;
  det_groups : list DuplicateGroup;
  det_written : list ProgressReport;
}.

(** Lines 25-83, the body of the loop. *)
Definition detect_batch (total totalSpecTypes : nat) (d : Detection) (batch : list Candidate) :
    Detection :=
  let duplicateGroups :=
    match askDuplicates batch with
    | Returned results => judge batch results (det_groups d)
    | Thrown _ => det_groups d
    end in
  mkDetection (det_i d + 10) duplicateGroups
    (det_written d ++
     [mkProgressReport totalSpecTypes ((det_i d + 10) `min` total) total
                       (summarize false <$> duplicateGroups)]).

(** Lines 19-87. *)
Definition batchDetectDuplicates (candidates : list Candidate) (totalSpecTypes : nat) :
    Detection :=
  foldl (detect_batch (length candidates) totalSpecTypes) (mkDetection 0 [] [])
        (batches 10 candidates).

(** Lines 91-132. *)
Definition findSemanticDuplicates (specTypes : list Spec) : Detection :=
  let candidates := findCandidates specTypes in
  if bool_decide (length candidates = 0) then mkDetection 0 [] []
  else batchDetectDuplicates candidates (length specTypes).

(** Lines 136-184: the progress reports written and the final report, if
    one is written. *)
Definition cleanupDuplicates (specTypes : list Spec) :
    list ProgressReport * option DuplicateReport :=
  if bool_decide (length specTypes = 0) then ([], None)
  else
    let found := findSemanticDuplicates specTypes in
    if bool_decide (length (det_groups found) = 0) then (det_written found, None)
    else (det_written found,
          Some (mkDuplicateReport (length specTypes) (summarize true <$> det_groups found))).

(** ** Stage 1: the candidates *)

Definition in_domain (k : string) (spec : Spec) : Prop := domain_name (spec_domain spec) = k.

#[local] Instance in_domain_dec k spec : Decision (in_domain k spec).
Proof. unfold in_domain. apply _. Defined.

Lemma byDomain_snoc specTypes spec :
  byDomain (specTypes ++ [spec]) =
  push_own (domain_name (spec_domain spec)) spec (byDomain specTypes).
Proof. unfold byDomain. by rewrite foldl_app. Qed.


Lemma byDomain_members specTypes : members (byDomain specTypes) ≡ₚ specTypes.
Proof.
  induction specTypes as [|spec specTypes IH] using rev_ind; [done|].
  by rewrite byDomain_snoc, push_own_members, IH.
Qed.




Lemma length_bind_le {A B} (f : A -> list B) (g : A -> nat) (l : list A) :
  (∀ x, length (f x) ≤ g x) -> length (l ≫= f) ≤ sum_list (g <$> l).
Proof.
  intros Hfg. induction l as [|x l IH]; [done|]. rewrite bind_cons, length_app.
  change (sum_list (g <$> x :: l)) with (g x + sum_list (g <$> l)).
  specialize (Hfg x). lia.
Qed.


(** Stage 1 keeps at most the [n (n - 1) / 2] pairs of the entries. *)
Theorem candidates_bound specTypes :
  2 * length (findCandidates specTypes) ≤ length specTypes * (length specTypes - 1).
Proof.
  rewrite <- length_pairs. apply Nat.mul_le_mono_l. unfold findCandidates.
  etrans; [apply (length_bind_le _ (λ entry, length (pairs entry.2)))|].
  { intros entry. apply omap_length_le. }
  rewrite (length_pairs_eq specTypes (members (byDomain specTypes)))
    by (by rewrite byDomain_members).
  unfold members. etrans; [|apply length_pairs_concat]. by rewrite <- list_fmap_compose.
Qed.

(** ** Stage 2: the verdicts *)

(** The group a result adds: the pair it names, when it is judged a
    duplicate. *)
Definition group_of (batch : list Candidate) (result : BatchVerdict) : option DuplicateGroup :=
  if judged_duplicate (verdict result) then
    cand ← pairIndex result ≫= (batch !!.);
    Some (mkDuplicateGroup (verdict_similarity (verdict result))
                           (verdict_reason (verdict result)) [spec1 cand; spec2 cand])
  else None.

(** A result on which the body of the loop throws: [null], or a duplicate
    whose [pairIndex] names no pair of the batch. *)
Definition throws (batch : list Candidate) (result : option BatchVerdict) : bool :=
  match result with
  | None => true
  | Some r => judged_duplicate (verdict r) && bool_decide (pairIndex r ≫= (batch !!.) = None)
  end.

(** The results read before the first throw. *)
Fixpoint before_throw (batch : list Candidate) (results : list (option BatchVerdict)) :
    list BatchVerdict :=
  match results with
  | Some r :: results' => if throws batch (Some r) then [] else r :: before_throw batch results'
  | _ => []
  end.

(** The groups a batch adds. *)
Definition confirmed (batch : list Candidate) : list DuplicateGroup :=
  match askDuplicates batch with
  | Returned results => omap (group_of batch) (before_throw batch results)
  | Thrown _ => []
  end.

Lemma judge_spec batch results duplicateGroups :
  judge batch results duplicateGroups =
  duplicateGroups ++ omap (group_of batch) (before_throw batch results).
Proof.
  revert duplicateGroups. induction results as [|[r|] results IH]; intros groups;
    cbn [judge before_throw throws omap list_omap]; try by rewrite app_nil_r.
  destruct (judged_duplicate (verdict r)) eqn:Hdup; cbn [andb].
  2:{ cbn [omap list_omap]. unfold group_of at 1. rewrite Hdup. apply IH. }
  destruct (pairIndex r ≫= (batch !!.)) as [cand|] eqn:Hcand.
  - rewrite bool_decide_false by done. cbn [omap list_omap]. unfold group_of at 1.
    rewrite Hdup, Hcand. cbn. by rewrite IH, <- app_assoc.
  - rewrite bool_decide_true by done. cbn. by rewrite app_nil_r.
Qed.

Lemma before_throw_elem batch results r :
  r ∈ before_throw batch results -> Some r ∈ results.
Proof.
  induction results as [|[r'|] results IH]; cbn [before_throw]; try by intros ?%elem_of_nil.
  destruct (throws batch (Some r')); [by intros ?%elem_of_nil|].
  intros [->|?]%elem_of_cons; [left|right; auto].
Qed.


Lemma detect_batch_groups total totalSpecTypes d batch :
  det_groups (detect_batch total totalSpecTypes d batch) = det_groups d ++ confirmed batch.
Proof.
  unfold detect_batch, confirmed. cbn. destruct (askDuplicates batch); [apply judge_spec|].
  by rewrite app_nil_r.
Qed.

Lemma detect_fold total totalSpecTypes d bs :
  det_groups (foldl (detect_batch total totalSpecTypes) d bs) =
    det_groups d ++ (bs ≫= confirmed) ∧
  det_i (foldl (detect_batch total totalSpecTypes) d bs) = det_i d + 10 * length bs ∧
  length (det_written (foldl (detect_batch total totalSpecTypes) d bs)) =
    length (det_written d) + length bs.
Proof.
  revert d. induction bs as [|b bs IH]; intros d; cbn [foldl length].
  { by rewrite app_nil_r, Nat.mul_0_r, !Nat.add_0_r. }
  destruct (IH (detect_batch total totalSpecTypes d b)) as (-> & -> & ->).
  rewrite detect_batch_groups, bind_cons, <- app_assoc. cbn. rewrite length_app.
  cbn. split_and!; [done|lia..].
Qed.

(** C9: the loop of stage 2 finds the groups its batches confirm, in order:
    for every batch, the groups of the results read before the first result
    on which the body of the loop throws. *)
Theorem detect_groups candidates totalSpecTypes :
  det_groups (batchDetectDuplicates candidates totalSpecTypes) =
  batches 10 candidates ≫= confirmed.
Proof. unfold batchDetectDuplicates. by rewrite (proj1 (detect_fold _ _ _ _)). Qed.


Lemma detect_fold_last total totalSpecTypes d bs :
  bs ≠ [] ->
  last (det_written (foldl (detect_batch total totalSpecTypes) d bs)) =
  Some (mkProgressReport totalSpecTypes ((det_i d + 10 * length bs) `min` total) total
          (summarize false <$> det_groups (foldl (detect_batch total totalSpecTypes) d bs))).
Proof.
  destruct bs as [|b bs _] using rev_ind; [done|]. intros _.
  rewrite foldl_app. cbn [foldl]. unfold detect_batch at 1. cbn [det_written].
  rewrite last_snoc, (proj1 (proj2 (detect_fold _ _ _ _))), length_app. cbn [length].
  do 3 f_equal. lia.
Qed.

(** Stage 2 asks the Oracle once per batch of ten candidates and writes a
    progress report after every batch; the last report counts every
    candidate and lists every group found. *)
Theorem detect_progress candidates totalSpecTypes :
  candidates ≠ [] ->
  length candidates ≤
    10 * length (det_written (batchDetectDuplicates candidates totalSpecTypes))
    < length candidates + 10 ∧
  last (det_written (batchDetectDuplicates candidates totalSpecTypes)) =
    Some (mkProgressReport totalSpecTypes (length candidates) (length candidates)
            (summarize false <$>
               det_groups (batchDetectDuplicates candidates totalSpecTypes))).
Proof.
  intros Hne. pose proof (length_batches 10 candidates ltac:(lia)) as Hlen.
  unfold batchDetectDuplicates.
  rewrite (proj2 (proj2 (detect_fold _ _ _ _))). cbn [det_written length Nat.add].
  split; [done|]. rewrite detect_fold_last.
  - cbn [det_i Nat.add]. by rewrite Nat.min_r by lia.
  - intros Hnil. rewrite Hnil in Hlen. cbn in Hlen. destruct candidates; [done|cbn in Hlen; lia].
Qed.


(** The final report is written exactly when a group was found, and lists
    the groups found. *)
Theorem cleanup_report specTypes :
  (cleanupDuplicates specTypes).2 =
  match det_groups (findSemanticDuplicates specTypes) with
  | [] => None
  | groups => Some (mkDuplicateReport (length specTypes) (summarize true <$> groups))
  end.
Proof.
  unfold cleanupDuplicates. case_bool_decide as Hn.
  { apply length_zero_iff_nil in Hn. by subst. }
  by destruct (det_groups (findSemanticDuplicates specTypes)).
Qed.

End duplicates.

Arguments Candidate : clear implicits.
Arguments BatchVerdict : clear implicits.
Arguments DuplicateOracle : clear implicits.
Arguments DuplicateGroup : clear implicits.
Arguments GroupSummary : clear implicits.
Arguments ProgressReport : clear implicits.
Arguments DuplicateReport : clear implicits.
Arguments Detection : clear implicits.

(** ** The similarity on exact numbers *)

Lemma Q_percent_geb (i u n : nat) :
  0 < u ->
  num_geb (num_mul (num_div (num_of_nat i) (num_of_nat u)) (num_of_nat 100))
          (num_of_nat (Num:=Q) n) = true <->
  n * u ≤ 100 * i.
Proof.
  intros Hu. unfold num_geb. cbn [num_leb num_mul num_div num_of_nat Q_number].
  rewrite Qle_bool_iff. destruct u as [|u]; [lia|].
  unfold Qle, Qdiv, Qmult, Qinv, inject_Z. cbn [Qnum Qden].
  change (Z.of_nat (S u)) with (Z.pos (Pos.of_succ_nat u)). cbn [Qnum Qden]. lia.
Qed.

(** On exact numbers, the similarity of two names reaches [n] per cent
    exactly when [n] times the number of distinct words of both names is
    at most a hundred times the number of the words they share. *)
Theorem similarity_threshold (str1 str2 : string) (n : nat) :
  num_geb (calculateStringSimilarity (Num:=Q) str1 str2) (num_of_nat n) = true <->
  n * length (dedupe (word_set str1 ++ word_set str2)) ≤
  100 * length (filter (λ x, x ∈ word_set str2) (word_set str1)).
Proof.
  unfold calculateStringSimilarity. cbv zeta.
  rewrite (dedupe_NoDup (filter _ _)) by apply NoDup_filter, NoDup_dedupe.
  apply Q_percent_geb, dedupe_nonempty. unfold word_set.
  pose proof (split_ws_nonempty (toLowerCase str1)).
  by destruct (split_ws (toLowerCase str1)).
Qed.

(** ** Examples *)

Module duplicates_examples.

Definition entry (id name : string) (domain : Domain) : SpecType Q :=
  mkSpecType id name [] [] "" domain None None None None None None NUMERIC None None None
             false None None.

Definition e1 : SpecType Q := entry "s1" "Cooling Capacity" HVAC.
Definition e2 : SpecType Q := entry "s2" "Total Cooling Capacity" HVAC.
Definition e3 : SpecType Q := entry "s3" "Voltage" ELECTRICAL.
Definition e4 : SpecType Q := entry "s4" "Operating Voltage" ELECTRICAL.
Definition e5 : SpecType Q := entry "s5" "Voltage" HVAC.

Definition library : list (SpecType Q) := [e1; e3; e2; e4; e5].

Definition same (i : nat) : option (BatchVerdict Q) :=
  Some (mkBatchVerdict (Some i) (mkVerdict true (Some 90%Q) (Some "same property"))).

(** An Oracle that judges every pair a duplicate and numbers the pairs
    from zero, as the prompt asks. *)
#[export] Instance agree : DuplicateOracle Q := λ batch, Returned (imap (λ i _, same i) batch).

(** An Oracle that numbers the pairs from one, as the prompt labels them
    ([PAIR 1], [PAIR 2], ...). *)
Definition one_based : DuplicateOracle Q := λ batch, Returned (imap (λ i _, same (S i)) batch).

Definition ids (g : DuplicateGroup Q) : list string := spec_id <$> dup_specTypes g.

Example similarity_exact :
  calculateStringSimilarity (Num:=Q) "Flow Rate" "Water Flow Rate" = (200 # 3)%Q ∧
  calculateStringSimilarity (Num:=Q) "FLOW rate" "flow RATE" = (200 # 2)%Q.
Proof. by vm_compute. Qed.

(** On binary64 the ratio 3/10 in per cent is 30 and passes the filter, as
    it does on exact numbers. *)
Example similarity_float :
  calculateStringSimilarity (Num:=float) "a b c d e f g h i j" "a b c" = 30%float ∧
  calculateStringSimilarity (Num:=float) "Flow Rate" "Water Flow Rate" =
    66.666666666666657%float.
Proof. by vm_compute. Qed.

(** A name that starts with white space has the empty word among its
    words. *)
Example similarity_leading_space :
  word_set " flow" = [""; "flow"] ∧ calculateStringSimilarity (Num:=Q) " flow" "flow" = (100 # 2)%Q.
Proof. by vm_compute. Qed.

(** The candidates come domain after domain, in the order in which the
    domains first occur; entries of different domains are never compared,
    whatever their names. *)
Example candidates_by_domain :
  (λ c, (spec_id (spec1 c), spec_id (spec2 c), stringSimilarity c)) <$> findCandidates library
  = [("s1", "s2", (200 # 3)%Q); ("s3", "s4", (100 # 2)%Q)].
Proof. by vm_compute. Qed.

Example detect_agree : ids <$> det_groups (findSemanticDuplicates library) =
                       [["s1"; "s2"]; ["s3"; "s4"]].
Proof. by vm_compute. Qed.

(** With pairs numbered from one, the verdict on the first pair is recorded
    for the second, and the verdict on the last pair names no pair: the
    loop over the results throws, and the [catch] keeps what was found. *)
Example detect_one_based :
  ids <$> det_groups (findSemanticDuplicates (oracle:=one_based) library) = [["s3"; "s4"]].
Proof. by vm_compute. Qed.


Lemma detect_progress_witness :
  length (findCandidates library) ≤
    10 * length (det_written (batchDetectDuplicates (findCandidates library) 5))
    < length (findCandidates library) + 10 ∧
  last (det_written (batchDetectDuplicates (findCandidates library) 5)) =
    Some (mkProgressReport 5 (length (findCandidates library))
            (length (findCandidates library))
            (summarize false <$>
               det_groups (batchDetectDuplicates (findCandidates library) 5))).
Proof. apply (detect_progress (findCandidates library) 5). by vm_compute. Defined.

End duplicates_examples.
