(* ===== verification/Validator.v ===== *)
(** * Validator: the quality report on a library of specification entries

    [validateSpecTypes] and [detectSemanticDuplicates] of
    [src/src/utils/validator.ts] (lines 7-87 and 92-167).  The report lists
    the entries whose lower-cased primary name was seen before, the entries
    without alternate names or without not-names, the entries whose value
    type contradicts their options or their range, and the pairs the Oracle
    judges duplicates.  Unlike [Duplicates], the validator asks the Oracle
    about every pair of entries.

    The Oracle answers a pair with a verdict; a call that fails, an answer
    that does not parse and an answer that is [null] all end in the [catch]
    of the pair, and are a throw here. *)

From Stdlib Require Import QArith.
From stdpp Require Import gmap strings list.
From S2P Require Import Spec2Rocq JsNumber Schemas Verdict.

Section validator.
Context {Num : Type} {JN : JsNumber Num}.

Local Abbreviation Spec := (SpecType Num).

Record ExactDuplicate : Type := mkExactDuplicate {
  exact_specType1 : string;
  exact_specType2 : string;
}.

Record SemanticDuplicate : Type := mkSemanticDuplicate {
  sem_specType1 : string;
  sem_specType2 : string;
  sem_similarity : option Num;
  sem_reason : option string;
}.

(** [ValidationReport] of the schemas. *)
Record ValidationReport : Type := mkValidationReport {
  vr_totalSpecTypes : nat;
  vr_exactDuplicates : list ExactDuplicate;
  vr_semanticDuplicates : list SemanticDuplicate;
  vr_missingAlternateNames : list string;
  vr_missingNotNames : list string;
  vr_invalidValueTypes : list string;
  vr_warnings : list string;
  vr_errors : list string;
}.

(** The Oracle of the validator: the verdict on a pair of entries. *)
Class PairOracle : Type := askSame : Spec -> Spec -> outcome (Verdict Num).

Context {oracle : PairOracle}.

(** Lines 23-33, the body of the loop: the map from lower-cased names to
    the first entry of the name, and the duplicates reported. *)
Definition exact_step (st : gmap string Spec * list ExactDuplicate) (spec : Spec) :
    gmap string Spec * list ExactDuplicate :=
  let lowerName := toLowerCase (spec_primaryName spec) in
  match st.1 !! lowerName with
  | Some first =>
      (st.1, st.2 ++ [mkExactDuplicate (spec_primaryName first) (spec_primaryName spec)])
  | None => (<[lowerName := spec]> st.1, st.2)
  end.

(** Lines 22-33. *)
Definition exact_duplicates (specTypes : list Spec) : list ExactDuplicate :=
  (foldl exact_step (∅, []) specTypes).2.

(** The double quote of the messages. *)
Definition dq : string := String (Ascii.ascii_of_nat 34) EmptyString.

Definition quoted (name : string) : string := "Spec type " +:+ dq +:+ name +:+ dq.

Definition valueType_name (t : ValueType) : string :=
  match t with
  | NUMERIC => "NUMERIC"
  | SELECT => "SELECT"
  | MULTI_SELECT => "MULTI_SELECT"
  | RANGE => "RANGE"
  | BOOLEAN => "BOOLEAN"
  end.

(** Lines 36-43 and 46-53: the names of the entries whose list is empty. *)
Definition missing (names : Spec -> list string) (specTypes : list Spec) : list string :=
  spec_primaryName <$> filter (λ spec, length (names spec) = 0) specTypes.

(** Lines 57-60. *)
Definition invalid_select (spec : Spec) : bool :=
  (bool_decide (spec_valueType spec = SELECT) ||
   bool_decide (spec_valueType spec = MULTI_SELECT)) &&
  match spec_valueOptions spec with
  | None => true
  | Some options => bool_decide (length options = 0)
  end.

(** Lines 67-72: [minValue > maxValue] when both are defined. *)
Definition inverted_range (spec : Spec) : bool :=
  bool_decide (spec_valueType spec = NUMERIC) &&
  match spec_minValue spec, spec_maxValue spec with
  | Some minValue, Some maxValue => num_ltb maxValue minValue
  | _, _ => false
  end.

(** Lines 56-77, the errors of one entry. *)
Definition value_errors (spec : Spec) : list string :=
  (if invalid_select spec
   then [quoted (spec_primaryName spec) +:+ " is " +:+ valueType_name (spec_valueType spec)
         +:+ " but has no value options"]
   else []) ++
  (if inverted_range spec
   then [quoted (spec_primaryName spec) +:+ " has minValue > maxValue"]
   else []).

(** Lines 133-162, the body of the loops over the pairs. *)
Definition compare (p : Spec * Spec) : option SemanticDuplicate :=
  match askSame p.1 p.2 with
  | Returned result =>
      if judged_duplicate result
      then Some (mkSemanticDuplicate (spec_primaryName p.1) (spec_primaryName p.2)
                   (verdict_similarity result) (verdict_reason result))
      else None
  | Thrown _ => None
  end.

(** Lines 92-167. *)
Definition detectSemanticDuplicates (specTypes : list Spec) : list SemanticDuplicate :=
  omap compare (pairs specTypes).

(** Lines 7-87. *)
Definition validateSpecTypes (specTypes : list Spec) : ValidationReport :=
  {| vr_totalSpecTypes := length specTypes;
     vr_exactDuplicates := exact_duplicates specTypes;
     vr_semanticDuplicates :=
       if bool_decide (1 < length specTypes) then detectSemanticDuplicates specTypes else [];
     vr_missingAlternateNames := missing spec_alternateNames specTypes;
     vr_missingNotNames := missing spec_notNames specTypes;
     vr_invalidValueTypes := spec_primaryName <$> filter (λ s, invalid_select s = true) specTypes;
     vr_warnings :=
       ((λ name, quoted name +:+ " has no alternate names")
          <$> missing spec_alternateNames specTypes) ++
       ((λ name, quoted name +:+ " has no " +:+ dq +:+ "not names" +:+ dq
                 +:+ " for disambiguation")
          <$> missing spec_notNames specTypes);
     vr_errors := specTypes ≫= value_errors |}.

(** Lines 207-211 of [printValidationReport]: all validations passed. *)
Definition passed (report : ValidationReport) : bool :=
  bool_decide (length (vr_exactDuplicates report) = 0) &&
  bool_decide (length (vr_semanticDuplicates report) = 0) &&
  bool_decide (length (vr_errors report) = 0).

(** ** Exact duplicates *)

Definition lowerName (spec : Spec) : string := toLowerCase (spec_primaryName spec).

(** The first of the entries [seen] with a lower-cased name. *)
Definition first_named (name : string) (seen : list Spec) : option Spec :=
  js_find (λ s, bool_decide (lowerName s = name)) seen.

(** The exact duplicates by linear search: an entry is reported with the
    first earlier entry of its lower-cased name. *)
Fixpoint exact_reference (seen specTypes : list Spec) : list ExactDuplicate :=
  match specTypes with
  | [] => []
  | spec :: rest =>
      match first_named (lowerName spec) seen with
      | Some first => [mkExactDuplicate (spec_primaryName first) (spec_primaryName spec)]
      | None => []
      end ++ exact_reference (seen ++ [spec]) rest
  end.

Lemma first_named_snoc name seen spec :
  first_named name (seen ++ [spec]) =
  match first_named name seen with
  | Some first => Some first
  | None => if bool_decide (lowerName spec = name) then Some spec else None
  end.
Proof. unfold first_named. rewrite js_find_app. by destruct (js_find _ seen). Qed.

Lemma first_named_None name seen :
  first_named name seen = None <-> name ∉ lowerName <$> seen.
Proof.
  unfold first_named. rewrite js_find_None, list_elem_of_fmap. split.
  - intros Hnone (s & -> & Hs). specialize (Hnone s Hs). by rewrite bool_decide_true in Hnone.
  - intros Hnot s Hs. apply bool_decide_false. intros <-. apply Hnot. eauto.
Qed.

Lemma exact_step_reference m seen acc specTypes :
  (∀ name, m !! name = first_named name seen) ->
  (foldl exact_step (m, acc) specTypes).2 = acc ++ exact_reference seen specTypes.
Proof.
  revert m seen acc. induction specTypes as [|spec rest IH]; intros m seen acc Hm.
  { cbn. by rewrite app_nil_r. }
  cbn [foldl exact_reference]. unfold exact_step at 2. cbn [fst snd].
  fold (lowerName spec). rewrite Hm.
  destruct (first_named (lowerName spec) seen) as [first|] eqn:Hfirst.
  - rewrite (IH m (seen ++ [spec])), <- app_assoc; [done|]. intros name.
    rewrite first_named_snoc, Hm. destruct (first_named name seen) eqn:Hname; [done|].
    case_bool_decide; [congruence|done].
  - rewrite (IH _ (seen ++ [spec])); [done|]. intros name. rewrite first_named_snoc.
    destruct (decide (lowerName spec = name)) as [<-|Hne].
    + by rewrite lookup_insert_eq, Hfirst, bool_decide_true.
    + rewrite lookup_insert_ne, Hm, bool_decide_false by done.
      by destruct (first_named name seen).
Qed.

(** The map of names finds what a linear search for the first earlier
    entry of the same lower-cased name finds. *)
Theorem exact_duplicates_reference specTypes :
  exact_duplicates specTypes = exact_reference [] specTypes.
Proof. unfold exact_duplicates. by rewrite (exact_step_reference ∅ []). Qed.

Lemma exact_reference_nil seen specTypes :
  exact_reference seen specTypes = [] <->
  NoDup (lowerName <$> specTypes) ∧
  ∀ s, s ∈ specTypes -> lowerName s ∉ lowerName <$> seen.
Proof.
  revert seen. induction specTypes as [|spec rest IH]; intros seen; cbn [exact_reference].
  { split; [|done]. intros _. split; [constructor|]. by intros s ?%elem_of_nil. }
  rewrite fmap_cons, NoDup_cons.
  destruct (first_named (lowerName spec) seen) as [first|] eqn:Hfirst.
  - split; [done|]. intros [_ Hseen]. exfalso.
    assert (first_named (lowerName spec) seen = None) as Hnone; [|congruence].
    apply first_named_None, Hseen. left.
  - apply first_named_None in Hfirst. cbn [app]. rewrite IH. split.
    + intros [Hnd Hrest]. split_and!; [|done|].
      * intros (s & Hs & Hin)%list_elem_of_fmap. apply (Hrest s Hin).
        rewrite fmap_app, elem_of_app. right. rewrite <- Hs. left.
      * intros s [->|Hs]%elem_of_cons; [done|]. intros Hin. apply (Hrest s Hs).
        rewrite fmap_app, elem_of_app. by left.
    + intros [[Hspec Hnd] Hseen]. split; [done|]. intros s Hs.
      rewrite fmap_app, not_elem_of_app. split; [apply Hseen; by right|].
      cbn. intros Heq%list_elem_of_singleton. apply Hspec. rewrite <- Heq.
      by apply list_elem_of_fmap_2.
Qed.

(** No exact duplicate is reported exactly when the primary names are
    pairwise distinct up to case. *)
Lemma exact_duplicates_nil specTypes :
  exact_duplicates specTypes = [] <->
  NoDup ((λ spec, toLowerCase (spec_primaryName spec)) <$> specTypes).
Proof.
  unfold exact_duplicates. rewrite (exact_step_reference ∅ []) by done. cbn [app].
  rewrite exact_reference_nil. split; [by intros [? _]|].
  intros Hnd. split; [done|]. by intros s _ ?%elem_of_nil.
Qed.

(** ** Semantic duplicates *)

Lemma compare_Some p d :
  compare p = Some d <->
  ∃ result, askSame p.1 p.2 = Returned result ∧ judged_duplicate result = true ∧
            d = mkSemanticDuplicate (spec_primaryName p.1) (spec_primaryName p.2)
                  (verdict_similarity result) (verdict_reason result).
Proof.
  unfold compare. destruct (askSame p.1 p.2) as [result|e].
  - destruct (judged_duplicate result) eqn:Hdup.
    + split; [intros [= <-]; eauto|]. by intros (? & [= <-] & _ & ->).
    + split; [done|]. intros (? & [= <-] & ? & _). congruence.
  - split; [done|]. by intros (? & ? & _).
Qed.

(** The semantic duplicates are the pairs of an entry with a later entry
    that the Oracle answers for and judges duplicates. *)
Theorem semantic_duplicates_spec specTypes d :
  d ∈ detectSemanticDuplicates specTypes <->
  ∃ a b result, [a; b] `sublist_of` specTypes ∧ askSame a b = Returned result ∧
                judged_duplicate result = true ∧
                d = mkSemanticDuplicate (spec_primaryName a) (spec_primaryName b)
                      (verdict_similarity result) (verdict_reason result).
Proof.
  unfold detectSemanticDuplicates. rewrite list_elem_of_omap. split.
  - intros ([a b] & Hab%pairs_sublist & (result & ? & ? & ?)%compare_Some). by exists a, b, result.
  - intros (a & b & result & Hab%pairs_sublist & ? & ? & ?). exists (a, b).
    split; [done|]. apply compare_Some. by exists result.
Qed.

Lemma detect_none specTypes :
  detectSemanticDuplicates specTypes = [] <->
  ∀ a b result, [a; b] `sublist_of` specTypes -> askSame a b = Returned result ->
                judged_duplicate result = false.
Proof.
  split.
  - intros Hnil a b result Hab Hask. destruct (judged_duplicate result) eqn:Hdup; [|done].
    assert (mkSemanticDuplicate (spec_primaryName a) (spec_primaryName b)
              (verdict_similarity result) (verdict_reason result)
            ∈ detectSemanticDuplicates specTypes) as Hin.
    { apply list_elem_of_omap. exists (a, b). split; [by apply pairs_sublist|].
      apply compare_Some. eauto. }
    rewrite Hnil in Hin. by apply elem_of_nil in Hin.
  - intros Hall. apply omap_none. intros [a b] Hab%pairs_sublist. unfold compare. cbn.
    destruct (askSame a b) eqn:Hask; [|done]. by rewrite (Hall a b _ Hab Hask).
Qed.

(** The validator compares every pair once: at most [n (n - 1) / 2]
    duplicates are reported. *)
Theorem semantic_duplicates_bound specTypes :
  2 * length (detectSemanticDuplicates specTypes) ≤ length specTypes * (length specTypes - 1).
Proof.
  rewrite <- length_pairs. apply Nat.mul_le_mono_l, omap_length_le.
Qed.

(** ** The verdict of the report *)

Lemma value_errors_nil spec :
  value_errors spec = [] <-> invalid_select spec = false ∧ inverted_range spec = false.
Proof.
  unfold value_errors.
  destruct (invalid_select spec), (inverted_range spec); cbn; split; try done; by intros [? ?].
Qed.

Lemma bind_nil_iff {A B} (f : A -> list B) (l : list A) :
  l ≫= f = [] <-> ∀ x, x ∈ l -> f x = [].
Proof.
  induction l as [|x l IH]; [by split; [intros _ ? ?%elem_of_nil|]|].
  rewrite bind_cons, app_nil, IH. split.
  - intros [Hx Hl] y [->|Hy]%elem_of_cons; auto.
  - intros Hall. split; [apply Hall; left|]. intros y Hy. apply Hall. by right.
Qed.

(** C14: a library passes exactly when its names are distinct up to case, no
    entry has a value type that contradicts its options or its range, and
    the Oracle judges no pair of entries a duplicate. *)
Theorem passed_spec specTypes :
  passed (validateSpecTypes specTypes) = true <->
  NoDup ((λ spec, toLowerCase (spec_primaryName spec)) <$> specTypes) ∧
  (∀ spec, spec ∈ specTypes -> invalid_select spec = false ∧ inverted_range spec = false) ∧
  (∀ a b result, [a; b] `sublist_of` specTypes -> askSame a b = Returned result ->
                 judged_duplicate result = false).
Proof.
  unfold passed, validateSpecTypes. cbn [vr_exactDuplicates vr_semanticDuplicates vr_errors].
  rewrite !andb_true_iff, !bool_decide_eq_true, !length_zero_iff_nil.
  rewrite exact_duplicates_nil, bind_nil_iff. setoid_rewrite value_errors_nil.
  assert ((if bool_decide (1 < length specTypes)
           then detectSemanticDuplicates specTypes else []) = [] <->
          ∀ a b result, [a; b] `sublist_of` specTypes -> askSame a b = Returned result ->
                        judged_duplicate result = false) as ->; [|tauto].
  case_bool_decide as Hlen; [apply detect_none|].
  split; [|done]. intros _ a b result Hab%sublist_length. cbn in Hab. lia.
Qed.

End validator.

Arguments SemanticDuplicate : clear implicits.
Arguments ValidationReport : clear implicits.
Arguments PairOracle : clear implicits.

(** ** Examples *)

Module validator_examples.

Definition entry (name : string) (valueType : ValueType) (minValue maxValue : option Q) :
    SpecType Q :=
  mkSpecType name name ["alias"] ["other"] "" HVAC None None None None None None valueType
             None minValue maxValue false None None.

(** An Oracle that judges two entries duplicates when their names have the
    same length. *)
#[export] Instance by_length : PairOracle Q := λ a b,
  Returned (mkVerdict (bool_decide (String.length (spec_primaryName a) =
                                    String.length (spec_primaryName b)))
                      (Some 10%Q) None).

Definition library : list (SpecType Q) :=
  [entry "Voltage" NUMERIC None None; entry "Cooling Capacity" NUMERIC (Some 5%Q) (Some 1%Q);
   entry "VOLTAGE" SELECT None None; entry "voltage" BOOLEAN None None].

(** Every later entry of a name is reported with the first one. *)
Example exact_duplicates_first :
  exact_duplicates library =
  [mkExactDuplicate "Voltage" "VOLTAGE"; mkExactDuplicate "Voltage" "voltage"].
Proof. by vm_compute. Qed.

Example errors_of_library :
  vr_errors (validateSpecTypes library) =
  [quoted "Cooling Capacity" +:+ " has minValue > maxValue";
   quoted "VOLTAGE" +:+ " is SELECT but has no value options"] ∧
  vr_invalidValueTypes (validateSpecTypes library) = ["VOLTAGE"] ∧
  vr_warnings (validateSpecTypes library) = [].
Proof. by vm_compute. Qed.

Example semantic_of_library :
  (λ d, (sem_specType1 d, sem_specType2 d)) <$> vr_semanticDuplicates (validateSpecTypes library)
  = [("Voltage", "VOLTAGE"); ("Voltage", "voltage"); ("VOLTAGE", "voltage")].
Proof. by vm_compute. Qed.

Example library_fails : passed (validateSpecTypes library) = false.
Proof. by vm_compute. Qed.

Example clean_library_passes :
  passed (validateSpecTypes [entry "Voltage" NUMERIC (Some 1%Q) (Some 5%Q);
                             entry "Cooling Capacity" NUMERIC None None]) = true.
Proof. by vm_compute. Qed.

End validator_examples.
