(* ===== verification/PreValidator.v ===== *)
(** * PreValidator: is a proposed entry new?

    [preValidateProposal] of [src/src/utils/preValidator.ts] (lines 28-136).
    A proposal without a name is rejected; a proposal whose name is, up to
    case, the name of an existing entry is a duplicate of the first such
    entry; for any other proposal the Oracle is asked, and a call that
    fails or an answer that does not parse lets the proposal through.

    The Oracle's answer is taken after the text is stripped of its fences
    and parsed (lines 103-117): a verdict with the name of the conflicting
    entry, or a throw. *)

From Stdlib Require Import QArith.
From stdpp Require Import gmap strings list.
From S2P Require Import Spec2Rocq JsNumber Schemas Verdict.

Local Open Scope js_scope.

Section prevalidator.
Context {Num : Type} {JN : JsNumber Num}.

Local Abbreviation Spec := (SpecType Num).

(** Lines 7-11. *)
Record SpecTypeProposal : Type := mkProposal {
  proposal_primaryName : string;
  proposal_briefDescription : string;
  proposal_domain : string;
}.

(** Lines 16-22. *)
Record PreValidationResult : Type := mkPreValidation {
  isUnique : bool;
  isDuplicate : bool;
  pre_similarity : option Num;
  conflictingSpecType : option string;
  pre_reason : option string;
}.

(** The parsed answer: the verdict and [conflictingSpecType]. *)
Record PreVerdict : Type := mkPreVerdict {
  pre_verdict : Verdict Num;
  pre_conflicting : option string;
}.

(** The Oracle of the pre-validation: the answer to the prompt built from
    the proposal and the existing entries. *)
Class ProposalOracle : Type :=
  askUnique : SpecTypeProposal -> list Spec -> outcome PreVerdict.

Context {oracle : ProposalOracle}.

(** Lines 44-46, the predicate of [find]. *)
Definition same_name (proposal : SpecTypeProposal) (spec : Spec) : bool :=
  str_truthy (spec_primaryName spec) &&
  bool_decide (toLowerCase (spec_primaryName spec) =
               toLowerCase (proposal_primaryName proposal)).

(** Lines 119-125. *)
Definition judged (result : PreVerdict) : PreValidationResult :=
  {| isUnique := judged_unique (pre_verdict result);
     isDuplicate := judged_duplicate (pre_verdict result);
     pre_similarity := verdict_similarity (pre_verdict result);
     conflictingSpecType := pre_conflicting result;
     pre_reason := verdict_reason (pre_verdict result) |}.

(** Lines 129-134. *)
Definition assumed_unique : PreValidationResult :=
  {| isUnique := true; isDuplicate := false; pre_similarity := Some (num_of_nat 0);
     conflictingSpecType := None;
     pre_reason := Some "Pre-validation check failed - assuming unique" |}.

(** Lines 28-136. *)
Definition preValidateProposal (proposal : SpecTypeProposal) (existingSpecTypes : list Spec) :
    PreValidationResult :=
  if negb (str_truthy (proposal_primaryName proposal)) then
    {| isUnique := false; isDuplicate := true; pre_similarity := Some (num_of_nat 100);
       conflictingSpecType := None;
       pre_reason := Some "Invalid proposal - missing primaryName" |}
  else
    match js_find (same_name proposal) existingSpecTypes with
    | Some exactMatch =>
        {| isUnique := false; isDuplicate := true; pre_similarity := Some (num_of_nat 100);
           conflictingSpecType := Some (spec_primaryName exactMatch);
           pre_reason := Some "Exact name match found" |}
    | None =>
        try (judged <$> askUnique proposal existingSpecTypes) catch (λ _, assumed_unique)
    end.

(** ** The three outcomes *)

(** C15: a proposal named, up to case, as an existing entry is a duplicate of
    the first such entry, whatever the Oracle would answer. *)
Theorem exact_match_rejected proposal existingSpecTypes before spec after :
  proposal_primaryName proposal ≠ "" ->
  existingSpecTypes = before ++ spec :: after ->
  toLowerCase (spec_primaryName spec) = toLowerCase (proposal_primaryName proposal) ->
  Forall (λ s, toLowerCase (spec_primaryName s) ≠
               toLowerCase (proposal_primaryName proposal)) before ->
  preValidateProposal proposal existingSpecTypes =
  {| isUnique := false; isDuplicate := true; pre_similarity := Some (num_of_nat 100);
     conflictingSpecType := Some (spec_primaryName spec);
     pre_reason := Some "Exact name match found" |}.
Proof.
  intros Hname -> Hspec Hbefore. unfold preValidateProposal.
  rewrite (proj2 (str_truthy_true _) Hname). cbn [negb].
  rewrite (js_find_first (same_name proposal) before spec after); [done| |].
  - unfold same_name. rewrite bool_decide_true by done. rewrite andb_true_r.
    apply str_truthy_true. intros Hnil. rewrite Hnil in Hspec.
    apply Hname. symmetry in Hspec. destruct (proposal_primaryName proposal); [done|].
    by destruct (spec_primaryName spec).
  - intros s Hs. unfold same_name. apply andb_false_iff. right.
    apply bool_decide_false. by apply (proj1 (Forall_forall _ _) Hbefore).
Qed.

(** When the names differ and the Oracle's call fails, the proposal is let
    through as unique. *)
Theorem failure_assumes_unique proposal existingSpecTypes msg :
  proposal_primaryName proposal ≠ "" ->
  Forall (λ s, toLowerCase (spec_primaryName s) ≠
               toLowerCase (proposal_primaryName proposal)) existingSpecTypes ->
  askUnique proposal existingSpecTypes = Thrown msg ->
  preValidateProposal proposal existingSpecTypes = assumed_unique.
Proof.
  intros Hname Hnone Hask. unfold preValidateProposal.
  rewrite (proj2 (str_truthy_true _) Hname). cbn [negb].
  rewrite (proj2 (js_find_None _ _)), Hask; [done|]. intros s Hs.
  unfold same_name. apply andb_false_iff. right. apply bool_decide_false.
  by apply (proj1 (Forall_forall _ _) Hnone).
Qed.

(** On exact numbers a proposal is never both unique and a duplicate. *)
Theorem unique_excludes_duplicate `{!ExactNumber Num} proposal existingSpecTypes :
  isUnique (preValidateProposal proposal existingSpecTypes) &&
  isDuplicate (preValidateProposal proposal existingSpecTypes) = false.
Proof.
  unfold preValidateProposal. destruct (negb _); [done|].
  destruct (js_find _ _); [done|].
  destruct (askUnique proposal existingSpecTypes) as [result|e]; [|done].
  cbn. destruct (judged_unique (pre_verdict result)) eqn:Hu; [|done].
  by rewrite (judged_exclusive _ Hu).
Qed.

End prevalidator.

Arguments PreValidationResult : clear implicits.
Arguments PreVerdict : clear implicits.
Arguments ProposalOracle : clear implicits.

(** ** Examples *)

Module prevalidator_examples.

Definition entry (id name : string) : SpecType Q :=
  mkSpecType id name [] [] "" HVAC None None None None None None NUMERIC None None None
             false None None.

Definition existing : list (SpecType Q) :=
  [entry "s1" "Cooling Capacity"; entry "s2" "VOLTAGE"; entry "s3" "Voltage"].

Definition proposed (name : string) : SpecTypeProposal := mkProposal name "" "HVAC".

(** An Oracle whose calls fail. *)
#[export] Instance unreachable : ProposalOracle Q := λ _ _, Thrown "timeout".

(** An Oracle that answers without a similarity. *)
Definition undecided : ProposalOracle Q :=
  λ _ _, Returned (mkPreVerdict (mkVerdict false None (Some "cannot tell")) None).

(** An Oracle that reports a similarity of 85 and no duplicate. *)
Definition borderline : ProposalOracle Q :=
  λ _ _, Returned (mkPreVerdict (mkVerdict false (Some 85%Q) None) (Some "Voltage")).

Example missing_name_rejected :
  isDuplicate (preValidateProposal (proposed "") existing) = true ∧
  isUnique (preValidateProposal (proposed "") existing) = false.
Proof. by vm_compute. Qed.

Example exact_match_first :
  conflictingSpecType (preValidateProposal (proposed "voltage") existing) = Some "VOLTAGE".
Proof. by vm_compute. Qed.

(** A similarity of 85 makes a duplicate even when the flag says no. *)
Example borderline_is_duplicate :
  isDuplicate (preValidateProposal (oracle:=borderline) (proposed "Tension") existing) = true.
Proof. by vm_compute. Qed.

(** An answer without a similarity and without the flag is neither unique
    nor a duplicate. *)
Example neither_unique_nor_duplicate :
  isUnique (preValidateProposal (oracle:=undecided) (proposed "Tension") existing) = false ∧
  isDuplicate (preValidateProposal (oracle:=undecided) (proposed "Tension") existing) = false.
Proof. by vm_compute. Qed.

Lemma exact_match_rejected_witness :
  preValidateProposal (proposed "voltage") existing =
  {| isUnique := false; isDuplicate := true; pre_similarity := Some (num_of_nat 100);
     conflictingSpecType := Some (spec_primaryName (entry "s2" "VOLTAGE"));
     pre_reason := Some "Exact name match found" |}.
Proof.
  apply (exact_match_rejected (proposed "voltage") existing [entry "s1" "Cooling Capacity"]
           (entry "s2" "VOLTAGE") [entry "s3" "Voltage"]); [done..|].
  by repeat constructor.
Defined.

Lemma failure_assumes_unique_witness :
  preValidateProposal (proposed "Tension") existing = assumed_unique.
Proof.
  apply (failure_assumes_unique (proposed "Tension") existing "timeout"); [done| |done].
  by repeat constructor.
Defined.

End prevalidator_examples.
