(* ===== verification/Matcher.v ===== *)
(** * Matcher: matching spec types to component types, thirty at a time

    [matchBatch], [matchComponentToAllSpecs] and [matchComponentsToSpecs] of
    [src/src/matchers/componentSpecMatcher.ts] (lines 20-119, 125-181 and
    186-338).  Every component type that has a parent is matched against
    all the spec types, five spec types per request, with up to three
    attempts per request.  Thirty components are matched concurrently; each
    of them appends the mappings of a batch to the array all of them share
    and writes the checkpoint, batch after batch.

    Between two [await]s the code of a component runs alone, so a run of a
    chunk of components is a sequence of steps, each the end of the next
    batch of one component: [advance].  Which component comes next depends
    on the latency of the Oracle; a [schedule] names the components in the
    order in which their batches end.

    The Oracle answers an attempt with the entries of the object parsed, in
    the order of [Object.entries], or throws; an entry whose value is
    [null] is [None].  The attempt comprises the call of [askClaudeJSON] and,
    when it throws, the second call with the manual clean-up of lines
    58-74. *)

From Stdlib Require Import QArith.
From stdpp Require Import gmap strings list.
From S2P Require Import Spec2Rocq Schemas.

Local Open Scope js_scope.

Section matcher.
Context {Num : Type}.

Local Abbreviation Spec := (SpecType Num).
Local Abbreviation Mapping := ComponentSpecMapping.

(** Lines 10-15, as the loop reads it: the truthiness of [relevant], the
    category and the reason. *)
Record MatchResult : Type := mkMatchResult {
  relevant : bool;
  match_category : string;
  match_reason : option string;
}.

(** The Oracle of the matcher: the answer to the prompt built from the
    component and the batch, at a given attempt. *)
Class MatchOracle : Type :=
  askMatch : ComponentType -> list Spec -> nat -> outcome (list (string * option MatchResult)).

Context {oracle : MatchOracle}.

(** Lines 92-100. *)
Definition mapping_of (component : ComponentType) (specType : Spec) (result : MatchResult) :
    Mapping :=
  {| mapping_componentTypeId := component_id component;
     mapping_componentTypeName := component_name component;
     mapping_specTypeId := spec_id specType;
     mapping_specTypeName := spec_primaryName specType;
     mapping_category := match_category result;
     mapping_isRequired := Some (bool_decide (match_category result = "PRIMARY_SIZE"));
     mapping_notes := match_reason result |}.

(** Lines 78-103, the loop over the entries of the answer.  Reading
    [relevant] of [null] throws. *)
Fixpoint mappings_of (component : ComponentType) (specTypeBatch : list Spec)
    (results : list (string * option MatchResult)) (mappings : list Mapping) :
    outcome (list Mapping) :=
  match results with
  | [] => Returned mappings
  | (_, None) :: _ => Thrown "TypeError: Cannot read properties of null (reading 'relevant')"
  | (specTypeName, Some result) :: results' =>
      if relevant result then
        match js_find (λ s, bool_decide (spec_primaryName s = specTypeName)) specTypeBatch with
        | Some specType =>
            if negb (str_truthy (component_id component))
            then mappings_of component specTypeBatch results' mappings
            else if negb (str_truthy (spec_id specType))
            then mappings_of component specTypeBatch results' mappings
            else mappings_of component specTypeBatch results'
                   (mappings ++ [mapping_of component specType result])
        | None => mappings_of component specTypeBatch results' mappings
        end
      else mappings_of component specTypeBatch results' mappings
  end.

(** Lines 49-116, the loop over the attempts from [attempt], with
    [remaining] attempts left of [retryCount]. *)
Fixpoint attempts (component : ComponentType) (specTypeBatch : list Spec)
    (remaining attempt : nat) : list Mapping :=
  match remaining with
  | 0 => []
  | S remaining' =>
      match results ← askMatch component specTypeBatch attempt;
            mappings_of component specTypeBatch results [] with
      | Returned mappings => mappings
      | Thrown _ => attempts component specTypeBatch remaining' (S attempt)
      end
  end.

(** Lines 20-119.  The prompt names the first two spec types of the batch
    (lines 40 and 45): building it throws on a batch of fewer than two. *)
Definition matchBatch (component : ComponentType) (specTypeBatch : list Spec)
    (retryCount : nat) : outcome (list Mapping) :=
  match specTypeBatch with
  | _ :: _ :: _ => Returned (attempts component specTypeBatch retryCount 1)
  | _ => Thrown "TypeError: Cannot read properties of undefined (reading 'primaryName')"
  end.

(** Lines 267-281, the checkpoint file. *)
Record MappingCheckpoint : Type := mkMappingCheckpoint {
  cp_mappings : list Mapping;
  cp_totalMappings : nat;
  cp_componentsInProgress : nat;
}.

(** A component of a chunk with the batches it has not matched yet. *)
Record Task : Type := mkTask {
  task_component : ComponentType;
  task_pending : list (list Spec);
}.

(** The state of a chunk: the tasks, the array [allMappings] they share,
    and the checkpoints written, in order. *)
Record Pool : Type := mkPool {
  pool_tasks : list Task;
  pool_mappings : list Mapping;
  pool_written : list MappingCheckpoint;
}.

(** Lines 145-177, one iteration of the loop of a component: the mappings
    of the batch are appended and the checkpoint is saved; when
    [matchBatch] throws nothing is appended and nothing is saved. *)
Definition commit (chunkLength : nat) (component : ComponentType) (batch : list Spec)
    (p : Pool) : Pool :=
  match matchBatch component batch 3 with
  | Returned batchMappings =>
      let globalMappings := pool_mappings p ++ batchMappings in
      mkPool (pool_tasks p) globalMappings
             (pool_written p ++
              [mkMappingCheckpoint globalMappings (length globalMappings) chunkLength])
  | Thrown _ => p
  end.

(** The next batch of task [i] ends. *)
Definition advance (chunkLength i : nat) (p : Pool) : Pool :=
  match pool_tasks p !! i with
  | Some (mkTask component (batch :: pending)) =>
      commit chunkLength component batch
        (mkPool (<[i := mkTask component pending]> (pool_tasks p)) (pool_mappings p)
                (pool_written p))
  | _ => p
  end.

(** A run of a chunk along a schedule.  A schedule that names a task with
    nothing pending wastes the step. *)
Definition run (chunkLength : nat) (schedule : list nat) (p : Pool) : Pool :=
  foldl (λ p i, advance chunkLength i p) p schedule.

(** The number of batches that have not ended. *)
Definition pending_total (p : Pool) : nat :=
  sum_list (length ∘ task_pending <$> pool_tasks p).

(** The first task with a batch pending runs, [fuel] times at most. *)
Fixpoint drain (fuel chunkLength : nat) (p : Pool) : Pool :=
  match fuel with
  | 0 => p
  | S fuel' =>
      match list_find (λ t, task_pending t ≠ []) (pool_tasks p) with
      | Some (i, _) => drain fuel' chunkLength (advance chunkLength i p)
      | None => p
      end
  end.

(** [Promise.all]: the chunk is over when no task has a batch pending.
    After the schedule given, the tasks that are left run one after the
    other; the fuel is the number of batches left, one per step. *)
Definition run_all (chunkLength : nat) (schedule : list nat) (p : Pool) : Pool :=
  let p' := run chunkLength schedule p in
  drain (pending_total p') chunkLength p'.

(** Lines 133-138. *)
Definition task_of (allSpecTypes : list Spec) (component : ComponentType) : Task :=
  mkTask component (batches 5 allSpecTypes).

(** Lines 125-181 for one component alone: the mappings it returns. *)
Definition matchComponentToAllSpecs (component : ComponentType) (allSpecTypes : list Spec) :
    list Mapping :=
  foldl (λ mappings batch,
           match matchBatch component batch 3 with
           | Returned batchMappings => mappings ++ batchMappings
           | Thrown _ => mappings
           end)
        [] (batches 5 allSpecTypes).

(** Line 203. *)
Definition has_parent (c : ComponentType) : bool :=
  str_truthy (component_parentTypeId c) && str_truthy (trim (component_parentTypeId c)).

(** Lines 220-239: the mappings of the checkpoint, if it holds any, and the
    components they name. *)
Definition processedComponents (checkpoint : option (list Mapping)) : list string :=
  match checkpoint with
  | Some mappings => dedupe (mapping_componentTypeId <$> mappings)
  | None => []
  end.

(** Lines 242-248. *)
Definition componentsToProcess (components : list ComponentType)
    (checkpoint : option (list Mapping)) : list ComponentType :=
  filter (λ c, component_id c ∉ processedComponents checkpoint) components.

(** Lines 319-328, [component-spec-mappings.json].  The average is rounded
    by [Math.round]; it is kept as the two numbers it divides. *)
Record MatchOutput : Type := mkMatchOutput {
  out_mappings : list Mapping;
  out_totalMappings : nat;
  out_totalComponents : nat;
  out_totalSpecTypes : nat;
}.

(** What a run leaves: the checkpoints written, and the final file unless
    the run returned early. *)
Record MatchRun : Type := mkMatchRun {
  run_checkpoints : list MappingCheckpoint;
  run_mappings : list Mapping;
  run_output : option MatchOutput;
}.

(** Lines 259-316, one chunk of thirty components; [st] holds the mappings
    and the checkpoints so far, [schedule] is the order in which the
    batches of the chunk end. *)
Definition run_chunk (specTypes : list Spec)
    (st : list Mapping * list MappingCheckpoint) (job : list ComponentType * list nat) :
    list Mapping * list MappingCheckpoint :=
  let p := run_all (length job.1) job.2
             (mkPool (task_of specTypes <$> job.1) st.1 st.2) in
  (pool_mappings p, pool_written p).

(** Lines 186-338.  [schedules] gives the schedule of every chunk; a chunk
    without one runs sequentially. *)
Definition matchComponentsToSpecs (allComponents : list ComponentType) (specTypes : list Spec)
    (checkpoint : option (list Mapping)) (schedules : list (list nat)) : MatchRun :=
  let components := filter (λ c, has_parent c = true) allComponents in
  let allMappings := default [] checkpoint in
  let todo := componentsToProcess components checkpoint in
  if bool_decide (length todo = 0) then mkMatchRun [] allMappings None
  else
    let chunks := batches 30 todo in
    let jobs := zip chunks (schedules ++ replicate (length chunks) []) in
    let st := foldl (run_chunk specTypes) (allMappings, []) jobs in
    mkMatchRun st.2 st.1
      (Some (mkMatchOutput st.1 (length st.1) (length components) (length specTypes))).

(** ** One request *)

(** One attempt: the answer of the Oracle, turned into mappings. *)
Definition attempt_result (component : ComponentType) (specTypeBatch : list Spec)
    (attempt : nat) : outcome (list Mapping) :=
  results ← askMatch component specTypeBatch attempt;
  mappings_of component specTypeBatch results [].

Definition succeeds {A} (o : outcome A) : bool :=
  match o with Returned _ => true | Thrown _ => false end.

(** The mappings of the first attempt that does not throw. *)
Definition first_success (component : ComponentType) (specTypeBatch : list Spec)
    (retryCount first : nat) : list Mapping :=
  match js_find (λ k, succeeds (attempt_result component specTypeBatch k))
                (seq first retryCount) with
  | Some k => catch_outcome (attempt_result component specTypeBatch k) (λ _, [])
  | None => []
  end.

Lemma attempts_first_success component specTypeBatch retryCount first :
  attempts component specTypeBatch retryCount first =
  first_success component specTypeBatch retryCount first.
Proof.
  unfold first_success. revert first.
  induction retryCount as [|n IH]; intros first; [done|].
  cbn [attempts seq]. unfold js_find. cbn [find]. fold (attempt_result component specTypeBatch first).
  destruct (attempt_result component specTypeBatch first) as [ms|e] eqn:Hfirst; cbn [succeeds].
  - by rewrite Hfirst.
  - apply IH.
Qed.

(** A request is attempted until an attempt does not throw, at most
    [retryCount] times; its mappings are those of that attempt, and none
    when every attempt throws.  A batch of fewer than two spec types throws
    before the first attempt. *)
Theorem matchBatch_retries component specTypeBatch retryCount :
  matchBatch component specTypeBatch retryCount =
  if bool_decide (2 ≤ length specTypeBatch)
  then Returned (first_success component specTypeBatch retryCount 1)
  else Thrown "TypeError: Cannot read properties of undefined (reading 'primaryName')".
Proof.
  unfold matchBatch. destruct specTypeBatch as [|s1 [|s2 rest]]; [done..|].
  rewrite bool_decide_true by (cbn; lia). by rewrite attempts_first_success.
Qed.

(** What a mapping says: a spec type of the batch, by its identifier and
    its name, for the component, both with an identifier. *)
Definition mapping_ok (component : ComponentType) (specTypeBatch : list Spec) (m : Mapping) :
    Prop :=
  mapping_componentTypeId m = component_id component ∧
  mapping_componentTypeId m ≠ "" ∧ mapping_specTypeId m ≠ "" ∧
  ∃ specType, specType ∈ specTypeBatch ∧ mapping_specTypeId m = spec_id specType ∧
              mapping_specTypeName m = spec_primaryName specType.

Lemma mappings_of_ok component specTypeBatch results mappings ms :
  Forall (mapping_ok component specTypeBatch) mappings ->
  mappings_of component specTypeBatch results mappings = Returned ms ->
  Forall (mapping_ok component specTypeBatch) ms.
Proof.
  revert mappings. induction results as [|[name [result|]] results IH]; intros mappings Hok;
    cbn [mappings_of]; [by intros [= <-]| |done].
  destruct (relevant result); [|by apply IH].
  destruct (js_find _ specTypeBatch) as [specType|] eqn:Hfind; [|by apply IH].
  apply js_find_Some in Hfind as [Hin _].
  destruct (str_truthy (component_id component)) eqn:Hc; cbn [negb]; [|by apply IH].
  destruct (str_truthy (spec_id specType)) eqn:Hs; cbn [negb]; [|by apply IH].
  apply IH, Forall_app. split; [done|]. apply Forall_singleton.
  apply str_truthy_true in Hc, Hs. unfold mapping_ok. cbn. eauto 10.
Qed.

Lemma attempts_ok component specTypeBatch retryCount first :
  Forall (mapping_ok component specTypeBatch)
         (attempts component specTypeBatch retryCount first).
Proof.
  revert first. induction retryCount as [|n IH]; intros first; [constructor|].
  cbn [attempts]. destruct (askMatch component specTypeBatch first) as [results|e]; cbn; [|done].
  destruct (mappings_of component specTypeBatch results []) as [ms|e] eqn:Hms; [|done].
  by apply (mappings_of_ok _ _ results []).
Qed.

(** What a batch adds to the mappings: nothing when [matchBatch] throws. *)
Definition yield (component : ComponentType) (batch : list Spec) : list Mapping :=
  match matchBatch component batch 3 with
  | Returned batchMappings => batchMappings
  | Thrown _ => []
  end.

Lemma yield_ok component batch : Forall (mapping_ok component batch) (yield component batch).
Proof.
  unfold yield, matchBatch. destruct batch as [|s1 [|s2 rest]]; try constructor.
  apply attempts_ok.
Qed.

(** ** Runs of a chunk *)

(** The mappings a task has yet to add, and the mappings a pool will hold
    when its tasks are over. *)
Definition owed (t : Task) : list Mapping := task_pending t ≫= yield (task_component t).

Definition potential (p : Pool) : list Mapping := pool_mappings p ++ (pool_tasks p ≫= owed).

Definition drained (p : Pool) : Prop := Forall (λ t, task_pending t = []) (pool_tasks p).

(** The checkpoints written are snapshots of the mappings: each holds a
    prefix of the mappings of the pool and counts it. *)
Definition snapshots (p : Pool) : Prop :=
  Forall (λ cp, cp_mappings cp `prefix_of` pool_mappings p ∧
                cp_totalMappings cp = length (cp_mappings cp)) (pool_written p).

Lemma commit_tasks n c batch p : pool_tasks (commit n c batch p) = pool_tasks p.
Proof. unfold commit. by destruct (matchBatch c batch 3). Qed.

Lemma commit_mappings n c batch p :
  pool_mappings (commit n c batch p) = pool_mappings p ++ yield c batch.
Proof. unfold commit, yield. destruct (matchBatch c batch 3); [done|]. by rewrite app_nil_r. Qed.

Lemma commit_snapshots n c batch p : snapshots p -> snapshots (commit n c batch p).
Proof.
  unfold snapshots, commit. intros Hp. destruct (matchBatch c batch 3) as [ms|e]; [|done].
  cbn. apply Forall_app. split.
  - eapply Forall_impl; [exact Hp|]. intros cp [Hpre ?]. split; [|done].
    by apply prefix_app_r.
  - by apply Forall_singleton.
Qed.

(** What [advance] does to a task with a batch pending. *)
Lemma advance_Some n i p c batch pending :
  pool_tasks p !! i = Some (mkTask c (batch :: pending)) ->
  pool_tasks (advance n i p) =
    take i (pool_tasks p) ++ mkTask c pending :: drop (S i) (pool_tasks p) ∧
  pool_mappings (advance n i p) = pool_mappings p ++ yield c batch.
Proof.
  intros Hi. unfold advance. rewrite Hi, commit_tasks, commit_mappings. cbn. split; [|done].
  apply insert_take_drop. by eapply lookup_lt_Some.
Qed.

Lemma advance_None n i p :
  (∀ c batch pending, pool_tasks p !! i ≠ Some (mkTask c (batch :: pending))) ->
  advance n i p = p.
Proof.
  intros Hi. unfold advance. destruct (pool_tasks p !! i) as [[c [|batch pending]]|] eqn:Hp;
    [done| |done]. by destruct (Hi c batch pending).
Qed.

Lemma advance_cases n i p :
  advance n i p = p ∨
  ∃ c batch pending, pool_tasks p !! i = Some (mkTask c (batch :: pending)).
Proof.
  destruct (pool_tasks p !! i) as [[c [|batch pending]]|] eqn:Hp; [| |]; unfold advance;
    rewrite ?Hp; eauto 10.
Qed.

Lemma owed_cons c batch pending :
  owed (mkTask c (batch :: pending)) = yield c batch ++ owed (mkTask c pending).
Proof. unfold owed. cbn [task_pending task_component]. by rewrite bind_cons. Qed.

Lemma advance_potential n i p : potential (advance n i p) ≡ₚ potential p.
Proof.
  destruct (advance_cases n i p) as [->|(c & batch & pending & Hi)]; [done|].
  destruct (advance_Some n i p c batch pending Hi) as [Htasks Hmaps].
  unfold potential. rewrite Htasks, Hmaps.
  rewrite <- (take_drop_middle (pool_tasks p) i _ Hi) at 3.
  rewrite !bind_app, !bind_cons, owed_cons. solve_Permutation.
Qed.

Lemma advance_snapshots n i p : snapshots p -> snapshots (advance n i p).
Proof.
  intros Hp. unfold advance. destruct (pool_tasks p !! i) as [[c [|batch pending]]|]; try done.
  by apply commit_snapshots.
Qed.

Lemma advance_pending n i p c batch pending :
  pool_tasks p !! i = Some (mkTask c (batch :: pending)) ->
  S (pending_total (advance n i p)) = pending_total p.
Proof.
  intros Hi. destruct (advance_Some n i p c batch pending Hi) as [Htasks _].
  unfold pending_total. rewrite Htasks.
  rewrite <- (take_drop_middle (pool_tasks p) i _ Hi) at 3.
  rewrite !fmap_app, !fmap_cons, !sum_list_with_app. cbn. lia.
Qed.

Lemma drained_total p : pending_total p = 0 -> drained p.
Proof.
  unfold pending_total, drained. induction (pool_tasks p) as [|t ts IH]; [constructor|].
  cbn. intros Hsum. constructor; [|apply IH; lia].
  apply length_zero_iff_nil. lia.
Qed.

Lemma potential_drained p : drained p -> potential p = pool_mappings p.
Proof.
  unfold potential, drained. intros Hp. replace (pool_tasks p ≫= owed) with (@nil Mapping).
  { by rewrite app_nil_r. }
  symmetry. induction Hp as [|t ts Ht _ IH]; [done|].
  rewrite bind_cons, <- IH. unfold owed. by rewrite Ht.
Qed.

Lemma run_potential n schedule p : potential (run n schedule p) ≡ₚ potential p.
Proof.
  unfold run. revert p. induction schedule as [|i schedule IH]; intros p; [done|].
  cbn [foldl]. by rewrite IH, advance_potential.
Qed.

Lemma run_snapshots n schedule p : snapshots p -> snapshots (run n schedule p).
Proof.
  unfold run. revert p. induction schedule as [|i schedule IH]; intros p Hp; [done|].
  cbn [foldl]. by apply IH, advance_snapshots.
Qed.

Lemma drain_spec fuel n p :
  pending_total p ≤ fuel ->
  drained (drain fuel n p) ∧ potential (drain fuel n p) ≡ₚ potential p ∧
  (snapshots p -> snapshots (drain fuel n p)).
Proof.
  revert p. induction fuel as [|fuel IH]; intros p Hfuel; cbn [drain].
  { split_and!; [apply drained_total; lia|done..]. }
  destruct (list_find _ (pool_tasks p)) as [[i t]|] eqn:Hfind.
  - apply list_find_Some in Hfind as (Hi & Hne & _).
    destruct t as [c [|batch pending]]; [done|].
    pose proof (advance_pending n i p c batch pending Hi) as Hdec.
    destruct (IH (advance n i p)) as (Hd & Hpot & Hsnap); [lia|].
    split_and!; [done|by rewrite Hpot, advance_potential|].
    intros Hp. by apply Hsnap, advance_snapshots.
  - split_and!; [|done..]. apply list_find_None in Hfind.
    eapply Forall_impl; [exact Hfind|]. intros t Ht. cbn in Ht.
    by destruct (task_pending t); [|destruct Ht].
Qed.

Lemma run_all_spec n schedule p :
  drained (run_all n schedule p) ∧ pool_mappings (run_all n schedule p) ≡ₚ potential p ∧
  (snapshots p -> snapshots (run_all n schedule p)).
Proof.
  unfold run_all. cbv zeta.
  destruct (drain_spec (pending_total (run n schedule p)) n (run n schedule p))
    as (Hd & Hpot & Hsnap); [done|].
  split_and!; [done| |by intros ?%(run_snapshots n schedule)%Hsnap].
  by rewrite <- (potential_drained _ Hd), Hpot, run_potential.
Qed.

(** C20: the mappings a chunk of components ends with do not depend on the
    order in which the answers of the Oracle arrive: two schedules yield
    the same mappings up to their order, and no batch is left pending. *)
Theorem schedule_independent chunkLength schedule schedule' p :
  pool_mappings (run_all chunkLength schedule p) ≡ₚ
    pool_mappings (run_all chunkLength schedule' p) ∧
  drained (run_all chunkLength schedule p).
Proof.
  destruct (run_all_spec chunkLength schedule p) as (Hd & -> & _).
  by destruct (run_all_spec chunkLength schedule' p) as (_ & -> & _).
Qed.

Lemma matchComponentToAllSpecs_owed component allSpecTypes :
  matchComponentToAllSpecs component allSpecTypes = owed (task_of allSpecTypes component).
Proof.
  unfold matchComponentToAllSpecs, owed, task_of. cbn [task_pending task_component].
  generalize (batches 5 allSpecTypes). intros bs.
  rewrite <- (app_nil_l (bs ≫= _)). generalize (@nil Mapping).
  induction bs as [|b bs IH]; intros acc; cbn [foldl]; [by rewrite app_nil_r|].
  rewrite bind_cons, app_assoc, <- IH. unfold yield. by destruct (matchBatch component b 3);
    rewrite ?app_nil_r.
Qed.

(** A last batch of one spec type is never matched: when the number
    of spec types is one more than a multiple of five, every component is
    matched as if the last spec type were not there. *)
Theorem single_batch_lost component allSpecTypes specType k :
  length allSpecTypes = k * 5 ->
  matchComponentToAllSpecs component (allSpecTypes ++ [specType]) =
  matchComponentToAllSpecs component allSpecTypes.
Proof.
  intros Hlen. rewrite !matchComponentToAllSpecs_owed. unfold owed, task_of.
  cbn [task_pending task_component].
  rewrite (batches_app 5 k) by (done || lia). rewrite bind_app.
  rewrite (batches_small 5 [specType]) by (done || cbn; lia).
  by rewrite app_nil_r.
Qed.

(** ** The whole run *)

Lemma run_chunk_spec specTypes st job :
  (run_chunk specTypes st job).1 ≡ₚ
    st.1 ++ (job.1 ≫= λ c, matchComponentToAllSpecs c specTypes) ∧
  (Forall (λ cp, cp_mappings cp `prefix_of` st.1 ∧
                 cp_totalMappings cp = length (cp_mappings cp)) st.2 ->
   Forall (λ cp, cp_mappings cp `prefix_of` (run_chunk specTypes st job).1 ∧
                 cp_totalMappings cp = length (cp_mappings cp))
          (run_chunk specTypes st job).2).
Proof.
  destruct job as [cs schedule]. unfold run_chunk. cbv zeta. cbn [fst snd].
  destruct (run_all_spec (length cs) schedule
              (mkPool (task_of specTypes <$> cs) st.1 st.2)) as (_ & Hmaps & Hsnap).
  split; [|exact Hsnap]. rewrite Hmaps. unfold potential. cbn [pool_mappings pool_tasks].
  f_equiv. clear. induction cs as [|c cs IH]; [done|].
  by rewrite fmap_cons, !bind_cons, IH, matchComponentToAllSpecs_owed.
Qed.

Lemma run_chunks_spec specTypes jobs st :
  (foldl (run_chunk specTypes) st jobs).1 ≡ₚ
    st.1 ++ (concat jobs.*1 ≫= λ c, matchComponentToAllSpecs c specTypes) ∧
  (Forall (λ cp, cp_mappings cp `prefix_of` st.1 ∧
                 cp_totalMappings cp = length (cp_mappings cp)) st.2 ->
   Forall (λ cp, cp_mappings cp `prefix_of` (foldl (run_chunk specTypes) st jobs).1 ∧
                 cp_totalMappings cp = length (cp_mappings cp))
          (foldl (run_chunk specTypes) st jobs).2).
Proof.
  revert st. induction jobs as [|job jobs IH]; intros st; cbn [foldl].
  { cbn. by rewrite app_nil_r. }
  destruct (IH (run_chunk specTypes st job)) as [Hmaps Hsnap].
  destruct (run_chunk_spec specTypes st job) as [Hmaps' Hsnap'].
  split; [|by intros ?%Hsnap'%Hsnap].
  rewrite Hmaps, Hmaps'. cbn [fmap list_fmap concat]. by rewrite bind_app, app_assoc.
Qed.

Lemma zip_fst_longer {A B} (l : list A) (k : list B) :
  length l ≤ length k -> (zip l k).*1 = l.
Proof.
  revert k. induction l as [|x l IH]; intros [|y k] Hlen; cbn in *; [done..|lia|].
  f_equal. apply IH. lia.
Qed.

Lemma run_mappings_perm allComponents specTypes checkpoint schedules :
  run_mappings (matchComponentsToSpecs allComponents specTypes checkpoint schedules) ≡ₚ
  default [] checkpoint ++
  (componentsToProcess (filter (λ c, has_parent c = true) allComponents) checkpoint
     ≫= λ c, matchComponentToAllSpecs c specTypes).
Proof.
  unfold matchComponentsToSpecs. cbv zeta. case_bool_decide as Hlen; cbn [run_mappings].
  { apply length_zero_iff_nil in Hlen. rewrite Hlen. by rewrite app_nil_r. }
  rewrite (proj1 (run_chunks_spec _ _ _)). cbn [fst].
  rewrite zip_fst_longer by (rewrite length_app, length_replicate; lia).
  by rewrite batches_concat by lia.
Qed.

(** C16: whatever the schedules of the chunks, a run ends with the mappings
    of the checkpoint it loaded and, up to their order, the mappings of
    every component it had to process, each matched against every batch of
    five spec types as if alone; two runs that differ by their schedules
    only end with the same mappings. *)
Theorem match_run_mappings allComponents specTypes checkpoint schedules schedules' :
  run_mappings (matchComponentsToSpecs allComponents specTypes checkpoint schedules) ≡ₚ
    default [] checkpoint ++
    (componentsToProcess (filter (λ c, has_parent c = true) allComponents) checkpoint
       ≫= λ c, matchComponentToAllSpecs c specTypes) ∧
  run_mappings (matchComponentsToSpecs allComponents specTypes checkpoint schedules) ≡ₚ
    run_mappings (matchComponentsToSpecs allComponents specTypes checkpoint schedules').
Proof. by rewrite !run_mappings_perm. Qed.

(** What a mapping of a run says, unless the checkpoint held it: a
    component with a parent and a spec type, by their identifiers, none of
    them empty. *)
Definition links (allComponents : list ComponentType) (specTypes : list Spec) (m : Mapping) :
    Prop :=
  ∃ c s, c ∈ allComponents ∧ has_parent c = true ∧ s ∈ specTypes ∧
         mapping_componentTypeId m = component_id c ∧ component_id c ≠ "" ∧
         mapping_specTypeId m = spec_id s ∧ spec_id s ≠ "" ∧
         mapping_specTypeName m = spec_primaryName s.

Lemma matchComponentToAllSpecs_ok c specTypes :
  Forall (λ m, ∃ batch, batch ∈ batches 5 specTypes ∧ mapping_ok c batch m)
         (matchComponentToAllSpecs c specTypes).
Proof.
  rewrite matchComponentToAllSpecs_owed. unfold owed, task_of.
  cbn [task_pending task_component]. apply Forall_bind, Forall_forall. intros batch Hbatch.
  eapply Forall_impl; [apply yield_ok|]. intros m Hm. eauto.
Qed.

(** C40: every mapping of a run that the checkpoint did not hold links a
    component with a parent to a spec type of the library, by identifiers
    that are not empty, under the name of the spec type. *)
Theorem match_run_sound allComponents specTypes checkpoint schedules :
  Forall (λ m, m ∈ default [] checkpoint ∨ links allComponents specTypes m)
         (run_mappings (matchComponentsToSpecs allComponents specTypes checkpoint schedules)).
Proof.
  rewrite run_mappings_perm. apply Forall_app. split; [apply Forall_forall; auto|].
  apply Forall_bind, Forall_forall. intros c [_ Hc]%list_elem_of_filter.
  apply list_elem_of_filter in Hc as [Hparent Hc].
  eapply Forall_impl; [apply matchComponentToAllSpecs_ok|].
  intros m (batch & Hbatch & Hid & Hne & Hne' & s & Hs & Hsid & Hname). right.
  exists c, s. rewrite Hid in Hne. rewrite Hsid in Hne'.
  split_and!; try done. apply (batches_elem 5 _ batch); [lia|done..].
Qed.

(** Every checkpoint a run writes holds a prefix of the mappings the
    run ends with, and counts them: an interrupted run leaves on disk what
    the finished run would have, up to some batch. *)
Theorem match_run_checkpoints allComponents specTypes checkpoint schedules :
  Forall (λ cp, cp_mappings cp `prefix_of`
                  run_mappings
                    (matchComponentsToSpecs allComponents specTypes checkpoint schedules) ∧
                cp_totalMappings cp = length (cp_mappings cp))
         (run_checkpoints
            (matchComponentsToSpecs allComponents specTypes checkpoint schedules)).
Proof.
  unfold matchComponentsToSpecs. cbv zeta. case_bool_decide; cbn [run_mappings run_checkpoints].
  { constructor. }
  by apply (proj2 (run_chunks_spec _ _ _)).
Qed.

(** A component is processed exactly when it has a parent and no
    mapping of the checkpoint names it: one mapping saved before an
    interruption makes the next run skip the component. *)
Theorem todo_spec allComponents checkpoint c :
  c ∈ componentsToProcess (filter (λ c, has_parent c = true) allComponents) checkpoint <->
  c ∈ allComponents ∧ has_parent c = true ∧
  Forall (λ m, mapping_componentTypeId m ≠ component_id c) (default [] checkpoint).
Proof.
  unfold componentsToProcess, processedComponents. rewrite !list_elem_of_filter, Forall_forall.
  destruct checkpoint as [mappings|]; cbn [default].
  - rewrite elem_of_dedupe, list_elem_of_fmap. split.
    + intros (Hnot & ? & ?). split_and!; [done..|]. intros m Hm Heq. apply Hnot. eauto.
    + intros (? & ? & Hall). split_and!; [|done..]. intros (m & Heq & Hm).
      by apply (Hall m Hm).
  - split; [intros (_ & ? & ?)|intros (? & ? & _)]; split_and!; try done.
    + by intros m ?%elem_of_nil.
    + by intros ?%elem_of_nil.
Qed.

End matcher.

Arguments MatchOracle : clear implicits.
Arguments Task : clear implicits.
Arguments Pool : clear implicits.

(** * Examples: two components, six and ten spec types *)

Module matcher_examples.

Definition entry (id name : string) : SpecType Q :=
  mkSpecType id name [] [] "" HVAC None None None None None None NUMERIC None None None
             false None None.

Definition five : list (SpecType Q) :=
  [entry "s1" "Cooling Capacity"; entry "s2" "Voltage"; entry "s3" "Flow Rate";
   entry "s4" "Refrigerant"; entry "s5" "Weight"].

Definition sixth : SpecType Q := entry "s6" "Sound Level".

Definition ten : list (SpecType Q) :=
  five ++ [sixth; entry "s7" "Efficiency"; entry "s8" "Head"; entry "s9" "Speed";
           entry "s10" "Phase"].

Definition equipment : ComponentType := mkComponentType "c0" "Equipment" "" "" "".
Definition chiller : ComponentType := mkComponentType "c1" "Chiller" "" "c0" "23 64 00".
Definition pump : ComponentType := mkComponentType "c2" "Pump" "" "c0" "23 21 23".

(** An Oracle that finds the first spec type of a batch relevant, the
    size of the component when it is the first of the library, and that
    fails the first attempt of every request about a pump. *)
#[export] Instance first_of_batch : MatchOracle Q := λ component batch attempt,
  if bool_decide (component_id component = "c2") && bool_decide (attempt < 2)%nat
  then Thrown "overloaded"
  else Returned
         (imap (λ i s, (spec_primaryName s,
                        Some (mkMatchResult (bool_decide (i = 0%nat))
                                (if bool_decide (spec_id s = "s1") then "PRIMARY_SIZE"
                                 else "N/A")
                                None)))
               batch).

Definition found (c : ComponentType) (s : SpecType Q) (category : string) :
    ComponentSpecMapping :=
  mkComponentSpecMapping (component_id c) (component_name c) (spec_id s) (spec_primaryName s)
    category (Some (bool_decide (category = "PRIMARY_SIZE"))) None.

(** The second attempt of a request about a pump succeeds. *)
Example batch_retried :
  matchBatch pump five 3 = Returned [found pump (entry "s1" "Cooling Capacity") "PRIMARY_SIZE"] ∧
  matchBatch pump five 1 = Returned [].
Proof. by vm_compute. Qed.

(** The sixth spec type is alone in its batch and is never matched, though
    the Oracle would find it relevant. *)
Example sixth_never_matched :
  matchComponentToAllSpecs chiller (five ++ [sixth]) =
    [found chiller (entry "s1" "Cooling Capacity") "PRIMARY_SIZE"] ∧
  (∃ results, askMatch chiller [sixth] 1 = Returned results ∧
              mappings_of chiller [sixth] results [] = Returned [found chiller sixth "N/A"]).
Proof. split; [by vm_compute|]. eexists. split; by vm_compute. Qed.

(** Two schedules of the same chunk: the mappings come in another order. *)
Example schedules_reorder :
  run_mappings (matchComponentsToSpecs [equipment; chiller; pump] ten None []) =
    [found chiller (entry "s1" "Cooling Capacity") "PRIMARY_SIZE"; found chiller sixth "N/A";
     found pump (entry "s1" "Cooling Capacity") "PRIMARY_SIZE"; found pump sixth "N/A"] ∧
  run_mappings (matchComponentsToSpecs [equipment; chiller; pump] ten None [[1; 0; 1]]) =
    [found pump (entry "s1" "Cooling Capacity") "PRIMARY_SIZE";
     found chiller (entry "s1" "Cooling Capacity") "PRIMARY_SIZE";
     found pump sixth "N/A"; found chiller sixth "N/A"].
Proof. by vm_compute. Qed.

(** A run interrupted after the first batch of the chiller: the next run
    skips the chiller, whose second batch is never matched, and matches the
    pump. *)
Example resume_skips_partial :
  let saved := [found chiller (entry "s1" "Cooling Capacity") "PRIMARY_SIZE"] in
  componentsToProcess [chiller; pump] (Some saved) = [pump] ∧
  run_mappings (matchComponentsToSpecs [equipment; chiller; pump] ten (Some saved) []) =
    saved ++ [found pump (entry "s1" "Cooling Capacity") "PRIMARY_SIZE"; found pump sixth "N/A"].
Proof. by vm_compute. Qed.

(** A component without a mapping is matched again by every run. *)
Example unmatched_rematched :
  componentsToProcess [chiller; pump]
    (Some [found pump (entry "s1" "Cooling Capacity") "PRIMARY_SIZE"]) = [chiller].
Proof. by vm_compute. Qed.

(** Nothing to process: the run returns what the checkpoint held and writes
    no file. *)
Example nothing_to_process :
  matchComponentsToSpecs [equipment] ten None [] = mkMatchRun [] [] None.
Proof. by vm_compute. Qed.

(** The checkpoints of a run, by the number of mappings each holds. *)
Example checkpoints_grow :
  cp_totalMappings <$>
    run_checkpoints (matchComponentsToSpecs [equipment; chiller; pump] ten None [[1; 0; 1]]) =
  [1; 2; 3; 4]%nat.
Proof. by vm_compute. Qed.

Lemma single_batch_lost_witness :
  matchComponentToAllSpecs chiller (five ++ [sixth]) = matchComponentToAllSpecs chiller five.
Proof. apply (single_batch_lost chiller five sixth 1). reflexivity. Defined.

End matcher_examples.
