(* ===== verification/Repair.v ===== *)
(** * Repair: the repair of value types and units

    [analyzeSpecType], [dryRunValueTypeFixes], [processChunk],
    [fixAllValueTypes] and [fixValueTypesRange] of
    [src/src/utils/fixValueTypes.ts].  The stage asks the Oracle, for every
    spec type of the master file, which value type it should have and
    whether it is a measurable quantity, and rewrites the spec type in
    place.

    The stage writes into [valueType] whatever string the Oracle recommends
    ([STRING] is one of the recommendations and is not a [ValueType] of the
    schema), and deletes fields the schema has: a spec type of the stage is
    an [Entry], the object as read with the eight fields the stage writes
    held beside it.

    The workers of [fixAllValueTypes] run concurrently on slices of the
    array.  A worker writes the objects of its slice and its own counters
    only, so the workers do not interfere and the run is a map over the
    chunks; the file is written once, after the last worker. *)

From Stdlib Require Import QArith.
From stdpp Require Import gmap strings list.
From S2P Require Import Spec2Rocq Schemas Validator.

Local Open Scope js_scope.

Section repair.
Context {Num : Type}.

(** A spec type as the stage sees it.  [e_read] is the object read, from
    which the fields the stage never writes are taken; the others are the
    current values of the fields it writes, [None] for a field that is
    absent. *)
Record Entry : Type := mkEntry {
  e_read : SpecType Num;
  e_valueType : string;
  e_allowsArray : option bool;
  e_primaryUnit : option string;
  e_primaryUnitId : option string;
  e_primaryUnitGroup : option string;
  e_primaryUnitGroupId : option string;
  e_alternateUnits : option (list string);
  e_alternateUnitIds : option (list string);
}.

(** An object of the master file as an entry. *)
Definition entry_of (s : SpecType Num) : Entry :=
  {| e_read := s;
     e_valueType := valueType_name (spec_valueType s);
     e_allowsArray := Some (spec_allowsArray s);
     e_primaryUnit := spec_primaryUnit s;
     e_primaryUnitId := spec_primaryUnitId s;
     e_primaryUnitGroup := spec_primaryUnitGroup s;
     e_primaryUnitGroupId := spec_primaryUnitGroupId s;
     e_alternateUnits := spec_alternateUnits s;
     e_alternateUnitIds := spec_alternateUnitIds s |}.

(** Lines 9-17, as the stage reads an answer: [shouldHaveUnits] by its
    truthiness, [recommendedAllowsArray] as the boolean it is compared
    with, if it is one. *)
Record ValueTypeAnalysis : Type := mkAnalysis {
  recommendedValueType : string;
  reasoning : string;
  recommendedAllowsArray : option bool;
  shouldHaveUnits : bool;
  recommendedPrimaryUnit : option string;
  recommendedAlternateUnits : option (list string);
}.

(** Lines 34-89: the answer to the prompt built from the entry, or a
    throw; an answer that is [null] throws when its first field is read. *)
Class AnalysisOracle : Type := analyzeSpecType : Entry -> outcome ValueTypeAnalysis.

Context {oracle : AnalysisOracle}.

(** [specType.valueType = v] and the like. *)
Definition set_valueType (v : string) (e : Entry) : Entry :=
  mkEntry (e_read e) v (e_allowsArray e) (e_primaryUnit e) (e_primaryUnitId e)
    (e_primaryUnitGroup e) (e_primaryUnitGroupId e) (e_alternateUnits e)
    (e_alternateUnitIds e).

Definition set_allowsArray (b : option bool) (e : Entry) : Entry :=
  mkEntry (e_read e) (e_valueType e) b (e_primaryUnit e) (e_primaryUnitId e)
    (e_primaryUnitGroup e) (e_primaryUnitGroupId e) (e_alternateUnits e)
    (e_alternateUnitIds e).

Definition set_primaryUnit (u : string) (e : Entry) : Entry :=
  mkEntry (e_read e) (e_valueType e) (e_allowsArray e) (Some u) (e_primaryUnitId e)
    (e_primaryUnitGroup e) (e_primaryUnitGroupId e) (e_alternateUnits e)
    (e_alternateUnitIds e).

Definition set_alternateUnits (us : list string) (e : Entry) : Entry :=
  mkEntry (e_read e) (e_valueType e) (e_allowsArray e) (e_primaryUnit e) (e_primaryUnitId e)
    (e_primaryUnitGroup e) (e_primaryUnitGroupId e) (Some us) (e_alternateUnitIds e).

(** Lines 219-222, the four [delete]s. *)
Definition delete_primary (e : Entry) : Entry :=
  mkEntry (e_read e) (e_valueType e) (e_allowsArray e) None None None None
    (e_alternateUnits e) (e_alternateUnitIds e).

(** Lines 228-229. *)
Definition delete_alternates (e : Entry) : Entry :=
  mkEntry (e_read e) (e_valueType e) (e_allowsArray e) (e_primaryUnit e) (e_primaryUnitId e)
    (e_primaryUnitGroup e) (e_primaryUnitGroupId e) None None.

(** The truthiness of a field that holds a string, if it is there. *)
Definition present (o : option string) : bool := from_option str_truthy false o.

(** Lines 180-185 and 340-345. *)
Definition fix_valueType (a : ValueTypeAnalysis) (e : Entry) : Entry * bool :=
  if bool_decide (recommendedValueType a ≠ e_valueType e)
  then (set_valueType (recommendedValueType a) e, true)
  else (e, false).

(** Lines 188-192 and 347-350. *)
Definition fix_allowsArray (a : ValueTypeAnalysis) (e : Entry) : Entry * bool :=
  if bool_decide (recommendedAllowsArray a ≠ e_allowsArray e)
  then (set_allowsArray (recommendedAllowsArray a) e, true)
  else (e, false).

(** Lines 197-203. *)
Definition fix_primaryUnit (a : ValueTypeAnalysis) (e : Entry) : Entry * bool :=
  match recommendedPrimaryUnit a with
  | Some u =>
      if str_truthy u && (negb (present (e_primaryUnit e)) ||
                          bool_decide (e_primaryUnit e ≠ Some u))
      then (set_primaryUnit u e, true)
      else (e, false)
  | None => (e, false)
  end.

(** Lines 205-214: the two arrays are compared by their JSON text. *)
Definition fix_alternateUnits (a : ValueTypeAnalysis) (e : Entry) : Entry * bool :=
  match recommendedAlternateUnits a with
  | Some (u :: us) =>
      if bool_decide (default [] (e_alternateUnits e) ≠ u :: us)
      then (set_alternateUnits (u :: us) e, true)
      else (e, false)
  | _ => (e, false)
  end.

(** Lines 217-224. *)
Definition remove_primary (e : Entry) : Entry * bool :=
  if present (e_primaryUnit e) then (delete_primary e, true) else (e, false).

(** Lines 226-231: an array is truthy, empty or not. *)
Definition remove_alternates (e : Entry) : Entry * bool :=
  if bool_decide (is_Some (e_alternateUnits e)) then (delete_alternates e, true)
  else (e, false).

(** One step after another, with the disjunction of their flags. *)
Definition and_then (f g : Entry -> Entry * bool) (e : Entry) : Entry * bool :=
  let r := f e in
  let r' := g r.1 in
  (r'.1, r.2 || r'.2).

(** Lines 195-232. *)
Definition fix_units (a : ValueTypeAnalysis) : Entry -> Entry * bool :=
  if shouldHaveUnits a then and_then (fix_primaryUnit a) (fix_alternateUnits a)
  else and_then remove_primary remove_alternates.

(** Lines 177-232: what an answer does to an entry, and whether it
    changed it. *)
Definition apply_analysis (a : ValueTypeAnalysis) : Entry -> Entry * bool :=
  and_then (fix_valueType a) (and_then (fix_allowsArray a) (fix_units a)).

(** Lines 163-166 and 247. *)
Record ChunkResult : Type := mkChunkResult {
  res_fixed : nat;
  res_skipped : nat;
  res_errors : nat;
  res_updatedSpecTypes : list Entry;
}.

(** Lines 168-245, the body of the loop of a worker. *)
Definition process_entry (r : ChunkResult) (e : Entry) : ChunkResult :=
  match analyzeSpecType e with
  | Returned a =>
      let e' := apply_analysis a e in
      mkChunkResult
        (if (fix_valueType a e).2 then S (res_fixed r) else res_fixed r)
        (if e'.2 then res_skipped r else S (res_skipped r))
        (res_errors r)
        (res_updatedSpecTypes r ++ [e'.1])
  | Thrown _ => mkChunkResult (res_fixed r) (res_skipped r) (S (res_errors r)) (res_updatedSpecTypes r ++ [e])
  end.

(** Lines 159-248. *)
Definition processChunk (specTypes : list Entry) : ChunkResult :=
  foldl process_entry (mkChunkResult 0 0 0 []) specTypes.

(** Line 267, [Math.ceil(specTypes.length / parallelWorkers)]: without a
    worker the quotient is infinite, and the first slice takes every
    entry. *)
Definition chunkSize (parallelWorkers : nat) (specTypes : list Entry) : nat :=
  if bool_decide (parallelWorkers = 0) then length specTypes
  else (length specTypes + parallelWorkers - 1) / parallelWorkers.

(** The master file: [data.specTypes], which can be absent, and whether
    [data.metadata] is there. *)
Record SpecFile : Type := mkSpecFile {
  file_specTypes : option (list Entry);
  file_has_metadata : bool;
}.

(** What a run leaves: the backup, the master file written and the
    totals printed. *)
Record Repaired : Type := mkRepaired {
  backup : SpecFile;
  written : list Entry;
  totalCount : nat;
  totalFixed : nat;
  totalSkipped : nat;
  totalErrors : nat;
}.

(** Lines 283-293, [results.forEach]. *)
Definition merge (acc r : ChunkResult) : ChunkResult :=
  mkChunkResult (res_fixed acc + res_fixed r) (res_skipped acc + res_skipped r) (res_errors acc + res_errors r)
                (res_updatedSpecTypes acc ++ res_updatedSpecTypes r).

(** Lines 253-309.  Without a master file the backup throws; without
    [metadata] the run throws after the workers, before it writes. *)
Definition fixAllValueTypes (parallelWorkers : nat) (file : option SpecFile) :
    outcome Repaired :=
  match file with
  | None => Thrown "Master file not found!"
  | Some data =>
      let specTypes := default [] (file_specTypes data) in
      let chunks := batches (chunkSize parallelWorkers specTypes) specTypes in
      let results := processChunk <$> chunks in
      let total := foldl merge (mkChunkResult 0 0 0 []) results in
      if file_has_metadata data
      then Returned (mkRepaired data (res_updatedSpecTypes total)
                       (length (res_updatedSpecTypes total)) (res_fixed total) (res_skipped total)
                       (res_errors total))
      else Thrown "TypeError: Cannot set properties of undefined (setting 'lastUpdated')"
  end.

(** Lines 99-108, an entry of [recommendations]. *)
Record Recommendation : Type := mkRecommendation {
  rec_name : string;
  rec_currentValueType : string;
  rec_recommendedValueType : string;
  rec_reasoning : string;
  rec_wouldChange : bool;
}.

(** Lines 115-141, the body of the loop: an entry on which the Oracle
    fails has no recommendation. *)
Definition recommend (e : Entry) : option Recommendation :=
  match analyzeSpecType e with
  | Returned a =>
      Some (mkRecommendation (spec_primaryName (e_read e)) (e_valueType e)
              (recommendedValueType a) (reasoning a)
              (bool_decide (recommendedValueType a ≠ e_valueType e) ||
               bool_decide (recommendedAllowsArray a ≠ e_allowsArray e)))
  | Thrown _ => None
  end.

(** Lines 92-154: the recommendations for the first [limit] entries; the
    master file is read and never written. *)
Definition dryRunValueTypeFixes (limit : nat) (file : option SpecFile) :
    outcome (list Recommendation) :=
  match file with
  | None => Thrown "ENOENT: no such file or directory"
  | Some data => Returned (omap recommend (take limit (default [] (file_specTypes data))))
  end.

(** Line 143. *)
Definition changesCount (recommendations : list Recommendation) : nat :=
  length (filter (λ r, rec_wouldChange r = true) recommendations).

(** The state of [fixValueTypesRange]: the array, [fixedCount], and the
    contents of the master file at every write, in order. *)
Record RangeRun : Type := mkRangeRun {
  range_specTypes : list Entry;
  range_fixed : nat;
  range_writes : list (list Entry);
}.

(** Lines 330-364, the body of the loop.  The units are left alone.
    Without [metadata] the write throws inside the [try]: the entry keeps
    its change in memory and the file is not written. *)
Definition fix_index (has_metadata : bool) (st : RangeRun) (i : nat) : RangeRun :=
  match range_specTypes st !! i with
  | Some e =>
      match analyzeSpecType e with
      | Returned a =>
          let r := and_then (fix_valueType a) (fix_allowsArray a) e in
          let specTypes := <[i := r.1]> (range_specTypes st) in
          mkRangeRun specTypes
            (if (fix_valueType a e).2 then S (range_fixed st) else range_fixed st)
            (if r.2 && has_metadata then range_writes st ++ [specTypes]
             else range_writes st)
      | Thrown _ => st
      end
  | None => st
  end.

(** Lines 314-367. *)
Definition fixValueTypesRange (startIndex endIndex : nat) (file : option SpecFile) :
    outcome RangeRun :=
  match file with
  | None => Thrown "Master file not found!"
  | Some data =>
      let specTypes := default [] (file_specTypes data) in
      let actualEnd := endIndex `min` length specTypes in
      Returned (foldl (fix_index (file_has_metadata data)) (mkRangeRun specTypes 0 [])
                      (seq startIndex (actualEnd - startIndex)))
  end.

(** ** One entry *)

(** What the stage makes of an entry: the entry itself when the Oracle
    fails. *)
Definition repair (e : Entry) : Entry :=
  match analyzeSpecType e with
  | Returned a => (apply_analysis a e).1
  | Thrown _ => e
  end.

(** The three counters of a worker, and the entries none of them counts:
    those whose value type was right and whose array flag or units
    changed. *)
Definition is_fixed (e : Entry) : bool :=
  match analyzeSpecType e with Returned a => (fix_valueType a e).2 | Thrown _ => false end.

Definition is_skipped (e : Entry) : bool :=
  match analyzeSpecType e with Returned a => negb (apply_analysis a e).2 | Thrown _ => false end.

Definition is_error (e : Entry) : bool :=
  match analyzeSpecType e with Returned _ => false | Thrown _ => true end.

Definition is_touched (e : Entry) : bool :=
  match analyzeSpecType e with
  | Returned a => negb (fix_valueType a e).2 && (apply_analysis a e).2
  | Thrown _ => false
  end.

Definition how_many (p : Entry -> bool) (l : list Entry) : nat :=
  length (filter (λ e, p e = true) l).

Lemma how_many_app p l1 l2 : how_many p (l1 ++ l2) = how_many p l1 + how_many p l2.
Proof. unfold how_many. by rewrite filter_app, length_app. Qed.

Lemma how_many_cons p e l : how_many p (e :: l) = (if p e then 1 else 0) + how_many p l.
Proof. unfold how_many. rewrite filter_cons. by destruct (p e); case_decide. Qed.

Lemma and_then_fst f g e : (and_then f g e).1 = (g (f e).1).1.
Proof. done. Qed.

Lemma and_then_snd f g e : (and_then f g e).2 = (f e).2 || (g (f e).1).2.
Proof. done. Qed.

(** A step that leaves what it has made alone. *)
Definition settles (f : Entry -> Entry * bool) : Prop := ∀ e, f (f e).1 = ((f e).1, false).

(** A step [g] that does not undo what a step [f] has settled. *)
Definition respects (f g : Entry -> Entry * bool) : Prop :=
  ∀ e, f e = (e, false) -> f (g e).1 = ((g e).1, false).

Lemma and_then_settles f g :
  settles f -> settles g -> respects f g -> settles (and_then f g).
Proof.
  intros Hf Hg Hfg e. unfold and_then. cbv zeta. cbn [fst snd].
  rewrite (Hfg _ (Hf e)). cbn [fst snd]. by rewrite Hg.
Qed.

Lemma and_then_respects f g h :
  respects f g -> respects f h -> respects f (and_then g h).
Proof. intros Hg Hh e He. rewrite and_then_fst. by apply Hh, Hg. Qed.

(** The steps of the stage, opened: every step tests and writes fields
    of its own. *)
Ltac steps :=
  unfold settles, respects, fix_valueType, fix_allowsArray, fix_primaryUnit,
    fix_alternateUnits, remove_primary, remove_alternates, present;
  intros; repeat case_match; simplify_eq /=;
  repeat (rewrite ?bool_decide_eq_true, ?bool_decide_eq_false, ?andb_true_iff,
            ?andb_false_iff, ?orb_true_iff, ?orb_false_iff, ?negb_true_iff,
            ?negb_false_iff in *);
  try done; try (intuition congruence);
  repeat match goal with
         | H : ¬ (_ ≠ _) |- _ => apply dec_stable in H
         | H : ¬ is_Some _ |- _ => apply eq_None_not_Some in H
         end;
  try done; try (intuition congruence).

Lemma fix_valueType_settles a : settles (fix_valueType a).
Proof. steps. Qed.

Lemma fix_allowsArray_settles a : settles (fix_allowsArray a).
Proof. steps. Qed.

Lemma fix_primaryUnit_settles a : settles (fix_primaryUnit a).
Proof.
  intros e. unfold fix_primaryUnit. destruct (recommendedPrimaryUnit a) as [u|]; [|done].
  destruct (str_truthy u) eqn:Hu; [|done]. cbn [andb].
  assert (Hset : ∀ o, o = Some u ->
            negb (present o) || bool_decide (o ≠ Some u) = false).
  { intros o ->. unfold present. cbn. rewrite Hu. cbn.
    by rewrite bool_decide_false by (by intros []). }
  destruct (decide (e_primaryUnit e = Some u)) as [Heq|Hne].
  - rewrite (Hset _ Heq). cbn [fst]. by rewrite (Hset _ Heq).
  - rewrite (bool_decide_true (e_primaryUnit e ≠ Some u)), orb_true_r by done.
    cbn [fst]. by rewrite Hset.
Qed.

Lemma fix_alternateUnits_settles a : settles (fix_alternateUnits a).
Proof. steps. Qed.

Lemma remove_primary_settles : settles remove_primary.
Proof. steps. Qed.

Lemma remove_alternates_settles : settles remove_alternates.
Proof. steps. Qed.

Lemma valueType_respected a g :
  (∀ e, e_valueType (g e).1 = e_valueType e) -> respects (fix_valueType a) g.
Proof.
  intros Hg e. unfold fix_valueType. rewrite Hg.
  case_bool_decide; [done|]. by intros _.
Qed.

Lemma allowsArray_respected a g :
  (∀ e, e_allowsArray (g e).1 = e_allowsArray e) -> respects (fix_allowsArray a) g.
Proof.
  intros Hg e. unfold fix_allowsArray. rewrite Hg.
  case_bool_decide; [done|]. by intros _.
Qed.

Lemma primaryUnit_respected a : respects (fix_primaryUnit a) (fix_alternateUnits a).
Proof.
  intros e. unfold fix_primaryUnit.
  assert (e_primaryUnit (fix_alternateUnits a e).1 = e_primaryUnit e) as ->; [by steps|].
  by repeat case_match.
Qed.

Lemma remove_primary_respected : respects remove_primary remove_alternates.
Proof.
  intros e. unfold remove_primary.
  assert (e_primaryUnit (remove_alternates e).1 = e_primaryUnit e) as ->; [by steps|].
  by case_match.
Qed.

(** The fields a step leaves as they are. *)
Lemma fix_allowsArray_frame a e :
  e_valueType (fix_allowsArray a e).1 = e_valueType e.
Proof. by steps. Qed.

Lemma fix_units_frame a e :
  e_valueType (fix_units a e).1 = e_valueType e ∧
  e_allowsArray (fix_units a e).1 = e_allowsArray e.
Proof.
  unfold fix_units, and_then; destruct (shouldHaveUnits a); cbv zeta; cbn [fst]; by steps.
Qed.

Lemma fix_units_settles a : settles (fix_units a).
Proof.
  unfold fix_units. destruct (shouldHaveUnits a); apply and_then_settles;
    auto using fix_primaryUnit_settles, fix_alternateUnits_settles, remove_primary_settles,
      remove_alternates_settles, primaryUnit_respected, remove_primary_respected.
Qed.

Lemma apply_analysis_settles a : settles (apply_analysis a).
Proof.
  unfold apply_analysis. apply and_then_settles; [apply fix_valueType_settles| |].
  - apply and_then_settles;
      [apply fix_allowsArray_settles|apply fix_units_settles|].
    apply allowsArray_respected, fix_units_frame.
  - apply valueType_respected. intros e. rewrite and_then_fst.
    by rewrite (proj1 (fix_units_frame _ _)), fix_allowsArray_frame.
Qed.

(** C38: the repair of an entry is idempotent: applied to the entry it
    made, the same answer changes nothing and reports no change. *)
Theorem apply_analysis_idempotent a e :
  apply_analysis a (apply_analysis a e).1 = ((apply_analysis a e).1, false).
Proof. apply apply_analysis_settles. Qed.

(** An entry that is not a measurable quantity ends without units:
    no alternate units, and no primary unit, identifier or group if it had
    a primary unit; the value type is the one recommended and the object
    read is kept. *)
Theorem not_measurable_no_units a e :
  shouldHaveUnits a = false ->
  let e' := (apply_analysis a e).1 in
  present (e_primaryUnit e') = false ∧ e_alternateUnits e' = None ∧
  (present (e_primaryUnit e) = true ->
   e_primaryUnit e' = None ∧ e_primaryUnitId e' = None ∧
   e_primaryUnitGroup e' = None ∧ e_primaryUnitGroupId e' = None) ∧
  e_valueType e' = recommendedValueType a ∧ e_read e' = e_read e.
Proof.
  intros Hunits. unfold apply_analysis, fix_units, and_then. rewrite Hunits.
  cbv zeta. cbn [fst]. by steps.
Qed.

(** ** The workers *)

Lemma process_fold r l :
  foldl process_entry r l =
  mkChunkResult (res_fixed r + how_many is_fixed l) (res_skipped r + how_many is_skipped l)
                (res_errors r + how_many is_error l) (res_updatedSpecTypes r ++ (repair <$> l)).
Proof.
  revert r. induction l as [|e l IH]; intros r; cbn [foldl].
  { destruct r. cbn. by rewrite !Nat.add_0_r, app_nil_r. }
  rewrite IH, !how_many_cons, fmap_cons.
  unfold process_entry, is_fixed, is_skipped, is_error, repair.
  cbv zeta. destruct (analyzeSpecType e) as [a|msg];
    [destruct (fix_valueType a e).2, (apply_analysis a e).2|];
    cbn [res_fixed res_skipped res_errors res_updatedSpecTypes negb]; rewrite <- app_assoc;
    f_equal; lia || done.
Qed.

Lemma processChunk_spec l :
  processChunk l =
  mkChunkResult (how_many is_fixed l) (how_many is_skipped l) (how_many is_error l) (repair <$> l).
Proof. unfold processChunk. by rewrite process_fold. Qed.

Lemma merge_fold l chunks :
  foldl merge (processChunk l) (processChunk <$> chunks) = processChunk (l ++ concat chunks).
Proof.
  revert l. induction chunks as [|c chunks IH]; intros l; cbn [foldl fmap list_fmap concat].
  { by rewrite app_nil_r. }
  rewrite (assoc_L _ l c), <- IH. f_equal.
  rewrite !processChunk_spec. unfold merge. cbn. by rewrite !how_many_app, fmap_app.
Qed.

Lemma chunkSize_pos parallelWorkers l : l ≠ [] -> 0 < chunkSize parallelWorkers l.
Proof.
  intros Hl. assert (0 < length l) by (destruct l; [done|cbn; lia]).
  unfold chunkSize. case_bool_decide; [done|]. apply Nat.div_str_pos. lia.
Qed.

Lemma chunks_concat parallelWorkers l :
  concat (batches (chunkSize parallelWorkers l) l) = l.
Proof.
  destruct (decide (l = [])) as [->|Hl]; [done|]. by apply batches_concat, chunkSize_pos.
Qed.

(** C21: the run of the workers is one pass over the master file: every
    entry is written where it was read, repaired by the answer of the
    Oracle or left as it was when the Oracle failed, and the totals count
    the entries whose value type changed, the entries no step changed and
    the entries on which the Oracle failed. *)
Theorem fixAllValueTypes_spec parallelWorkers data :
  file_has_metadata data = true ->
  let l := default [] (file_specTypes data) in
  fixAllValueTypes parallelWorkers (Some data) =
  Returned (mkRepaired data (repair <$> l) (length l) (how_many is_fixed l) (how_many is_skipped l)
              (how_many is_error l)).
Proof.
  intros Hmeta. unfold fixAllValueTypes. cbv zeta. rewrite Hmeta.
  change (mkChunkResult 0 0 0 []) with (processChunk []).
  rewrite merge_fold. cbn [app]. rewrite chunks_concat, processChunk_spec.
  cbn [res_fixed res_skipped res_errors res_updatedSpecTypes]. by rewrite length_fmap.
Qed.

(** An entry is counted by one counter at most, and by none when its
    value type was right and its array flag or its units changed: the
    three totals and these entries add up to the entries of the file. *)
Theorem totals_account l :
  how_many is_fixed l + how_many is_skipped l + how_many is_error l + how_many is_touched l = length l.
Proof.
  induction l as [|e l IH]; [done|]. rewrite !how_many_cons. cbn [length].
  assert ((if is_fixed e then 1 else 0) + (if is_skipped e then 1 else 0) +
          (if is_error e then 1 else 0) + (if is_touched e then 1 else 0) = 1); [|lia].
  unfold is_fixed, is_skipped, is_error, is_touched, apply_analysis.
  destruct (analyzeSpecType e) as [a|msg]; [|done]. rewrite and_then_snd.
  by destruct (fix_valueType a e).2, (and_then _ _ _).2.
Qed.

(** The entries are split among at most [parallelWorkers] workers. *)
Theorem chunks_bound parallelWorkers (l : list Entry) :
  0 < parallelWorkers -> length (batches (chunkSize parallelWorkers l) l) ≤ parallelWorkers.
Proof.
  intros Hw. destruct (decide (l = [])) as [->|Hl]; [cbn; lia|].
  pose proof (chunkSize_pos parallelWorkers l Hl) as Hpos.
  pose proof (length_batches (chunkSize parallelWorkers l) l Hpos) as [_ Hlt].
  assert (length l ≤ chunkSize parallelWorkers l * parallelWorkers); [|nia].
  unfold chunkSize in *. rewrite bool_decide_false in * by lia.
  pose proof (Nat.div_mod_eq (length l + parallelWorkers - 1) parallelWorkers).
  pose proof (Nat.mod_upper_bound (length l + parallelWorkers - 1) parallelWorkers).
  nia.
Qed.

(** ** A range of entries *)

(** What [fixValueTypesRange] makes of an entry. *)
Definition repair_range (e : Entry) : Entry :=
  match analyzeSpecType e with
  | Returned a => (and_then (fix_valueType a) (fix_allowsArray a) e).1
  | Thrown _ => e
  end.

(** The master file on disk after a run that found it holding [l]. *)
Definition on_disk (l : list Entry) (st : RangeRun) : list Entry :=
  default l (last (range_writes st)).

Lemma range_unchanged a e :
  (and_then (fix_valueType a) (fix_allowsArray a) e).2 = false ->
  (and_then (fix_valueType a) (fix_allowsArray a) e).1 = e.
Proof. unfold and_then. cbv zeta. cbn [fst snd]. by steps. Qed.

Lemma fix_index_lookup m st i j :
  range_specTypes (fix_index m st i) !! j =
  if bool_decide (j = i) then repair_range <$> range_specTypes st !! j
  else range_specTypes st !! j.
Proof.
  unfold fix_index, repair_range. case_bool_decide as Hj; [subst j|].
  - destruct (range_specTypes st !! i) as [e|] eqn:Hi; [|by rewrite Hi].
    cbn [fmap option_fmap option_map]. cbv zeta.
    destruct (analyzeSpecType e); [|done]. cbn [range_specTypes].
    apply list_lookup_insert_eq. by eapply lookup_lt_Some.
  - destruct (range_specTypes st !! i) as [e|]; [|done]. cbv zeta.
    destruct (analyzeSpecType e); [|done]. cbn [range_specTypes].
    by rewrite list_lookup_insert_ne.
Qed.

Lemma fix_indices_lookup m indices st j :
  NoDup indices ->
  range_specTypes (foldl (fix_index m) st indices) !! j =
  if bool_decide (j ∈ indices) then repair_range <$> range_specTypes st !! j
  else range_specTypes st !! j.
Proof.
  revert st. induction indices as [|i indices IH]; intros st Hnd; cbn [foldl]; [done|].
  apply NoDup_cons in Hnd as [Hi Hnd]. rewrite IH, fix_index_lookup by done.
  destruct (decide (j = i)) as [->|Hne].
  - by rewrite (bool_decide_false (i ∈ indices)), !bool_decide_true by (done || left).
  - rewrite (bool_decide_false (j = i)) by done.
    by rewrite (bool_decide_ext (j ∈ i :: indices) (j ∈ indices)) by (rewrite elem_of_cons; tauto).
Qed.

Lemma fix_index_disk l st i :
  on_disk l st = range_specTypes st ->
  on_disk l (fix_index true st i) = range_specTypes (fix_index true st i).
Proof.
  unfold fix_index, on_disk. intros Hdisk.
  destruct (range_specTypes st !! i) as [e|] eqn:Hi; [|done]. cbv zeta.
  destruct (analyzeSpecType e) as [a|]; [|done]. cbn [range_specTypes range_writes].
  rewrite andb_true_r. destruct (and_then _ _ e).2 eqn:Hchanged.
  - by rewrite last_snoc.
  - by rewrite (range_unchanged _ _ Hchanged), list_insert_id.
Qed.

(** The units of an entry of the range are left as they were. *)
Lemma repair_range_frame e :
  e_read (repair_range e) = e_read e ∧
  e_primaryUnit (repair_range e) = e_primaryUnit e ∧
  e_primaryUnitId (repair_range e) = e_primaryUnitId e ∧
  e_alternateUnits (repair_range e) = e_alternateUnits e.
Proof.
  unfold repair_range. destruct (analyzeSpecType e); [|done].
  unfold and_then. cbv zeta. cbn [fst]. by steps.
Qed.

(** A run returns exactly when the master file is there and has its
    metadata; otherwise nothing is written, whatever the workers did. *)
Lemma fixAllValueTypes_returns parallelWorkers file :
  (∃ r, fixAllValueTypes parallelWorkers file = Returned r) <->
  ∃ data, file = Some data ∧ file_has_metadata data = true.
Proof.
  unfold fixAllValueTypes. destruct file as [data|]; cbv zeta.
  - destruct (file_has_metadata data) eqn:Hmeta.
    + split; intros _; [by exists data|by eexists].
    + split; [by intros [? ?]|intros (? & [= <-] & ?); congruence].
  - split; [by intros [? ?]|by intros (? & ? & _)].
Qed.

(** [fixValueTypesRange] repairs the value type and the array flag
    of the entries from [startIndex] to [endIndex], the last excluded,
    leaves the others as they were, and the master file holds at the end
    what the run holds in memory. *)
Theorem fixValueTypesRange_spec startIndex endIndex data :
  file_has_metadata data = true ->
  let l := default [] (file_specTypes data) in
  ∃ st, fixValueTypesRange startIndex endIndex (Some data) = Returned st ∧
        on_disk l st = range_specTypes st ∧
        ∀ j, range_specTypes st !! j =
             if bool_decide (startIndex ≤ j < endIndex `min` length l)
             then repair_range <$> l !! j else l !! j.
Proof.
  intros Hmeta l. eexists. split; [done|]. rewrite Hmeta. fold l. split.
  - generalize (seq startIndex (endIndex `min` length l - startIndex)). intros indices.
    assert (Hinit : on_disk l (mkRangeRun l 0 []) = range_specTypes (mkRangeRun l 0 [])) by done.
    revert Hinit. generalize (mkRangeRun l 0 []).
    induction indices as [|i indices IH]; intros st Hst; [done|].
    by apply IH, fix_index_disk.
  - intros j. rewrite fix_indices_lookup by apply NoDup_seq. cbn [range_specTypes].
    apply (f_equal (λ b : bool, if b then _ else _)), bool_decide_ext.
    rewrite elem_of_seq. lia.
Qed.

End repair.

Arguments Entry : clear implicits.
Arguments AnalysisOracle : clear implicits.
Arguments ChunkResult : clear implicits.
Arguments SpecFile : clear implicits.
Arguments Repaired : clear implicits.
Arguments RangeRun : clear implicits.

(** * Examples: a master file of five entries *)

Module repair_examples.

Definition spec (name : string) (valueType : ValueType) : SpecType Q :=
  mkSpecType name name [] [] "" HVAC None None None None None None valueType None None None
             false None None.

Definition entry (name : string) (valueType : ValueType) (primaryUnit primaryUnitId : option string)
    (alternateUnits : option (list string)) : Entry Q :=
  mkEntry (spec name valueType) (valueType_name valueType) (Some false) primaryUnit
          primaryUnitId None None alternateUnits None.

Definition pipe : Entry Q := entry "Pipe Size" NUMERIC (Some "in") (Some "u-in") (Some ["mm"]).
Definition refrigerant : Entry Q :=
  entry "Refrigerant Type" NUMERIC (Some "kg") (Some "u-kg") None.
Definition tag : Entry Q := entry "Equipment Tag" SELECT None (Some "u-old") (Some []).
Definition voltage : Entry Q := entry "Voltage" NUMERIC (Some "V") (Some "u-v") None.
Definition flow : Entry Q := entry "Flow" NUMERIC (Some "GPM") (Some "u-gpm") None.

Definition master : SpecFile Q := mkSpecFile (Some [pipe; refrigerant; tag; voltage; flow]) true.

Definition text : ValueTypeAnalysis := mkAnalysis "STRING" "a name" (Some false) false None None.

(** An Oracle that answers by the name of the entry, and fails on the
    voltage. *)
#[export] Instance by_name : AnalysisOracle Q := λ e,
  let name := spec_primaryName (e_read e) in
  if bool_decide (name = "Pipe Size")
  then Returned (mkAnalysis "SELECT" "common sizes" (Some false) true (Some "mm") (Some ["in"]))
  else if bool_decide (name = "Refrigerant Type") then Returned text
  else if bool_decide (name = "Equipment Tag")
  then Returned (mkAnalysis "SELECT" "a tag" (Some false) false None None)
  else if bool_decide (name = "Flow")
  then Returned (mkAnalysis "NUMERIC" "a flow" (Some false) true (Some "GPM") None)
  else Thrown "overloaded".

(** The totals of a run: two fixed, one unchanged, one error, of five
    entries; the tag, whose empty array of alternate units is deleted, is
    counted by none. *)
Example run_totals :
  ∃ r, fixAllValueTypes 2 (Some master) = Returned r ∧
       (totalCount r, totalFixed r, totalSkipped r, totalErrors r) = (5, 2, 1, 1)%nat ∧
       is_touched tag = true.
Proof. eexists. by vm_compute. Qed.

(** The value type written is not one of the schema. *)
Example string_value_type :
  e_valueType (repair refrigerant) = "STRING" ∧ ∀ t, valueType_name t ≠ "STRING".
Proof. split; [by vm_compute|by intros []]. Qed.

(** A primary unit that changes keeps the identifier of the unit it had;
    an entry without a primary unit keeps an identifier it should not
    have. *)
Example stale_unit_id :
  (e_primaryUnit (repair pipe), e_primaryUnitId (repair pipe)) = (Some "mm", Some "u-in") ∧
  (e_primaryUnit (repair tag), e_primaryUnitId (repair tag)) = (None, Some "u-old").
Proof. by vm_compute. Qed.

(** The dry run reports that the tag would not change; the run changes
    it. *)
Example dry_run_misses_units :
  rec_wouldChange <$> recommend tag = Some false ∧ repair tag ≠ tag.
Proof. split; [by vm_compute|]. by intros [=]. Qed.

(** Without [metadata] the run throws after the workers: nothing is
    written. *)
Example no_metadata_no_write :
  fixAllValueTypes 2 (Some (mkSpecFile (file_specTypes master) false)) =
  Thrown "TypeError: Cannot set properties of undefined (setting 'lastUpdated')".
Proof. by vm_compute. Qed.

(** Without a worker one chunk holds every entry. *)
Example no_worker :
  chunkSize 0 (default [] (file_specTypes master)) = 5%nat ∧
  fixAllValueTypes 0 (Some master) = fixAllValueTypes 2 (Some master).
Proof. by vm_compute. Qed.

(** A range of two entries: two writes, and the units are as they were. *)
Example range_writes_twice :
  ∃ st, fixValueTypesRange 0 2 (Some master) = Returned st ∧
        length (range_writes st) = 2%nat ∧ range_fixed st = 2%nat ∧
        e_primaryUnit <$> range_specTypes st !! 1%nat = Some (Some "kg").
Proof. eexists. by vm_compute. Qed.

Lemma not_measurable_no_units_witness :
  let e' := (apply_analysis text refrigerant).1 in
  present (e_primaryUnit e') = false ∧ e_alternateUnits e' = None ∧
  (present (e_primaryUnit refrigerant) = true ->
   e_primaryUnit e' = None ∧ e_primaryUnitId e' = None ∧
   e_primaryUnitGroup e' = None ∧ e_primaryUnitGroupId e' = None) ∧
  e_valueType e' = recommendedValueType text ∧ e_read e' = e_read refrigerant.
Proof. apply (not_measurable_no_units text refrigerant). reflexivity. Defined.

Lemma fixAllValueTypes_spec_witness :
  let l := default [] (file_specTypes master) in
  fixAllValueTypes 2 (Some master) =
  Returned (mkRepaired master (repair <$> l) (length l) (how_many is_fixed l) (how_many is_skipped l)
              (how_many is_error l)).
Proof. apply (fixAllValueTypes_spec 2 master). reflexivity. Defined.

Lemma chunks_bound_witness :
  length (batches (chunkSize 2 (default [] (file_specTypes master)))
            (default [] (file_specTypes master))) ≤ 2.
Proof. apply (chunks_bound 2). lia. Defined.

Lemma fixValueTypesRange_spec_witness :
  let l := default [] (file_specTypes master) in
  ∃ st, fixValueTypesRange 1 3 (Some master) = Returned st ∧
        on_disk l st = range_specTypes st ∧
        ∀ j, range_specTypes st !! j =
             if bool_decide (1 ≤ j < 3 `min` length l)
             then repair_range <$> l !! j else l !! j.
Proof. apply (fixValueTypesRange_spec 1 3 master). reflexivity. Defined.

End repair_examples.
