(* ===== verification/Master.v ===== *)
(** * Master: the master file of spec types

    [loadMasterSpecTypes], [saveSpecTypeToMaster] and [clearMasterFile] of
    [src/dist/utils/fileManager.js].  The file [spec-types-master.json] is
    the [MasterState]: absent, unreadable, or an object; the three
    functions are functions of that state.  The output directory is
    created when it is missing and is not modelled. *)

From stdpp Require Import gmap strings list.
From S2P Require Import Spec2Rocq Schemas.

Section master.
Context {Num : Type}.

Local Abbreviation Spec := (SpecType Num).

(** [spec-types-master.json]: absent, unreadable as JSON, or an object
    whose [specTypes] can be absent. *)
Inductive MasterState : Type :=
| Missing
| Corrupt
| Holding (specTypes : option (list Spec)).

(** Lines 16-30: an absent file and a file that cannot be read hold
    nothing. *)
Definition loadMasterSpecTypes (disk : MasterState) : list Spec :=
  match disk with
  | Missing => []
  | Corrupt => []
  | Holding specTypes => default [] specTypes
  end.

(** Lines 34-47: the file is read again, and written with the spec type
    at its end. *)
Definition saveSpecTypeToMaster (specType : Spec) (disk : MasterState) : MasterState :=
  Holding (Some (loadMasterSpecTypes disk ++ [specType])).

(** Lines 51-64: nothing is created when the file is absent. *)
Definition clearMasterFile (disk : MasterState) : MasterState :=
  match disk with
  | Missing => Missing
  | _ => Holding (Some [])
  end.

(** The master file after the spec types [new] have been saved one by
    one, from [disk]. *)
Definition master_after (disk : MasterState) (new : list Spec) : MasterState :=
  match new with
  | [] => disk
  | _ => Holding (Some (loadMasterSpecTypes disk ++ new))
  end.

(** ** Round trips *)

(** What is saved is read back, after what the file held. *)
Lemma load_save specType disk :
  loadMasterSpecTypes (saveSpecTypeToMaster specType disk) =
  loadMasterSpecTypes disk ++ [specType].
Proof. done. Qed.

Lemma save_master_after disk new specType :
  saveSpecTypeToMaster specType (master_after disk new) = master_after disk (new ++ [specType]).
Proof.
  unfold saveSpecTypeToMaster, master_after. destruct new as [|s new]; [done|].
  change ((s :: new) ++ [specType]) with (s :: (new ++ [specType])).
  cbn [loadMasterSpecTypes default from_option id]. by rewrite <- (assoc_L (++)).
Qed.

Lemma master_after_foldl disk new :
  foldl (λ d s, saveSpecTypeToMaster s d) disk new = master_after disk new.
Proof.
  induction new as [|s new IH] using rev_ind; [done|].
  by rewrite foldl_snoc, IH, save_master_after.
Qed.

Lemma load_master_after disk new :
  loadMasterSpecTypes (master_after disk new) = loadMasterSpecTypes disk ++ new.
Proof. destruct new; [by rewrite app_nil_r|done]. Qed.

(** C26: saving spec types one by one and reading the file gives back what
    the file held and the spec types, in the order they were saved: no
    save loses or reorders an earlier one, whatever state the file was
    in. *)
Theorem save_load_roundtrip disk new :
  loadMasterSpecTypes (foldl (λ d s, saveSpecTypeToMaster s d) disk new) =
  loadMasterSpecTypes disk ++ new.
Proof. by rewrite master_after_foldl, load_master_after. Qed.

(** Clearing leaves a file that holds nothing, and is idempotent. *)
Theorem clear_spec disk :
  loadMasterSpecTypes (clearMasterFile disk) = [] ∧
  clearMasterFile (clearMasterFile disk) = clearMasterFile disk ∧
  (disk = Missing <-> clearMasterFile disk = Missing).
Proof. by destruct disk. Qed.

(** A file that cannot be read is taken for an empty one: the first save
    replaces it, and what it held is lost. *)
Lemma save_corrupt specType : saveSpecTypeToMaster specType Corrupt = Holding (Some [specType]).
Proof. done. Qed.

End master.

Arguments MasterState : clear implicits.
