(* ===== verification/Proposals.v ===== *)
(** * Proposals: the three steps of every generator

    The test generator, the full generator and the global generator
    generate a spec type the same way ([generateSingleSpecType] of
    [src/dist/generators/fullGenerator.js], lines 125-160, and its two
    copies): a proposal is asked of the Oracle, [preValidateProposal]
    accepts or rejects it against the spec types that exist, and the
    details of an accepted proposal are asked of the Oracle again.  A
    rejected name joins the names the next proposal must avoid; there are
    three attempts, and the last one re-throws what it catches.

    This file holds the loop ([proposal_attempts]), the state of a run
    ([Generation]) and the runs as a step relation ([step]) whose
    invariants the three generators share: the master file follows the
    run, the names stay distinct, the identifiers are fresh. *)

From stdpp Require Import gmap strings list.
From S2P Require Import Spec2Rocq JsNumber Schemas Verdict PreValidator Master.

Local Open Scope js_scope.

Section proposals.
Context {Num : Type} {JN : JsNumber Num} {pre : ProposalOracle Num}.

Local Abbreviation Spec := (SpecType Num).

(** ** One spec type *)

(** Lines 129-158 of [fullGenerator.js], the loop with [remaining]
    attempts left, the last included.  [propose] asks for a proposal that
    avoids the names given, [details] for the spec type of a proposal,
    drawing identifiers from [next].  The result is the spec type, or
    [None] when the last proposal was rejected, with the names rejected and
    the counter of identifiers; the last attempt re-throws. *)
Fixpoint proposal_attempts (propose : list string -> outcome SpecTypeProposal)
    (details : SpecTypeProposal -> nat -> outcome (Spec * nat))
    (existingSpecTypes : list Spec) (remaining : nat) (rejectedNames : list string)
    (next : nat) : outcome (option Spec * list string * nat) :=
  match remaining with
  | 0 => Returned (None, rejectedNames, next)
  | S remaining' =>
      let again rejectedNames :=
        proposal_attempts propose details existingSpecTypes remaining' rejectedNames next in
      let attempt :=
        proposal ← propose rejectedNames;
        if isDuplicate (preValidateProposal proposal existingSpecTypes)
        then Returned (inl (rejectedNames ++ [proposal_primaryName proposal]))
        else inr <$> details proposal next in
      match attempt with
      | Returned (inl rejectedNames') =>
          if bool_decide (remaining' = 0) then Returned (None, rejectedNames', next)
          else again rejectedNames'
      | Returned (inr (specType, next')) => Returned (Some specType, rejectedNames, next')
      | Thrown error =>
          if bool_decide (remaining' = 0) then Thrown error else again rejectedNames
      end
  end.

(** Lines 111-118: the options of the answer with fresh identifiers. *)
Definition number_options (uuid : nat -> string) (specTypeId : string) (next : nat)
    (options : list SpecTypeValue) : list SpecTypeValue :=
  imap (λ i opt, mkSpecTypeValue (uuid (next + i)) specTypeId (value_primaryValue opt)
                   (value_alternateNames opt) (value_description opt) (value_domain opt))
       options.

(** Lines 92-120: the spec type built from the answer and the options
    kept.  The identifiers of units are not among its fields. *)
Definition specType_of (uuid : nat -> string) (response : Spec)
    (options : option (list SpecTypeValue)) (next : nat) : Spec * nat :=
  let specTypeId := uuid next in
  (mkSpecType specTypeId (spec_primaryName response) (spec_alternateNames response)
     (spec_notNames response) (spec_description response) (spec_domain response)
     (spec_primaryUnit response) None (spec_primaryUnitGroup response) None
     (spec_alternateUnits response) None (spec_valueType response)
     (number_options uuid specTypeId (S next) <$> options)
     (spec_minValue response) (spec_maxValue response) (spec_allowsArray response)
     (spec_examples response) (spec_industryStandards response),
   S next + length (default [] options)).

(** ** The state of a run *)

(** What a run holds: the spec types generated, the targets skipped, the
    master file, the counter of identifiers, and the error that ended the
    run if one did. *)
Record Generation : Type := mkGeneration {
  newSpecTypes : list Spec;
  skipped : nat;
  master : MasterState Num;
  next_id : nat;
  failure : option string;
}.

(** Lines 198-206, what the loop of a generator does with the result of
    [generateSingleSpecType]: a spec type is saved at once. *)
Definition record_result (g : Generation) (result : outcome (option Spec * list string * nat)) :
    Generation :=
  match result with
  | Returned (Some specType, _, next) =>
      mkGeneration (newSpecTypes g ++ [specType]) (skipped g)
                   (saveSpecTypeToMaster specType (master g)) next None
  | Returned (None, _, next) =>
      mkGeneration (newSpecTypes g) (S (skipped g)) (master g) next None
  | Thrown error =>
      mkGeneration (newSpecTypes g) (skipped g) (master g) (next_id g) (Some error)
  end.

(** A result that is not a throw adds one to the spec types generated or
    to the targets skipped. *)
Lemma record_accounting g result :
  length (newSpecTypes (record_result g result)) + skipped (record_result g result) =
  length (newSpecTypes g) + skipped g +
  match failure (record_result g result) with Some _ => 0 | None => 1 end.
Proof.
  destruct result as [[[[specType|] rejected] next]|error]; cbn;
    rewrite ?length_app; cbn; lia.
Qed.

(** ** What an accepted proposal is *)

Lemma no_exact_match proposal (existingSpecTypes : list Spec) :
  js_find (same_name proposal) existingSpecTypes = None ->
  Forall (λ s, spec_primaryName s ≠ "" ->
               toLowerCase (spec_primaryName s) ≠
               toLowerCase (proposal_primaryName proposal)) existingSpecTypes.
Proof.
  intros Hfind. apply Forall_forall. intros s Hs Hne Heq.
  rewrite js_find_None in Hfind. specialize (Hfind s Hs). unfold same_name in Hfind.
  by rewrite (proj2 (str_truthy_true _) Hne), bool_decide_true in Hfind.
Qed.

Lemma accepted_proposal proposal existingSpecTypes :
  isDuplicate (preValidateProposal proposal existingSpecTypes) = false ->
  proposal_primaryName proposal ≠ "" ∧
  Forall (λ s, spec_primaryName s ≠ "" ->
               toLowerCase (spec_primaryName s) ≠
               toLowerCase (proposal_primaryName proposal)) existingSpecTypes.
Proof.
  unfold preValidateProposal.
  destruct (str_truthy (proposal_primaryName proposal)) eqn:Hname; cbn [negb]; [|done].
  destruct (js_find _ _) eqn:Hfind; [done|]. intros _.
  split; [by apply str_truthy_true|by apply no_exact_match].
Qed.

Lemma specType_of_spec uuid response options next :
  spec_id (specType_of uuid response options next).1 = uuid next ∧
  spec_primaryName (specType_of uuid response options next).1 = spec_primaryName response ∧
  next < (specType_of uuid response options next).2.
Proof. unfold specType_of. cbn. split_and!; [done..|lia]. Qed.

Section loop.
Context (propose : list string -> outcome SpecTypeProposal).
Context (details : SpecTypeProposal -> nat -> outcome (Spec * nat)).
Context (existingSpecTypes : list Spec).

(** A spec type returned is the details of a proposal that was accepted
    against the spec types that exist. *)
Lemma attempts_Some remaining rejectedNames next specType rejectedNames' next' :
  proposal_attempts propose details existingSpecTypes remaining rejectedNames next =
    Returned (Some specType, rejectedNames', next') ->
  ∃ proposal,
    isDuplicate (preValidateProposal proposal existingSpecTypes) = false ∧
    details proposal next = Returned (specType, next').
Proof.
  revert rejectedNames. induction remaining as [|remaining IH]; intros rejectedNames; [done|].
  cbn [proposal_attempts]. cbv zeta. destruct (propose _) as [proposal|error]; cbn.
  - destruct (isDuplicate _) eqn:Hdup.
    + case_bool_decide; [done|apply IH].
    + destruct (details _ _) as [[s n]|error] eqn:Hdetails; cbn.
      * intros [= <- <- <-]. eauto.
      * case_bool_decide; [done|apply IH].
  - case_bool_decide; [done|apply IH].
Qed.

(** A target that is skipped draws no identifier. *)
Lemma attempts_None remaining rejectedNames next rejectedNames' next' :
  proposal_attempts propose details existingSpecTypes remaining rejectedNames next =
    Returned (None, rejectedNames', next') ->
  next' = next.
Proof.
  revert rejectedNames. induction remaining as [|remaining IH]; intros rejectedNames.
  { by intros [= _ <-]. }
  cbn [proposal_attempts]. cbv zeta. destruct (propose _) as [proposal|error]; cbn.
  - destruct (isDuplicate _).
    + case_bool_decide; [by intros [= _ <-]|apply IH].
    + destruct (details _ _) as [[s n]|error]; cbn; [done|].
      case_bool_decide; [done|apply IH].
  - case_bool_decide; [done|apply IH].
Qed.

(** The names rejected only grow, by one name per attempt at most. *)
Lemma attempts_rejected remaining rejectedNames next result rejectedNames' next' :
  proposal_attempts propose details existingSpecTypes remaining rejectedNames next =
    Returned (result, rejectedNames', next') ->
  rejectedNames `prefix_of` rejectedNames' ∧
  length rejectedNames' ≤ length rejectedNames + remaining.
Proof.
  revert rejectedNames. induction remaining as [|remaining IH]; intros rejectedNames.
  { intros [= _ <- _]. split; [done|lia]. }
  assert (Hagain : ∀ l, rejectedNames `prefix_of` l -> length l ≤ S (length rejectedNames) ->
            proposal_attempts propose details existingSpecTypes remaining l next =
              Returned (result, rejectedNames', next') ->
            rejectedNames `prefix_of` rejectedNames' ∧
            length rejectedNames' ≤ length rejectedNames + S remaining).
  { intros l Hpre Hlen [Hpre' Hlen']%IH. split; [by etrans|lia]. }
  cbn [proposal_attempts]. cbv zeta. destruct (propose _) as [proposal|error]; cbn.
  - destruct (isDuplicate _).
    + case_bool_decide.
      * intros [= _ <- _]. split; [by apply prefix_app_r|rewrite length_app; cbn; lia].
      * apply Hagain; [by apply prefix_app_r|rewrite length_app; cbn; lia].
    + destruct (details _ _) as [[s n]|error]; cbn.
      * intros [= _ <- _]. split; [done|lia].
      * case_bool_decide; [done|apply Hagain; [done|lia]].
  - case_bool_decide; [done|apply Hagain; [done|lia]].
Qed.

End loop.

(** ** Runs as a step relation *)

Section runs.
Context {Target : Type}.
Context (details : Target -> SpecTypeProposal -> list Spec -> nat -> outcome (Spec * nat)).
Context (uuid : nat -> string) (disk : MasterState Num) (next0 : nat).

Local Abbreviation existing := (loadMasterSpecTypes disk).

(** What one target does to a run that has not failed: the details of a
    proposal accepted against the spec types that exist and the spec types
    generated are appended and saved; the target is skipped; or the run
    fails. *)
Inductive step : Generation -> Generation -> Prop :=
| step_generated g target proposal specType next :
    failure g = None ->
    isDuplicate (preValidateProposal proposal (existing ++ newSpecTypes g)) = false ->
    details target proposal (existing ++ newSpecTypes g) (next_id g) =
      Returned (specType, next) ->
    step g (mkGeneration (newSpecTypes g ++ [specType]) (skipped g)
              (saveSpecTypeToMaster specType (master g)) next None)
| step_skipped g :
    failure g = None ->
    step g (mkGeneration (newSpecTypes g) (S (skipped g)) (master g) (next_id g) None)
| step_failed g error :
    failure g = None ->
    step g (mkGeneration (newSpecTypes g) (skipped g) (master g) (next_id g) (Some error)).

(** The runs from a master file [disk] and a counter [next0]. *)
Definition reachable (g : Generation) : Prop :=
  rtc step (mkGeneration [] 0 disk next0 None) g.

(** Recording the result of the three steps is a step. *)
Lemma record_step g propose target remaining rejectedNames :
  failure g = None ->
  step g (record_result g (proposal_attempts propose
                      (λ proposal, details target proposal (existing ++ newSpecTypes g))
                      (existing ++ newSpecTypes g) remaining rejectedNames (next_id g))).
Proof.
  intros Hfail. destruct (proposal_attempts _ _ _ _ _ _) as [[[[specType|] rejected] next]|error]
    eqn:Hattempts; cbn [record_result].
  - apply attempts_Some in Hattempts as (proposal & Hacc & Hdetails).
    by eapply step_generated.
  - apply attempts_None in Hattempts as ->. by apply step_skipped.
  - by apply step_failed.
Qed.

Lemma reachable_record g propose target remaining rejectedNames :
  reachable g -> failure g = None ->
  reachable (record_result g (proposal_attempts propose
                         (λ proposal, details target proposal (existing ++ newSpecTypes g))
                         (existing ++ newSpecTypes g) remaining rejectedNames (next_id g))).
Proof. intros Hg Hfail. eapply rtc_r; [exact Hg|by apply record_step]. Qed.

(** An invariant of the steps holds of every run. *)
Lemma reachable_invariant (P : Generation -> Prop) :
  P (mkGeneration [] 0 disk next0 None) ->
  (∀ g g', reachable g -> P g -> step g g' -> P g') ->
  ∀ g, reachable g -> P g.
Proof.
  intros Hinit Hstep. unfold reachable in *. apply rtc_ind_r; [done|].
  intros g g' Hg Hgg' HP. by eapply Hstep.
Qed.

(** *** The master file follows the run *)

Lemma reachable_master g : reachable g -> master g = master_after disk (newSpecTypes g).
Proof.
  revert g. apply reachable_invariant; [done|]. intros g1 g2 _ Hg1 Hstep.
  destruct Hstep; cbn [master newSpecTypes]; [|done..].
  by rewrite Hg1, save_master_after.
Qed.

(** *** Every spec type generated is the details of a proposal *)

Lemma reachable_Forall (P : Spec -> Prop) g :
  (∀ target proposal existing' next specType next',
     details target proposal existing' next = Returned (specType, next') -> P specType) ->
  reachable g -> Forall P (newSpecTypes g).
Proof.
  intros Hdetails. revert g. apply reachable_invariant; [constructor|].
  intros g1 g2 _ Hg1 Hstep.
  destruct Hstep as [g1 target proposal specType next _ _ Hd| |]; cbn [newSpecTypes]; [|done..].
  apply Forall_app. split; [done|]. apply Forall_singleton. by eapply Hdetails.
Qed.

(** *** The names stay distinct *)

(** No two spec types have the same name up to case, and every spec type
    has a name. *)
Definition distinct_names (l : list Spec) : Prop :=
  NoDup (toLowerCase ∘ spec_primaryName <$> l) ∧ Forall (λ s, spec_primaryName s ≠ "") l.

(** The details come under the name that was proposed. *)
Definition keeps_name : Prop :=
  ∀ target proposal existing' next specType next',
    details target proposal existing' next = Returned (specType, next') ->
    spec_primaryName specType = proposal_primaryName proposal.

Lemma distinct_names_snoc l s :
  distinct_names l -> spec_primaryName s ≠ "" ->
  Forall (λ s', spec_primaryName s' ≠ "" ->
                toLowerCase (spec_primaryName s') ≠ toLowerCase (spec_primaryName s)) l ->
  distinct_names (l ++ [s]).
Proof.
  intros [Hnd Hne] Hs Hl. split; [|by apply Forall_app; split; [|apply Forall_singleton]].
  rewrite fmap_app. apply NoDup_app. split_and!; [done| |apply NoDup_singleton].
  intros name (s' & -> & Hs')%list_elem_of_fmap Heq%list_elem_of_singleton.
  rewrite Forall_forall in Hl, Hne. by apply (Hl s' Hs'); [apply Hne|].
Qed.

Lemma reachable_distinct_names g :
  keeps_name -> distinct_names existing -> reachable g ->
  distinct_names (existing ++ newSpecTypes g).
Proof.
  intros Hkeeps Hdisk. revert g. apply reachable_invariant; [by rewrite app_nil_r|].
  intros g1 g2 _ Hg1 Hstep.
  destruct Hstep as [g1 target proposal specType next _ Hacc Hd| |]; cbn [newSpecTypes];
    [|done..].
  apply accepted_proposal in Hacc as [Hname Hothers]. apply Hkeeps in Hd.
  rewrite (assoc_L (++)). apply distinct_names_snoc; [done|..]; by rewrite Hd.
Qed.

(** *** The identifiers are fresh *)

(** The details draw the identifier of the spec type from the supply. *)
Definition draws : Prop :=
  ∀ target proposal existing' next specType next',
    details target proposal existing' next = Returned (specType, next') ->
    spec_id specType = uuid next ∧ next < next'.

(** The identifiers of the spec types generated are drawn in order from
    the supply, from [next0] on. *)
Definition drawn (g : Generation) : Prop :=
  ∃ ks, spec_id <$> newSpecTypes g = uuid <$> ks ∧
        Forall (λ k, next0 ≤ k < next_id g) ks ∧ NoDup ks.

Lemma reachable_drawn g : draws -> reachable g -> drawn g ∧ next0 ≤ next_id g.
Proof.
  intros Hdraws. revert g. apply reachable_invariant.
  { split; [|done]. exists []. split_and!; [done|constructor..]. }
  intros g1 g2 _ [(ks & Hids & Hks & Hnd) Hle] Hstep.
  destruct Hstep as [g1 target proposal specType next _ _ Hd| |];
    [|by split; [exists ks|]..].
  apply Hdraws in Hd as [Hid Hlt]. cbn [newSpecTypes next_id]. split; [|lia].
  exists (ks ++ [next_id g1]). cbn [newSpecTypes next_id]. split_and!.
  - rewrite !fmap_app, Hids. cbn [fmap list_fmap]. by rewrite Hid.
  - apply Forall_app. split; [|apply Forall_singleton; lia].
    eapply Forall_impl; [exact Hks|]. cbn. lia.
  - apply NoDup_app. split_and!; [done| |apply NoDup_singleton].
    intros k Hk ->%list_elem_of_singleton.
    rewrite Forall_forall in Hks. specialize (Hks _ Hk). lia.
Qed.

Lemma reachable_fresh_ids g :
  Inj (=) (=) uuid -> draws -> reachable g -> NoDup (spec_id <$> newSpecTypes g).
Proof.
  intros Hinj Hdraws Hg. destruct (reachable_drawn g Hdraws Hg) as [(ks & -> & _ & Hnd) _].
  by apply (NoDup_fmap_2 uuid).
Qed.

End runs.

End proposals.

Arguments Generation : clear implicits.
