(* ===== verification/Generator.v ===== *)
(** * Generator: the full generator and the test generator

    [generateFullSpecType], [generateSingleSpecType],
    [generateFullSpecTypes] and [determineDomain] of
    [src/dist/generators/fullGenerator.js]; [generateFullSpecType],
    [generateSingleSpecType] and [generateTestSpecTypes] of
    [src/dist/generators/testGenerator.js], whose three steps are the same
    with five fixed targets and no component.

    For every target the generator runs the three steps of [Proposals]
    against the spec types of the master file and the spec types generated
    so far, and saves a spec type to the master file at once ([Master]).
    A run is a left fold over the targets; the state is passed
    explicitly. *)

From Stdlib Require Import QArith.
From stdpp Require Import gmap strings list pretty.
From S2P Require Import Spec2Rocq JsNumber Schemas Verdict PreValidator Master Proposals.

Local Open Scope js_scope.

Section generator.
Context {Num : Type} {JN : JsNumber Num}.

Local Abbreviation Spec := (SpecType Num).

(** ** Targets *)

(** [name.includes(word)]. *)
Definition includes (word name : string) : bool :=
  bool_decide (is_Some (String.index 0 word name)).

(** Lines 226-247 of [fullGenerator.js]. *)
Definition determineDomain (componentName : string) : Domain :=
  let name := toLowerCase componentName in
  if js_some (λ w, includes w name)
       ["chiller"; "boiler"; "hvac"; "air"; "fan"; "cooling"; "heating"; "ventilation"]
  then HVAC
  else if js_some (λ w, includes w name)
            ["electrical"; "panel"; "transformer"; "circuit"; "switch"; "power"]
  then ELECTRICAL
  else if js_some (λ w, includes w name)
            ["plumbing"; "pump"; "pipe"; "water"; "drain"; "fixture"]
  then PLUMBING
  else if js_some (λ w, includes w name) ["fire"; "sprinkler"; "alarm"; "suppression"]
  then FIRE_PROTECTION
  else HVAC.

(** Lines 185-189; the targets of the test generator name no component. *)
Record Target : Type := mkTarget {
  target_componentTypeName : option string;
  target_domain : Domain;
  target_valueType : ValueType;
}.

(** Line 175. *)
Definition valueTypes : list ValueType := [NUMERIC; SELECT; MULTI_SELECT; RANGE; BOOLEAN].

(** Lines 178-191: five targets per component, one per value type. *)
Definition fullTargets (componentTypes : list ComponentType) : list Target :=
  component ← componentTypes;
  (λ valueType, mkTarget (Some (component_name component))
                         (determineDomain (component_name component)) valueType)
    <$> take (5 `min` length valueTypes) valueTypes.

(** Lines 200-206 of [testGenerator.js]. *)
Definition testTargets : list Target :=
  [mkTarget None HVAC NUMERIC; mkTarget None ELECTRICAL SELECT;
   mkTarget None PLUMBING MULTI_SELECT; mkTarget None FIRE_PROTECTION RANGE;
   mkTarget None HVAC BOOLEAN].

(** ** One spec type *)

(** The two requests of the generator.  A proposal is the answer to the
    prompt built from the target, the spec types that exist, the old names
    and the names to avoid; the details are the answer to the prompt built
    from the proposal, read as a spec type whose identifiers are not
    read. *)
Class GeneratorOracle : Type := {
  generateProposal : Target -> list Spec -> list string -> list string ->
                     outcome SpecTypeProposal;
  askDetails : SpecTypeProposal -> Target -> list Spec -> outcome Spec;
}.

Context {oracle : GeneratorOracle} {pre : ProposalOracle Num}.
Context (uuid : nat -> string).

(** Line 110: the options of an answer are kept when there is one at
    least. *)
Definition kept (options : option (list SpecTypeValue)) : option (list SpecTypeValue) :=
  match options with
  | Some (opt :: opts) => Some (opt :: opts)
  | _ => None
  end.

(** Lines 51-121 of [fullGenerator.js]. *)
Definition generateFullSpecType (proposal : SpecTypeProposal) (target : Target)
    (existingSpecTypes : list Spec) (next : nat) : outcome (Spec * nat) :=
  response ← askDetails proposal target existingSpecTypes;
  mret (specType_of uuid response (kept (spec_valueOptions response)) next).

(** Lines 125-160 of [fullGenerator.js]. *)
Definition generateSingleSpecType (target : Target) (existingSpecTypes : list Spec)
    (oldSpecTypeNames : list string) (next : nat) :
    outcome (option Spec * list string * nat) :=
  proposal_attempts (generateProposal target existingSpecTypes oldSpecTypeNames)
           (λ proposal, generateFullSpecType proposal target existingSpecTypes)
           existingSpecTypes 3 [] next.

(** Lines 43-136 of [testGenerator.js]: no component is named. *)
Definition testFullSpecType (proposal : SpecTypeProposal) (targetValueType : ValueType)
    (targetDomain : Domain) (existingSpecTypes : list Spec) (next : nat) :
    outcome (Spec * nat) :=
  generateFullSpecType proposal (mkTarget None targetDomain targetValueType)
                       existingSpecTypes next.

(** Lines 140-192 of [testGenerator.js]: no component and no old names. *)
Definition testSingleSpecType (existingSpecTypes : list Spec) (targetDomain : Domain)
    (targetValueType : ValueType) (next : nat) : outcome (option Spec * list string * nat) :=
  proposal_attempts (generateProposal (mkTarget None targetDomain targetValueType) existingSpecTypes [])
           (λ proposal, testFullSpecType proposal targetValueType targetDomain
                          existingSpecTypes)
           existingSpecTypes 3 [] next.

(** ** The run *)

(** Lines 196-216 of [fullGenerator.js], the body of the loop; nothing
    runs after a throw. *)
Definition generate_target (existing : list Spec) (oldSpecTypeNames : list string)
    (g : Generation Num) (target : Target) : Generation Num :=
  match failure g with
  | Some _ => g
  | None =>
      record_result g (generateSingleSpecType target (existing ++ newSpecTypes g) oldSpecTypeNames
                  (next_id g))
  end.

(** The loop of a generator over its targets. *)
Definition generate_all (targets : list Target) (oldSpecTypeNames : list string)
    (disk : MasterState Num) (next : nat) : Generation Num :=
  foldl (generate_target (loadMasterSpecTypes disk) oldSpecTypeNames)
        (mkGeneration [] 0 disk next None) targets.

(** Lines 164-222 of [fullGenerator.js]. *)
Definition generateFullSpecTypes (componentTypes : list ComponentType)
    (oldSpecTypeNames : list string) (disk : MasterState Num) (next : nat) :
    Generation Num :=
  generate_all (fullTargets componentTypes) oldSpecTypeNames disk next.

(** Lines 209-224 of [testGenerator.js], the body of the loop. *)
Definition test_target (existing : list Spec) (g : Generation Num) (target : Target) :
    Generation Num :=
  match failure g with
  | Some _ => g
  | None =>
      record_result g (testSingleSpecType (existing ++ newSpecTypes g) (target_domain target)
                  (target_valueType target) (next_id g))
  end.

(** Lines 196-230 of [testGenerator.js]. *)
Definition generateTestSpecTypes (disk : MasterState Num) (next : nat) : Generation Num :=
  foldl (test_target (loadMasterSpecTypes disk)) (mkGeneration [] 0 disk next None)
        testTargets.

(** ** The runs of the generators are runs of the step relation *)

(** The details of a proposal, as the step relation takes them. *)
Definition details (target : Target) (proposal : SpecTypeProposal) (existing : list Spec)
    (next : nat) : outcome (Spec * nat) :=
  generateFullSpecType proposal target existing next.

Lemma generate_target_reachable disk next oldSpecTypeNames g target :
  reachable details disk next g ->
  reachable details disk next (generate_target (loadMasterSpecTypes disk) oldSpecTypeNames g target).
Proof.
  intros Hg. unfold generate_target. destruct (failure g) eqn:Hfail; [done|].
  by apply (reachable_record details disk next g _ target).
Qed.

Lemma generate_reachable targets oldSpecTypeNames disk next :
  reachable details disk next (generate_all targets oldSpecTypeNames disk next).
Proof.
  unfold generate_all. apply foldl_preserves; [apply rtc_refl|]. intros g target _.
  apply generate_target_reachable.
Qed.

(** The test generator is the generator on its five targets, without old
    names. *)
Lemma test_target_generate existing g target :
  target_componentTypeName target = None ->
  test_target existing g target = generate_target existing [] g target.
Proof. destruct target as [component domain valueType]. by intros [= ->]. Qed.

Lemma generateTestSpecTypes_generate disk next :
  generateTestSpecTypes disk next = generate_all testTargets [] disk next.
Proof.
  unfold generateTestSpecTypes, generate_all, testTargets. cbn [foldl].
  by rewrite !test_target_generate.
Qed.

Lemma details_draws : draws details uuid.
Proof.
  intros target proposal existing next specType next'. unfold details, generateFullSpecType.
  destruct (askDetails _ _ _) as [response|]; [|done]. cbn. intros [= <- <-].
  by destruct (specType_of_spec uuid response (kept (spec_valueOptions response)) next)
    as (? & _ & ?).
Qed.

(** The options of a spec type name it and have the identifiers that
    follow its own. *)
Definition options_wf (specType : Spec) : Prop :=
  ∀ options, spec_valueOptions specType = Some options ->
    options ≠ [] ∧
    ∃ k, spec_id specType = uuid k ∧
         Forall (λ opt, value_specTypeId opt = spec_id specType) options ∧
         value_id <$> options = uuid <$> seq (S k) (length options).

Lemma number_options_spec specTypeId next options :
  Forall (λ opt, value_specTypeId opt = specTypeId)
         (number_options uuid specTypeId next options) ∧
  value_id <$> number_options uuid specTypeId next options =
    uuid <$> seq next (length options).
Proof.
  unfold number_options. revert next.
  induction options as [|opt options IH]; intros next; [by split; [constructor|]|].
  cbn [imap fmap list_fmap length seq]. rewrite Nat.add_0_r.
  destruct (IH (S next)) as [Hall Hids]. split.
  - constructor; [done|]. erewrite imap_ext; [exact Hall|].
    intros i opt' _. cbn. by rewrite Nat.add_succ_r.
  - f_equal. erewrite imap_ext; [exact Hids|]. intros i opt' _. cbn. by rewrite Nat.add_succ_r.
Qed.

Lemma details_options_wf target proposal existing next specType next' :
  details target proposal existing next = Returned (specType, next') -> options_wf specType.
Proof.
  unfold details, generateFullSpecType.
  destruct (askDetails _ _ _) as [response|]; [|done]. intros [= <- _] options.
  change (spec_valueOptions (specType_of uuid response (kept (spec_valueOptions response))
                               next).1)
    with (number_options uuid (uuid next) (S next) <$> kept (spec_valueOptions response)).
  destruct (spec_valueOptions response) as [[|opt opts]|]; [done| |done].
  intros [= <-]. split; [done|]. exists next.
  destruct (number_options_spec (uuid next) (S next) (opt :: opts)) as [Hall Hids].
  split_and!; [done..|]. unfold number_options at 2. by rewrite Hids, length_imap.
Qed.

(** ** What a run guarantees *)

(** C18: at every point of a run, failed or not, the master file holds
    the spec types it held when the run started followed by the spec types
    generated so far, in order; a run that generates nothing leaves the
    file as it was. *)
Theorem generate_master targets oldSpecTypeNames disk next :
  master (generate_all targets oldSpecTypeNames disk next) =
    master_after disk (newSpecTypes (generate_all targets oldSpecTypeNames disk next)) ∧
  loadMasterSpecTypes (master (generate_all targets oldSpecTypeNames disk next)) =
    loadMasterSpecTypes disk ++ newSpecTypes (generate_all targets oldSpecTypeNames disk next).
Proof.
  rewrite (reachable_master details disk next) by apply generate_reachable.
  by rewrite load_master_after.
Qed.

(** C36: every target is generated or skipped: when the run does not
    fail, the spec types generated and the targets skipped add up to the
    targets, and they never exceed them. *)
Theorem generate_accounting targets oldSpecTypeNames disk next :
  length (newSpecTypes (generate_all targets oldSpecTypeNames disk next)) +
    skipped (generate_all targets oldSpecTypeNames disk next) ≤ length targets ∧
  (failure (generate_all targets oldSpecTypeNames disk next) = None ->
   length (newSpecTypes (generate_all targets oldSpecTypeNames disk next)) +
     skipped (generate_all targets oldSpecTypeNames disk next) = length targets).
Proof.
  unfold generate_all. induction targets as [|target targets IH] using rev_ind; [done|].
  rewrite foldl_snoc, length_app. cbn [length].
  revert IH. generalize (foldl (generate_target (loadMasterSpecTypes disk) oldSpecTypeNames)
                               (mkGeneration [] 0 disk next None) targets).
  intros g [Hle Heq]. unfold generate_target.
  destruct (failure g) eqn:Hfail; [by rewrite Hfail; split; [lia|]|].
  rewrite record_accounting. specialize (Heq eq_refl).
  destruct (failure (record_result _ _)); split; try done; lia.
Qed.

(** C13: when the Oracle gives the details of a proposal under the name
    proposed, a run keeps the names distinct up to case: if the spec types
    of the master file have distinct names, so have they together with the
    spec types generated. *)
Theorem generate_distinct_names targets oldSpecTypeNames disk next :
  keeps_name details ->
  distinct_names (loadMasterSpecTypes disk) ->
  distinct_names (loadMasterSpecTypes disk ++
                  newSpecTypes (generate_all targets oldSpecTypeNames disk next)).
Proof.
  intros Hkeeps Hdisk.
  by apply (reachable_distinct_names details disk next), generate_reachable.
Qed.

(** C28: when the supply of identifiers does not repeat itself, the spec
    types a run generates have identifiers that differ from one another. *)
Theorem generate_fresh_ids targets oldSpecTypeNames disk next :
  Inj (=) (=) uuid ->
  NoDup (spec_id <$> newSpecTypes (generate_all targets oldSpecTypeNames disk next)).
Proof.
  intros Hinj. apply (reachable_fresh_ids details uuid disk next); [done|..].
  - apply details_draws.
  - apply generate_reachable.
Qed.

(** C29: every spec type a run generates is well formed: its options, if
    it has any, are not empty, name the spec type, and have the
    identifiers drawn after its own. *)
Theorem generate_options_wf targets oldSpecTypeNames disk next :
  Forall options_wf (newSpecTypes (generate_all targets oldSpecTypeNames disk next)).
Proof.
  apply (reachable_Forall details disk next); [|apply generate_reachable].
  intros target proposal existing n specType n'. apply details_options_wf.
Qed.

(** Five targets per component, in the order of the value types. *)
Lemma fullTargets_spec componentTypes :
  length (fullTargets componentTypes) = 5 * length componentTypes ∧
  target_valueType <$> fullTargets componentTypes = (componentTypes ≫= λ _, valueTypes).
Proof.
  unfold fullTargets. induction componentTypes as [|c cs [IHlen IHtypes]]; [done|].
  rewrite !bind_cons, length_app, fmap_app, IHlen, IHtypes. cbn. split; [lia|done].
Qed.

End generator.

Arguments GeneratorOracle : clear implicits.

(** * Examples: a master file of one spec type *)

Module generator_examples.

Definition named (id name : string) (options : option (list SpecTypeValue)) : SpecType Q :=
  mkSpecType id name [] [] "" HVAC None None None None None None NUMERIC options None None
             false None None.

Definition cooling : SpecType Q := named "s-0" "Cooling Capacity" None.

Definition disk0 : MasterState Q := Holding (Some [cooling]).

Definition uuid (n : nat) : string := "g-" +:+ pretty n.

#[export] Instance uuid_inj : Inj (=) (=) uuid.
Proof. intros n m H. apply (inj pretty). unfold uuid in H. by simplify_eq /=. Qed.

(** The pre-validation cannot reach its Oracle: a name is rejected only
    when a spec type has it. *)
#[export] Instance timeout : ProposalOracle Q := λ _ _, Thrown "timeout".

Definition choice (value : string) : SpecTypeValue := mkSpecTypeValue "" "" value [] "" None.

(** The first proposal for a numeric spec type is a name that exists, in
    capitals, and the second a new one; every proposal for a selection is
    the name that exists; the request for a multiple selection fails.  The
    details come under the name proposed, with two options. *)
Definition propose (target : Target) (avoid : list string) : outcome SpecTypeProposal :=
  match target_valueType target with
  | NUMERIC =>
      Returned (mkProposal (if bool_decide (avoid = []) then "COOLING CAPACITY"
                            else "Heating Capacity") "" "HVAC")
  | SELECT => Returned (mkProposal "Cooling Capacity" "" "HVAC")
  | MULTI_SELECT => Thrown "overloaded"
  | _ => Returned (mkProposal "Static Pressure" "" "HVAC")
  end.

#[export] Instance faithful : GeneratorOracle Q := {|
  generateProposal target _ _ avoid := propose target avoid;
  askDetails proposal _ _ :=
    Returned (named "" (proposal_primaryName proposal) (Some [choice "low"; choice "high"]));
|}.

(** An Oracle that gives the details under another name. *)
Definition renaming : GeneratorOracle Q := {|
  generateProposal target _ _ avoid := propose target avoid;
  askDetails proposal _ _ := Returned (named "" "Cooling Capacity" (Some []));
|}.

Definition numeric : Target := mkTarget None HVAC NUMERIC.

(** The second proposal is accepted; the spec type and its options draw
    three identifiers, and the identifiers of units are absent. *)
Example second_proposal_accepted :
  generateSingleSpecType uuid numeric [cooling] [] 5 =
  Returned (Some (named "g-5" "Heating Capacity"
                    (Some [mkSpecTypeValue "g-6" "g-5" "low" [] "" None;
                           mkSpecTypeValue "g-7" "g-5" "high" [] "" None])),
            ["COOLING CAPACITY"], 8%nat).
Proof. by vm_compute. Qed.

(** Three rejections skip the target; three failures end the run. *)
Example rejected_and_failed :
  generateSingleSpecType uuid (mkTarget None ELECTRICAL SELECT) [cooling] [] 5 =
    Returned (None, ["Cooling Capacity"; "Cooling Capacity"; "Cooling Capacity"], 5%nat) ∧
  generateSingleSpecType uuid (mkTarget None PLUMBING MULTI_SELECT) [cooling] [] 5 =
    Thrown "overloaded".
Proof. by vm_compute. Qed.

(** The test run: one spec type generated and saved, one target skipped,
    and the third target ends the run; the last two targets are never
    tried. *)
Example test_run :
  let g := generateTestSpecTypes uuid disk0 0 in
  (spec_primaryName <$> newSpecTypes g, skipped g, failure g) =
    (["Heating Capacity"], 1%nat, Some "overloaded") ∧
  spec_primaryName <$> loadMasterSpecTypes (master g) =
    ["Cooling Capacity"; "Heating Capacity"].
Proof. by vm_compute. Qed.

(** The details under another name: the master file ends with two spec
    types of the same name, though the proposal was accepted; an empty
    array of options is dropped. *)
Example renamed_duplicate :
  (λ s, (spec_primaryName s, spec_valueOptions s)) <$>
    loadMasterSpecTypes (master (generate_all (oracle:=renaming) uuid [numeric] [] disk0 0)) =
  [("Cooling Capacity", None); ("Cooling Capacity", None)].
Proof. by vm_compute. Qed.

(** A master file that cannot be read is replaced by the first save. *)
Example corrupt_file_replaced :
  spec_primaryName <$>
    loadMasterSpecTypes (master (generate_all uuid [numeric] [] Corrupt 0)) =
  ["COOLING CAPACITY"].
Proof. by vm_compute. Qed.

(** The domain of a component is the first list one of whose words its
    name contains: a chair is an air device and a fire pump is plumbing. *)
Example domains :
  determineDomain <$> ["Air Handling Unit"; "Chair"; "Fire Pump"; "Sprinkler Head";
                       "Panelboard"; "Cable Tray"] =
  [HVAC; HVAC; PLUMBING; FIRE_PROTECTION; ELECTRICAL; HVAC].
Proof. by vm_compute. Qed.

Example targets_of_components :
  fullTargets [mkComponentType "c1" "Fire Pump" "" "c0" ""] =
  mkTarget (Some "Fire Pump") PLUMBING <$> [NUMERIC; SELECT; MULTI_SELECT; RANGE; BOOLEAN].
Proof. by vm_compute. Qed.

Lemma faithful_keeps_name : keeps_name (details (oracle:=faithful) uuid).
Proof. by intros target proposal existing next specType next' [= <- _]. Qed.

Lemma generate_distinct_names_witness :
  distinct_names (loadMasterSpecTypes disk0 ++
                  newSpecTypes (generate_all uuid testTargets [] disk0 0)).
Proof.
  apply (generate_distinct_names uuid testTargets [] disk0 0 faithful_keeps_name).
  split; [apply NoDup_singleton|by apply Forall_singleton].
Defined.

Lemma generate_fresh_ids_witness :
  NoDup (spec_id <$> newSpecTypes (generate_all uuid testTargets [] disk0 0)).
Proof. apply (generate_fresh_ids uuid testTargets [] disk0 0 uuid_inj). Defined.

End generator_examples.
