(* ===== verification/Global.v ===== *)
(** * Global: the generator of the global library

    [cleanupMalformedResponse], [generateFullSpecType]
    ([globalFullSpecType]), [generateSingleSpecType]
    ([globalSingleSpecType]) and [generateGlobalSpecTypes] of
    [generators/globalSpecTypeGenerator.js] (carried in
    [src/unnamed/part_004]), which the full mode of the program runs.

    For every category of every domain the generator keeps generating spec
    types, one value type after the other, until ten targets in a row were
    skipped or the category has a hundred spec types.  The names rejected
    are kept for the whole category.  The details of a proposal are checked
    before a spec type is built, and an answer that cannot be used is sent
    back to the Oracle to be repaired.

    The loop of a category is not structural: [category_loop] takes fuel,
    and [category_fuel] is enough for it to end by itself
    ([category_loop_ends]). *)

From Stdlib Require Import QArith.
From stdpp Require Import gmap strings list pretty.
From S2P Require Import Spec2Rocq JsNumber Schemas Verdict PreValidator Master Proposals.

Local Open Scope js_scope.

Section global.
Context {Num : Type} {JN : JsNumber Num}.

Local Abbreviation Spec := (SpecType Num).

(** What a spec type is generated for: lines 305-310. *)
Record Aim : Type := mkAim {
  aim_domain : Domain;
  aim_category : string;
  aim_valueType : ValueType;
}.

(** The requests of the generator.  An answer is read as a spec type whose
    identifiers are not read; a field that is missing is empty.
    [askDetails] is the request of line 122, [askAgain] the request of line
    127 with the parse of line 130 ([None] when the text is not JSON), and
    [cleanup] the request of [cleanupMalformedResponse], lines 56-90. *)
Class GlobalOracle : Type := {
  generateProposal : Aim -> list Spec -> list string -> list string ->
                     outcome SpecTypeProposal;
  askDetails : SpecTypeProposal -> Aim -> outcome Spec;
  askAgain : SpecTypeProposal -> Aim -> outcome (option Spec);
  cleanupMalformedResponse : Spec -> outcome Spec;
}.

Context {oracle : GlobalOracle} {pre : ProposalOracle Num}.
Context (uuid : nat -> string).

(** Lines 120-136: the answer, or the answer asked again and repaired;
    with the number of repairs. *)
Definition first_response (proposal : SpecTypeProposal) (aim : Aim) : outcome (Spec * nat) :=
  match askDetails proposal aim with
  | Returned response => Returned (response, 0)
  | Thrown _ =>
      parsed ← askAgain proposal aim;
      match parsed with
      | None => Thrown "Failed to parse response even after cleanup attempt"
      | Some parsed => response ← cleanupMalformedResponse parsed; mret (response, 1)
      end
  end.

(** Lines 138-144: an answer without a name is repaired, once. *)
Definition named_response (r : Spec * nat) : outcome (Spec * nat) :=
  if negb (str_truthy (spec_primaryName r.1)) then
    response ← cleanupMalformedResponse r.1;
    if negb (str_truthy (spec_primaryName response))
    then Thrown "Still missing primaryName after cleanup"
    else mret (response, S r.2)
  else mret r.

(** Lines 145-153. *)
Definition checked_response (response : Spec) : outcome Spec :=
  if bool_decide (length (spec_alternateNames response) < 3)
  then Thrown "Invalid response - insufficient alternateNames"
  else if bool_decide (length (spec_notNames response) < 2)
  then Thrown "Invalid response - insufficient notNames"
  else if negb (str_truthy (spec_description response))
  then Thrown "Invalid response - missing description"
  else mret response.

(** Lines 120-153: the answer a spec type is built from, with the number
    of repairs it took. *)
Definition usable_response (proposal : SpecTypeProposal) (aim : Aim) : outcome (Spec * nat) :=
  r ← first_response proposal aim;
  r ← named_response r;
  response ← checked_response r.1;
  mret (response, r.2).

(** Lines 94-183.  Every array of options is kept, the empty one too. *)
Definition globalFullSpecType (proposal : SpecTypeProposal) (aim : Aim) (next : nat) :
    outcome (Spec * nat) :=
  r ← usable_response proposal aim;
  mret (specType_of uuid r.1 (spec_valueOptions r.1) next).

(** Lines 187-219.  The names rejected are those of the category, and
    the names this target rejects are added to them. *)
Definition globalSingleSpecType (aim : Aim) (existingSpecTypes : list Spec)
    (oldSpecTypeNames categoryRejectedNames : list string) (next : nat) :
    outcome (option Spec * list string * nat) :=
  proposal_attempts (generateProposal aim existingSpecTypes oldSpecTypeNames)
           (λ proposal, globalFullSpecType proposal aim)
           existingSpecTypes 3 categoryRejectedNames next.

(** Lines 231-280, in the order of [Object.entries]. *)
Definition categories : list (Domain * list string) :=
  [(HVAC, ["Cooling Capacity & Performance"; "Heating Capacity & Performance";
           "Airflow & Ventilation"; "Temperature Control"; "Humidity Control";
           "Refrigerants & Fluids"; "Energy Efficiency"; "Controls & Automation";
           "Ductwork & Distribution"; "Filters & Air Quality"]);
   (ELECTRICAL, ["Power & Capacity"; "Voltage & Current"; "Protection & Safety";
                 "Distribution & Panels"; "Circuits & Breakers"; "Grounding & Bonding";
                 "Lighting"; "Controls & Automation"; "Emergency Power";
                 "Energy Metering"]);
   (PLUMBING, ["Flow Rates"; "Pressure & Head"; "Pipe Materials & Sizing";
               "Fixtures & Fittings"; "Water Quality"; "Drainage & Venting";
               "Pumps & Equipment"; "Controls & Valves"; "Insulation";
               "Water Treatment"]);
   (FIRE_PROTECTION, ["Suppression Systems"; "Detection & Alarms"; "Sprinkler Systems";
                      "Flow & Pressure"; "Coverage & Spacing"; "Agent Types";
                      "Controls & Monitoring"; "Standpipes & Hose"; "Emergency Response";
                      "Testing & Inspection"])].

(** Line 281. *)
Definition globalValueTypes : list ValueType := [NUMERIC; SELECT; MULTI_SELECT; RANGE; BOOLEAN].

(** Lines 283-284. *)
Definition EXHAUSTION_THRESHOLD : nat := 10.
Definition MAX_PER_CATEGORY : nat := 100.

(** Lines 299-302, the variables of a category, with the run. *)
Record Category : Type := mkCategory {
  categoryCount : nat;
  consecutiveDuplicates : nat;
  valueTypeIndex : nat;
  categoryRejectedNames : list string;
  run : Generation Num;
}.

(** Line 304, the condition of the loop; a throw leaves the loop. *)
Definition generating (c : Category) : bool :=
  bool_decide (failure (run c) = None) &&
  bool_decide (consecutiveDuplicates c < EXHAUSTION_THRESHOLD) &&
  bool_decide (categoryCount c < MAX_PER_CATEGORY).

(** Lines 305-322, the body of the loop. *)
Definition category_step (existing : list Spec) (oldSpecTypeNames : list string)
    (domain : Domain) (category : string) (c : Category) : Category :=
  let valueType :=
    default NUMERIC (globalValueTypes !! (valueTypeIndex c `mod` length globalValueTypes)) in
  let allExisting := existing ++ newSpecTypes (run c) in
  let result :=
    globalSingleSpecType (mkAim domain category valueType) allExisting oldSpecTypeNames
      (categoryRejectedNames c) (next_id (run c)) in
  match result with
  | Returned (Some _, rejectedNames, _) =>
      mkCategory (S (categoryCount c)) 0 (S (valueTypeIndex c)) rejectedNames
                 (record_result (run c) result)
  | Returned (None, rejectedNames, _) =>
      mkCategory (categoryCount c) (S (consecutiveDuplicates c)) (S (valueTypeIndex c))
                 rejectedNames (record_result (run c) result)
  | Thrown _ =>
      mkCategory (categoryCount c) (consecutiveDuplicates c) (valueTypeIndex c)
                 (categoryRejectedNames c) (record_result (run c) result)
  end.

(** Lines 304-329, the loop, [fuel] iterations at most. *)
Fixpoint category_loop (fuel : nat) (existing : list Spec) (oldSpecTypeNames : list string)
    (domain : Domain) (category : string) (c : Category) : Category :=
  match fuel with
  | 0 => c
  | S fuel' =>
      if generating c
      then category_loop fuel' existing oldSpecTypeNames domain category
             (category_step existing oldSpecTypeNames domain category c)
      else c
  end.

(** Enough iterations for a category: every iteration adds a spec type,
    of a hundred at most, or a skipped target, of ten in a row at most. *)
Definition category_fuel : nat :=
  MAX_PER_CATEGORY * EXHAUSTION_THRESHOLD + EXHAUSTION_THRESHOLD.

(** Lines 297-336, one category from the run so far. *)
Definition generate_category (existing : list Spec) (oldSpecTypeNames : list string)
    (domain : Domain) (g : Generation Num) (category : string) : Generation Num :=
  run (category_loop category_fuel existing oldSpecTypeNames domain category
         (mkCategory 0 0 0 [] g)).

(** Lines 223-344. *)
Definition generateGlobalSpecTypes (oldSpecTypeNames : list string) (disk : MasterState Num)
    (next : nat) : Generation Num :=
  foldl (λ g entry,
           foldl (generate_category (loadMasterSpecTypes disk) oldSpecTypeNames entry.1)
                 g entry.2)
        (mkGeneration [] 0 disk next None) categories.

(** ** The loop of a category ends *)

Section category.
Context (existing : list Spec) (oldSpecTypeNames : list string).
Context (domain : Domain) (category : string).

Local Abbreviation iterate := (category_step existing oldSpecTypeNames domain category).
Local Abbreviation loop :=
  (λ fuel, category_loop fuel existing oldSpecTypeNames domain category).

(** What is left of a category: the spec types it may still get, ten
    skipped targets each, and the targets that may still be skipped in a
    row. *)
Definition budget (c : Category) : nat :=
  (MAX_PER_CATEGORY - categoryCount c) * EXHAUSTION_THRESHOLD +
  (EXHAUSTION_THRESHOLD - consecutiveDuplicates c).

Lemma generating_true c :
  generating c = true <->
  failure (run c) = None ∧ consecutiveDuplicates c < EXHAUSTION_THRESHOLD ∧
  categoryCount c < MAX_PER_CATEGORY.
Proof. unfold generating. rewrite !andb_true_iff, !bool_decide_eq_true. tauto. Qed.

(** An iteration fails or uses some of the budget; it adds one spec type
    at most, and the count of the category and the spec types of the run
    grow together. *)
Lemma category_step_spec c :
  generating c = true ->
  (failure (run (iterate c)) ≠ None ∨ budget (iterate c) < budget c) ∧
  categoryCount (iterate c) ≤ MAX_PER_CATEGORY ∧
  length (newSpecTypes (run (iterate c))) + categoryCount c =
    length (newSpecTypes (run c)) + categoryCount (iterate c).
Proof.
  intros (Hfail & Hdup & Hcount)%generating_true. unfold category_step, budget in *.
  unfold EXHAUSTION_THRESHOLD, MAX_PER_CATEGORY in *. cbv zeta.
  destruct (globalSingleSpecType _ _ _ _ _) as [[[[specType|] rejected] next]|error];
    cbn; rewrite ?length_app; cbn; split_and!; try lia; (by left) || (right; lia).
Qed.

Lemma category_loop_idle fuel c : generating c = false -> loop fuel c = c.
Proof. intros Hc. destruct fuel; [done|]. cbn. by rewrite Hc. Qed.

Lemma budget_zero c : budget c = 0 -> generating c = false.
Proof.
  unfold budget, generating, EXHAUSTION_THRESHOLD, MAX_PER_CATEGORY. intros Hzero.
  rewrite !andb_false_iff, !bool_decide_eq_false. lia.
Qed.

(** With fuel for the budget the loop ends by itself: its condition is
    false when it stops, and more fuel changes nothing. *)
Lemma category_loop_budget fuel c :
  budget c ≤ fuel ->
  generating (loop fuel c) = false ∧ ∀ fuel', budget c ≤ fuel' -> loop fuel' c = loop fuel c.
Proof.
  revert c. induction fuel as [|fuel IH]; intros c Hfuel.
  { assert (generating c = false) as Hc by (apply budget_zero; lia).
    split; [done|]. intros fuel' _. by apply category_loop_idle. }
  destruct (generating c) eqn:Hc; [|by rewrite !category_loop_idle;
    [split; [|intros; rewrite category_loop_idle]|..]].
  destruct (category_step_spec c Hc) as ([Hfailed|Hless] & _).
  - assert (generating (iterate c) = false) as Hidle.
    { unfold generating. by rewrite bool_decide_false. }
    cbn [category_loop]. rewrite Hc, category_loop_idle by done. split; [done|].
    intros [|fuel'] Hfuel'; [by rewrite budget_zero in Hc by lia|].
    cbn [category_loop]. by rewrite Hc, category_loop_idle.
  - cbn [category_loop]. rewrite Hc. destruct (IH (iterate c)) as [Hends Hsame]; [lia|].
    split; [done|]. intros [|fuel'] Hfuel'; [lia|].
    cbn [category_loop]. rewrite Hc. apply Hsame. lia.
Qed.

End category.

(** C22: the loop of a category ends by itself: with [category_fuel]
    iterations it stops because its condition is false, not because the
    fuel is spent, and any larger number of iterations gives the same
    run. *)
Theorem category_loop_ends existing oldSpecTypeNames domain category g fuel :
  category_fuel ≤ fuel ->
  generating (category_loop category_fuel existing oldSpecTypeNames domain category
                (mkCategory 0 0 0 [] g)) = false ∧
  category_loop fuel existing oldSpecTypeNames domain category (mkCategory 0 0 0 [] g) =
  category_loop category_fuel existing oldSpecTypeNames domain category
    (mkCategory 0 0 0 [] g).
Proof.
  intros Hfuel.
  destruct (category_loop_budget existing oldSpecTypeNames domain category category_fuel
              (mkCategory 0 0 0 [] g)) as [Hends Hsame]; [done|].
  split; [done|]. by apply Hsame.
Qed.

(** ** The answers a spec type is built from *)

(** What the checks of lines 138-153 let through. *)
Definition usable (specType : Spec) : Prop :=
  spec_primaryName specType ≠ "" ∧ 3 ≤ length (spec_alternateNames specType) ∧
  2 ≤ length (spec_notNames specType) ∧ spec_description specType ≠ "".

Lemma first_response_repairs proposal aim r :
  first_response proposal aim = Returned r -> r.2 ≤ 1.
Proof.
  unfold first_response. destruct (askDetails _ _); [by intros [= <-]; cbn; lia|].
  destruct (askAgain _ _) as [[parsed|]|]; cbn; [|done..].
  destruct (cleanupMalformedResponse _); cbn; [|done]. intros [= <-]. cbn. lia.
Qed.

Lemma named_response_spec r r' :
  named_response r = Returned r' -> spec_primaryName r'.1 ≠ "" ∧ r'.2 ≤ S r.2.
Proof.
  unfold named_response. destruct (str_truthy (spec_primaryName r.1)) eqn:Hname; cbn [negb].
  - intros [= <-]. split; [by apply str_truthy_true|lia].
  - destruct (cleanupMalformedResponse _) as [response|]; cbn; [|done].
    destruct (str_truthy (spec_primaryName response)) eqn:Hname'; cbn [negb]; [|done].
    intros [= <-]. split; [by apply str_truthy_true|done].
Qed.

Lemma checked_response_spec response response' :
  checked_response response = Returned response' ->
  response' = response ∧ 3 ≤ length (spec_alternateNames response) ∧
  2 ≤ length (spec_notNames response) ∧ spec_description response ≠ "".
Proof.
  unfold checked_response. repeat case_bool_decide; try done.
  destruct (str_truthy (spec_description response)) eqn:Hd; cbn [negb]; [|done].
  intros [= <-]. split_and!; [done|lia..|by apply str_truthy_true].
Qed.

(** An answer that is used passed the checks, and took two repairs at
    most: one when it could not be parsed, one when it had no name. *)
Lemma usable_response_spec proposal aim response repairs :
  usable_response proposal aim = Returned (response, repairs) ->
  usable response ∧ repairs ≤ 2.
Proof.
  unfold usable_response.
  destruct (first_response _ _) as [r|] eqn:Hfirst; cbn; [|done].
  destruct (named_response r) as [r'|] eqn:Hnamed; cbn; [|done].
  destruct (checked_response _) as [response'|] eqn:Hchecked; cbn; [|done].
  intros [= <- <-]. apply first_response_repairs in Hfirst.
  apply named_response_spec in Hnamed as [Hname Hrepairs].
  apply checked_response_spec in Hchecked as (-> & ? & ? & ?).
  split; [done|lia].
Qed.

(** ** The runs of the generator are runs of the step relation *)

(** The details of a proposal, as the step relation takes them. *)
Definition details (aim : Aim) (proposal : SpecTypeProposal) (existing : list Spec)
    (next : nat) : outcome (Spec * nat) :=
  globalFullSpecType proposal aim next.

Lemma details_spec aim proposal existing next specType next' :
  details aim proposal existing next = Returned (specType, next') ->
  usable specType ∧ spec_id specType = uuid next ∧ next < next'.
Proof.
  unfold details, globalFullSpecType.
  destruct (usable_response _ _) as [[response repairs]|] eqn:Hr; cbn; [|done].
  intros [= <- <-]. apply usable_response_spec in Hr as [Husable _].
  by destruct (specType_of_spec uuid response (spec_valueOptions response) next)
    as (? & _ & ?).
Qed.

Lemma category_step_run existing oldSpecTypeNames domain category c :
  ∃ aim,
    run (category_step existing oldSpecTypeNames domain category c) =
    record_result (run c)
      (proposal_attempts (generateProposal aim (existing ++ newSpecTypes (run c)) oldSpecTypeNames)
         (λ proposal, details aim proposal (existing ++ newSpecTypes (run c)))
         (existing ++ newSpecTypes (run c)) 3 (categoryRejectedNames c) (next_id (run c))).
Proof.
  exists (mkAim domain category
            (default NUMERIC (globalValueTypes !! (valueTypeIndex c `mod` length globalValueTypes)))).
  unfold category_step, globalSingleSpecType, details. cbv zeta.
  by destruct (proposal_attempts _ _ _ _ _ _) as [[[[specType|] rejected] next]|error].
Qed.

Lemma category_loop_reachable disk next0 oldSpecTypeNames domain category fuel c :
  reachable details disk next0 (run c) ->
  reachable details disk next0
    (run (category_loop fuel (loadMasterSpecTypes disk) oldSpecTypeNames domain category c)).
Proof.
  revert c. induction fuel as [|fuel IH]; intros c Hc; [done|]. cbn [category_loop].
  destruct (generating c) eqn:Hgen; [|done]. apply IH.
  destruct (category_step_run (loadMasterSpecTypes disk) oldSpecTypeNames domain category c)
    as [aim ->].
  apply (reachable_record details disk next0 (run c) _ aim); [done|].
  by apply generating_true in Hgen as [? _].
Qed.

Lemma generateGlobalSpecTypes_reachable oldSpecTypeNames disk next :
  reachable details disk next (generateGlobalSpecTypes oldSpecTypeNames disk next).
Proof.
  unfold generateGlobalSpecTypes. apply foldl_preserves; [apply rtc_refl|].
  intros g [domain cats] _ Hg. cbn [fst snd]. apply foldl_preserves; [done|].
  intros g' category _ Hg'. unfold generate_category. by apply category_loop_reachable.
Qed.

(** ** What a run guarantees *)

Lemma category_loop_count existing oldSpecTypeNames domain category fuel c :
  categoryCount c ≤ MAX_PER_CATEGORY ->
  categoryCount (category_loop fuel existing oldSpecTypeNames domain category c)
    ≤ MAX_PER_CATEGORY ∧
  length (newSpecTypes
            (run (category_loop fuel existing oldSpecTypeNames domain category c))) +
    categoryCount c =
  length (newSpecTypes (run c)) +
    categoryCount (category_loop fuel existing oldSpecTypeNames domain category c).
Proof.
  revert c. induction fuel as [|fuel IH]; intros c Hc; [done|]. cbn [category_loop].
  destruct (generating c) eqn:Hgen; [|done].
  destruct (category_step_spec existing oldSpecTypeNames domain category c Hgen)
    as (_ & Hmax & Hcount).
  destruct (IH _ Hmax) as [Hmax' Hcount']. split; [done|lia].
Qed.

Lemma generate_category_bound existing oldSpecTypeNames domain g category :
  length (newSpecTypes (generate_category existing oldSpecTypeNames domain g category))
    ≤ length (newSpecTypes g) + MAX_PER_CATEGORY.
Proof.
  unfold generate_category.
  destruct (category_loop_count existing oldSpecTypeNames domain category category_fuel
              (mkCategory 0 0 0 [] g)) as [Hmax Hcount]; [cbn; lia|].
  cbn [categoryCount run] in Hcount. lia.
Qed.

Lemma foldl_length_bound {A} (f : Generation Num -> A -> Generation Num) (w : A -> nat) l g :
  (∀ g x, length (newSpecTypes (f g x)) ≤ length (newSpecTypes g) + w x) ->
  length (newSpecTypes (foldl f g l)) ≤ length (newSpecTypes g) + sum_list (w <$> l).
Proof.
  intros Hf. revert g. induction l as [|x l IH]; intros g; [cbn; lia|].
  rewrite fmap_cons. cbn [foldl sum_list_with id].
  specialize (IH (f g x)). specialize (Hf g x). lia.
Qed.

(** C27: a run generates a hundred spec types per category at most, four
    thousand in all, whatever the Oracle answers. *)
Theorem global_bound oldSpecTypeNames disk next :
  length (newSpecTypes (generateGlobalSpecTypes oldSpecTypeNames disk next)) ≤
  MAX_PER_CATEGORY * sum_list ((λ entry, length entry.2) <$> categories).
Proof.
  unfold generateGlobalSpecTypes.
  etrans; [apply (foldl_length_bound _ (λ entry, MAX_PER_CATEGORY * length entry.2))|by cbn].
  intros g [domain cats]. cbn [fst snd].
  etrans; [apply (foldl_length_bound _ (λ _, MAX_PER_CATEGORY)), generate_category_bound|].
  apply Nat.add_le_mono_l. induction cats as [|c cats IH]; [done|].
  rewrite fmap_cons. cbn [sum_list_with length id]. lia.
Qed.

Lemma generateGlobalSpecTypes_usable oldSpecTypeNames disk next :
  Forall usable (newSpecTypes (generateGlobalSpecTypes oldSpecTypeNames disk next)).
Proof.
  eapply (reachable_Forall details), generateGlobalSpecTypes_reachable.
  intros aim proposal existing n specType n' Hd. by eapply details_spec.
Qed.

(** What a run saved is what the master file holds after what it
    held, in the order of generation, and every spec type of it passed
    the checks of the response. *)
Theorem global_library oldSpecTypeNames disk next :
  let g := generateGlobalSpecTypes oldSpecTypeNames disk next in
  loadMasterSpecTypes (master g) = loadMasterSpecTypes disk ++ newSpecTypes g ∧
  Forall usable (newSpecTypes g).
Proof.
  cbv zeta. split; [|apply generateGlobalSpecTypes_usable].
  pose proof (generateGlobalSpecTypes_reachable oldSpecTypeNames disk next) as Hg.
  by rewrite (reachable_master _ _ _ _ Hg), load_master_after.
Qed.

End global.

Arguments GlobalOracle : clear implicits.
Arguments Category : clear implicits.

(** * Runs of the generator on concrete Oracles *)

Module global_examples.

Definition answer (id name description : string) : SpecType Q :=
  mkSpecType id name ["a"; "b"; "c"] ["x"; "y"] description HVAC None None None None None
             None NUMERIC (Some []) None None false None None.

Definition held : SpecType Q := answer "s-0" "Cooling Capacity" "the capacity".

Definition disk1 : MasterState Q := Holding (Some [held]).

Definition ident (n : nat) : string := "s-" +:+ pretty n.

(** The pre-validation cannot reach its Oracle: a name is rejected only
    when a spec type has it. *)
#[export] Instance unreachable : ProposalOracle Q := λ _ _, Thrown "timeout".

(** An Oracle that proposes the one name the library holds. *)
Definition stubborn : GlobalOracle Q := {|
  generateProposal _ _ _ _ := Returned (mkProposal "cooling capacity" "" "HVAC");
  askDetails proposal _ := Returned (answer "" (proposal_primaryName proposal) "d");
  askAgain _ _ := Thrown "unused";
  cleanupMalformedResponse := Returned;
|}.

(** An Oracle that proposes a new name every time. *)
Definition inventive : GlobalOracle Q := {|
  generateProposal aim existing _ _ :=
    Returned (mkProposal (aim_category aim +:+ " " +:+ pretty (length existing)) "" "HVAC");
  askDetails proposal _ := Returned (answer "" (proposal_primaryName proposal) "d");
  askAgain _ _ := Thrown "unused";
  cleanupMalformedResponse := Returned;
|}.

(** An Oracle whose answer cannot be parsed; asked again it gives neither
    name nor description, and a repair adds the description, or the name
    when the description is there. *)
Definition garbled : GlobalOracle Q := {|
  generateProposal _ _ _ _ := Returned (mkProposal "Fan Speed" "" "HVAC");
  askDetails _ _ := Thrown "Unexpected token";
  askAgain _ _ := Returned (Some (answer "" "" ""));
  cleanupMalformedResponse response :=
    Returned (answer "" (if str_truthy (spec_description response) then "Fan Speed" else "")
                     "the speed");
|}.

Definition lighting : Aim := mkAim ELECTRICAL "Lighting" NUMERIC.

Definition start : Generation Q := mkGeneration [] 0 disk1 1 None.

(** Every proposal is rejected: each category is left after ten targets,
    thirty proposals, and the forty categories give nothing. *)
Example library_exhausted :
  let c := category_loop (oracle:=stubborn) ident category_fuel [held] [] ELECTRICAL
             "Lighting" (mkCategory 0 0 0 [] start) in
  (categoryCount c, consecutiveDuplicates c, valueTypeIndex c,
   length (categoryRejectedNames c)) = (0, 10, 10, 30)%nat ∧
  let g := generateGlobalSpecTypes (oracle:=stubborn) ident [] disk1 1 in
  (newSpecTypes g, skipped g, master g, failure g) = ([], 400%nat, disk1, None).
Proof. by vm_compute. Qed.

(** Every proposal is new: the category is left at the limit of a hundred
    spec types, which the master file holds after what it held. *)
Example category_at_limit :
  let c := category_loop (oracle:=inventive) ident category_fuel [held] [] ELECTRICAL
             "Lighting" (mkCategory 0 0 0 [] start) in
  (categoryCount c, consecutiveDuplicates c, valueTypeIndex c, skipped (run c)) =
    (100, 0, 100, 0)%nat ∧
  length (loadMasterSpecTypes (master (run c))) = 101.
Proof. by vm_compute. Qed.

(** An answer that took two repairs, and the spec type built from it. *)
Example repaired_twice :
  usable_response (oracle:=garbled) (mkProposal "Fan Speed" "" "HVAC") lighting =
    Returned (answer "" "Fan Speed" "the speed", 2%nat) ∧
  globalFullSpecType (oracle:=garbled) ident (mkProposal "Fan Speed" "" "HVAC") lighting 7 =
    Returned (answer "s-7" "Fan Speed" "the speed", 8%nat).
Proof. by vm_compute. Qed.

Lemma category_loop_ends_witness :
  generating (category_loop (oracle:=inventive) ident category_fuel [held] [] ELECTRICAL
                "Lighting" (mkCategory 0 0 0 [] start)) = false ∧
  category_loop (oracle:=inventive) ident (S category_fuel) [held] [] ELECTRICAL "Lighting"
    (mkCategory 0 0 0 [] start) =
  category_loop (oracle:=inventive) ident category_fuel [held] [] ELECTRICAL "Lighting"
    (mkCategory 0 0 0 [] start).
Proof.
  apply (category_loop_ends (oracle:=inventive) ident [held] [] ELECTRICAL "Lighting" start).
  apply le_S, le_n.
Defined.

End global_examples.
