(* ===== verification/CsvLoader.v ===== *)
(** * CsvLoader: the component types and the old spec types

    [loadComponentTypes], [loadOldSpecTypes] and [getOldSpecTypeNames] of
    [src/src/utils/csvLoader.ts] (compiled to [src/dist/utils/csvLoader.js]).

    A file is its content, as bytes of UTF-8, or nothing when it cannot be
    read.  The parser of the library [csv-parse] is a [CsvParser]: with
    [columns: true] it gives one record for a line, a map from the names of
    the header to the cells.  The set of names is a list without
    duplicates in the order of insertion, as a [Set] of JavaScript is
    iterated, and [sort] is the merge sort of the order of strings (the
    order of the bytes, which is the order of [sort] on the code units for
    the characters below U+D800). *)

From Stdlib Require Import Ascii.
From stdpp Require Import gmap strings list sorting.
From S2P Require Import Spec2Rocq Schemas.

Local Open Scope js_scope.

Section csv.

(** [parse content {columns: true, skip_empty_lines: true, trim}]. *)
Class CsvParser : Type := parse : string -> bool -> outcome (list (gmap string string)).

Context {parser : CsvParser}.

(** U+FEFF in UTF-8. *)
Definition BOM : string :=
  String (ascii_of_nat 239) (String (ascii_of_nat 187) (String (ascii_of_nat 191) "")).

(** Line 10 of [csvLoader.js]: the mark at the start of the content is taken off. *)
Definition strip_bom (content : string) : string :=
  match content with
  | String a (String b (String c rest)) =>
      if bool_decide (String a (String b (String c "")) = BOM) then rest else content
  | _ => content
  end.

(** [record.column || '']: lines 31-35 and 55-67 of [csvLoader.js]. *)
Definition cell (record : gmap string string) (column : string) : string :=
  default "" (record !! column).

(** Lines 8-49: a file that cannot be read or parsed holds nothing. *)
Definition loadComponentTypes (file : option string) : list ComponentType :=
  match file with
  | None => []
  | Some content =>
      match parse (strip_bom content) true with
      | Thrown _ => []
      | Returned records =>
          (λ record, mkComponentType (cell record "id") (cell record "name")
                       (cell record "description") (cell record "parentTypeId")
                       (cell record "csiCode")) <$> records
      end
  end.

(** Lines 54-68. *)
Record OldSpecType : Type := mkOldSpecType {
  old_componentTypeName : string;
  old_componentTypeId : string;
  old_specTypeId : string;
  old_specTypeName : string;
  old_units : string;
  old_valueType : string;
  old_specCategory : string;
  old_description : string;
  old_min : string;
  old_max : string;
  old_options : string;
  old_alternateNames : string;
  old_alternateUnits : string;
}.

(** Lines 73-100: the content is parsed as it is read, and the cells are
    not trimmed. *)
Definition loadOldSpecTypes (file : option string) : list OldSpecType :=
  match file with
  | None => []
  | Some content =>
      match parse content false with
      | Thrown _ => []
      | Returned records =>
          (λ record, mkOldSpecType (cell record "componentTypeName")
                       (cell record "componentTypeId") (cell record "specTypeId")
                       (cell record "specTypeName") (cell record "units")
                       (cell record "valueType") (cell record "specCategory")
                       (cell record "description") (cell record "min")
                       (cell record "max") (cell record "options")
                       (cell record "alternateNames") (cell record "alternateUnits"))
          <$> records
      end
  end.

(** Lines 106-111. *)
Definition collect_names (oldSpecTypes : list OldSpecType) : list string :=
  foldl (λ names spec,
           if str_truthy (old_specTypeName spec) then set_add (old_specTypeName spec) names
           else names)
        [] oldSpecTypes.

(** Lines 105-113. *)
Definition getOldSpecTypeNames (oldSpecTypes : list OldSpecType) : list string :=
  merge_sort String.le (collect_names oldSpecTypes).

(** ** The byte order mark *)

Lemma strip_bom_BOM content : strip_bom (BOM +:+ content) = content.
Proof. done. Qed.

Lemma strip_bom_idle content :
  (∀ rest, content ≠ BOM +:+ rest) -> strip_bom content = content.
Proof.
  intros Hcontent. destruct content as [|a [|b [|c rest]]]; try done.
  unfold strip_bom. case_bool_decide as Hbom; [|done].
  destruct (Hcontent rest). unfold BOM in Hbom. by simplify_eq.
Qed.

(** The mark is taken from the component types, once: a file is read the
    same with the mark and without it. *)
Theorem loadComponentTypes_bom content :
  (∀ rest, content ≠ BOM +:+ rest) ->
  loadComponentTypes (Some (BOM +:+ content)) = loadComponentTypes (Some content).
Proof.
  intros Hcontent. unfold loadComponentTypes.
  by rewrite strip_bom_BOM, (strip_bom_idle content).
Qed.

(** ** The names of the old spec types *)

(** The names that are not empty. *)
Definition named (oldSpecTypes : list OldSpecType) : list string :=
  filter (λ name, name ≠ "") (old_specTypeName <$> oldSpecTypes).

(** The set holds the names in the order of the file. *)
Lemma collect_names_dedupe oldSpecTypes : collect_names oldSpecTypes = dedupe (named oldSpecTypes).
Proof.
  unfold collect_names, named.
  induction oldSpecTypes as [|spec oldSpecTypes IH] using rev_ind; [done|].
  rewrite foldl_snoc, fmap_app, filter_app, IH. cbn [fmap list_fmap].
  destruct (str_truthy (old_specTypeName spec)) eqn:Hname.
  - apply str_truthy_true in Hname. rewrite filter_cons_True, filter_nil by done.
    by rewrite dedupe_snoc.
  - apply str_truthy_false in Hname. rewrite filter_cons_False, filter_nil by tauto.
    by rewrite app_nil_r.
Qed.

Lemma collect_names_spec oldSpecTypes :
  NoDup (collect_names oldSpecTypes) ∧
  ∀ n, n ∈ collect_names oldSpecTypes <-> n ∈ named oldSpecTypes.
Proof.
  rewrite collect_names_dedupe. split; [apply NoDup_dedupe|]. intros n. apply elem_of_dedupe.
Qed.

Lemma getOldSpecTypeNames_NoDup oldSpecTypes : NoDup (getOldSpecTypeNames oldSpecTypes).
Proof.
  unfold getOldSpecTypeNames. rewrite merge_sort_Permutation. apply collect_names_spec.
Qed.

Lemma getOldSpecTypeNames_elem_of oldSpecTypes n :
  n ∈ getOldSpecTypeNames oldSpecTypes <-> n ∈ named oldSpecTypes.
Proof.
  unfold getOldSpecTypeNames. rewrite merge_sort_Permutation. apply collect_names_spec.
Qed.

Lemma getOldSpecTypeNames_sorted oldSpecTypes :
  StronglySorted String.le (getOldSpecTypeNames oldSpecTypes).
Proof. apply (StronglySorted_merge_sort _). Qed.

(** C33: the names are the names of the old spec types that are not empty,
    each once, in the order of strings. *)
Theorem getOldSpecTypeNames_spec oldSpecTypes :
  StronglySorted String.le (getOldSpecTypeNames oldSpecTypes) ∧
  NoDup (getOldSpecTypeNames oldSpecTypes) ∧
  ∀ name, name ∈ getOldSpecTypeNames oldSpecTypes <->
          name ≠ "" ∧ ∃ spec, spec ∈ oldSpecTypes ∧ old_specTypeName spec = name.
Proof.
  split_and!; [apply getOldSpecTypeNames_sorted|apply getOldSpecTypeNames_NoDup|].
  intros name. rewrite getOldSpecTypeNames_elem_of. unfold named.
  rewrite list_elem_of_filter, list_elem_of_fmap. split.
  - intros [Hname (spec & -> & Hspec)]. eauto.
  - intros [Hname (spec & Hspec & <-)]. eauto.
Qed.

(** The names do not depend on the order of the lines of the file, nor on
    how [sort] sorts: they are the only sorted list of the names. *)
Theorem getOldSpecTypeNames_unique oldSpecTypes names :
  StronglySorted String.le names -> NoDup names ->
  (∀ name, name ∈ names <-> name ∈ named oldSpecTypes) ->
  names = getOldSpecTypeNames oldSpecTypes.
Proof.
  intros Hsorted Hnd Hnames.
  apply (StronglySorted_unique String.le); [done|apply getOldSpecTypeNames_sorted|].
  apply NoDup_Permutation; [done|apply getOldSpecTypeNames_NoDup|].
  intros name. by rewrite Hnames, getOldSpecTypeNames_elem_of.
Qed.

Theorem getOldSpecTypeNames_perm oldSpecTypes1 oldSpecTypes2 :
  oldSpecTypes1 ≡ₚ oldSpecTypes2 ->
  getOldSpecTypeNames oldSpecTypes1 = getOldSpecTypeNames oldSpecTypes2.
Proof.
  intros Hperm. apply getOldSpecTypeNames_unique;
    [apply getOldSpecTypeNames_sorted|apply getOldSpecTypeNames_NoDup|].
  intros name. rewrite getOldSpecTypeNames_elem_of. unfold named. by rewrite Hperm.
Qed.

End csv.

(** * A reader of plain tables, and what the loaders give on it *)

Module csv_examples.

Definition comma : ascii := ascii_of_nat 44.
Definition newline : ascii := ascii_of_nat 10.

(** The cells of a line, without quoting. *)
Fixpoint split (separator : ascii) (cell : string) (s : string) : list string :=
  match s with
  | "" => [String.rev cell]
  | String a s' =>
      if bool_decide (a = separator) then String.rev cell :: split separator "" s'
      else split separator (String a cell) s'
  end.

Fixpoint trim_left (s : string) : string :=
  match s with
  | String a s' => if Ascii.is_space a then trim_left s' else s
  | "" => ""
  end.

Definition trimmed (s : string) : string :=
  String.rev (trim_left (String.rev (trim_left s))).

(** A header and lines of cells; an empty line is skipped and a line of
    another width is an error. *)
#[export] Instance plain : CsvParser := λ content trim,
  let rows :=
    (λ line, (if trim then trimmed else id) <$> split comma "" line) <$>
      filter (λ line, line ≠ "") (split newline "" content) in
  match rows with
  | [] => Returned []
  | header :: lines =>
      if bool_decide (Forall (λ cells, length cells = length header) lines)
      then Returned ((λ cells, list_to_map (zip header cells)) <$> lines)
      else Thrown "Invalid Record Length"
  end.

Definition components_csv : string :=
  "id,name,parentTypeId" +:+ String newline "c1, Chiller ,c0" +:+ String newline "c2,Pump,".

Definition old_csv : string :=
  "componentTypeName,specTypeName" +:+ String newline "Chiller,Flow" +:+
  String newline "Pump,Capacity" +:+ String newline "Pump," +:+ String newline "Fan,Flow".

(** The cells are trimmed, a column that is absent and a cell that is
    empty are the empty string, and the mark is taken off. *)
Example components_loaded :
  loadComponentTypes (Some (BOM +:+ components_csv)) =
    [mkComponentType "c1" "Chiller" "" "c0" ""; mkComponentType "c2" "Pump" "" "" ""] ∧
  loadComponentTypes (Some components_csv) = loadComponentTypes (Some (BOM +:+ components_csv)) ∧
  loadComponentTypes None = [] ∧
  loadComponentTypes (Some ("id,name" +:+ String newline "c1")) = [].
Proof. by vm_compute. Qed.

(** The mark stays in the name of the first column of the old spec types:
    the name of the component type is lost; the names of the spec types
    are read. *)
Example old_names_loaded :
  old_componentTypeName <$> loadOldSpecTypes (Some old_csv) =
    ["Chiller"; "Pump"; "Pump"; "Fan"] ∧
  old_componentTypeName <$> loadOldSpecTypes (Some (BOM +:+ old_csv)) = [""; ""; ""; ""] ∧
  getOldSpecTypeNames (loadOldSpecTypes (Some (BOM +:+ old_csv))) = ["Capacity"; "Flow"].
Proof. by vm_compute. Qed.

(** Capitals come before small letters. *)
Example names_sorted :
  getOldSpecTypeNames
    ((λ name, mkOldSpecType "" "" "" name "" "" "" "" "" "" "" "" "") <$>
       ["voltage"; "Flow"; ""; "Voltage"; "Flow"; "airflow"]) =
  ["Flow"; "Voltage"; "airflow"; "voltage"].
Proof. by vm_compute. Qed.

Lemma getOldSpecTypeNames_unique_witness :
  ["Capacity"; "Flow"] = getOldSpecTypeNames (loadOldSpecTypes (Some old_csv)).
Proof.
  apply getOldSpecTypeNames_unique.
  - repeat constructor.
  - apply (bool_decide_unpack _). by vm_compute.
  - intros name. vm_compute (named _). rewrite !elem_of_cons, !elem_of_nil. tauto.
Defined.

Lemma getOldSpecTypeNames_perm_witness :
  getOldSpecTypeNames (loadOldSpecTypes (Some old_csv)) =
  getOldSpecTypeNames (reverse (loadOldSpecTypes (Some old_csv))).
Proof. apply getOldSpecTypeNames_perm. by rewrite reverse_Permutation. Defined.

End csv_examples.
