(* ===== verification/Convert.v ===== *)
(** * Convert: the conversion of the old spec types

    [convertOldSpecTypes] of [generators/convertOldSpecTypes.js] (carried in
    [src/unnamed/part_003]): the old spec types of the CSV file are
    enriched by the Oracle one by one and saved to the master file, unless
    a spec type of the name exists or the pre-validation finds the
    enriched one a duplicate.

    The answer of the Oracle is an [Enriched]: the fields of a spec type,
    and the description, which the converter cuts and so must be there.
    An answer that fails is counted and the conversion goes on. *)

From Stdlib Require Import QArith.
From stdpp Require Import gmap strings list pretty.
From S2P Require Import Spec2Rocq JsNumber Schemas Verdict PreValidator Master Proposals.
From S2P Require Import CsvLoader.

Local Open Scope js_scope.

Section convert.
Context {Num : Type} {JN : JsNumber Num} {pre : ProposalOracle Num}.

Local Abbreviation Spec := (SpecType Num).

(** The answer to the prompt of lines 10-54. *)
Record Enriched : Type := mkEnriched {
  enriched_description : option string;
  enriched_fields : Spec;
}.

(** Lines 10-54: the request, from the name, the units, the value type
    and the description of the old spec type. *)
Class EnrichOracle : Type :=
  enrichOldSpecType : string -> string -> string -> string -> outcome Enriched.

Context {oracle : EnrichOracle}.
Context (uuid : nat -> string).

(** Lines 63-69: the first old spec type of every name, up to case, in
    the order of the file. *)
Definition uniqueOldSpecs (oldSpecTypes : list OldSpecType) : list (string * OldSpecType) :=
  foldl (λ unique oldSpec,
           let key := toLowerCase (old_specTypeName oldSpec) in
           if bool_decide (key ∈ unique.*1) then unique else unique ++ [(key, oldSpec)])
        [] oldSpecTypes.

(** Lines 72-76, the variables of the loop, with the master file and the
    counter of identifiers. *)
Record Conversion : Type := mkConverted {
  existing : list Spec;
  converted : nat;
  skippedDuplicates : nat;
  errors : nat;
  conv_master : MasterState Num;
  conv_next : nat;
}.

(** Line 83. *)
Definition alreadyExists (existing : list Spec) (oldSpec : OldSpecType) : bool :=
  js_some (λ e, bool_decide (toLowerCase (spec_primaryName e) =
                             toLowerCase (old_specTypeName oldSpec))) existing.

(** Line 100: [validation.isDuplicate && validation.similarity >= 95]. *)
Definition rejected (validation : PreValidationResult Num) : bool :=
  isDuplicate validation && score_geb (pre_similarity validation) 95.

(** Lines 106-122. *)
Definition converted_specType (enriched : Spec) (description : string) (next : nat) : Spec :=
  mkSpecType (uuid next) (spec_primaryName enriched) (spec_alternateNames enriched)
    (spec_notNames enriched) description (spec_domain enriched)
    (spec_primaryUnit enriched) None (spec_primaryUnitGroup enriched) None
    (spec_alternateUnits enriched) None (spec_valueType enriched) None
    (spec_minValue enriched) (spec_maxValue enriched) (spec_allowsArray enriched)
    (spec_examples enriched) (spec_industryStandards enriched).

Definition skip (c : Conversion) : Conversion :=
  mkConverted (existing c) (converted c) (S (skippedDuplicates c)) (errors c)
               (conv_master c) (conv_next c).

Definition fail (c : Conversion) : Conversion :=
  mkConverted (existing c) (converted c) (skippedDuplicates c) (S (errors c))
               (conv_master c) (conv_next c).

Definition keep (c : Conversion) (specType : Spec) : Conversion :=
  mkConverted (existing c ++ [specType]) (S (converted c)) (skippedDuplicates c) (errors c)
               (saveSpecTypeToMaster specType (conv_master c)) (S (conv_next c)).

(** Lines 77-134, the body of the loop. *)
Definition convert_one (c : Conversion) (oldSpec : OldSpecType) : Conversion :=
  if alreadyExists (existing c) oldSpec then skip c
  else
    match enrichOldSpecType (old_specTypeName oldSpec) (old_units oldSpec)
            (old_valueType oldSpec) (old_description oldSpec) with
    | Thrown _ => fail c
    | Returned enriched =>
        match enriched_description enriched with
        | None => fail c
        | Some description =>
            let proposal :=
              mkProposal (spec_primaryName (enriched_fields enriched))
                         (String.substring 0 100 description)
                         (domain_name (spec_domain (enriched_fields enriched))) in
            if rejected (preValidateProposal proposal (existing c)) then skip c
            else keep c (converted_specType (enriched_fields enriched) description
                           (conv_next c))
        end
    end.

(** Lines 57-142. *)
Definition convertOldSpecTypes (oldSpecTypes : list OldSpecType) (disk : MasterState Num)
    (next : nat) : Conversion :=
  foldl convert_one (mkConverted (loadMasterSpecTypes disk) 0 0 0 disk next)
        (uniqueOldSpecs oldSpecTypes).*2.

(** ** The old spec types that are converted *)

Lemma uniqueOldSpecs_snoc oldSpecTypes oldSpec :
  uniqueOldSpecs (oldSpecTypes ++ [oldSpec]) =
  let key := toLowerCase (old_specTypeName oldSpec) in
  if bool_decide (key ∈ (uniqueOldSpecs oldSpecTypes).*1) then uniqueOldSpecs oldSpecTypes
  else uniqueOldSpecs oldSpecTypes ++ [(key, oldSpec)].
Proof. unfold uniqueOldSpecs. by rewrite foldl_snoc. Qed.

(** Every name of the file has one entry, the names are distinct up to
    case, and an entry is an old spec type of the file under its name. *)
Lemma uniqueOldSpecs_spec oldSpecTypes :
  NoDup (uniqueOldSpecs oldSpecTypes).*1 ∧
  (∀ oldSpec, oldSpec ∈ oldSpecTypes ->
              toLowerCase (old_specTypeName oldSpec) ∈ (uniqueOldSpecs oldSpecTypes).*1) ∧
  Forall (λ entry, entry.1 = toLowerCase (old_specTypeName entry.2) ∧ entry.2 ∈ oldSpecTypes)
         (uniqueOldSpecs oldSpecTypes) ∧
  length (uniqueOldSpecs oldSpecTypes) ≤ length oldSpecTypes.
Proof.
  induction oldSpecTypes as [|oldSpec oldSpecTypes (Hnd & Hall & Hentries & Hlen)] using rev_ind.
  { split_and!; [constructor|by intros ? ?%elem_of_nil|constructor|done]. }
  assert (Forall (λ entry, entry.1 = toLowerCase (old_specTypeName entry.2) ∧
                           entry.2 ∈ oldSpecTypes ++ [oldSpec]) (uniqueOldSpecs oldSpecTypes))
    as Hentries'.
  { eapply Forall_impl; [exact Hentries|]. intros entry [? ?]. split; [done|].
    apply elem_of_app. by left. }
  rewrite uniqueOldSpecs_snoc. cbv zeta. case_bool_decide as Hkey.
  - split_and!; [done| |done|rewrite length_app; lia]. intros o [Ho| ->%list_elem_of_singleton]%elem_of_app; auto.
  - rewrite fmap_app. split_and!.
    + apply NoDup_app. split_and!; [done| |apply NoDup_singleton].
      by intros key Hin ->%list_elem_of_singleton.
    + intros o [Ho| ->%list_elem_of_singleton]%elem_of_app; apply elem_of_app;
        [left; auto|right; by apply list_elem_of_singleton].
    + apply Forall_app. split; [done|]. apply Forall_singleton. split; [done|].
      apply elem_of_app. right. by apply list_elem_of_singleton.
    + rewrite !length_app. cbn [length]. lia.
Qed.

(** ** What a conversion keeps *)

(** The state of a conversion: what it holds is what the master file
    holds, and every old spec type tried is counted once. *)
Definition consistent (disk : MasterState Num) (next : nat) (tried : nat) (c : Conversion) :
    Prop :=
  loadMasterSpecTypes (conv_master c) = existing c ∧
  (∃ new, existing c = loadMasterSpecTypes disk ++ new ∧ length new = converted c ∧
          conv_master c = master_after disk new ∧
          spec_id <$> new = uuid <$> seq next (converted c)) ∧
  conv_next c = next + converted c ∧
  converted c + skippedDuplicates c + errors c = tried.

Lemma consistent_init disk next :
  consistent disk next 0 (mkConverted (loadMasterSpecTypes disk) 0 0 0 disk next).
Proof.
  split_and!; [done| |cbn; lia|done]. exists []. by rewrite app_nil_r.
Qed.

Lemma consistent_keep disk next tried c enriched description :
  consistent disk next tried c ->
  consistent disk next (S tried)
    (keep c (converted_specType enriched description (conv_next c))).
Proof.
  intros (Hload & (new & Hex & Hlen & Hmaster & Hids) & Hnext & Hcount). unfold keep.
  split_and!; cbn [existing converted skippedDuplicates errors conv_master conv_next].
  - by rewrite load_save, Hload.
  - exists (new ++ [converted_specType enriched description (conv_next c)]).
    rewrite length_app, Hex, Hmaster, save_master_after, (assoc_L (++)).
    split_and!; [done|cbn; lia|done|].
    rewrite fmap_app, seq_S, fmap_app, Hids, Hnext. done.
  - lia.
  - lia.
Qed.

Lemma consistent_step disk next tried c oldSpec :
  consistent disk next tried c -> consistent disk next (S tried) (convert_one c oldSpec).
Proof.
  intros Hc. pose proof Hc as (Hload & Hnew & Hnext & Hcount).
  assert (consistent disk next (S tried) (skip c)) as Hskip.
  { split_and!; [done..|cbn; lia]. }
  assert (consistent disk next (S tried) (fail c)) as Hfail.
  { split_and!; [done..|cbn; lia]. }
  unfold convert_one. destruct (alreadyExists _ _); [done|].
  destruct (enrichOldSpecType _ _ _ _) as [[[description|] enriched]|]; [|done..].
  cbn [enriched_description enriched_fields]. destruct (rejected _); [done|].
  by apply consistent_keep.
Qed.

Lemma consistent_foldl disk next tried c oldSpecs :
  consistent disk next tried c ->
  consistent disk next (tried + length oldSpecs) (foldl convert_one c oldSpecs).
Proof.
  revert tried c. induction oldSpecs as [|oldSpec oldSpecs IH]; intros tried c Hc.
  { by rewrite Nat.add_0_r. }
  cbn [foldl length]. rewrite <- Nat.add_succ_comm. by apply IH, consistent_step.
Qed.

(** C39: a conversion counts every name of the file once, as converted,
    skipped or failed; the spec types converted are saved to the master
    file after what it held, in the order of the file, with identifiers
    drawn in order. *)
Theorem convert_accounting oldSpecTypes disk next :
  consistent disk next (length (uniqueOldSpecs oldSpecTypes))
    (convertOldSpecTypes oldSpecTypes disk next).
Proof.
  unfold convertOldSpecTypes.
  rewrite <- (length_fmap snd (uniqueOldSpecs oldSpecTypes)).
  apply (consistent_foldl disk next 0), consistent_init.
Qed.

(** ** The names stay distinct *)

(** A proposal that is let through has a name, which no spec type has. *)
Lemma not_rejected proposal existingSpecTypes :
  num_geb (num_of_nat 100) (num_of_nat 95) = true ->
  rejected (preValidateProposal proposal existingSpecTypes) = false ->
  proposal_primaryName proposal ≠ "" ∧
  Forall (λ s, spec_primaryName s ≠ "" ->
               toLowerCase (spec_primaryName s) ≠
               toLowerCase (proposal_primaryName proposal)) existingSpecTypes.
Proof.
  intros Hgeb. unfold rejected, preValidateProposal.
  destruct (str_truthy (proposal_primaryName proposal)) eqn:Hname; cbn [negb];
    [|by cbn; rewrite Hgeb].
  destruct (js_find _ _) eqn:Hfind; [by cbn; rewrite Hgeb|]. intros _.
  split; [by apply str_truthy_true|by apply no_exact_match].
Qed.

Lemma convert_one_distinct c oldSpec :
  num_geb (num_of_nat 100) (num_of_nat 95) = true ->
  distinct_names (existing c) -> distinct_names (existing (convert_one c oldSpec)).
Proof.
  intros Hgeb Hc. unfold convert_one. destruct (alreadyExists _ _); [done|].
  destruct (enrichOldSpecType _ _ _ _) as [[[description|] enriched]|]; [|done..].
  cbn [enriched_description enriched_fields].
  destruct (rejected _) eqn:Hrej; [done|].
  apply not_rejected in Hrej as [Hname Hothers]; [|done].
  by apply distinct_names_snoc.
Qed.

(** C25: the names of the master file stay distinct up to case through a
    conversion, whatever the Oracle answers: an enriched spec type whose
    name exists is never saved. *)
Theorem convert_distinct_names oldSpecTypes disk next :
  num_geb (num_of_nat 100) (num_of_nat 95) = true ->
  distinct_names (loadMasterSpecTypes disk) ->
  distinct_names (loadMasterSpecTypes (conv_master (convertOldSpecTypes oldSpecTypes disk next))).
Proof.
  intros Hgeb Hdisk. destruct (convert_accounting oldSpecTypes disk next) as [-> _].
  unfold convertOldSpecTypes. apply foldl_preserves; [done|].
  intros c oldSpec _. by apply convert_one_distinct.
Qed.

(** ** Conversions resume *)

Lemma skip_all c oldSpecs :
  Forall (λ oldSpec, alreadyExists (existing c) oldSpec = true) oldSpecs ->
  foldl convert_one c oldSpecs =
  mkConverted (existing c) (converted c) (skippedDuplicates c + length oldSpecs) (errors c)
               (conv_master c) (conv_next c).
Proof.
  revert c. induction oldSpecs as [|oldSpec oldSpecs IH]; intros c Hall.
  { destruct c. cbn. by rewrite Nat.add_0_r. }
  apply Forall_cons in Hall as [Hold Hall]. cbn [foldl length].
  unfold convert_one at 2. rewrite Hold, IH by done. unfold skip. cbn. f_equal. lia.
Qed.

(** Old spec types whose names the master file holds are skipped
    without a request to the Oracle: a conversion that was interrupted
    resumes after what it saved, and the master file is left as it is
    when every name is there. *)
Theorem convert_resumes oldSpecTypes disk next :
  Forall (λ entry, alreadyExists (loadMasterSpecTypes disk) entry.2 = true)
         (uniqueOldSpecs oldSpecTypes) ->
  convertOldSpecTypes oldSpecTypes disk next =
  mkConverted (loadMasterSpecTypes disk) 0 (length (uniqueOldSpecs oldSpecTypes)) 0 disk next.
Proof.
  intros Hall. unfold convertOldSpecTypes. rewrite skip_all; [by rewrite length_fmap|].
  by apply Forall_fmap.
Qed.

End convert.

Arguments Enriched : clear implicits.
Arguments EnrichOracle : clear implicits.
Arguments Conversion : clear implicits.

(** * A conversion on a concrete file *)

Module convert_examples.

Definition old (name : string) : OldSpecType :=
  mkOldSpecType "Chiller" "c1" "" name "tons" "NUMERIC" "" "" "" "" "" "" "".

Definition fields (id name description : string) : SpecType Q :=
  mkSpecType id name [] [] description HVAC None None None None None None NUMERIC None None
             None false None None.

Definition serial (n : nat) : string := "n-" +:+ pretty n.

(** The Oracle of the pre-validation finds every proposal similar to a
    spec type, at ninety: below the threshold of the converter. *)
#[export] Instance similar : ProposalOracle Q :=
  λ _ _, Returned (mkPreVerdict (mkVerdict true (Some 90%Q) None) (Some "Capacity")).

(** The Oracle cannot enrich [Broken], gives [Bare] no description, and
    enriches [Tonnage] under the name [Capacity]. *)
#[export] Instance enricher : EnrichOracle Q := λ name _ _ _,
  if bool_decide (name = "Broken") then Thrown "overloaded"
  else if bool_decide (name = "Bare") then Returned (mkEnriched None(fields "" name ""))
  else if bool_decide (name = "Tonnage")
       then Returned (mkEnriched (Some "the capacity") (fields "" "Capacity" ""))
  else Returned (mkEnriched (Some "enriched") (fields "" name "")).

Definition file : list OldSpecType :=
  old <$> ["Capacity"; "capacity"; "Broken"; "Flow"; "Bare"; "Tonnage"; ""; "FLOW"].

Definition disk2 : MasterState Q := Holding (Some [fields "s-0" "Voltage" "the voltage"]).

(** The names of the file up to case, the empty name among them. *)
Example unique_names :
  (uniqueOldSpecs file).*1 = ["capacity"; "broken"; "flow"; "bare"; "tonnage"; ""].
Proof. by vm_compute. Qed.

(** [Capacity] and [Flow] are converted, though the Oracle finds them
    similar to a spec type; [Tonnage] comes back under a name that exists
    and is skipped, as the old spec type without a name is, whose
    proposal has none; the two failures are counted. *)
Example conversion :
  let c := convertOldSpecTypes serial file disk2 4 in
  (converted c, skippedDuplicates c, errors c, conv_next c) = (2, 2, 2, 6)%nat ∧
  (λ s, (spec_id s, spec_primaryName s)) <$> loadMasterSpecTypes (conv_master c) =
    [("s-0", "Voltage"); ("n-4", "Capacity"); ("n-5", "Flow")].
Proof. by vm_compute. Qed.

(** A second conversion of the names that were converted asks nothing
    and leaves the master file as it is. *)
Example converted_again :
  let c := convertOldSpecTypes serial file disk2 4 in
  let c' := convertOldSpecTypes serial (old <$> ["FLOW"; "Capacity"]) (conv_master c) 6 in
  (converted c', skippedDuplicates c', errors c') = (0, 2, 0)%nat ∧
  conv_master c' = conv_master c.
Proof. by vm_compute. Qed.

Lemma convert_distinct_names_witness :
  distinct_names
    (loadMasterSpecTypes (conv_master (convertOldSpecTypes serial file disk2 4))).
Proof.
  apply (convert_distinct_names serial file disk2 4); [done|].
  split; [apply NoDup_singleton|by apply Forall_singleton].
Defined.

Lemma convert_resumes_witness :
  convertOldSpecTypes serial (old <$> ["voltage"; "VOLTAGE"]) disk2 4 =
  mkConverted (loadMasterSpecTypes disk2) 0 1 0 disk2 4.
Proof.
  refine (convert_resumes serial (old <$> ["voltage"; "VOLTAGE"]) disk2 4 _).
  apply (bool_decide_unpack _). by vm_compute.
Defined.

End convert_examples.
