(* ===== verification/Entry.v ===== *)
(** * Entry: the entry point of the spec type generator

    [main], [runTestMode] and [runFullMode] of [src/src/main.ts], lines
    1-176.  The program reads its mode and the flag [--clear] from the
    command line, clears the master file when asked, runs the generator of
    the mode, reads the master file back, validates what it holds and
    writes the summary of the mode.

    The files of the program are a [Files]: the master file and the two
    summaries.  A run gives an exit code and the files it leaves.  The
    time of generation in the summary and what is printed are not
    modelled. *)

From Stdlib Require Import QArith.
From stdpp Require Import gmap strings list pretty.
From S2P Require Import Spec2Rocq JsNumber Schemas Verdict Validator PreValidator Master.
From S2P Require Import Proposals CsvLoader Generator Global.

Local Open Scope js_scope.

Section entry.
Context {Num : Type} {JN : JsNumber Num}.
Context {pre : ProposalOracle Num} {pairs : PairOracle Num} {parser : CsvParser}.
Context {generator : GeneratorOracle Num} {global : GlobalOracle Num}.
Context (uuid : nat -> string).

Local Abbreviation Spec := (SpecType Num).

Inductive Mode : Type := test | full.

(** Lines 20 and 28: [args[0] || 'test'], and the modes there are. *)
Definition mode_of (args : list string) : option Mode :=
  let mode := match args with
              | arg :: _ => if str_truthy arg then arg else "test"
              | [] => "test"
              end in
  if bool_decide (mode = "test") then Some test
  else if bool_decide (mode = "full") then Some full
  else None.

(** Line 21. *)
Definition clearFlag (args : list string) : bool := bool_decide ("--clear" ∈ args).

(** Lines 87-95 and 150-158: the spec types of every domain. *)
Record DomainCounts : Type := mkDomainCounts {
  count_HVAC : nat;
  count_ELECTRICAL : nat;
  count_PLUMBING : nat;
  count_FIRE_PROTECTION : nat;
}.

Record OutputMetadata : Type := mkOutputMetadata {
  meta_mode : Mode;
  meta_totalSpecTypes : nat;
  meta_domains : DomainCounts;
}.

(** [GenerationOutput] of the schemas; the unit groups and the mappings
    of a summary are empty. *)
Record GenerationOutput : Type := mkGenerationOutput {
  out_specTypes : list Spec;
  out_validationReport : ValidationReport Num;
  out_metadata : OutputMetadata;
}.

(** [spec-types-master.json], [test-summary.json] and
    [full-summary.json]. *)
Record Files : Type := mkFiles {
  files_master : MasterState Num;
  test_summary : option GenerationOutput;
  full_summary : option GenerationOutput;
}.

Definition domain_count (domain : Domain) (allSpecTypes : list Spec) : nat :=
  length (filter (λ s, spec_domain s = domain) allSpecTypes).

(** Lines 78-97 and 141-160. *)
Definition summary (mode : Mode) (allSpecTypes : list Spec) : GenerationOutput :=
  {| out_specTypes := allSpecTypes;
     out_validationReport := validateSpecTypes allSpecTypes;
     out_metadata :=
       {| meta_mode := mode;
          meta_totalSpecTypes := length allSpecTypes;
          meta_domains :=
            {| count_HVAC := domain_count HVAC allSpecTypes;
               count_ELECTRICAL := domain_count ELECTRICAL allSpecTypes;
               count_PLUMBING := domain_count PLUMBING allSpecTypes;
               count_FIRE_PROTECTION := domain_count FIRE_PROTECTION allSpecTypes |} |} |}.

(** Lines 58-113: the master file is read back after the generator, and
    the error of the generator is thrown on. *)
Definition runTestMode (files : Files) (next : nat) : outcome unit * Files :=
  let g := Generator.generateTestSpecTypes uuid (files_master files) next in
  match failure g with
  | Some error => (Thrown error, mkFiles (master g) (test_summary files) (full_summary files))
  | None =>
      let allSpecTypes := loadMasterSpecTypes (master g) in
      (Returned (), mkFiles (master g) (Some (summary test allSpecTypes)) (full_summary files))
  end.

(** Lines 118-173, with the old spec types the global generator loads
    (lines 227-228 of the generator). *)
Definition runFullMode (old_csv : option string) (files : Files) (next : nat) :
    outcome unit * Files :=
  let oldSpecTypeNames := getOldSpecTypeNames (loadOldSpecTypes old_csv) in
  let g := Global.generateGlobalSpecTypes uuid oldSpecTypeNames (files_master files) next in
  match failure g with
  | Some error => (Thrown error, mkFiles (master g) (test_summary files) (full_summary files))
  | None =>
      let allSpecTypes := loadMasterSpecTypes (master g) in
      (Returned (), mkFiles (master g) (test_summary files) (Some (summary full allSpecTypes)))
  end.

(** Lines 37-41. *)
Definition cleared (args : list string) (files : Files) : Files :=
  if clearFlag args
  then mkFiles (clearMasterFile (files_master files)) (test_summary files) (full_summary files)
  else files.

(** Lines 18-53: the exit code and the files. *)
Definition generator_main (args : list string) (old_csv : option string) (files : Files) (next : nat) :
    nat * Files :=
  match mode_of args with
  | None => (1, files)
  | Some mode =>
      let run := match mode with
                 | test => runTestMode (cleared args files) next
                 | full => runFullMode old_csv (cleared args files) next
                 end in
      (match run.1 with Returned _ => 0 | Thrown _ => 1 end, run.2)
  end.

(** ** The summary *)

(** The summary of a mode, in the files. *)
Definition summary_of (mode : Mode) (files : Files) : option GenerationOutput :=
  match mode with test => test_summary files | full => full_summary files end.

Definition other (mode : Mode) : Mode :=
  match mode with test => full | full => test end.

Lemma domain_count_total (allSpecTypes : list Spec) :
  domain_count HVAC allSpecTypes + domain_count ELECTRICAL allSpecTypes +
  domain_count PLUMBING allSpecTypes + domain_count FIRE_PROTECTION allSpecTypes =
  length allSpecTypes.
Proof.
  unfold domain_count. induction allSpecTypes as [|s l IH]; [done|].
  rewrite !filter_cons. destruct (spec_domain s); repeat case_decide; try done;
    cbn [length]; lia.
Qed.

(** The spec types a run of the mode generated, when it did not fail. *)
Definition generated (mode : Mode) (old_csv : option string) (files : Files) (next : nat) :
    Generation Num :=
  match mode with
  | test => Generator.generateTestSpecTypes uuid (files_master files) next
  | full => Global.generateGlobalSpecTypes uuid
              (getOldSpecTypeNames (loadOldSpecTypes old_csv)) (files_master files) next
  end.

Lemma generated_master mode old_csv files next :
  loadMasterSpecTypes (master (generated mode old_csv files next)) =
  loadMasterSpecTypes (files_master files) ++ newSpecTypes (generated mode old_csv files next).
Proof.
  rewrite <- load_master_after. f_equal. destruct mode; cbn [generated].
  - rewrite generateTestSpecTypes_generate. eapply reachable_master, generate_reachable.
  - eapply reachable_master, generateGlobalSpecTypes_reachable.
Qed.

Lemma main_run args old_csv files next mode :
  mode_of args = Some mode ->
  let g := generated mode old_csv (cleared args files) next in
  generator_main args old_csv files next =
  match failure g with
  | Some _ => (1, mkFiles (master g) (test_summary files) (full_summary files))
  | None =>
      let output := Some (summary mode (loadMasterSpecTypes (master g))) in
      (0, match mode with
          | test => mkFiles (master g) output (full_summary files)
          | full => mkFiles (master g) (test_summary files) output
          end)
  end.
Proof.
  intros Hmode. unfold generator_main. rewrite Hmode. cbv zeta.
  assert (test_summary (cleared args files) = test_summary files ∧
          full_summary (cleared args files) = full_summary files) as [Htest Hfull].
  { unfold cleared. by destruct (clearFlag args). }
  destruct mode; cbn [generated]; unfold runTestMode, runFullMode; cbv zeta;
    destruct (failure _); cbn [fst snd]; by rewrite ?Htest, ?Hfull.
Qed.

Lemma cleared_load args files :
  clearFlag args = true -> loadMasterSpecTypes (files_master (cleared args files)) = [].
Proof. unfold cleared. intros ->. by destruct (files_master files). Qed.

(** C24: a run that ends well wrote the summary of its mode, and only
    that one: it holds the spec types of the master file, which are those
    the file held, after clearing when asked, and those generated; its
    total and its report are of these spec types, and the counts of the
    four domains add up to the total. *)
Theorem main_summary args old_csv files next mode :
  mode_of args = Some mode ->
  (generator_main args old_csv files next).1 = 0 ->
  let files' := (generator_main args old_csv files next).2 in
  let g := generated mode old_csv (cleared args files) next in
  ∃ output,
    summary_of mode files' = Some output ∧
    summary_of (other mode) files' = summary_of (other mode) files ∧
    out_specTypes output = loadMasterSpecTypes (files_master files') ∧
    out_specTypes output =
      loadMasterSpecTypes (files_master (cleared args files)) ++ newSpecTypes g ∧
    out_validationReport output = validateSpecTypes (out_specTypes output) ∧
    meta_totalSpecTypes (out_metadata output) = length (out_specTypes output) ∧
    count_HVAC (meta_domains (out_metadata output)) +
    count_ELECTRICAL (meta_domains (out_metadata output)) +
    count_PLUMBING (meta_domains (out_metadata output)) +
    count_FIRE_PROTECTION (meta_domains (out_metadata output)) =
      meta_totalSpecTypes (out_metadata output).
Proof.
  intros Hmode. cbv zeta. rewrite (main_run _ _ _ _ _ Hmode). cbv zeta.
  destruct (failure _); cbn [fst snd]; [done|]. intros _.
  exists (summary mode (loadMasterSpecTypes
            (master (generated mode old_csv (cleared args files) next)))).
  destruct mode; cbn [summary_of other test_summary full_summary files_master summary out_specTypes
                      out_validationReport out_metadata meta_totalSpecTypes meta_domains
                      count_HVAC count_ELECTRICAL count_PLUMBING count_FIRE_PROTECTION];
    split_and!; try done; apply generated_master || apply domain_count_total.
Qed.

(** C31: a run fails on a mode that is not one, with the files left as
    they are, the flag to clear them unheeded; and when its generator
    fails, with no summary written and the master file holding the spec
    types saved before the failure. *)
Theorem main_failure args old_csv files next :
  (generator_main args old_csv files next).1 ≠ 0 ->
  let files' := (generator_main args old_csv files next).2 in
  test_summary files' = test_summary files ∧ full_summary files' = full_summary files ∧
  match mode_of args with
  | None => files' = files
  | Some mode =>
      let g := generated mode old_csv (cleared args files) next in
      is_Some (failure g) ∧
      loadMasterSpecTypes (files_master files') =
        loadMasterSpecTypes (files_master (cleared args files)) ++ newSpecTypes g
  end.
Proof.
  cbv zeta. destruct (mode_of args) as [mode|] eqn:Hmode.
  - rewrite (main_run _ _ _ _ _ Hmode). cbv zeta.
    destruct (failure _) eqn:Hfail; cbn [fst snd]; [|done]. intros _.
    cbn [test_summary full_summary files_master]. split_and!; [done..|].
    apply generated_master.
  - unfold generator_main. by rewrite Hmode.
Qed.

(** ** The generator and the validator *)

Lemma missing_nil (names : Spec -> list string) (specTypes : list Spec) :
  Forall (λ s, 0 < length (names s)) specTypes -> missing names specTypes = [].
Proof.
  intros Hall. unfold missing. induction Hall as [|s l Hs _ IH]; [done|].
  rewrite filter_cons_False by lia. done.
Qed.

(** The validator has no warning for a library of the full mode:
    when the spec types the master file held passed the checks of the
    generator, or the file was cleared, no spec type of the summary lacks
    alternate names or names to tell it from. *)
Theorem full_no_warnings args old_csv files next :
  mode_of args = Some full ->
  (generator_main args old_csv files next).1 = 0 ->
  Forall Global.usable (loadMasterSpecTypes (files_master (cleared args files))) ->
  ∃ output,
    full_summary (generator_main args old_csv files next).2 = Some output ∧
    vr_missingAlternateNames (out_validationReport output) = [] ∧
    vr_missingNotNames (out_validationReport output) = [] ∧
    vr_warnings (out_validationReport output) = [].
Proof.
  intros Hmode Hexit Hheld. revert Hexit. rewrite (main_run _ _ _ _ _ Hmode). cbv zeta.
  destruct (failure _); cbn [fst snd]; [done|]. intros _. eexists. split; [done|].
  cbn [summary out_validationReport validateSpecTypes vr_missingAlternateNames
       vr_missingNotNames vr_warnings].
  assert (Forall Global.usable
            (loadMasterSpecTypes (master (generated full old_csv (cleared args files) next))))
    as Hall.
  { rewrite generated_master. apply Forall_app. split; [done|].
    apply generateGlobalSpecTypes_usable. }
  rewrite !missing_nil; [done|..];
    (eapply Forall_impl; [exact Hall|]; intros s (_ & ? & ? & _); lia).
Qed.

End entry.

Arguments GenerationOutput : clear implicits.
Arguments Files : clear implicits.

(** * Runs of the program *)

Module entry_examples.

Import global_examples.

#[local] Existing Instance validator_examples.by_length.
#[local] Existing Instance csv_examples.plain.
#[local] Existing Instance generator_examples.faithful.

(** An Oracle that has a new name while the library holds less than
    three spec types, and one name from then on. *)
#[local] Instance modest : GlobalOracle Q := {|
  Global.generateProposal aim existing _ _ :=
    Returned (mkProposal (if bool_decide (length existing < 3)
                          then aim_category aim +:+ " " +:+ pretty (length existing)
                          else "cooling capacity") "" "HVAC");
  Global.askDetails proposal _ := Returned (answer "" (proposal_primaryName proposal) "d");
  askAgain _ _ := Thrown "unused";
  cleanupMalformedResponse := Returned;
|}.

Definition files0 : Files Q := mkFiles disk1 None None.

(** A mode that is not one: nothing is cleared. *)
Example invalid_mode : generator_main ident ["fast"; "--clear"] None files0 1 = (1%nat, files0).
Proof. by vm_compute. Qed.

(** The test mode is the mode when none is given.  Its generator fails at
    the third target: the spec type of the first target stays in the master
    file, and no summary is written. *)
Example test_mode_fails :
  let run := generator_main ident [] None files0 1 in
  run.1 = 1%nat ∧ test_summary run.2 = None ∧
  spec_primaryName <$> loadMasterSpecTypes (files_master run.2) =
    ["Cooling Capacity"; "Heating Capacity"].
Proof. by vm_compute. Qed.

(** The full mode on a cleared file: four spec types of the first
    category, and nothing of the thirty-nine others. *)
Example full_mode_cleared :
  let run := generator_main ident ["full"; "--clear"] None files0 1 in
  run.1 = 0%nat ∧ test_summary run.2 = None ∧
  (λ output, (spec_primaryName <$> out_specTypes output,
              meta_domains (out_metadata output),
              vr_exactDuplicates (out_validationReport output)))
    <$> full_summary run.2 =
  Some (["Cooling Capacity & Performance 0"; "Cooling Capacity & Performance 1";
         "Cooling Capacity & Performance 2"; "cooling capacity"],
        mkDomainCounts 4 0 0 0, []).
Proof. by vm_compute. Qed.

Lemma main_summary_witness :
  ∃ output,
    summary_of full (generator_main ident ["full"] None files0 1).2 = Some output ∧
    summary_of (other full) (generator_main ident ["full"] None files0 1).2 =
      summary_of (other full) files0 ∧
    out_specTypes output =
      loadMasterSpecTypes (files_master (generator_main ident ["full"] None files0 1).2) ∧
    out_specTypes output =
      loadMasterSpecTypes (files_master (cleared ["full"] files0)) ++
      newSpecTypes (generated ident full None (cleared ["full"] files0) 1) ∧
    out_validationReport output = validateSpecTypes (out_specTypes output) ∧
    meta_totalSpecTypes (out_metadata output) = length (out_specTypes output) ∧
    count_HVAC (meta_domains (out_metadata output)) +
    count_ELECTRICAL (meta_domains (out_metadata output)) +
    count_PLUMBING (meta_domains (out_metadata output)) +
    count_FIRE_PROTECTION (meta_domains (out_metadata output)) =
      meta_totalSpecTypes (out_metadata output).
Proof. apply (main_summary ident ["full"] None files0 1 full); by vm_compute. Defined.

Lemma main_failure_witness :
  test_summary (generator_main ident ["test"] None files0 1).2 = test_summary files0 ∧
  full_summary (generator_main ident ["test"] None files0 1).2 = full_summary files0 ∧
  is_Some (failure (generated ident test None (cleared ["test"] files0) 1)) ∧
  loadMasterSpecTypes (files_master (generator_main ident ["test"] None files0 1).2) =
    loadMasterSpecTypes (files_master (cleared ["test"] files0)) ++
    newSpecTypes (generated ident test None (cleared ["test"] files0) 1).
Proof. apply (main_failure ident ["test"] None files0 1). by vm_compute. Defined.

Lemma full_no_warnings_witness :
  ∃ output,
    full_summary (generator_main ident ["full"] None files0 1).2 = Some output ∧
    vr_missingAlternateNames (out_validationReport output) = [] ∧
    vr_missingNotNames (out_validationReport output) = [] ∧
    vr_warnings (out_validationReport output) = [].
Proof.
  apply (full_no_warnings ident ["full"] None files0 1); [by vm_compute..|].
  apply Forall_singleton. by vm_compute.
Defined.

End entry_examples.
