(* ===== verification/Extract.v ===== *)
(** * Extract: the units of the spec types

    [extractUnits] and [main] of [extractors/extractUnits.ts] (carried in
    [src/unnamed/part_007]): the units the spec types of the master file
    name, with the number of times each is named and the spec types that
    name it, sorted by that number, and sorted into seven preliminary
    groups.

    [unitUsage] is an object used as a map: a [gmap], whose keys are in
    [unitSet] in the order they were added.  An object has the properties
    of [Object.prototype] before any is set, and a unit of such a name
    ([prototype_keys]) makes the extraction throw.  [sort] is stable: the
    sort here is the insertion sort that keeps the units of one number in
    the order of the set. *)

From stdpp Require Import gmap strings list sorting.
From S2P Require Import Spec2Rocq Schemas Store Master.

Local Open Scope js_scope.

Section extract.
Context {Num : Type}.

Local Abbreviation Spec := (SpecType Num).

(** Lines 7-11. *)
Record UnitUsage : Type := mkUnitUsage {
  usage_unit : string;
  usage_count : nat;
  usage_specTypes : list string;
}.

(** Lines 30-31. *)
Record Usage : Type := mkUsage {
  unitSet : list string;
  unitUsage : gmap string UnitUsage;
}.

(** Lines 35-42. *)
Definition allUnits (spec : Spec) : list string :=
  match spec_primaryUnit spec with
  | Some unit => if str_truthy unit then [unit] else []
  | None => []
  end ++ default [] (spec_alternateUnits spec).

(** Lines 46-61: a unit of a spec type.  On a property of the prototype
    [count++] is harmless and [specTypes.includes] throws. *)
Definition track (primaryName : string) (st : Usage) (unit : string) : outcome Usage :=
  if negb (str_truthy unit) then Returned st
  else if bool_decide (unit ∈ prototype_keys)
  then Thrown "TypeError: Cannot read properties of undefined (reading 'includes')"
  else
    let usage := default (mkUnitUsage unit 0 []) (unitUsage st !! unit) in
    Returned
      (mkUsage (set_add unit (unitSet st))
         (<[unit := mkUnitUsage (usage_unit usage) (S (usage_count usage))
                      (if bool_decide (primaryName ∈ usage_specTypes usage)
                       then usage_specTypes usage
                       else usage_specTypes usage ++ [primaryName])]> (unitUsage st))).

(** Lines 34-63. *)
Definition collect_usage (specTypes : list Spec) : outcome Usage :=
  foldl (λ st spec,
           foldl (λ st unit, st ← st; track (spec_primaryName spec) st unit)
                 st (allUnits spec))
        (Returned (mkUsage [] ∅)) specTypes.

(** Lines 67-68: [unitUsage[a]?.count || 0]. *)
Definition count_of (usage : gmap string UnitUsage) (unit : string) : nat :=
  from_option usage_count 0 (usage !! unit).

(** Lines 66-70: the stable sort, the larger number first. *)
Fixpoint insert_unit (usage : gmap string UnitUsage) (unit : string) (sorted : list string) :
    list string :=
  match sorted with
  | [] => [unit]
  | other :: sorted' =>
      if bool_decide (count_of usage unit < count_of usage other)
      then other :: insert_unit usage unit sorted'
      else unit :: sorted
  end.

Definition sortedUnits (st : Usage) : list string :=
  foldr (insert_unit (unitUsage st)) [] (unitSet st).

(** The keys of [preliminaryGroups], lines 73-81. *)
Inductive GroupKey : Type :=
  length_key | temperature | pressure | flowRate | power | electrical | unknown.

#[export] Instance GroupKey_eq_dec : EqDecision GroupKey.
Proof. solve_decision. Defined.

(** Lines 85-104; [°] and [³] are two bytes each. *)
Definition classify (unit : string) : GroupKey :=
  let unitLower := toLowerCase unit in
  if bool_decide (unitLower ∈ ["in"; "mm"; "cm"; "m"; "ft"; "yd"; "mi"]) then length_key
  else if bool_decide (unitLower ∈ ["°f"; "°c"; "f"; "c"; "k"]) then temperature
  else if bool_decide (unitLower ∈ ["psi"; "kpa"; "bar"; "inhg"; "mmhg"; "pa"]) then pressure
  else if bool_decide (unitLower ∈ ["gpm"; "l/min"; "l/s"; "cfm"; "m³/h"; "m3/h"; "gal/min"])
  then flowRate
  else if bool_decide (unitLower ∈ ["w"; "kw"; "hp"; "btu/h"; "tons"]) then power
  else if bool_decide (unitLower ∈ ["v"; "kv"; "a"; "ma"; "hz"; "khz"]) then electrical
  else unknown.

(** Lines 73-105: the groups, every one in the order of the units. *)
Definition push_unit (groups : GroupKey -> list string) (unit : string) :
    GroupKey -> list string :=
  λ key, if bool_decide (key = classify unit) then groups key ++ [unit] else groups key.

Definition preliminaryGroupsOf (units : list string) : GroupKey -> list string :=
  foldl push_unit (λ _, []) units.

(** Lines 13-19, without the time. *)
Record ExtractedUnits : Type := mkExtractedUnits {
  totalUniqueUnits : nat;
  units : list string;
  extracted_unitUsage : gmap string UnitUsage;
  preliminaryGroups : GroupKey -> list string;
}.

(** Lines 24-116, of the spec types of the master file. *)
Definition extractUnits (disk : MasterState Num) : outcome ExtractedUnits :=
  st ← collect_usage (loadMasterSpecTypes disk);
  mret (mkExtractedUnits (length (sortedUnits st)) (sortedUnits st) (unitUsage st)
                         (preliminaryGroupsOf (sortedUnits st))).

(** Lines 157-175: the exit code and [discovered-units.json]. *)
Definition extract_main (disk : MasterState Num) (discovered : option ExtractedUnits) :
    nat * option ExtractedUnits :=
  match extractUnits disk with
  | Returned extracted => (0, Some extracted)
  | Thrown _ => (1, discovered)
  end.

(** ** The units and their usage *)

(** The units the spec types name, each with the name of its spec type,
    in the order of the loops. *)
Definition occurrences (specTypes : list Spec) : list (string * string) :=
  specTypes ≫= λ spec, (λ unit, (unit, spec_primaryName spec)) <$> allUnits spec.

Definition track_all (st : outcome Usage) (occ : list (string * string)) : outcome Usage :=
  foldl (λ st p, st ← st; track p.2 st p.1) st occ.

Lemma collect_usage_occurrences specTypes :
  collect_usage specTypes = track_all (Returned (mkUsage [] ∅)) (occurrences specTypes).
Proof.
  unfold collect_usage, occurrences, track_all. generalize (Returned (mkUsage [] ∅)).
  induction specTypes as [|spec specTypes IH]; intros st; [done|].
  rewrite bind_cons, foldl_app, foldl_fmap. cbn [foldl]. apply IH.
Qed.

(** No unit is a property of the prototype. *)
Definition safe (occ : list (string * string)) : Prop :=
  Forall (λ p, p.1 ≠ "" -> p.1 ∉ prototype_keys) occ.

(** What the usage holds after the occurrences [occ]: the units that are
    not empty, once each, and for every one of them its number of
    occurrences and the spec types that name it, once each. *)
Definition tracks (occ : list (string * string)) (st : Usage) : Prop :=
  NoDup (unitSet st) ∧
  (∀ u, u ∈ unitSet st <-> u ≠ "" ∧ u ∈ occ.*1) ∧
  (∀ u, is_Some (unitUsage st !! u) <-> u ∈ unitSet st) ∧
  (∀ u usage, unitUsage st !! u = Some usage ->
     usage_unit usage = u ∧
     usage_count usage = length (filter (λ p, p.1 = u) occ) ∧
     NoDup (usage_specTypes usage) ∧
     ∀ n, n ∈ usage_specTypes usage <-> (u, n) ∈ occ).

Lemma tracks_nil : tracks [] (mkUsage [] ∅).
Proof.
  split_and!; [constructor| | |done].
  - intros u. cbn. rewrite !elem_of_nil. tauto.
  - intros u. cbn. rewrite lookup_empty, elem_of_nil. split; [by intros []|done].
Qed.

Lemma filter_snoc_unit (occ : list (string * string)) p u :
  length (filter (λ q, q.1 = u) (occ ++ [p])) =
  length (filter (λ q, q.1 = u) occ) + (if bool_decide (p.1 = u) then 1 else 0).
Proof.
  rewrite filter_app, length_app. f_equal.
  case_bool_decide; [by rewrite filter_cons_True|by rewrite filter_cons_False].
Qed.

Lemma tracks_skip occ st n : tracks occ st -> tracks (occ ++ [("", n)]) st.
Proof.
  intros (Hnd & Hset & Hdom & Husage). split_and!; [done| |done|].
  - intros u. rewrite Hset, fmap_app, elem_of_app. cbn [fmap list_fmap fst].
    rewrite list_elem_of_singleton. intuition congruence.
  - intros u usage Hu. destruct (Husage u usage Hu) as (? & Hcount & ? & Hnames).
    assert (u ≠ "") as Hne by (apply Hset, Hdom; eauto).
    rewrite filter_snoc_unit, bool_decide_false by done. split_and!; [done|lia|done|].
    intros n'. rewrite Hnames, elem_of_app, list_elem_of_singleton. intuition congruence.
Qed.

(** The usage of a unit before it is counted again. *)
Lemma tracks_default occ st u :
  tracks occ st -> u ≠ "" ->
  let usage := default (mkUnitUsage u 0 []) (unitUsage st !! u) in
  usage_unit usage = u ∧
  usage_count usage = length (filter (λ p, p.1 = u) occ) ∧
  NoDup (usage_specTypes usage) ∧
  ∀ n, n ∈ usage_specTypes usage <-> (u, n) ∈ occ.
Proof.
  intros (Hnd & Hset & Hdom & Husage) Hne. cbv zeta.
  destruct (unitUsage st !! u) as [usage|] eqn:Hu; [by apply Husage|]. cbn.
  assert (∀ n, (u, n) ∉ occ) as Hnone.
  { intros n Hin. assert (is_Some (unitUsage st !! u)) as [? ?]; [|congruence].
    apply Hdom, Hset. split; [done|]. apply list_elem_of_fmap. by exists (u, n). }
  split_and!; [done| |constructor|].
  - destruct (filter _ occ) as [|[u' n] l] eqn:Hf; [done|].
    assert ((u', n) ∈ filter (λ p, p.1 = u) occ) as [? ?]%list_elem_of_filter
      by (rewrite Hf; left).
    simplify_eq /=. by destruct (Hnone n).
  - intros n. rewrite elem_of_nil. split; [done|apply Hnone].
Qed.

(** A unit that is counted. *)
Lemma tracks_count occ st u n :
  tracks occ st -> u ≠ "" ->
  let usage := default (mkUnitUsage u 0 []) (unitUsage st !! u) in
  tracks (occ ++ [(u, n)])
    (mkUsage (set_add u (unitSet st))
       (<[u := mkUnitUsage (usage_unit usage) (S (usage_count usage))
                 (if bool_decide (n ∈ usage_specTypes usage) then usage_specTypes usage
                  else usage_specTypes usage ++ [n])]> (unitUsage st))).
Proof.
  intros Hst Hne. destruct (tracks_default occ st u Hst Hne) as (Hu & Hcount & Hnd & Hnames).
  destruct Hst as (Hset_nd & Hset & Hdom & Husage). cbv zeta.
  split_and!; cbn [unitSet unitUsage]; [by apply set_add_NoDup|..].
  - intros v. rewrite set_add_elem, Hset, fmap_app, elem_of_app. cbn [fmap list_fmap fst].
    rewrite list_elem_of_singleton. intuition congruence.
  - intros v. rewrite set_add_elem. destruct (decide (v = u)) as [->|Hv].
    + rewrite lookup_insert_eq. split; [by left|done].
    + rewrite lookup_insert_ne by done. rewrite Hdom. intuition congruence.
  - intros v usage. destruct (decide (v = u)) as [->|Hv].
    + rewrite lookup_insert_eq. intros [= <-]. cbn [usage_unit usage_count usage_specTypes].
      rewrite filter_snoc_unit, bool_decide_true, Hcount by done.
      split_and!; [done|lia| |].
      * case_bool_decide as Hn; [done|]. apply NoDup_app.
        split_and!; [done| |apply NoDup_singleton]. by intros ? ? ->%list_elem_of_singleton.
      * intros n'. rewrite elem_of_app, list_elem_of_singleton.
        case_bool_decide as Hn; rewrite ?elem_of_app, ?list_elem_of_singleton, Hnames.
        -- split; [by left|]. intros [?|[= ->]]; [done|by apply Hnames].
        -- intuition congruence.
    + rewrite lookup_insert_ne by done. intros Hlookup.
      destruct (Husage v usage Hlookup) as (? & Hc & ? & Hn).
      rewrite filter_snoc_unit, bool_decide_false by (cbn; congruence).
      split_and!; [done|lia|done|]. intros n'.
      rewrite Hn, elem_of_app, list_elem_of_singleton. intuition congruence.
Qed.

Lemma track_all_snoc st occ p :
  track_all st (occ ++ [p]) = (st' ← track_all st occ; track p.2 st' p.1).
Proof. unfold track_all. by rewrite foldl_snoc. Qed.

(** The loops end with the usage of the occurrences, or throw when a unit
    is a property of the prototype. *)
Lemma track_all_spec occ :
  match track_all (Returned (mkUsage [] ∅)) occ with
  | Returned st => safe occ ∧ tracks occ st
  | Thrown _ => ¬ safe occ
  end.
Proof.
  unfold safe. induction occ as [|[u n] occ IH] using rev_ind.
  { split; [constructor|apply tracks_nil]. }
  rewrite track_all_snoc.
  destruct (track_all _ occ) as [st|e]; cbn [mbind outcome_bind fst snd];
    [|rewrite Forall_app; tauto].
  destruct IH as [Hsafe Hst]. unfold track.
  destruct (str_truthy u) eqn:Hu; cbn [negb].
  - apply str_truthy_true in Hu.
    case_bool_decide as Hproto; rewrite Forall_app, Forall_singleton; [tauto|].
    split; [done|by apply tracks_count].
  - apply str_truthy_false in Hu as ->. rewrite Forall_app, Forall_singleton.
    split; [done|by apply tracks_skip].
Qed.

(** The set holds the units in the order they are first named. *)
Lemma track_all_unitSet occ st :
  track_all (Returned (mkUsage [] ∅)) occ = Returned st ->
  unitSet st = dedupe (filter (λ u, u ≠ "") occ.*1).
Proof.
  revert st. induction occ as [|[u n] occ IH] using rev_ind; intros st; [by intros [= <-]|].
  rewrite track_all_snoc. destruct (track_all _ occ) as [st'|]; cbn [mbind outcome_bind]; [|done].
  rewrite fmap_app, filter_app. cbn [fmap list_fmap fst snd]. unfold track.
  destruct (str_truthy u) eqn:Hu; cbn [negb].
  - apply str_truthy_true in Hu. case_bool_decide; [done|]. intros [= <-]. cbn [unitSet].
    rewrite filter_cons_True, filter_nil by done. by rewrite dedupe_snoc, (IH st').
  - apply str_truthy_false in Hu as ->. intros [= <-].
    rewrite filter_cons_False, app_nil_r by tauto. by apply IH.
Qed.

Lemma occurrences_units specTypes : (occurrences specTypes).*1 = specTypes ≫= allUnits.
Proof.
  unfold occurrences. induction specTypes as [|spec specTypes IH]; [done|].
  rewrite !bind_cons, fmap_app, IH, <- list_fmap_compose. f_equal. apply list_fmap_id.
Qed.

Lemma elem_of_occurrences specTypes u n :
  (u, n) ∈ occurrences specTypes <->
  ∃ spec, spec ∈ specTypes ∧ spec_primaryName spec = n ∧ u ∈ allUnits spec.
Proof.
  unfold occurrences. rewrite list_elem_of_bind. split.
  - intros (spec & (u' & [= -> ->] & Hu)%list_elem_of_fmap & Hspec). by exists spec.
  - intros (spec & Hspec & <- & Hu). exists spec. split; [|done].
    apply list_elem_of_fmap. by exists u.
Qed.

Lemma count_occurrences (occ : list (string * string)) u :
  length (filter (λ p, p.1 = u) occ) = length (filter (λ v, v = u) occ.*1).
Proof.
  induction occ as [|p occ IH]; [done|]. cbn [fmap list_fmap]. rewrite !filter_cons.
  destruct (decide (p.1 = u)); cbn [length]; by rewrite IH.
Qed.

(** ** The order of the units *)

Section order.
Context (usage : gmap string UnitUsage).

(** The order of [sort]: the larger number first. *)
Definition descending (a b : string) : Prop := count_of usage b ≤ count_of usage a.

Lemma insert_unit_Permutation u l : insert_unit usage u l ≡ₚ u :: l.
Proof.
  induction l as [|other l IH]; [done|]. cbn [insert_unit]. case_bool_decide; [|done].
  by rewrite IH, Permutation_swap.
Qed.

Lemma insert_unit_sorted u l :
  StronglySorted descending l -> StronglySorted descending (insert_unit usage u l).
Proof.
  induction 1 as [|other l Hl IH Hother]; [repeat constructor|]. cbn [insert_unit].
  unfold descending in *. case_bool_decide as Hlt.
  - constructor; [done|]. rewrite insert_unit_Permutation. constructor; [lia|done].
  - constructor; [by constructor|]. constructor; [lia|].
    eapply Forall_impl; [exact Hother|]. cbn. lia.
Qed.

(** The units of one number keep their order. *)
Lemma insert_unit_filter k u l :
  filter (λ v, count_of usage v = k) (insert_unit usage u l) =
  filter (λ v, count_of usage v = k) (u :: l).
Proof.
  induction l as [|other l IH]; [done|]. cbn [insert_unit]. case_bool_decide as Hlt; [|done].
  rewrite (filter_cons _ other), IH, !filter_cons. repeat case_decide; done || lia.
Qed.

Lemma sorted_spec l :
  foldr (insert_unit usage) [] l ≡ₚ l ∧
  StronglySorted descending (foldr (insert_unit usage) [] l) ∧
  ∀ k, filter (λ v, count_of usage v = k) (foldr (insert_unit usage) [] l) =
       filter (λ v, count_of usage v = k) l.
Proof.
  induction l as [|u l (Hperm & Hsorted & Hstable)]; [by split_and!; [|constructor|]|].
  cbn [foldr]. split_and!.
  - by rewrite insert_unit_Permutation, Hperm.
  - by apply insert_unit_sorted.
  - intros k. by rewrite insert_unit_filter, !filter_cons, Hstable.
Qed.

End order.

(** ** The groups *)

(** A group holds the units of its key, in the order of the units. *)
Lemma preliminaryGroupsOf_spec l key :
  preliminaryGroupsOf l key = filter (λ unit, classify unit = key) l.
Proof.
  unfold preliminaryGroupsOf. induction l as [|unit l IH] using rev_ind; [done|].
  rewrite foldl_snoc, filter_app. unfold push_unit at 1. rewrite IH.
  case_bool_decide; [by rewrite filter_cons_True|by rewrite filter_cons_False, app_nil_r].
Qed.

(** ** What an extraction gives *)

Lemma extractUnits_inv disk extracted :
  extractUnits disk = Returned extracted ->
  ∃ st, tracks (occurrences (loadMasterSpecTypes disk)) st ∧
        unitSet st = dedupe (filter (λ u, u ≠ "") (loadMasterSpecTypes disk ≫= allUnits)) ∧
        extracted = mkExtractedUnits (length (sortedUnits st)) (sortedUnits st) (unitUsage st)
                      (preliminaryGroupsOf (sortedUnits st)).
Proof.
  unfold extractUnits. rewrite collect_usage_occurrences.
  pose proof (track_all_spec (occurrences (loadMasterSpecTypes disk))) as Hspec.
  pose proof (track_all_unitSet (occurrences (loadMasterSpecTypes disk))) as Hset.
  destruct (track_all _ _) as [st|]; cbn [mbind outcome_bind]; [|done].
  intros [= <-]. exists st. rewrite <- occurrences_units. split_and!; [apply Hspec|by apply Hset|done].
Qed.

(** C23: the units of an extraction are the units the spec types name,
    empty strings apart, once each; and the usage of a unit holds the
    number of times it is named and the spec types that name it, once
    each. *)
Theorem extract_usage disk extracted :
  extractUnits disk = Returned extracted ->
  totalUniqueUnits extracted = length (units extracted) ∧
  units extracted ≡ₚ dedupe (filter (λ u, u ≠ "") (loadMasterSpecTypes disk ≫= allUnits)) ∧
  ∀ u, u ∈ units extracted ->
    ∃ usage,
      extracted_unitUsage extracted !! u = Some usage ∧ usage_unit usage = u ∧
      usage_count usage =
        length (filter (λ v, v = u) (loadMasterSpecTypes disk ≫= allUnits)) ∧
      NoDup (usage_specTypes usage) ∧
      ∀ n, n ∈ usage_specTypes usage <->
           ∃ spec, spec ∈ loadMasterSpecTypes disk ∧ spec_primaryName spec = n ∧
                   u ∈ allUnits spec.
Proof.
  intros (st & (Hnd & Hunits & Hdom & Husage) & Hset & ->)%extractUnits_inv.
  cbn [totalUniqueUnits units extracted_unitUsage]. unfold sortedUnits.
  destruct (sorted_spec (unitUsage st) (unitSet st)) as (Hperm & _).
  split_and!; [done|by rewrite Hperm, Hset|]. intros u Hu. rewrite Hperm in Hu.
  apply Hdom in Hu as [usage Hlookup]. exists usage.
  destruct (Husage u usage Hlookup) as (? & Hcount & ? & Hnames).
  split_and!; [done..| |done|].
  - by rewrite Hcount, count_occurrences, occurrences_units.
  - intros n. by rewrite Hnames, elem_of_occurrences.
Qed.

(** C32: the units of an extraction come with the larger number of uses
    first, and the units of one number of uses in the order the spec types
    first name them: the order is that of a stable sort, whatever
    algorithm sorts. *)
Theorem extract_sorted disk extracted :
  extractUnits disk = Returned extracted ->
  StronglySorted (descending (extracted_unitUsage extracted)) (units extracted) ∧
  ∀ k, filter (λ u, count_of (extracted_unitUsage extracted) u = k) (units extracted) =
       filter (λ u, count_of (extracted_unitUsage extracted) u = k)
              (dedupe (filter (λ u, u ≠ "") (loadMasterSpecTypes disk ≫= allUnits))).
Proof.
  intros (st & _ & Hset & ->)%extractUnits_inv. cbn [units extracted_unitUsage].
  unfold sortedUnits. rewrite <- Hset. apply sorted_spec.
Qed.

(** Every unit of an extraction is in the one preliminary group of
    its class, and a group holds its units in the order of the units. *)
Theorem extract_groups disk extracted key :
  extractUnits disk = Returned extracted ->
  preliminaryGroups extracted key = filter (λ u, classify u = key) (units extracted).
Proof.
  intros (st & _ & _ & ->)%extractUnits_inv. apply preliminaryGroupsOf_spec.
Qed.

(** C35: an extraction throws exactly when a spec type names a unit that
    is a property every object has; the program then ends with the code 1
    and leaves the file of the units as it is. *)
Theorem extract_throws disk discovered :
  ((∃ error, extractUnits disk = Thrown error) <->
   ∃ u, u ∈ loadMasterSpecTypes disk ≫= allUnits ∧ u ≠ "" ∧ u ∈ prototype_keys) ∧
  ((∃ error, extractUnits disk = Thrown error) ->
   extract_main disk discovered = (1, discovered)).
Proof.
  split; [|by intros [error Herror]; unfold extract_main; rewrite Herror].
  unfold extractUnits. rewrite collect_usage_occurrences.
  pose proof (track_all_spec (occurrences (loadMasterSpecTypes disk))) as Hspec.
  rewrite <- occurrences_units.
  destruct (track_all _ _) as [st|error]; cbn [mbind outcome_bind].
  - destruct Hspec as [Hsafe _]. split; [by intros [? ?]|].
    intros (u & ([u' n] & -> & Hin)%list_elem_of_fmap & Hne & Hproto).
    by destruct (proj1 (Forall_forall _ _) Hsafe _ Hin Hne).
  - split; [intros _|by eauto]. apply not_Forall_Exists in Hspec; [|apply _].
    apply Exists_exists in Hspec as ([u n] & Hin & Hp). exists u. cbn in Hp.
    split; [apply list_elem_of_fmap; by exists (u, n)|].
    split; [|apply dec_stable]; intros ?; apply Hp; tauto.
Qed.

End extract.

(** * An extraction *)

Module extract_examples.

Definition measured (name : string) (primaryUnit : option string)
    (alternateUnits : option (list string)) : SpecType nat :=
  mkSpecType "" name [] [] "" HVAC primaryUnit None None None alternateUnits None NUMERIC None
             None None false None None.

Definition disk3 : MasterState nat :=
  Holding (Some [measured "Flow" (Some "gpm") (Some ["L/s"; "gpm"]);
                 measured "Pressure" (Some "psi") (Some ["kPa"; ""]);
                 measured "Head" (Some "ft") (Some ["psi"; "m"]);
                 measured "Flow" (Some "GPM") None]).

Definition extracted3 : ExtractedUnits :=
  match extractUnits disk3 with
  | Returned extracted => extracted
  | Thrown _ => mkExtractedUnits 0 [] ∅ (λ _, [])
  end.

(** The two units named twice come first, in the order they are first
    named; the units are told apart by case and grouped without it. *)
Example units_extracted :
  extractUnits disk3 = Returned extracted3 ∧
  units extracted3 = ["gpm"; "psi"; "L/s"; "kPa"; "ft"; "m"; "GPM"] ∧
  preliminaryGroups extracted3 <$>
    [length_key; temperature; pressure; flowRate; power; electrical; unknown] =
    [["ft"; "m"]; []; ["psi"; "kPa"]; ["gpm"; "L/s"; "GPM"]; []; []; []] ∧
  extracted_unitUsage extracted3 !! "psi" = Some (mkUnitUsage "psi" 2 ["Pressure"; "Head"]) ∧
  extracted_unitUsage extracted3 !! "gpm" = Some (mkUnitUsage "gpm" 2 ["Flow"]).
Proof. by vm_compute. Qed.

(** A unit named as a property of every object ends the program. *)
Example unit_of_prototype :
  extract_main (Holding (Some [measured "Builder" (Some "constructor") None])) None =
  (1%nat, None).
Proof. by vm_compute. Qed.

Lemma extract_usage_witness :
  totalUniqueUnits extracted3 = length (units extracted3) ∧
  units extracted3 ≡ₚ dedupe (filter (λ u, u ≠ "") (loadMasterSpecTypes disk3 ≫= allUnits)) ∧
  ∀ u, u ∈ units extracted3 ->
    ∃ usage,
      extracted_unitUsage extracted3 !! u = Some usage ∧ usage_unit usage = u ∧
      usage_count usage =
        length (filter (λ v, v = u) (loadMasterSpecTypes disk3 ≫= allUnits)) ∧
      NoDup (usage_specTypes usage) ∧
      ∀ n, n ∈ usage_specTypes usage <->
           ∃ spec, spec ∈ loadMasterSpecTypes disk3 ∧ spec_primaryName spec = n ∧
                   u ∈ allUnits spec.
Proof. apply (extract_usage disk3 extracted3). by vm_compute. Defined.

Lemma extract_sorted_witness :
  StronglySorted (descending (extracted_unitUsage extracted3)) (units extracted3) ∧
  ∀ k, filter (λ u, count_of (extracted_unitUsage extracted3) u = k) (units extracted3) =
       filter (λ u, count_of (extracted_unitUsage extracted3) u = k)
              (dedupe (filter (λ u, u ≠ "") (loadMasterSpecTypes disk3 ≫= allUnits))).
Proof. apply (extract_sorted disk3 extracted3). by vm_compute. Defined.

Lemma extract_groups_witness :
  preliminaryGroups extracted3 flowRate =
  filter (λ u, classify u = flowRate) (units extracted3).
Proof. apply (extract_groups disk3 extracted3 flowRate). by vm_compute. Defined.

End extract_examples.
