(* ===== verification/UnitGroups.v ===== *)
(** * UnitGroups: the first registry of units

    [normalizeUnit] and [generateUnitGroups] of
    [generators/generateUnitGroups.ts] (carried in [src/unnamed/part_006]),
    which turns the units of an extraction into the units, the groups and
    the conversions of [global-units-master.json].

    The library [convert-units] is the class [ConvertUnits]: the units of
    a measure and the value of one unit in another, either of which can
    throw.  The [Map] of canonical forms is an association list in the
    order of insertion; the units are records the loop over the measures
    changes in place, here rebuilt in their order; a number is printed by
    [show]. *)

From Stdlib Require Import Ascii QArith.
From stdpp Require Import gmap strings list pretty.
From S2P Require Import Spec2Rocq JsNumber Schemas Consistency Store Pipeline.

Local Open Scope js_scope.

Section groups.
Context {Num : Type}.

(** [convert().possibilities(measure)] and
    [convert(1).from(a).to(b)]. *)
Class ConvertUnits : Type := {
  possibilities : string -> outcome (list string);
  convert_unit : string -> string -> outcome Num;
}.

Context {lib : ConvertUnits}.
Context (uuid : nat -> string) (show : Num -> string).

(** Lines 17-19 and 89-93. *)
Definition measures : list string :=
  ["length"; "area"; "mass"; "volume"; "temperature"; "time"; "frequency"; "speed";
   "pressure"; "energy"; "power"; "current"; "voltage"].

(** Lines 23-26, the predicate of [find]. *)
Definition canonical_of (normalized p : string) : bool :=
  bool_decide (toLowerCase p = toLowerCase normalized) || bool_decide (p = normalized).

(** Lines 21-31: the first measure with a match that is not empty gives
    it; a throw ends the search. *)
Fixpoint normalize_in (ms : list string) (normalized : string) : string :=
  match ms with
  | [] => normalized
  | measure :: ms' =>
      match possibilities measure with
      | Thrown _ => normalized
      | Returned ps =>
          match js_find (canonical_of normalized) ps with
          | Some found => if str_truthy found then found else normalize_in ms' normalized
          | None => normalize_in ms' normalized
          end
      end
  end.

(** Lines 12-37. *)
Definition normalizeUnit (unitString : string) : string :=
  normalize_in measures (trim unitString).

(** Lines 58-61. *)
Fixpoint add_variation (canonical unit : string) (unitMap : list (string * list string)) :
    list (string * list string) :=
  match unitMap with
  | [] => [(canonical, [unit])]
  | (c, variations) :: rest =>
      if decide (c = canonical) then (c, set_add unit variations) :: rest
      else (c, variations) :: add_variation canonical unit rest
  end.

(** Lines 54-62. *)
Definition unitMapOf (discovered : list string) : list (string * list string) :=
  foldl (λ unitMap unit, add_variation (normalizeUnit unit) unit unitMap) [] discovered.

(** Lines 67-81. *)
Definition unit_records (unitMap : list (string * list string)) (next : nat) : list Unit :=
  imap (λ i entry, mkUnit (uuid (next + i)) entry.1 entry.1 entry.2 "") unitMap.

(** Line 108. *)
Definition in_measure (ps : list string) (symbol : string) : bool :=
  js_some (λ p, bool_decide (p = symbol) ||
                bool_decide (toLowerCase p = toLowerCase symbol)) ps.

(** What the loop over the measures holds: the units, the groups, the
    symbols processed and the counter of identifiers. *)
Record Grouping : Type := mkGrouping {
  units : list Unit;
  unitGroups : list (UnitGroup Num);
  processedUnits : list string;
  next_id : nat;
}.

(** Lines 105-113: the units of the measure that no measure took. *)
Definition claim (groupId : string) (ps : list string)
    (acc : list Unit * list Unit * list string) (unit : Unit) :
    list Unit * list Unit * list string :=
  let '(done, groupUnits, processed) := acc in
  if bool_decide (unit_symbol unit ∈ processed) then (done ++ [unit], groupUnits, processed)
  else if in_measure ps (unit_symbol unit) then
    (done ++ [set_unitGroupId groupId unit], groupUnits ++ [set_unitGroupId groupId unit],
     set_add (unit_symbol unit) processed)
  else (done ++ [unit], groupUnits, processed).

(** Lines 119-134: the conversion of a pair, when the library has it. *)
Definition conversion_of (fromUnit toUnit : Unit) (acc : list (ConversionEquation Num) * nat) :
    list (ConversionEquation Num) * nat :=
  if bool_decide (unit_id fromUnit = unit_id toUnit) then acc
  else
    match convert_unit (unit_symbol fromUnit) (unit_symbol toUnit) with
    | Thrown _ => acc
    | Returned result =>
        (acc.1 ++ [mkConversion (uuid acc.2) (unit_id fromUnit) (unit_id toUnit) result
                     ("x * " +:+ show result)
                     (unit_symbol fromUnit +:+ " to " +:+ unit_symbol toUnit)],
         S acc.2)
    end.

(** Lines 117-136. *)
Definition conversions_of (groupUnits : list Unit) (next : nat) :
    list (ConversionEquation Num) * nat :=
  foldl (λ acc fromUnit, foldl (λ acc toUnit, conversion_of fromUnit toUnit acc) acc groupUnits)
        ([], next) groupUnits.

Definition upper_ascii (c : ascii) : ascii :=
  let n := nat_of_ascii c in
  if (97 <=? n) && (n <=? 122) then ascii_of_nat (n - 32) else c.

(** Line 140: [measure.charAt(0).toUpperCase() + measure.slice(1)]. *)
Definition capitalize (s : string) : string :=
  match s with
  | String c s' => String (upper_ascii c) s'
  | EmptyString => EmptyString
  end.

(** Lines 95-152, the body of the loop over the measures. *)
Definition group_measure (g : Grouping) (measure : string) : Grouping :=
  let groupId := "ug-" +:+ measure in
  match possibilities measure with
  | Thrown _ => g
  | Returned ps =>
      let '(units', groupUnits, processed) :=
        foldl (claim groupId ps) ([], [], processedUnits g) (units g) in
      match groupUnits with
      | [] => mkGrouping units' (unitGroups g) processed (next_id g)
      | base :: _ =>
          let '(conversions, next) := conversions_of groupUnits (next_id g) in
          mkGrouping units'
            (unitGroups g ++
             [mkUnitGroup groupId (capitalize measure) (measure +:+ " measurement units")
                          (Some (unit_id base)) (unit_id <$> groupUnits) conversions])
            processed next
      end
  end.

(** Lines 166-176. *)
Record GroupsOutput : Type := mkGroupsOutput {
  registry : MasterFile Num;
  meta_unmappedUnits : nat;
}.

(** Lines 53-153: the map, the unit records and the loop over the
    measures. *)
Definition grouping (discovered : list string) (next : nat) : Grouping :=
  let unitMap := unitMapOf discovered in
  foldl group_measure (mkGrouping (unit_records unitMap next) [] [] (next + length unitMap))
        measures.

(** Lines 42-188, from the units of [discovered-units.json], which can
    be missing; with the counter of identifiers left. *)
Definition generateUnitGroups (discovered : option (list string)) (next : nat) :
    outcome (GroupsOutput * nat) :=
  match discovered with
  | None => Thrown "ENOENT"
  | Some discovered =>
      let unmappedUnits :=
        filter (λ u, unit_symbol u ∉ processedUnits (grouping discovered next))
               (units (grouping discovered next)) in
      Returned (mkGroupsOutput (master_file (units (grouping discovered next))
                                            (unitGroups (grouping discovered next)))
                               (length unmappedUnits),
                next_id (grouping discovered next))
  end.

(** ** Canonical forms *)

Lemma canonical_of_case normalized p :
  canonical_of normalized p = true -> toLowerCase p = toLowerCase normalized.
Proof.
  unfold canonical_of. intros [?%bool_decide_eq_true| ->%bool_decide_eq_true]%orb_true_iff; done.
Qed.

(** The canonical form of a unit is the unit without the white space
    around it, or a unit of the library that differs from it by case
    only. *)
Lemma normalize_in_spec ms normalized :
  normalize_in ms normalized = normalized ∨
  (∃ measure ps, measure ∈ ms ∧ possibilities measure = Returned ps ∧
                 normalize_in ms normalized ∈ ps) ∧
  toLowerCase (normalize_in ms normalized) = toLowerCase normalized.
Proof.
  induction ms as [|measure ms IH]; [by left|]. cbn [normalize_in].
  assert (normalize_in ms normalized = normalized ∨
          (∃ measure' ps, measure' ∈ measure :: ms ∧ possibilities measure' = Returned ps ∧
                          normalize_in ms normalized ∈ ps) ∧
          toLowerCase (normalize_in ms normalized) = toLowerCase normalized) as IH'.
  { destruct IH as [?|[(m & ps & ? & ? & ?) ?]]; [by left|right].
    split; [|done]. exists m, ps. split_and!; [by right|done..]. }
  destruct (possibilities measure) as [ps|] eqn:Hps; [|by left].
  destruct (js_find _ ps) as [found|] eqn:Hfind; [|done].
  destruct (str_truthy found); [|done]. apply js_find_Some in Hfind as [Hin Hcase].
  right. split; [|by apply canonical_of_case]. exists measure, ps. split_and!; [left|done..].
Qed.

(** The canonical form of a unit differs from the unit by case and
    by the white space around it only: units are merged under one
    canonical form only when they are equal up to these. *)
Theorem normalizeUnit_case unit :
  toLowerCase (normalizeUnit unit) = toLowerCase (trim unit).
Proof.
  unfold normalizeUnit. by destruct (normalize_in_spec measures (trim unit)) as [->|[_ ?]].
Qed.

(** ** The map of the canonical forms *)

(** The units of a canonical form, once each, in their order. *)
Definition variations_of (discovered : list string) (canonical : string) : list string :=
  dedupe (filter (λ unit, normalizeUnit unit = canonical) discovered).

Lemma variations_of_snoc discovered unit canonical :
  variations_of (discovered ++ [unit]) canonical =
  if decide (canonical = normalizeUnit unit) then set_add unit (variations_of discovered canonical)
  else variations_of discovered canonical.
Proof.
  unfold variations_of. rewrite filter_app. destruct (decide _) as [->|Hne].
  - by rewrite filter_cons_True, filter_nil, dedupe_snoc.
  - by rewrite filter_cons_False, filter_nil, app_nil_r by done.
Qed.

Lemma variations_of_nil discovered canonical :
  canonical ∉ normalizeUnit <$> discovered -> variations_of discovered canonical = [].
Proof.
  intros Hnone. unfold variations_of. rewrite filter_none; [done|].
  intros unit Hunit <-. apply Hnone, list_elem_of_fmap. by exists unit.
Qed.

Lemma add_variation_fmap (F : string -> list string) canonical unit keys :
  NoDup keys ->
  add_variation canonical unit ((λ k, (k, F k)) <$> keys) =
  ((λ k, (k, if decide (k = canonical) then set_add unit (F k) else F k)) <$> keys) ++
  (if decide (canonical ∈ keys) then [] else [(canonical, [unit])]).
Proof.
  induction 1 as [|k keys Hk Hkeys IH]; [done|]. cbn [fmap list_fmap add_variation].
  destruct (decide (k = canonical)) as [->|Hne].
  - rewrite decide_True, app_nil_r by left. f_equal. apply list_fmap_ext.
    intros i k Hi. rewrite decide_False; [done|]. intros ->.
    apply Hk. by eapply list_elem_of_lookup_2.
  - cbn [app]. f_equal. rewrite IH. f_equal.
    destruct (decide (canonical ∈ keys)) as [Hin|Hin].
    + by rewrite decide_True by by right.
    + rewrite decide_False; [done|]. rewrite elem_of_cons. intuition congruence.
Qed.

(** The map holds the canonical forms in the order they first occur, each
    with its units. *)
Lemma unitMapOf_spec discovered :
  unitMapOf discovered =
  (λ canonical, (canonical, variations_of discovered canonical))
    <$> dedupe (normalizeUnit <$> discovered).
Proof.
  unfold unitMapOf. induction discovered as [|unit discovered IH] using rev_ind; [done|].
  rewrite foldl_snoc, IH, add_variation_fmap by apply NoDup_dedupe.
  rewrite fmap_app, (dedupe_snoc _ (normalizeUnit unit)). unfold set_add.
  destruct (decide (normalizeUnit unit ∈ dedupe _)) as [Hin|Hin].
  - rewrite app_nil_r. apply list_fmap_ext. intros i k _. by rewrite variations_of_snoc.
  - rewrite fmap_app. f_equal.
    + apply list_fmap_ext. intros i k _. by rewrite variations_of_snoc.
    + cbn. rewrite variations_of_snoc, decide_True, variations_of_nil by
        (done || by rewrite <- elem_of_dedupe). done.
Qed.

(** ** The units a measure takes *)

Section measure.
Context (groupId : string) (ps : list string) (processed0 : list string).

(** A unit the measure takes: no measure took it, and the library has it
    in the measure. *)
Definition claimed (unit : Unit) : Prop :=
  (unit_symbol unit ∉ processed0) ∧ in_measure ps (unit_symbol unit) = true.

#[global] Instance claimed_dec unit : Decision (claimed unit).
Proof. unfold claimed. apply _. Defined.

Definition marked (unit : Unit) : Unit :=
  if decide (claimed unit) then set_unitGroupId groupId unit else unit.

Lemma claim_foldl us done groupUnits extra :
  NoDup (unit_symbol <$> us) -> (∀ u, u ∈ us -> unit_symbol u ∉ extra) ->
  foldl (claim groupId ps) (done, groupUnits, processed0 ++ extra) us =
  (done ++ (marked <$> us), groupUnits ++ (set_unitGroupId groupId <$> filter claimed us),
   processed0 ++ extra ++ (unit_symbol <$> filter claimed us)).
Proof.
  revert done groupUnits extra. induction us as [|u us IH]; intros done groupUnits extra Hnd Hextra.
  { cbn. by rewrite !app_nil_r. }
  cbn [fmap list_fmap] in Hnd. apply NoDup_cons in Hnd as [Hu Hnd].
  assert (unit_symbol u ∉ extra) as Hu_extra by (apply Hextra; left).
  assert (∀ u', u' ∈ us -> unit_symbol u' ∉ extra) as Htail
    by (intros u' Hu'; apply Hextra; by right).
  cbn [foldl fmap list_fmap]. unfold claim at 2. unfold marked at 1.
  destruct (decide (claimed u)) as [[Hnot Hmeasure]|Hno].
  - rewrite filter_cons_True by done.
    rewrite bool_decide_false, Hmeasure by (rewrite elem_of_app; tauto).
    unfold set_add. rewrite decide_False by (rewrite elem_of_app; tauto).
    rewrite <- (assoc_L (++) processed0), IH; [|done|].
    + cbn [fmap list_fmap]. by rewrite <- !(assoc_L (++)).
    + intros u' Hu' [?|Heq%list_elem_of_singleton]%elem_of_app; [by apply (Htail u')|].
      apply Hu, list_elem_of_fmap. by exists u'.
  - rewrite filter_cons_False by done.
    assert (foldl (claim groupId ps) (done ++ [u], groupUnits, processed0 ++ extra) us =
            (done ++ u :: (marked <$> us),
             groupUnits ++ (set_unitGroupId groupId <$> filter claimed us),
             processed0 ++ extra ++ (unit_symbol <$> filter claimed us))) as Hskip
      by (rewrite IH by done; by rewrite <- !(assoc_L (++))).
    case_bool_decide as Hin; [done|]. destruct (in_measure ps (unit_symbol u)) eqn:Hm; [|done].
    destruct Hno. split; [|done]. rewrite elem_of_app in Hin. tauto.
Qed.

End measure.

(** ** The conversions of a group *)

(** The ordered pairs of units of a group that differ, in the order of
    the two loops. *)
Definition ordered_pairs (groupUnits : list Unit) : list (string * string) :=
  groupUnits ≫= λ f, (λ t, (unit_id f, unit_id t))
                       <$> filter (λ t, unit_id f ≠ unit_id t) groupUnits.

(** A conversion whose multiplier is an answer of the library. *)
Definition from_library (c : ConversionEquation Num) : Prop :=
  ∃ fromSymbol toSymbol, convert_unit fromSymbol toSymbol = Returned (conv_multiplier c).

Lemma conversion_row fromUnit toUnits conversions next :
  ∃ new,
    foldl (λ acc toUnit, conversion_of fromUnit toUnit acc) (conversions, next) toUnits =
      (conversions ++ new, next + length new) ∧
    conv_pair <$> new `sublist_of`
      (λ t, (unit_id fromUnit, unit_id t))
        <$> filter (λ t, unit_id fromUnit ≠ unit_id t) toUnits ∧
    Forall from_library new.
Proof.
  revert conversions next.
  induction toUnits as [|toUnit toUnits IH]; intros conversions next.
  { exists []. by rewrite app_nil_r, Nat.add_0_r. }
  cbn [foldl]. unfold conversion_of at 2. case_bool_decide as Hid.
  { rewrite filter_cons_False by tauto. apply IH. }
  rewrite filter_cons_True by done. cbn [fmap list_fmap].
  destruct (convert_unit _ _) as [result|] eqn:Hresult.
  - cbn [fst snd]. edestruct IH as (new & -> & Hsub & Hlib). eexists (_ :: new). split_and!.
    + rewrite <- (assoc_L (++)). cbn [app length]. f_equal. lia.
    + cbn [fmap list_fmap]. by apply sublist_skip.
    + constructor; [by eexists _, _|done].
  - destruct (IH conversions next) as (new & -> & Hsub & Hlib). exists new.
    split_and!; [done|by apply sublist_cons|done].
Qed.

Lemma conversion_rows fromUnits groupUnits conversions next :
  ∃ new,
    foldl (λ acc fromUnit,
             foldl (λ acc toUnit, conversion_of fromUnit toUnit acc) acc groupUnits)
          (conversions, next) fromUnits = (conversions ++ new, next + length new) ∧
    conv_pair <$> new `sublist_of`
      (fromUnits ≫= λ f, (λ t, (unit_id f, unit_id t))
                           <$> filter (λ t, unit_id f ≠ unit_id t) groupUnits) ∧
    Forall from_library new.
Proof.
  revert conversions next.
  induction fromUnits as [|fromUnit fromUnits IH]; intros conversions next.
  { exists []. by rewrite app_nil_r, Nat.add_0_r. }
  cbn [foldl]. destruct (conversion_row fromUnit groupUnits conversions next)
    as (row & -> & Hrow & Hlib).
  destruct (IH (conversions ++ row) (next + length row)) as (new & -> & Hnew & Hlib').
  exists (row ++ new). split_and!.
  - rewrite (assoc_L (++)), length_app. f_equal. lia.
  - rewrite fmap_app, bind_cons. by apply sublist_app.
  - by apply Forall_app.
Qed.

Lemma conversions_of_spec groupUnits next :
  ∃ new, conversions_of groupUnits next = (new, next + length new) ∧
         conv_pair <$> new `sublist_of` ordered_pairs groupUnits ∧
         Forall from_library new.
Proof. apply (conversion_rows groupUnits groupUnits [] next). Qed.

Lemma ordered_pairs_spec groupUnits :
  NoDup (unit_id <$> groupUnits) ->
  NoDup (ordered_pairs groupUnits) ∧
  ∀ f t, (f, t) ∈ ordered_pairs groupUnits ->
         f ∈ unit_id <$> groupUnits ∧ t ∈ unit_id <$> groupUnits ∧ f ≠ t.
Proof.
  intros Hnd. unfold ordered_pairs. split.
  - apply NoDup_bind; [| |by apply NoDup_fmap_1 in Hnd].
    + intros f1 f2 [a b] Hf1 Hf2 (t1 & [= -> ->] & _)%list_elem_of_fmap
        (t2 & [= Hid _] & _)%list_elem_of_fmap.
      apply (NoDup_fmap_elem_inj unit_id groupUnits); done.
    + intros f Hf. rewrite (list_fmap_compose unit_id (pair (unit_id f))).
      apply (NoDup_fmap_2 _). eapply sublist_NoDup; [exact Hnd|].
      apply fmap_sublist, sublist_filter.
  - intros f t (u & (v & [= -> ->] & [Hne Hv]%list_elem_of_filter)%list_elem_of_fmap & Hu)
      %list_elem_of_bind.
    split_and!; [apply list_elem_of_fmap; by exists u|apply list_elem_of_fmap; by exists v|done].
Qed.

(** ** The groups *)

(** A group of the registry: it lists the units that name it, it has a
    unit, its base unit is its first unit, and its conversions join two
    units of it that differ, one for an ordered pair at most. *)
Definition group_ok (units : list Unit) (grp : UnitGroup Num) : Prop :=
  group_unitIds grp = unit_id <$> filter (λ u, unit_unitGroupId u = group_id grp) units ∧
  group_unitIds grp ≠ [] ∧
  group_baseUnitId grp = head (group_unitIds grp) ∧
  NoDup (conv_pair <$> group_conversions grp) ∧
  Forall (λ c, conv_fromUnitId c ∈ group_unitIds grp ∧ conv_toUnitId c ∈ group_unitIds grp ∧
               conv_fromUnitId c ≠ conv_toUnitId c) (group_conversions grp) ∧
  Forall from_library (group_conversions grp).

(** What the loop over the measures keeps, after the measures [done]. *)
Definition grouped (units0 : list Unit) (done : list string) (g : Grouping) : Prop :=
  set_unitGroupId "" <$> units g = units0 ∧
  (∀ u, u ∈ units g -> unit_unitGroupId u = "" <-> unit_symbol u ∉ processedUnits g) ∧
  (∀ u, u ∈ units g ->
        unit_unitGroupId u = "" ∨ unit_unitGroupId u ∈ group_id <$> unitGroups g) ∧
  Forall (λ grp, ∃ measure, measure ∈ done ∧ group_id grp = "ug-" +:+ measure) (unitGroups g) ∧
  NoDup (group_id <$> unitGroups g) ∧
  Forall (group_ok (units g)) (unitGroups g).

Lemma units0_keys (units0 us : list Unit) :
  set_unitGroupId "" <$> us = units0 ->
  unit_symbol <$> us = unit_symbol <$> units0 ∧ unit_id <$> us = unit_id <$> units0.
Proof.
  intros <-. rewrite <- !list_fmap_compose. split; by apply list_fmap_ext.
Qed.

Lemma filter_marked groupId ps processed0 (P Q : Unit -> Prop)
    `{!∀ u, Decision (P u)} `{!∀ u, Decision (Q u)} (us : list Unit) :
  (∀ u, u ∈ us -> P (marked groupId ps processed0 u) <-> Q u) ->
  unit_id <$> filter P (marked groupId ps processed0 <$> us) = unit_id <$> filter Q us.
Proof.
  induction us as [|u us IH]; intros HPQ; [done|]. cbn [fmap list_fmap].
  assert (unit_id (marked groupId ps processed0 u) = unit_id u) as Hid
    by (unfold marked; by destruct (decide _)).
  rewrite !filter_cons. specialize (HPQ u (list_elem_of_here _ _)) as Hu.
  destruct (decide (P _)), (decide (Q u)); try tauto; cbn [fmap list_fmap];
    rewrite IH, ?Hid; try done; intros u' Hu'; apply HPQ; by right.
Qed.

Lemma claimed_symbol ps processed0 u v :
  unit_symbol u = unit_symbol v -> claimed ps processed0 u -> claimed ps processed0 v.
Proof. unfold claimed. by intros ->. Qed.

Lemma set_unitGroupId_marked groupId ps processed0 u :
  set_unitGroupId "" (marked groupId ps processed0 u) = set_unitGroupId "" u.
Proof. unfold marked. by destruct (decide _). Qed.

Lemma set_ids groupId (us : list Unit) :
  unit_id <$> (set_unitGroupId groupId <$> us) = unit_id <$> us.
Proof. rewrite <- list_fmap_compose. by apply list_fmap_ext. Qed.

Lemma group_id_inj measure1 measure2 :
  "ug-" +:+ measure1 = "ug-" +:+ measure2 -> measure1 = measure2.
Proof. by intros [=]. Qed.

(** The group a measure adds, from the units it takes. *)
Definition group_of (measure : string) (taken : list Unit) (grp : UnitGroup Num) : Prop :=
  group_id grp = "ug-" +:+ measure ∧ group_unitIds grp = unit_id <$> taken ∧
  group_baseUnitId grp = head (unit_id <$> taken) ∧
  conv_pair <$> group_conversions grp `sublist_of`
    ordered_pairs (set_unitGroupId ("ug-" +:+ measure) <$> taken) ∧
  Forall from_library (group_conversions grp).

(** The body of the loop, for a measure the library has: the units the
    measure takes are marked, and they make a group when there is one. *)
Lemma group_measure_spec g measure ps :
  possibilities measure = Returned ps -> NoDup (unit_symbol <$> units g) ->
  ∃ new next,
    group_measure g measure =
      mkGrouping (marked ("ug-" +:+ measure) ps (processedUnits g) <$> units g)
                 (unitGroups g ++ new)
                 (processedUnits g ++
                  (unit_symbol <$> filter (claimed ps (processedUnits g)) (units g))) next ∧
    let taken := filter (claimed ps (processedUnits g)) (units g) in
    (taken = [] ∧ new = []) ∨ (taken ≠ [] ∧ ∃ grp, new = [grp] ∧ group_of measure taken grp).
Proof.
  intros Hps Hnd. unfold group_measure. rewrite Hps.
  pose proof (claim_foldl ("ug-" +:+ measure) ps (processedUnits g) (units g) [] [] []
                Hnd ltac:(intros ? _; apply not_elem_of_nil)) as Hclaim.
  rewrite (right_id_L [] (++)) in Hclaim. cbn [app] in Hclaim. rewrite Hclaim.
  destruct (filter _ (units g)) as [|base taken]; cbn [fmap list_fmap].
  { exists [], (next_id g). rewrite !(right_id_L [] (++)). split; [done|by left]. }
  destruct (conversions_of_spec
              (set_unitGroupId ("ug-" +:+ measure) <$> base :: taken) (next_id g))
    as (new & Hnew & Hsub & Hlib).
  cbn [fmap list_fmap] in Hnew. rewrite Hnew. eexists [_], _. split; [done|].
  right. split; [done|]. eexists. split; [done|]. split_and!; cbn; try done.
  f_equal. rewrite <- list_fmap_compose. by apply list_fmap_ext.
Qed.

(** ** A measure keeps the invariant *)

Section step.
Context (units0 : list Unit) (done : list string) (g : Grouping) (measure : string).
Context (ps : list string).
Context (Hid : NoDup (unit_id <$> units0)).
Context (Hfresh : measure ∉ done) (Hg : grouped units0 done g).

Context (Hsym : NoDup (unit_symbol <$> units0)).

Local Abbreviation groupId := ("ug-" +:+ measure).
Local Abbreviation takes := (claimed ps (processedUnits g)).
Local Abbreviation mark := (marked groupId ps (processedUnits g)).

Lemma fresh_group grp : grp ∈ unitGroups g -> group_id grp ≠ groupId ∧ group_id grp ≠ "".
Proof.
  destruct Hg as (_ & _ & _ & Hdone & _). rewrite Forall_forall in Hdone.
  intros (m & Hm & ->)%Hdone. split; [|done].
  by intros ->%group_id_inj.
Qed.

Lemma fresh_unit u : u ∈ units g -> unit_unitGroupId u ≠ groupId.
Proof.
  destruct Hg as (_ & _ & Hin & _). intros [Hu|(grp & Hu & Hgrp)%list_elem_of_fmap]%Hin.
  - by rewrite Hu.
  - rewrite Hu. by apply fresh_group.
Qed.

Lemma takes_free u : u ∈ units g -> takes u -> unit_unitGroupId u = "".
Proof. destruct Hg as (_ & Hfree & _). intros Hu [Hnew _]. by apply Hfree. Qed.

Lemma mark_new u : u ∈ units g -> unit_unitGroupId (mark u) = groupId <-> takes u.
Proof.
  intros Hu. unfold marked. destruct (decide (takes u)); [done|].
  split; [|done]. by intros ?%fresh_unit.
Qed.

Lemma mark_old u k :
  u ∈ units g -> k ≠ groupId -> k ≠ "" ->
  unit_unitGroupId (mark u) = k <-> unit_unitGroupId u = k.
Proof.
  intros Hu Hk Hk'. unfold marked. destruct (decide (takes u)) as [Htakes|]; [|done].
  cbn. rewrite (takes_free u) by done. split; congruence.
Qed.

Lemma mark_free u :
  u ∈ units g ->
  unit_unitGroupId (mark u) = "" <->
  unit_symbol (mark u) ∉ processedUnits g ++ (unit_symbol <$> filter takes (units g)).
Proof.
  intros Hu. destruct Hg as (_ & Hfree & _). specialize (Hfree u Hu).
  rewrite elem_of_app, list_elem_of_fmap. unfold marked.
  destruct (decide (takes u)) as [Htakes|Hno]; cbn.
  - split; [done|]. intros []. right. exists u. by rewrite list_elem_of_filter.
  - rewrite Hfree. split; [|tauto].
    intros Hnew [?|(v & Hv & [Htakes _]%list_elem_of_filter)]; [done|].
    by apply Hno, (claimed_symbol _ _ v).
Qed.

Lemma grouped_keys :
  NoDup (unit_symbol <$> units g) ∧ NoDup (unit_id <$> units g).
Proof. destruct Hg as (Hunits & _). by destruct (units0_keys _ _ Hunits) as [-> ->]. Qed.

Lemma old_group grp :
  grp ∈ unitGroups g -> group_ok (units g) grp -> group_ok (mark <$> units g) grp.
Proof.
  intros Hin (Hids & Hrest). split; [|done]. rewrite Hids. symmetry.
  apply filter_marked. intros u Hu. apply mark_old; [done|by apply fresh_group..].
Qed.

Lemma new_group grp :
  filter takes (units g) ≠ [] -> group_of measure (filter takes (units g)) grp ->
  group_ok (mark <$> units g) grp.
Proof.
  intros Hsome (Hgid & Hids & Hbase & Hsub & Hlib). unfold group_ok. rewrite Hgid, Hids.
  assert (NoDup (unit_id <$> (set_unitGroupId groupId <$> filter takes (units g)))) as Hnd.
  { rewrite set_ids. eapply sublist_NoDup; [apply grouped_keys|].
    apply fmap_sublist, sublist_filter. }
  apply ordered_pairs_spec in Hnd as [Hnd Hends]. split_and!.
  - symmetry. apply filter_marked. intros u Hu. by apply mark_new.
  - by destruct (filter takes (units g)).
  - done.
  - by eapply sublist_NoDup.
  - apply Forall_forall. intros c Hc. rewrite <- (set_ids groupId). apply Hends.
    eapply sublist_subseteq; [exact Hsub|]. apply list_elem_of_fmap. by exists c.
  - done.
Qed.

(** What the groups a measure adds have. *)
Lemma new_groups new :
  let taken := filter takes (units g) in
  (taken = [] ∧ new = []) ∨ (taken ≠ [] ∧ ∃ grp, new = [grp] ∧ group_of measure taken grp) ->
  Forall (λ grp, group_id grp = groupId ∧ group_ok (mark <$> units g) grp) new ∧
  NoDup (group_id <$> new) ∧
  ∀ u, u ∈ units g -> takes u -> groupId ∈ group_id <$> new.
Proof.
  intros taken [[Hnone ->]|(Hsome & grp & -> & Hgrp)].
  - split_and!; [done|constructor|]. intros u Hu Htakes.
    assert (u ∈ taken) as Hin by by apply list_elem_of_filter.
    rewrite Hnone in Hin. by apply not_elem_of_nil in Hin.
  - split_and!.
    + apply Forall_singleton. split; [apply Hgrp|by apply new_group].
    + apply NoDup_singleton.
    + intros _ _ _. destruct Hgrp as [<- _]. apply list_elem_of_here.
Qed.

Lemma grouped_skip : grouped units0 (done ++ [measure]) g.
Proof.
  destruct Hg as (? & ? & ? & Hdone & ? & ?). split_and!; try done.
  eapply Forall_impl; [exact Hdone|]. intros grp (m & Hm & ?). exists m.
  rewrite elem_of_app. tauto.
Qed.

Lemma grouped_taken :
  possibilities measure = Returned ps ->
  grouped units0 (done ++ [measure]) (group_measure g measure).
Proof.
  intros Hps. destruct (group_measure_spec g measure ps Hps (proj1 grouped_keys))
    as (new & next & -> & (Hnew & Hnd & Htaken)%new_groups).
  destruct grouped_skip as (Hunits & _ & Hin & Hdone & Hids & Hok).
  unfold grouped. cbn [units unitGroups processedUnits]. split_and!.
  - rewrite <- Hunits, <- list_fmap_compose. apply list_fmap_ext.
    intros _ u _. apply set_unitGroupId_marked.
  - intros u' (u & -> & Hu)%list_elem_of_fmap. by apply mark_free.
  - intros u' (u & -> & Hu)%list_elem_of_fmap. rewrite fmap_app, elem_of_app.
    unfold marked. destruct (decide (takes u)); [right; right; by eapply Htaken|].
    destruct (Hin u Hu); tauto.
  - apply Forall_app. split; [done|]. eapply Forall_impl; [exact Hnew|].
    intros grp [-> _]. exists measure. split; [|done]. apply elem_of_app. right. left.
  - rewrite fmap_app. apply NoDup_app. split_and!; [done| |done].
    intros k (grp & -> & Hgrp)%list_elem_of_fmap (grp' & Hk & Hgrp')%list_elem_of_fmap.
    rewrite Forall_forall in Hnew. destruct (Hnew grp' Hgrp') as [Hnew' _].
    destruct (fresh_group grp Hgrp) as [Hne _]. apply Hne. congruence.
  - apply Forall_app. split; [|eapply Forall_impl; [exact Hnew|]; by intros grp [_ ?]].
    apply Forall_forall. intros grp Hgrp. apply old_group; [done|].
    rewrite Forall_forall in Hok. by apply Hok.
Qed.

End step.

Section run.
Context (units0 : list Unit).
Context (Hid : NoDup (unit_id <$> units0)) (Hsym : NoDup (unit_symbol <$> units0)).

Lemma grouped_step done g measure :
  measure ∉ done -> grouped units0 done g ->
  grouped units0 (done ++ [measure]) (group_measure g measure).
Proof.
  intros Hfresh Hg. destruct (possibilities measure) as [ps|] eqn:Hps.
  - by apply (grouped_taken units0 done g measure ps).
  - unfold group_measure. rewrite Hps. by apply grouped_skip.
Qed.

Lemma grouped_foldl ms done g :
  NoDup (done ++ ms) -> grouped units0 done g ->
  grouped units0 (done ++ ms) (foldl group_measure g ms).
Proof.
  revert done g. induction ms as [|m ms IH]; intros done g Hnd Hg.
  { by rewrite (right_id_L [] (++)). }
  cbn [foldl]. rewrite (cons_middle m done ms), (assoc_L (++)) in Hnd |- *.
  apply IH; [done|]. apply grouped_step; [|done].
  apply NoDup_app in Hnd as [Hnd _]. apply NoDup_app in Hnd as (_ & Hnot & _).
  intros Hm. apply (Hnot m Hm). left.
Qed.

End run.

(** ** Counting the units of the groups *)

Lemma filter_or_length {A} (P Q : A -> Prop)
    `{!∀ x, Decision (P x)} `{!∀ x, Decision (Q x)} (l : list A) :
  (∀ x, x ∈ l -> P x -> Q x -> False) ->
  length (filter (λ x, P x ∨ Q x) l) = length (filter P l) + length (filter Q l).
Proof.
  induction l as [|x l IH]; intros Hpq; [done|].
  specialize (Hpq x (list_elem_of_here _ _)) as Hx. rewrite !filter_cons.
  destruct (decide (P x)), (decide (Q x)), (decide (P x ∨ Q x)); try tauto;
    cbn [length]; rewrite IH; try lia; intros y Hy; apply Hpq; by right.
Qed.

(** The lists of the elements that have each key of [keys] hold the
    elements that have a key of [keys], once each. *)
Lemma count_by_key {A K} `{EqDecision K} (f : A -> K) (keys : list K) (l : list A) :
  NoDup keys ->
  sum_list ((λ k, length (filter (λ x, f x = k) l)) <$> keys) =
  length (filter (λ x, f x ∈ keys) l).
Proof.
  induction 1 as [|k keys Hk Hnd IH].
  { by rewrite (filter_none (λ x, f x ∈ [])) by (intros x _; apply not_elem_of_nil). }
  cbn [fmap list_fmap sum_list_with id]. rewrite IH, <- filter_or_length.
  - f_equal. apply list_filter_iff. intros x. by rewrite elem_of_cons.
  - by intros x _ <-.
Qed.

(** ** The units *)

Lemma unit_records_cons entry unitMap next :
  unit_records (entry :: unitMap) next =
  mkUnit (uuid next) entry.1 entry.1 entry.2 "" :: unit_records unitMap (S next).
Proof.
  unfold unit_records. rewrite imap_cons, Nat.add_0_r. f_equal.
  apply imap_ext. intros i e _. cbn. by rewrite Nat.add_succ_r.
Qed.

(** One unit for an entry of the map, in its order: its symbol and name
    are the canonical form, its identifiers are drawn in order, and it has
    no group. *)
Lemma unit_records_spec unitMap next :
  unit_symbol <$> unit_records unitMap next = unitMap.*1 ∧
  unit_id <$> unit_records unitMap next = uuid <$> seq next (length unitMap) ∧
  set_unitGroupId "" <$> unit_records unitMap next = unit_records unitMap next ∧
  Forall (λ u, unit_unitGroupId u = "" ∧ unit_name u = unit_symbol u ∧
               (unit_symbol u, unit_abbreviations u) ∈ unitMap) (unit_records unitMap next).
Proof.
  revert next. induction unitMap as [|entry unitMap IH]; intros next; [done|].
  rewrite unit_records_cons. destruct (IH (S next)) as (Hsym & Hid & Hset & Hall).
  cbn [fmap list_fmap length seq]. rewrite Hsym, Hid, Hset. split_and!; try done.
  constructor; [destruct entry; split_and!; [done..|left]|].
  eapply Forall_impl; [exact Hall|]. intros u (? & ? & ?). split_and!; [done..|by right].
Qed.

Lemma measures_NoDup : NoDup measures.
Proof. apply (bool_decide_unpack _). by vm_compute. Qed.

Section registry.
Context `{Huuid : !Inj (=) (=) uuid}.
Context (discovered : list string) (next : nat).

Local Abbreviation units0 := (unit_records (unitMapOf discovered) next).

Lemma units0_symbols : unit_symbol <$> units0 = dedupe (normalizeUnit <$> discovered).
Proof.
  destruct (unit_records_spec (unitMapOf discovered) next) as (-> & _).
  rewrite unitMapOf_spec, <- list_fmap_compose. apply list_fmap_id.
Qed.

Lemma units0_NoDup : NoDup (unit_id <$> units0) ∧ NoDup (unit_symbol <$> units0).
Proof.
  split; [|rewrite units0_symbols; apply NoDup_dedupe].
  destruct (unit_records_spec (unitMapOf discovered) next) as (_ & -> & _).
  apply (NoDup_fmap_2 _), NoDup_seq.
Qed.

Lemma grouped_init n : grouped units0 [] (mkGrouping units0 [] [] n).
Proof.
  destruct (unit_records_spec (unitMapOf discovered) next) as (_ & _ & Hset & Hall).
  rewrite Forall_forall in Hall.
  split_and!; cbn; [done| |intros u Hu; left; by apply Hall|constructor..].
  intros u Hu. split; [intros _; apply not_elem_of_nil|intros _; by apply Hall].
Qed.

Local Abbreviation grouping := (grouping discovered next).

Lemma generateUnitGroups_run :
  generateUnitGroups (Some discovered) next =
  Returned (mkGroupsOutput (master_file (units grouping) (unitGroups grouping))
              (length (filter (λ u, unit_symbol u ∉ processedUnits grouping) (units grouping))),
            next_id grouping).
Proof. reflexivity. Qed.

Lemma grouping_eq :
  grouping =
  foldl group_measure (mkGrouping units0 [] [] (next + length (unitMapOf discovered))) measures.
Proof. reflexivity. Qed.

Lemma grouping_grouped : grouped units0 measures grouping.
Proof.
  destruct units0_NoDup as [Hid Hsym]. rewrite grouping_eq.
  apply (grouped_foldl units0 Hid Hsym measures []); [apply measures_NoDup|apply grouped_init].
Qed.

Lemma grouping_units u :
  u ∈ units grouping ->
  unit_name u = unit_symbol u ∧
  unit_abbreviations u = variations_of discovered (unit_symbol u).
Proof.
  destruct grouping_grouped as (Hunits & _). intros Hu.
  assert (set_unitGroupId "" u ∈ units0) as Hu0
    by (rewrite <- Hunits; apply list_elem_of_fmap; by exists u).
  destruct (unit_records_spec (unitMapOf discovered) next) as (_ & _ & _ & Hall).
  rewrite Forall_forall in Hall. destruct (Hall _ Hu0) as (_ & Hname & Hmap).
  split; [done|]. rewrite unitMapOf_spec in Hmap.
  by apply list_elem_of_fmap in Hmap as (canonical & [= <- ->] & _).
Qed.

(** C34: the registry has one unit for a canonical form of the units
    discovered, in the order of their first appearance; its name is its
    symbol, its abbreviations are the spellings that have this canonical
    form, and the identifiers of the units are drawn in order. *)
Theorem groups_units :
  ∃ out next', generateUnitGroups (Some discovered) next = Returned (out, next') ∧
    unit_symbol <$> file_units (registry out) = dedupe (normalizeUnit <$> discovered) ∧
    unit_id <$> file_units (registry out) =
      uuid <$> seq next (length (dedupe (normalizeUnit <$> discovered))) ∧
    Forall (λ u, unit_name u = unit_symbol u ∧
                 unit_abbreviations u = variations_of discovered (unit_symbol u))
           (file_units (registry out)).
Proof.
  eexists _, _. split; [apply generateUnitGroups_run|]. cbn [registry master_file file_units].
  destruct grouping_grouped as (Hunits & _).
  destruct (units0_keys _ _ Hunits) as [-> ->]. split_and!.
  - apply units0_symbols.
  - destruct (unit_records_spec (unitMapOf discovered) next) as (_ & -> & _).
    by rewrite unitMapOf_spec, length_fmap.
  - apply Forall_forall, grouping_units.
Qed.

(** C19: the groups of the registry have distinct identifiers, each the
    [ug-] of a measure; a group lists the units that name it, in their
    order, it has a unit and its base unit is its first; its conversions
    join two of its units that differ, one for an ordered pair at most; and
    a unit names no group or a group of the registry. *)
Theorem groups_wellformed :
  ∃ out next', generateUnitGroups (Some discovered) next = Returned (out, next') ∧
    NoDup (group_id <$> file_unitGroups (registry out)) ∧
    Forall (λ grp, ∃ measure, measure ∈ measures ∧ group_id grp = "ug-" +:+ measure)
           (file_unitGroups (registry out)) ∧
    Forall (group_ok (file_units (registry out))) (file_unitGroups (registry out)) ∧
    Forall (λ u, unit_unitGroupId u = "" ∨
                 unit_unitGroupId u ∈ group_id <$> file_unitGroups (registry out))
           (file_units (registry out)).
Proof.
  eexists _, _. split; [apply generateUnitGroups_run|].
  cbn [registry master_file file_units file_unitGroups].
  destruct grouping_grouped as (_ & _ & Hin & Hdone & Hids & Hok).
  split_and!; try done. by apply Forall_forall.
Qed.

(** C37: every unit of the registry is counted once, as a unit of its
    group or as a unit no measure took. *)
Theorem groups_accounting :
  ∃ out next', generateUnitGroups (Some discovered) next = Returned (out, next') ∧
    meta_unmappedUnits out +
    sum_list ((λ grp, length (group_unitIds grp)) <$> file_unitGroups (registry out)) =
    meta_totalUnits (file_metadata (registry out)).
Proof.
  eexists _, _. split; [apply generateUnitGroups_run|].
  cbn [registry master_file file_units file_unitGroups file_metadata meta_unmappedUnits
       meta_totalUnits].
  destruct grouping_grouped as (_ & Hfree & Hin & Hdone & Hids & Hok).
  rewrite Forall_forall in Hdone, Hok.
  rewrite <- (filter_partition_length
                (λ u, unit_unitGroupId u ∈ group_id <$> unitGroups grouping) (units grouping)),
    <- count_by_key, <- list_fmap_compose, Nat.add_comm by done. f_equal.
  - f_equal. apply list_fmap_ext. intros i grp Hgrp%list_elem_of_lookup_2.
    destruct (Hok grp Hgrp) as (-> & _). cbn. by rewrite length_fmap.
  - f_equal. apply filter_ext_elem. intros u Hu. rewrite <- (Hfree u Hu).
    split; [intros Hnone|destruct (Hin u Hu); tauto].
    intros (grp & Hid & (m & _ & Hgid)%Hdone)%list_elem_of_fmap.
    rewrite Hid, Hgid in Hnone. discriminate Hnone.
Qed.

End registry.

End groups.

Arguments ConvertUnits : clear implicits.
Arguments Grouping : clear implicits.
Arguments GroupsOutput : clear implicits.

Section pipeline_input.
Context {Num : Type} {JN : JsNumber Num} {lib : ConvertUnits Num}.
Context (uuid : nat -> string) (show : Num -> string) `{Huuid : !Inj (=) (=) uuid}.

(** ** The registry as the input of the conversion pipeline *)



End pipeline_input.

Module groups_examples.

Definition uuid (n : nat) : string := "u-" +:+ pretty n.
Definition show (q : Q) : string := pretty (Qnum q) +:+ "/" +:+ pretty (Zpos (Qden q)).

#[export] Instance table : ConvertUnits Q := {|
  possibilities measure :=
    if decide (measure = "length") then Returned ["mm"; "m"; "ft"]
    else if decide (measure = "temperature") then Returned ["C"; "K"; "F"]
    else if decide (measure = "pressure") then Thrown "Unsupported measure"
    else Returned [];
  convert_unit a b :=
    if decide ((a, b) = ("m", "ft")) then Returned (328084 # 100000)
    else if decide ((a, b) = ("ft", "m")) then Returned (3048 # 10000)
    else if decide ((a, b) = ("C", "F")) then Returned (338 # 10)
    else if decide ((a, b) = ("F", "C")) then Returned (- 155 # 9)
    else Thrown "Unsupported unit"
|}.

Definition found : list string := ["M"; " ft"; "CFM"; "m"; "f"; "C"; "psi"].

#[export] Instance unit_uuid_inj : Inj (=) (=) uuid.
Proof. intros n m H. apply (inj pretty). unfold uuid in H. by simplify_eq /=. Qed.

(** What a run leaves of its registry. *)
Definition outline (run : outcome (GroupsOutput Q * nat)) :=
  match run with
  | Returned (out, next) =>
      Some ((λ u, (unit_id u, unit_symbol u, unit_abbreviations u, unit_unitGroupId u))
              <$> file_units (registry out),
            (λ g, (group_id g, group_name g, group_baseUnitId g, group_unitIds g,
                   (λ c, (conv_id c, conv_pair c, conv_equation c)) <$> group_conversions g))
              <$> file_unitGroups (registry out),
            file_metadata (registry out), meta_unmappedUnits out, next)
  | Thrown _ => None
  end.

(** The spellings [M] and [m] are one unit, [f] is the [F] of the library;
    [psi] is no unit of a measure, since the measure of pressures throws. *)
Example groups_generated :
  outline (generateUnitGroups uuid show (Some found) 0) =
  Some ([("u-0", "m", ["M"; "m"], "ug-length"); ("u-1", "ft", [" ft"], "ug-length");
         ("u-2", "CFM", ["CFM"], ""); ("u-3", "F", ["f"], "ug-temperature");
         ("u-4", "C", ["C"], "ug-temperature"); ("u-5", "psi", ["psi"], "")],
        [("ug-length", "Length", Some "u-0", ["u-0"; "u-1"],
          [("u-6", ("u-0", "u-1"), "x * 328084/100000");
           ("u-7", ("u-1", "u-0"), "x * 3048/10000")]);
         ("ug-temperature", "Temperature", Some "u-3", ["u-3"; "u-4"],
          [("u-8", ("u-3", "u-4"), "x * -155/9"); ("u-9", ("u-4", "u-3"), "x * 338/10")])],
        mkMetadata 6 2 4, 2, 10).
Proof. by vm_compute. Qed.

(** The value of one degree in another scale is written as a multiplier:
    the registry has a negative multiplier, which [Pipeline.group_wf]
    excludes. *)
Example temperature_multiplier :
  ∃ out next', generateUnitGroups uuid show (Some found) 0 = Returned (out, next') ∧
    ¬ disk_wf (mkDisk Missing (reread (registry out))).
Proof.
  eexists _, _. split; [reflexivity|]. unfold disk_wf, group_wf.
  apply (bool_decide_unpack _). by vm_compute.
Qed.

Example no_discovered_units : generateUnitGroups uuid show None 0 = Thrown "ENOENT".
Proof. done. Qed.



Lemma groups_units_witness :
  ∃ out next', generateUnitGroups uuid show (Some found) 0 = Returned (out, next') ∧
    unit_symbol <$> file_units (registry out) = dedupe (normalizeUnit <$> found) ∧
    unit_id <$> file_units (registry out) =
      uuid <$> seq 0 (length (dedupe (normalizeUnit <$> found))) ∧
    Forall (λ u, unit_name u = unit_symbol u ∧
                 unit_abbreviations u = variations_of found (unit_symbol u))
           (file_units (registry out)).
Proof. apply (groups_units uuid show found 0). Defined.

Lemma groups_wellformed_witness :
  ∃ out next', generateUnitGroups uuid show (Some found) 0 = Returned (out, next') ∧
    NoDup (group_id <$> file_unitGroups (registry out)) ∧
    Forall (λ grp, ∃ measure, measure ∈ measures ∧ group_id grp = "ug-" +:+ measure)
           (file_unitGroups (registry out)) ∧
    Forall (group_ok (file_units (registry out))) (file_unitGroups (registry out)) ∧
    Forall (λ u, unit_unitGroupId u = "" ∨
                 unit_unitGroupId u ∈ group_id <$> file_unitGroups (registry out))
           (file_units (registry out)).
Proof. apply (groups_wellformed uuid show found 0). Defined.

Lemma groups_accounting_witness :
  ∃ out next', generateUnitGroups uuid show (Some found) 0 = Returned (out, next') ∧
    meta_unmappedUnits out +
    sum_list ((λ grp, length (group_unitIds grp)) <$> file_unitGroups (registry out)) =
    meta_totalUnits (file_metadata (registry out)).
Proof. apply (groups_accounting uuid show found 0). Defined.


End groups_examples.
